(* ===== verification/_CoqProject ===== *)
-Q . S2P
Prelude.v
Json.v
Identity.v
Psk.v
GitCredential.v
Transport.v
TtlCache.v
RateLimit.v
Singleflight.v
AtomicFs.v
Config.v
Serde.v
ConfigWire.v
State.v
Signing.v
AgentWire.v
Actor.v
Agent.v
Github.v
GithubWire.v
Mints.v
Events.v
Connection.v
Broker.v
Client.v
EndToEnd.v
Tracker.v
Admin.v
AdminWire.v
Daemon.v
Lifecycle.v
Concurrent.v
Logging.v
TokenLog.v
Signals.v
Sandbox.v
Startup.v
Main.v
TestsText.v
TestsTransport.v
TestsState.v
TestsWire.v
TestsConfig.v
TestsServer.v
