(* ===== verification/Prelude.v ===== *)
(** * Symbolon: a verification of the credential broker

    Symbolon hands out short-lived GitHub tokens to machines that must not hold
    the GitHub App's private key.  A git helper on a client machine speaks a
    Noise protocol keyed with a pre-shared key (PSK) to a daemon; the daemon
    checks that the client is enrolled, asks GitHub for a token limited to the
    one repository of the request, and sends it back.  Operators enrol and
    revoke clients over a local admin socket.  The App's key is in a TPM or in
    a separate signing process, and the daemon confines itself with Landlock.

    This library translates the Rust sources (under src/) into executable
    definitions and proves what makes each part, and the parts together,
    correct.  Definitions carry the source's names, qualified with their type
    where a method name is shared ([Identity_parse], [Responder_recv]).

    ** The parts and their files

    - [Prelude]: bytes, the result monad, UTF-8, decimal and saturating
      arithmetic, string functions of the Rust standard library, the tactics
      and hint databases.
    - [Identity] (identity.rs, note.rs), [Psk] (psk.rs, broker_key.rs,
      psk_store.rs): validated names, keys in hex, the PSK file and its table.
    - [GitCredential] (git_credential.rs): request parser and response encoder.
    - [Transport] (transport.rs): the identity TLV, frames, and the session
      state machines [Initiator] and [Responder] as functions on a state type.
    - [TtlCache], [RateLimit], [Singleflight], [AtomicFs]: the modules of the
      same names; the last two as steps that interleave, fail or are cut short.
    - [Config] (config.rs, loader.rs): configuration records, their validation.
    - [Json] (JSON texts: printers, parser, round trips) and [Serde] (the derived
      codecs, [clients.json]), and on top of them the wire formats by component:
      [ConfigWire] (config.rs: the sections of config.toml), [AgentWire]
      (agent_protocol.rs, jwt_backend.rs), [GithubWire] (the bodies of
      github.rs) and [AdminWire] (admin.rs).
    - [State] (daemon.rs: tables, [enroll_client], [revoke_client], loading):
      memory and disk as one state, each file write failing or cut at any point.
    - [Signing] (providers/jwt_*.rs, tpm_backend*, agent*.rs): claims, JWS, the
      two signing backends, the TPM response parsers, the agent protocol;
      [Actor] (the threads of both backends): channel, callers, cancellation
      and shutdown interleaved; [Agent] (agent.rs, agent_backend.rs: [spawn],
      main.rs: the hidden subcommand): start, lockdown, audit and end of the
      agent, under the restrictions it has put in force.
    - [Github] (providers/github.rs, providers/mod.rs): every API call, the two
      caches, [mint] and [selfcheck]; each call leaves a record of what was sent.
      [Mints]: the same mints as tasks suspended at their awaits, started,
      answered and dropped in any order; [Concurrent]: any number of connections
      ([handle_connection]) over them.
    - [Events] (events.rs): the log events.
    - [Connection] (daemon.rs: [handle_connection]): the loop that drives a
      [Responder], one definition per arm.  It uses a provider only through the
      record [Provider] and the class [ProviderLaws].
    - [Broker]: [Github] discharges [ProviderLaws]; the two compose.
    - [Client] (bin/git_credential_symbolon.rs): the git helper.
    - [EndToEnd]: helper and daemon talking to each other.
    - [Tracker] (connection_tracker.rs), [Signals] (signals.rs): step relations
      for the drain at shutdown and for signal delivery.
    - [Admin] (admin.rs): the admin socket and its command line client.
    - [Daemon] (daemon.rs and admin.rs: [SharedState] and its tasks): all of it
      as one state machine, with interleaved connections, a mutation in
      progress, and crashes followed by a start-up from the disk; [Lifecycle]:
      its theorems with the GitHub provider.
    - [Logging] (logging.rs and the [Display] texts of errors): which event goes
      to which stream, and what an error looks like in the log; [TokenLog] (the
      events of github.rs, beside those of the connection): what the log cannot
      contain.
    - [Sandbox] (sandbox.rs and daemon.rs: [apply_sandbox]), [Startup]
      (daemon.rs: [prepare]), [Main] (main.rs, mlock.rs, ready.rs and daemon.rs:
      [run], [selfcheck]; admin.rs: [run_admin_loop]).
    - [TestsText], [TestsTransport], [TestsState], [TestsWire], [TestsConfig]: the
      unit tests of the sources, transcribed as booleans over these definitions
      and evaluated; each passes, the captured TPM vectors byte for byte.
      [TestsServer]: the integration tests (tests/*.rs) of provider, daemon, admin
      socket and helper, whole programs against a mock of GitHub.

    ** What the theorems show

    - The life of the daemon, through any interleaving and any crash:
      [enrolled_client_served], [daemon_mints_authorised],
      [daemon_credentials_scoped], [revocation_effective], [enrolment_durable],
      [daemon_wellformed] (in particular, what is on the disk can be loaded
      again; the other ways in which a start-up fails are in [Startup]).
    - Together: [end_to_end] (an enrolled client whose request is granted gets
      exactly the encoded credential on its stdout), [broker_credential] (what
      a connection reports as a mint reached an authorised client in its own
      session and is a token GitHub issued for that repository),
      [client_response_authentic].
    - Authorisation: [connection_authorised], [connection_oblivious],
      [authorised_only_by_enroll], [admin_refines] (an abstract service on the
      authorisation table), [enroll_crash_consistent],
      [revoke_crash_consistent], [cli_agrees].
    - Sessions: [honest_session], [Responder_request_provenance],
      [Responder_protocol_order], [parse_identity_tlv_spec]; [token_not_logged]
      (over GitHubs that differ in the text of their tokens alone, connection and
      provider log the same events).
    - GitHub: [mint_scoped], [mint_total], [mint_twice],
      [mint_not_found_forgets].
    - Concurrent mints and connections: [mints_scoped] and
      [connections_interleaved] (each mint, and each connection, gets a token for
      its own repository), [mints_settle] and [connections_settle] (none waits
      for ever), [mint_uninterrupted] and [turn_uninterrupted] (a mint that is not
      interleaved is [mint], a turn that is not is the turn of [Daemon]).
    - Signing: [backends_agree], [actor_refines], [actor_answers_all],
      [agent_lockdown] (an agent serves only when locked down, and is killed by
      its own filter when it then leaves), [JwtClaims_window].
    - Formats: [Request_parse_spec], [Request_parse_clean],
      [Response_encode_lines], [PskStore_roundtrip], [PskStore_parse_spec];
      byte for byte on the wire: [admin_wire_faithful], [agent_protocol_fits],
      [configured_claims], [mint_body_document], and the laws the components
      assume of JSON ([formats_serde_laws], [admin_serde_laws],
      [sign_serde_laws]).
    - Shared structures: [TtlCache_refines], [sf_single_flight],
      [sf_no_lost_wakeup], [sf_value_provenance], [rate_bounded],
      [atomic_write_coherent].
    - The process: [startup_sequence], [sandbox_confines], [daemon_exit] (the
      first and the third with the abort when a thread is refused),
      [connection_ends], [client_main_total], [drain_no_lost_wakeup],
      [drain_terminates], [tracker_invariant], [signal_not_lost].

    Some lemmas record where the code does not do what its comments say:
    [failed_revoke_resurrects], [accept_error_hangs], [cli_long_answer_fails],
    [read_exact_n_overreads], [missing_psk_file_fatal],
    [atomic_write_err_after_rename], [sf_invalidate_breaks_single_flight],
    [NeedPsk_step_not_idempotent], [verify_accepts_rsapss],
    [RepoPath_parse_dot_segments], [long_issuer_refused], [close_denied],
    [thread_refused_panics], [mint_path_crlf], [response_lines_basic],
    [repo_id_test_depends_on_date].

    ** Parameters

    Code outside the repository is a class of operations, with a separate class
    for the documented laws where a theorem needs them, and a concrete model
    for the examples: the Noise library ([Noise], [NoiseLaws], [noise_model]),
    the hex codec ([HexCodec], [HexLaws], [hex_model]), TOML and JSON files
    ([FileFormats], [FileFormatLaws], [formats_model]), signing, JSON and the
    TPM ([SignEnv], [SignLaws], [sign_model]), the network, the clock, GitHub
    and the signer of one provider ([GithubEnv], [github_model]), the JSON of
    the admin socket ([AdminJson], [AdminJsonLaws], [admin_json_model]), the
    order of a hash map's iteration ([HashOrder], [plain_order]), the kernel's
    answers to Landlock ([Landlock]) and where it finds a path, the system calls
    the libraries make ([SyscallsOf], [SyscallLaws], [demo_syscalls]), the
    [Display] texts of external types ([ErrorText], [LogText], [MainText]), and,
    for [token_not_logged], that sealing fails or not by the length alone
    ([BlindSeal]).  The JSON of these classes is also given
    concretely ([formats_serde], [admin_serde], [sign_serde], [github_serde]):
    there only dates ([Rfc3339]), socket addresses and durations ([ConfigText]),
    the TOML syntax and the wording of errors stay parameters.  Sockets are
    queues of arriving segments; the results of writes, file operations and
    system calls are inputs.

    ** Integers, loops and fuel

    Machine integers are [Z] with saturation, truncation and bounds written
    out.  Loops that are not structural take fuel, and running out is a value
    of its own that the theorems exclude:
    - [handle_connection] runs [CONN_FUEL] = 9 turns: every turn that goes on
      moves the session to a later phase, and there are nine
      ([connection_ends]);
    - [drive] runs [DRIVE_FUEL] = 7 turns, for the same reason
      ([client_main_total]);
    - [read_exact_n] of [n] bytes takes at most [n] reads, and [read_line] at
      most 65536, because a read that continues brings at least one byte
      ([read_loop_fuel], [read_line_loop_total]);
    - the steps of a drain are at most six ([drain_terminates]); an actor
      thread settles [q] queued jobs in [2 q + 3] steps ([actor_answers_all]);
    - [m_run] and [s_run] play given sequences of actions; [n] concurrent mints
      have at most [4 n^2 + 5 n] of them left ([mints_settle]), and [k] more
      connections at most [c (4 c + 6)] with [c = n + 18 k] ([connections_settle]).

    ** Not modelled

    ids.rs (newtypes around ULID strings) and lib.rs (re-exports); the argument
    grammar of the argh crate; the async runtime; the JSON layout of a log line
    (tracing-subscriber); X25519 and RSA arithmetic; the byte encoding of TPM
    commands by the tpm2-protocol crate outside the tests; file modes; zeroing
    of memory.  JSON numbers that are no 64-bit integer keep their text, so one
    out of the range of a float is not an error; the borrowed string of
    [message_from_body] is a parameter of [Github].

    The per-connection timeout drops the future of a handler: [Tracker] has it
    as the token's drop at any time, [State] as a write cut short, while
    [handle_connection] is followed to its own end; [Mints] and [Concurrent] drop
    a mint at any of its awaits.  In [Daemon] connections interleave turn by turn
    and a turn that mints runs the provider to its answer; [Concurrent] cuts that
    turn at the await, and there the tables a turn reads are arbitrary.  The
    admin command [mint] is not interleaved.  The outcome of a mutation is computed when it starts, and the states
    of memory and disk it passes through are then played one at a time between
    the turns of the connections; a crash keeps the record of past API calls.
    Atomics are sequentially consistent in [Signals].  Concurrency is that of
    the source's single-threaded runtime: interleavings at await points. *)

From Stdlib Require Export ZArith NArith Lia.
From Stdlib Require Export Strings.Byte.
From stdpp Require Export base decidable countable list gmap fin_maps sets strings pretty.

#[global] Open Scope Z_scope.
#[global] Set Default Goal Selector "!".

(** ** Bytes and byte strings

    A [u8] is [Byte.byte]; [Vec<u8>], [&[u8]], [String] and [&str] are
    [bytes]; [usize] values are [Z] ([len]). *)

Abbreviation bytes := (list byte).

Definition B (s : string) : bytes := String.list_byte_of_string s.
Arguments B _%_string_scope : simpl never.

Definition len {A} (l : list A) : Z := Z.of_nat (length l).

Definition u8 (b : byte) : Z := Z.of_N (Byte.to_N b).

(** [n as u8] for [0 <= n < 256] (truncating otherwise, as Rust's cast). *)
Definition as_u8 (n : Z) : byte :=
  match Byte.of_N (Z.to_N (n mod 256)) with Some b => b | None => x00 end.

#[export] Instance byte_eq_dec : EqDecision byte := Byte.byte_eq_dec.
#[export] Instance byte_countable : Countable byte :=
  inj_countable Byte.to_N Byte.of_N Byte.of_to_N.

Definition beq (x y : bytes) : bool := bool_decide (x = y).

(** ** The result monad: Rust's [Result<T, E>] with [?] as [bind] *)

Inductive result (E A : Type) : Type :=
| Ok (a : A)
| Err (e : E).
Arguments Ok {E A} a.
Arguments Err {E A} e.

#[export] Instance result_ret {E} : MRet (result E) := λ A a, Ok a.
#[export] Instance result_bind {E} : MBind (result E) := λ A C f r,
  match r with Ok a => f a | Err e => Err e end.
#[export] Instance result_fmap {E} : FMap (result E) := λ A C f r,
  match r with Ok a => Ok (f a) | Err e => Err e end.

Definition map_err {E E' A} (f : E → E') (r : result E A) : result E' A :=
  match r with Ok a => Ok a | Err e => Err (f e) end.

Definition ok_or {E A} (e : E) (o : option A) : result E A :=
  match o with Some a => Ok a | None => Err e end.

Definition is_ok {E A} (r : result E A) : bool :=
  match r with Ok _ => true | Err _ => false end.

Definition ok {E A} (r : result E A) : option A :=
  match r with Ok a => Some a | Err _ => None end.

(** ** The parts of Rust's [core]/[std] the sources use

    Byte predicates, slice searching and splitting, [str] methods, UTF-8
    validation and decimal formatting, with the behaviour the standard
    library documents. *)

Definition in_range (lo hi : Z) (b : byte) : bool := (lo <=? u8 b) && (u8 b <=? hi).

(** [u8::is_ascii_alphanumeric] *)
Definition is_ascii_alphanumeric (b : byte) : bool :=
  in_range 48 57 b || in_range 65 90 b || in_range 97 122 b.

(** [u8::to_ascii_lowercase] *)
Definition to_ascii_lowercase (b : byte) : byte :=
  if in_range 65 90 b then as_u8 (u8 b + 32) else b.

(** [iter().enumerate().find(|(_, b)| p(b))] *)
Fixpoint find_byte (p : byte → bool) (l : bytes) : option (Z * byte) :=
  match l with
  | [] => None
  | b :: l' =>
      if p b then Some (0, b)
      else match find_byte p l' with
           | Some (i, c) => Some (i + 1, c)
           | None => None
           end
  end.

(** [str::split_once(c)] / [position(|b| b == c)] with the two halves around it. *)
Fixpoint split_once (c : byte) (l : bytes) : option (bytes * bytes) :=
  match l with
  | [] => None
  | b :: l' =>
      if decide (b = c) then Some ([], l')
      else match split_once c l' with
           | Some (x, y) => Some (b :: x, y)
           | None => None
           end
  end.

(** [slice::split(|b| b == c)]: always at least one piece. *)
Fixpoint split_on (c : byte) (l : bytes) : list bytes :=
  match l with
  | [] => [[]]
  | b :: l' =>
      if decide (b = c) then [] :: split_on c l'
      else match split_on c l' with
           | p :: ps => (b :: p) :: ps
           | [] => [[b]]
           end
  end.

(** [slice::join(&c)], the inverse of [split_on]. *)
Fixpoint join_with (c : byte) (ps : list bytes) : bytes :=
  match ps with
  | [] => []
  | [p] => p
  | p :: ps' => p ++ c :: join_with c ps'
  end.

(** [str::strip_suffix(suf)] *)
Definition strip_suffix (suf l : bytes) : option bytes :=
  let n := (length l - length suf)%nat in
  if decide (drop n l = suf) then Some (take n l) else None.

Fixpoint drop_while (p : byte → bool) (l : bytes) : bytes :=
  match l with
  | [] => []
  | b :: l' => if p b then drop_while p l' else l
  end.

(** [str::trim_end_matches(p)] and [trim_ascii]. *)
Definition trim_end_matches (p : byte → bool) (l : bytes) : bytes :=
  reverse (drop_while p (reverse l)).

(** [u8::is_ascii_whitespace]: space, tab, LF, FF, CR. *)
Definition is_ascii_whitespace (b : byte) : bool :=
  bool_decide (b ∈ [x20; x09; x0a; x0c; x0d]).

Definition trim_ascii (l : bytes) : bytes :=
  trim_end_matches is_ascii_whitespace (drop_while is_ascii_whitespace l).

(** [str::lines()]: pieces ended by LF (an optional CR before the LF is
    dropped); a last piece without LF is kept as it is when non-empty. *)
Definition strip_cr (l : bytes) : bytes := default l (strip_suffix [x0d] l).

Fixpoint lines_of (ps : list bytes) : list bytes :=
  match ps with
  | [] => []
  | [p] => if decide (p = []) then [] else [p]
  | p :: ps' => strip_cr p :: lines_of ps'
  end.

Definition lines (l : bytes) : list bytes := lines_of (split_on x0a l).

(** *** UTF-8: [str::from_utf8] and [str::char_indices]

    [utf8_chars off l] decodes [l] into its scalar values, each with the
    offset of its first byte counted from [off]; the error is Rust's
    [Utf8Error::valid_up_to], the offset where the first ill-formed
    sequence starts.  The byte ranges are those of the Unicode standard's
    table of well-formed sequences (no surrogates, no overlong forms). *)

Definition cont (b : byte) : bool := in_range 128 191 b.

(** Second-byte range of a three- or four-byte sequence. *)
Definition second3 (b0 b1 : byte) : bool :=
  if decide (b0 = xe0) then in_range 160 191 b1
  else if decide (b0 = xed) then in_range 128 159 b1
  else cont b1.

Definition second4 (b0 b1 : byte) : bool :=
  if decide (b0 = xf0) then in_range 144 191 b1
  else if decide (b0 = xf4) then in_range 128 143 b1
  else cont b1.

Fixpoint utf8_chars (off : Z) (l : bytes) : result Z (list (Z * Z)) :=
  match l with
  | [] => Ok []
  | b0 :: l1 =>
      if u8 b0 <? 128 then
        cs ← utf8_chars (off + 1) l1; mret ((off, u8 b0) :: cs)
      else if in_range 194 223 b0 then
        match l1 with
        | b1 :: l2 =>
            if cont b1 then
              cs ← utf8_chars (off + 2) l2;
              mret ((off, (u8 b0 - 192) * 64 + (u8 b1 - 128)) :: cs)
            else Err off
        | _ => Err off
        end
      else if in_range 224 239 b0 then
        match l1 with
        | b1 :: b2 :: l3 =>
            if second3 b0 b1 && cont b2 then
              cs ← utf8_chars (off + 3) l3;
              mret ((off, (u8 b0 - 224) * 4096 + (u8 b1 - 128) * 64 + (u8 b2 - 128)) :: cs)
            else Err off
        | _ => Err off
        end
      else if in_range 240 244 b0 then
        match l1 with
        | b1 :: b2 :: b3 :: l4 =>
            if second4 b0 b1 && cont b2 && cont b3 then
              cs ← utf8_chars (off + 4) l4;
              mret ((off, (u8 b0 - 240) * 262144 + (u8 b1 - 128) * 4096
                          + (u8 b2 - 128) * 64 + (u8 b3 - 128)) :: cs)
            else Err off
        | _ => Err off
        end
      else Err off
  end.

Definition char_indices (l : bytes) : result Z (list (Z * Z)) := utf8_chars 0 l.

(** [std::str::from_utf8]: [Ok l] or [Err valid_up_to]. *)
Definition from_utf8 (l : bytes) : result Z bytes :=
  match char_indices l with Ok _ => Ok l | Err n => Err n end.

(** [char::is_control]: general category Cc. *)
Definition is_control (c : Z) : bool := (c <? 32) || ((127 <=? c) && (c <=? 159)).

(** [format!("{n}")] of an unsigned integer. *)
Fixpoint dec_digits (fuel : nat) (n : Z) (acc : bytes) : bytes :=
  match fuel with
  | O => acc
  | S fuel' =>
      let acc' := as_u8 (48 + n mod 10) :: acc in
      if n <? 10 then acc' else dec_digits fuel' (n / 10) acc'
  end.

(** 20 digits are enough for every [u64]. *)
Definition show_u64 (n : Z) : bytes := dec_digits 20 n [].
Arguments show_u64 _ : simpl never.

(** ** Machine-width constants and saturating arithmetic *)

Definition u8_max : Z := 255.
Definition u64_max : Z := 18446744073709551615.

Definition saturating_add_u64 (x y : Z) : Z := Z.min u64_max (x + y).
Definition saturating_sub (x y : Z) : Z := Z.max 0 (x - y).

(** ** Shared lemmas and automation *)

Create HintDb sym.
Create Rewrite HintDb len_simpl.

Lemma bind_Ok {E A C} (f : A → result E C) (r : result E A) c :
  r ≫= f = Ok c ↔ ∃ a, r = Ok a ∧ f a = Ok c.
Proof. destruct r; naive_solver. Qed.

Lemma map_err_Ok {E E' A} (f : E → E') (r : result E A) a :
  map_err f r = Ok a ↔ r = Ok a.
Proof. destruct r; naive_solver. Qed.

Lemma map_err_Err {E E' A} (f : E → E') (r : result E A) e :
  map_err f r = Err e ↔ ∃ e0, r = Err e0 ∧ e = f e0.
Proof. destruct r; naive_solver. Qed.

Lemma ok_or_Ok {E A} (e : E) (o : option A) a : ok_or e o = Ok a ↔ o = Some a.
Proof. destruct o; naive_solver. Qed.

(** Break the [Ok] hypotheses about binds, conversions and returns into
    their parts. *)
Ltac inv_ok :=
  repeat match goal with
  | H : _ ≫= _ = Ok _ |- _ => apply bind_Ok in H as (? & ? & H)
  | H : map_err _ _ = Ok _ |- _ => apply map_err_Ok in H
  | H : ok_or _ _ = Ok _ |- _ => apply ok_or_Ok in H
  | H : (let '(_, _) := ?x in _) = Ok _ |- _ => is_var x; destruct x
  | H : mret _ = Ok _ |- _ => unfold mret, result_ret in H
  | H : Ok _ = Ok _ |- _ => injection H as ?; subst
  | H : Err _ = Ok _ |- _ => discriminate H
  | H : Ok _ = Err _ |- _ => discriminate H
  | H : Some _ = Some _ |- _ => injection H as ?; subst
  | H : (_, _) = (_, _) |- _ => injection H as ?; subst
  end.

(** Case analysis on every [match] and [if] of a hypothesis or of the goal. *)
Ltac cases_in H :=
  repeat (case_match; simplify_eq/=); try done.

Lemma len_nil {A} : len (@nil A) = 0.
Proof. done. Qed.
Lemma len_cons {A} (x : A) l : len (x :: l) = len l + 1.
Proof. unfold len. simpl. lia. Qed.
Lemma len_app {A} (l k : list A) : len (l ++ k) = len l + len k.
Proof. unfold len. rewrite length_app. lia. Qed.
Lemma len_nonneg {A} (l : list A) : 0 <= len l.
Proof. unfold len. lia. Qed.
Lemma len_0_iff {A} (l : list A) : len l = 0 ↔ l = [].
Proof. unfold len. destruct l; simpl; [done|]. split; [lia|done]. Qed.
Lemma len_to_nat {A} (l : list A) : Z.to_nat (len l) = length l.
Proof. unfold len. lia. Qed.
Lemma len_take {A} (l : list A) n : len (take n l) = Z.min (Z.of_nat n) (len l).
Proof. unfold len. rewrite length_take. lia. Qed.
Lemma len_drop {A} (l : list A) n : len (drop n l) = Z.max 0 (len l - Z.of_nat n).
Proof. unfold len. rewrite length_drop. lia. Qed.
#[export] Hint Rewrite @len_nil @len_cons @len_app @len_take @len_drop : len_simpl.
#[export] Hint Resolve len_nonneg : sym.

Lemma u8_range b : 0 <= u8 b < 256.
Proof. unfold u8. pose proof (Byte.to_N_bounded b). lia. Qed.
#[export] Hint Resolve u8_range : sym.

Lemma as_u8_u8 b : as_u8 (u8 b) = b.
Proof. by destruct b. Qed.

Lemma u8_inj x y : u8 x = u8 y → x = y.
Proof. intros H. by rewrite <-(as_u8_u8 x), <-(as_u8_u8 y), H. Qed.

Lemma u8_as_u8 n : 0 <= n < 256 → u8 (as_u8 n) = n.
Proof.
  intros Hn. unfold as_u8, u8. rewrite Z.mod_small by lia.
  destruct (Byte.of_N (Z.to_N n)) as [b|] eqn:E.
  - apply Byte.to_of_N in E. rewrite E. lia.
  - apply Byte.of_N_None_iff in E. lia.
Qed.

(** Decide a boolean fact about one byte by checking all 256 values. *)
Ltac byte_cases b := destruct b; vm_compute; (reflexivity || congruence || auto).

Lemma beq_true x y : beq x y = true ↔ x = y.
Proof. apply bool_decide_eq_true. Qed.

Lemma find_byte_None p l : find_byte p l = None ↔ Forall (λ b, p b = false) l.
Proof.
  induction l as [|b l IH]; simpl; [by split; [constructor|]|].
  rewrite Forall_cons, <-IH. destruct (p b); [naive_solver|].
  destruct (find_byte p l) as [[]|]; naive_solver.
Qed.

Lemma find_byte_Some p l i b :
  find_byte p l = Some (i, b) ↔
  ∃ l1 l2, l = l1 ++ b :: l2 ∧ len l1 = i ∧ p b = true ∧ Forall (λ c, p c = false) l1.
Proof.
  revert i b. induction l as [|c l IH]; intros i b; simpl.
  { split; [done|]. intros (l1 & l2 & H & _). by destruct l1. }
  destruct (p c) eqn:Hc.
  - split.
    + intros [= <- <-]. by exists [], l.
    + intros (l1 & l2 & Heq & Hi & Hb & Hl). destruct l1 as [|c' l1]; simplify_eq/=; [done|].
      apply Forall_cons in Hl as [??]. congruence.
  - split.
    + destruct (find_byte p l) as [[j d]|] eqn:E; [|done]. intros [= <- <-].
      destruct (proj1 (IH j d) eq_refl) as (l1 & l2 & -> & <- & Hb & Hl). exists (c :: l1), l2.
      rewrite len_cons. split_and!; [done..|]. by constructor.
    + intros (l1 & l2 & Heq & Hi & Hb & Hl). destruct l1 as [|c' l1];
        simplify_eq/=; [congruence|].
      apply Forall_cons in Hl as [_ Hl]. rewrite len_cons.
      assert (find_byte p (l1 ++ b :: l2) = Some (len l1, b)) as ->; [|done].
      apply IH. eauto 10.
Qed.

(** The first hit of a search is the first element of the list satisfying it. *)
Lemma find_byte_app p l1 b l2 :
  Forall (λ c, p c = false) l1 → p b = true →
  find_byte p (l1 ++ b :: l2) = Some (len l1, b).
Proof. intros. apply find_byte_Some. eauto 10. Qed.

Lemma split_once_Some c l x y :
  split_once c l = Some (x, y) ↔ l = x ++ c :: y ∧ c ∉ x.
Proof.
  revert x y. induction l as [|b l IH]; intros x y; simpl.
  { split; [done|]. intros [H _]. by destruct x. }
  case_decide as Hb.
  - subst. split.
    + intros [= <- <-]. split; [done|set_solver].
    + intros [H Hx]. destruct x as [|b' x]; simplify_eq/=; [done|set_solver].
  - split.
    + destruct (split_once c l) as [[x' y']|] eqn:E; [|done]. intros [= <- <-].
      destruct (proj1 (IH x' y') eq_refl) as [-> ?]. split; [done|set_solver].
    + intros [H Hx]. destruct x as [|b' x]; simplify_eq/=.
      assert (split_once c (x ++ c :: y) = Some (x, y)) as ->; [|done].
      apply IH. split; [done|set_solver].
Qed.

Lemma split_once_None c l : split_once c l = None ↔ c ∉ l.
Proof.
  induction l as [|b l IH]; simpl; [set_solver|].
  case_decide; [set_solver|].
  destruct (split_once c l) as [[]|] eqn:E; set_solver.
Qed.

Lemma split_on_nonempty c l : split_on c l ≠ [].
Proof. destruct l; simpl; [done|]. case_decide; [done|]. by destruct (split_on c l). Qed.

Lemma split_on_join c l : join_with c (split_on c l) = l.
Proof.
  induction l as [|b l IH]; simpl; [done|].
  pose proof (split_on_nonempty c l).
  case_decide; subst; destruct (split_on c l) as [|p [|q ps]]; simpl in *; congruence.
Qed.

Lemma split_on_pieces c l : Forall (λ p, c ∉ p) (split_on c l).
Proof.
  induction l as [|b l IH]; simpl; [repeat constructor; set_solver|].
  case_decide; [constructor; [set_solver|done]|].
  destruct (split_on c l); [repeat constructor; set_solver|].
  apply Forall_cons in IH as [??]. constructor; [set_solver|done].
Qed.

Lemma split_on_no_sep c l : c ∉ l → split_on c l = [l].
Proof.
  induction l as [|b l IH]; simpl; intros Hc; [done|].
  rewrite decide_False by set_solver. rewrite IH; [done|set_solver].
Qed.

Lemma split_on_app c p l : c ∉ p → split_on c (p ++ c :: l) = p :: split_on c l.
Proof.
  induction p as [|b p IH]; simpl; intros Hc.
  - by rewrite decide_True.
  - rewrite decide_False by set_solver. rewrite IH; [done|set_solver].
Qed.

(** [split_on] is the inverse of [join_with] on pieces without separator. *)
Lemma split_on_join_with c ps :
  ps ≠ [] → Forall (λ p, c ∉ p) ps → split_on c (join_with c ps) = ps.
Proof.
  induction ps as [|p ps IH]; intros Hne Hps; [done|].
  apply Forall_cons in Hps as [Hp Hps]. destruct ps as [|q ps].
  - by apply split_on_no_sep.
  - change (join_with c (p :: q :: ps)) with (p ++ c :: join_with c (q :: ps)).
    rewrite split_on_app by done. by rewrite IH.
Qed.

Lemma split_on_elem c l p : p ∈ split_on c l → ∀ b, b ∈ p → b ∈ l.
Proof.
  revert p. induction l as [|d l IH]; intros p; simpl.
  { rewrite list_elem_of_singleton. by intros ->. }
  pose proof (split_on_nonempty c l).
  case_decide.
  - intros [->|Hp]%elem_of_cons b Hb; [by apply not_elem_of_nil in Hb|].
    apply elem_of_cons. right. by eapply IH.
  - destruct (split_on c l) as [|q qs]; [done|].
    intros [->|Hp]%elem_of_cons b Hb; apply elem_of_cons.
    + apply elem_of_cons in Hb as [->|Hb]; [by left|]. right.
      apply (IH q); [by left|done].
    + right. apply (IH p); [by right|done].
Qed.

Lemma strip_suffix_Some suf l k : strip_suffix suf l = Some k ↔ l = k ++ suf.
Proof.
  unfold strip_suffix. case_decide as H; split.
  - intros [= <-]. by rewrite <-H at 2; rewrite take_drop.
  - intros ->. f_equal. rewrite length_app, Nat.add_sub.
    by rewrite take_app_length.
  - done.
  - intros ->. destruct H. by rewrite length_app, Nat.add_sub, drop_app_length.
Qed.

(** *** UTF-8 and decimal lemmas *)

Lemma list_len_ind {A} (P : list A → Prop) :
  (∀ l, (∀ k, (length k < length l)%nat → P k) → P l) → ∀ l, P l.
Proof.
  intros H l. remember (length l) as n eqn:Hn. revert l Hn.
  induction n as [n IH] using lt_wf_ind. intros l ->. apply H. eauto.
Qed.

(** ASCII bytes are always valid UTF-8. *)
Lemma utf8_chars_ascii off l :
  Forall (λ b, u8 b < 128) l → is_ok (utf8_chars off l) = true.
Proof.
  intros Hl. revert off. induction Hl as [|b l Hb _ IH]; intros off; simpl; [done|].
  apply Z.ltb_lt in Hb. rewrite Hb. specialize (IH (off + 1)).
  by destruct (utf8_chars (off + 1) l).
Qed.

Lemma from_utf8_ascii l : Forall (λ b, u8 b < 128) l → from_utf8 l = Ok l.
Proof.
  intros H. apply (utf8_chars_ascii 0) in H. unfold from_utf8, char_indices.
  by destruct (utf8_chars 0 l).
Qed.

Lemma from_utf8_Ok l k : from_utf8 l = Ok k → k = l.
Proof. unfold from_utf8. destruct (char_indices l); naive_solver. Qed.

Lemma bind_Err {E A C} (f : A → result E C) (r : result E A) e :
  r ≫= f = Err e ↔ r = Err e ∨ ∃ a, r = Ok a ∧ f a = Err e.
Proof. destruct r; naive_solver. Qed.

(** Where UTF-8 validation stops, the byte it stops at is not ASCII. *)
Lemma utf8_chars_Err l off n :
  utf8_chars off l = Err n →
  ∃ l1 b l2, l = l1 ++ b :: l2 ∧ n = off + len l1 ∧ 128 <= u8 b.
Proof.
  revert off. induction l as [l IH] using list_len_ind. intros off.
  destruct l as [|b0 l1]; simpl; [done|].
  assert (∀ pre k d, l1 = pre ++ k → d = 1 + len pre →
    utf8_chars (off + d) k = Err n →
    ∃ l1' b l2, b0 :: l1 = l1' ++ b :: l2 ∧ n = off + len l1' ∧ 128 <= u8 b) as Hrec.
  { intros pre k d -> -> Hk.
    destruct (IH k) with (off := off + (1 + len pre)) as (p & b & s & -> & -> & Hb); [|done|].
    - simpl. rewrite length_app. lia.
    - exists (b0 :: pre ++ p), b, s. split_and!; [|autorewrite with len_simpl; lia|done].
      simpl. by rewrite (assoc_L (++)). }
  destruct (u8 b0 <? 128) eqn:Hb0.
  { intros [H|(? & ? & ?)]%bind_Err; [|done]. by apply (Hrec [] l1 1). }
  apply Z.ltb_ge in Hb0.
  assert (off = n → ∃ l1' b l2, b0 :: l1 = l1' ++ b :: l2 ∧ n = off + len l1' ∧ 128 <= u8 b) as Hhere.
  { intros <-. exists [], b0, l1. rewrite len_nil. split_and!; [done|lia|done]. }
  clear IH. repeat case_match; try (intros [= Hoff]; by apply Hhere).
  all: intros [Hk|(? & ? & ?)]%bind_Err; [|done].
  - by eapply (Hrec [_] _ 2).
  - by eapply (Hrec [_; _] _ 3).
  - by eapply (Hrec [_; _; _] _ 4).
Qed.

Definition is_digit (b : byte) : bool := in_range 48 57 b.

Lemma digit_byte n : is_digit (as_u8 (48 + n mod 10)) = true.
Proof.
  unfold is_digit, in_range. pose proof (Z.mod_pos_bound n 10 ltac:(lia)).
  rewrite u8_as_u8 by lia. lia.
Qed.

Lemma dec_digits_digits fuel n acc :
  Forall (λ b, is_digit b = true) acc →
  Forall (λ b, is_digit b = true) (dec_digits fuel n acc).
Proof.
  revert n acc. induction fuel as [|fuel IH]; intros n acc Hacc; simpl; [done|].
  assert (Forall (λ b, is_digit b = true) (as_u8 (48 + n mod 10) :: acc)).
  { constructor; [apply digit_byte|done]. }
  case_match; [done|]. by apply IH.
Qed.

Lemma show_u64_digits n : Forall (λ b, is_digit b = true) (show_u64 n).
Proof. by apply dec_digits_digits. Qed.

(** The number a decimal string denotes. *)
Definition dec_value (l : bytes) : Z := foldl (λ acc b, acc * 10 + (u8 b - 48)) 0 l.

Lemma foldl_dec acc l :
  foldl (λ acc b, acc * 10 + (u8 b - 48)) acc l = acc * 10 ^ len l + dec_value l.
Proof.
  revert acc. unfold dec_value. induction l as [|b l IH]; intros acc; simpl.
  { rewrite len_nil. lia. }
  rewrite IH, (IH (0 * 10 + _)), len_cons, Z.pow_add_r by (pose proof (len_nonneg l); lia).
  lia.
Qed.

Lemma dec_digits_value fuel n acc :
  0 <= n < 10 ^ Z.of_nat fuel →
  dec_value (dec_digits fuel n acc) = n * 10 ^ len acc + dec_value acc.
Proof.
  revert n acc. induction fuel as [|fuel IH]; intros n acc Hn.
  { simpl in *. assert (n = 0) as -> by lia. lia. }
  cbn [dec_digits]. pose proof (Z.mod_pos_bound n 10 ltac:(lia)).
  pose proof (Z.div_mod n 10 ltac:(lia)) as Hdm.
  assert (dec_value (as_u8 (48 + n mod 10) :: acc) = n mod 10 * 10 ^ len acc + dec_value acc) as Hacc.
  { unfold dec_value at 1. simpl. rewrite foldl_dec, u8_as_u8 by lia. lia. }
  case_match eqn:Hlt.
  - rewrite Hacc, Z.mod_small by lia. done.
  - rewrite Nat2Z.inj_succ, Z.pow_succ_r in Hn by lia.
    rewrite IH, Hacc, len_cons.
    + pose proof (len_nonneg acc). rewrite Z.pow_add_r by lia. nia.
    + split; [apply Z.div_pos; lia|]. apply Z.div_lt_upper_bound; lia.
Qed.

(** Decimal formatting of a [u64] loses nothing. *)
Lemma show_u64_value n : 0 <= n <= u64_max → dec_value (show_u64 n) = n.
Proof.
  intros Hn. unfold show_u64. rewrite dec_digits_value; [|unfold u64_max in *; lia].
  rewrite len_nil. unfold dec_value. simpl. lia.
Qed.

Lemma show_u64_no b n : is_digit b = false → b ∉ show_u64 n.
Proof.
  intros Hb Hin. pose proof (show_u64_digits n) as H. rewrite Forall_forall in H.
  apply H in Hin. congruence.
Qed.

(** ** Sums over a map

    Measures of a set of tasks. *)

Definition total {A} (f : A → nat) (m : gmap nat A) : nat := map_fold (λ _ x n, (f x + n)%nat) 0%nat m.

Lemma total_new {A} (f : A → nat) m t x : m !! t = None → total f (<[t := x]> m) = (f x + total f m)%nat.
Proof. intros Ht. unfold total. rewrite map_fold_insert_L; [done| |done]. intros. lia. Qed.

Lemma total_set {A} (f : A → nat) m t x y : m !! t = Some x → (total f (<[t := y]> m) + f x = total f m + f y)%nat.
Proof.
  intros Ht. rewrite <-(insert_delete_id m t x Ht) at 2. rewrite <-insert_delete_eq.
  rewrite !total_new by apply lookup_delete_eq. lia.
Qed.

Lemma total_le {A} (f : A → nat) c m : (∀ x, f x <= c)%nat → (total f m <= c * size m)%nat.
Proof.
  intros Hf. induction m as [|t x m Ht IH] using map_ind; [unfold total; rewrite map_fold_empty; lia|].
  rewrite total_new, map_size_insert_None by done. pose proof (Hf x). lia.
Qed.

Lemma total_fmap {A} (f : A → nat) h m : (∀ x, f (h x) = f x) → total f (h <$> m) = total f m.
Proof.
  intros Hf. induction m as [|t x m Ht IH] using map_ind; [by rewrite fmap_empty|].
  rewrite fmap_insert, !total_new by (rewrite ?lookup_fmap, Ht; done). by rewrite Hf, IH.
Qed.

Lemma total_delete {A} (f : A → nat) m t x : m !! t = Some x → (total f (delete t m) + f x = total f m)%nat.
Proof. intros Ht. rewrite <-(insert_delete_id m t x Ht) at 2. rewrite total_new by apply lookup_delete_eq. lia. Qed.

(** ** Time

    [SystemTime], [Instant] and [Duration] are integers counting
    nanoseconds; [UNIX_EPOCH] is 0, so a pre-epoch [SystemTime] is negative. *)

Definition nanos_per_sec : Z := 1000000000.
Definition from_secs (s : Z) : Z := s * nanos_per_sec.
Definition as_secs (d : Z) : Z := d / nanos_per_sec.
