(* ===== verification/Json.v ===== *)
(** * JSON texts

    The values serde_json reads and writes (RFC 8259), as a concrete instance
    of the crate: the compact and the pretty printer, the parser with its depth
    limit, and the facts the wire formats of the program rest on: what is
    printed parses back, a compact text has no raw control byte, and escaping
    makes a string at most six times longer. *)

From S2P Require Import Prelude.

(** The generated scheme says nothing of the members; [Value_nested] does. *)
Unset Elimination Schemes.

(** A number that is no 64-bit integer keeps its text. *)
Inductive Value :=
| V_Null
| V_Bool (b : bool)
| V_Int (n : Z)
| V_Float (lexeme : bytes)
| V_Str (s : bytes)
| V_Arr (vs : list Value)
| V_Obj (members : list (bytes * Value)).

Set Elimination Schemes.

(** The members of a container satisfy [P] too. *)
Definition Value_nested (P : Value → Prop)
    (Pnull : P V_Null) (Pbool : ∀ b, P (V_Bool b)) (Pint : ∀ n, P (V_Int n)) (Pfloat : ∀ l, P (V_Float l))
    (Pstr : ∀ s, P (V_Str s)) (Parr : ∀ vs, Forall P vs → P (V_Arr vs))
    (Pobj : ∀ ms, Forall (λ kv, P (snd kv)) ms → P (V_Obj ms)) : ∀ v, P v :=
  fix go v :=
    match v with
    | V_Null => Pnull
    | V_Bool b => Pbool b
    | V_Int n => Pint n
    | V_Float l => Pfloat l
    | V_Str s => Pstr s
    | V_Arr vs => Parr vs ((fix all vs : Forall P vs := match vs with [] => Forall_nil_2 _ | v :: vs => Forall_cons_2 _ _ _ (go v) (all vs) end) vs)
    | V_Obj ms => Pobj ms ((fix all ms : Forall (λ kv, P (snd kv)) ms := match ms with [] => Forall_nil_2 _ | kv :: ms => Forall_cons_2 _ _ _ (go (snd kv)) (all ms) end) ms)
    end.

(** ** Printing *)

Definition nibble (n : Z) : byte := if n <? 10 then as_u8 (48 + n) else as_u8 (87 + n).

(** [format_escaped_str] *)
Definition escape_byte (b : byte) : bytes :=
  match b with
  | x22 => [x5c; x22]
  | x5c => [x5c; x5c]
  | x08 => [x5c; x62]
  | x0c => [x5c; x66]
  | x0a => [x5c; x6e]
  | x0d => [x5c; x72]
  | x09 => [x5c; x74]
  | _ => if u8 b <? 32 then [x5c; x75; x30; x30; nibble (u8 b / 16); nibble (u8 b mod 16)] else [b]
  end.

Definition escape (s : bytes) : bytes := s ≫= escape_byte.
Definition quoted (s : bytes) : bytes := x22 :: escape s ++ [x22].

(** [Display for i64] *)
Definition show_i64 (z : Z) : bytes := if z <? 0 then x2d :: show_u64 (- z) else show_u64 z.

Fixpoint join (sep : bytes) (ts : list bytes) : bytes :=
  match ts with
  | [] => []
  | [t] => t
  | t :: ts => t ++ sep ++ join sep ts
  end.

(** [nl d]: what is written before an element at depth [d]; [colon]: between a
    key and its value. *)
Section render.
Context (nl : nat → bytes) (colon : bytes).

Definition container (open close : byte) (d : nat) (ts : list bytes) : bytes :=
  match ts with
  | [] => [open; close]
  | _ => open :: nl (S d) ++ join (x2c :: nl (S d)) ts ++ nl d ++ [close]
  end.

Definition member (k t : bytes) : bytes := quoted k ++ colon ++ t.

Fixpoint render (d : nat) (v : Value) : bytes :=
  match v with
  | V_Null => B "null"
  | V_Bool true => B "true"
  | V_Bool false => B "false"
  | V_Int n => show_i64 n
  | V_Float lexeme => lexeme
  | V_Str s => quoted s
  | V_Arr vs => container x5b x5d d (map (render (S d)) vs)
  | V_Obj ms => container x7b x7d d (map (λ kv, member (fst kv) (render (S d) (snd kv))) ms)
  end.

End render.

(** [to_vec] and [to_vec_pretty] *)
Definition json_compact (v : Value) : bytes := render (λ _, []) [x3a] 0 v.
Definition json_pretty (v : Value) : bytes := render (λ d, x0a :: replicate (2 * d) x20) [x3a; x20] 0 v.

(** ** Parsing *)

Definition is_ws (b : byte) : bool := match b with x20 | x0a | x0d | x09 => true | _ => false end.

Fixpoint skip_ws (l : bytes) : bytes := match l with b :: t => if is_ws b then skip_ws t else l | [] => [] end.

Fixpoint span (p : byte → bool) (l : bytes) : bytes * bytes :=
  match l with
  | b :: t => if p b then let '(x, y) := span p t in (b :: x, y) else ([], l)
  | [] => ([], [])
  end.

Definition hex_val (b : byte) : option Z :=
  if in_range 48 57 b then Some (u8 b - 48)
  else if in_range 97 102 b then Some (u8 b - 87)
  else if in_range 65 70 b then Some (u8 b - 55)
  else None.

Definition hex4_val (a b c d : byte) : option Z :=
  a ← hex_val a; b ← hex_val b; c ← hex_val c; d ← hex_val d; Some (((a * 16 + b) * 16 + c) * 16 + d).

(** [char::encode_utf8] *)
Definition utf8_encode (n : Z) : bytes :=
  if n <? 128 then [as_u8 n]
  else if n <? 2048 then [as_u8 (192 + n / 64); as_u8 (128 + n mod 64)]
  else if n <? 65536 then [as_u8 (224 + n / 4096); as_u8 (128 + n / 64 mod 64); as_u8 (128 + n mod 64)]
  else [as_u8 (240 + n / 262144); as_u8 (128 + n / 4096 mod 64); as_u8 (128 + n / 64 mod 64); as_u8 (128 + n mod 64)].

Definition simple_escape (b : byte) : option byte :=
  match b with
  | x22 => Some x22 | x5c => Some x5c | x2f => Some x2f | x62 => Some x08 | x66 => Some x0c
  | x6e => Some x0a | x72 => Some x0d | x74 => Some x09 | _ => None
  end.

(** The rest of a string after its opening quote: its bytes and what follows
    the closing quote.  A lone surrogate is an error. *)
Fixpoint parse_chars (l : bytes) : option (bytes * bytes) :=
  match l with
  | [] => None
  | x22 :: t => Some ([], t)
  | x5c :: x75 :: a :: b :: c :: d :: t =>
      n ← hex4_val a b c d;
      if (n <? 55296) || (57343 <? n) then '(s, r) ← parse_chars t; Some (utf8_encode n ++ s, r)
      else if 56319 <? n then None
      else match t with
           | x5c :: x75 :: a :: b :: c :: d :: t =>
               m ← hex4_val a b c d;
               if (m <? 56320) || (57343 <? m) then None
               else '(s, r) ← parse_chars t; Some (utf8_encode (65536 + (n - 55296) * 1024 + (m - 56320)) ++ s, r)
           | _ => None
           end
  | x5c :: e :: t => c ← simple_escape e; '(s, r) ← parse_chars t; Some (c :: s, r)
  | b :: t => if u8 b <? 32 then None else '(s, r) ← parse_chars t; Some (b :: s, r)
  end.

Definition i64_min : Z := - 9223372036854775808.

(** The optional fraction and exponent: what follows, and were there any? *)
Definition parse_fraction (l : bytes) : option (bool * bytes) :=
  match l with
  | x2e :: t => let '(ds, r) := span is_digit t in if decide (ds = []) then None else Some (true, r)
  | _ => Some (false, l)
  end.
Definition parse_exponent (l : bytes) : option (bool * bytes) :=
  match l with
  | x65 :: t | x45 :: t =>
      let t := match t with x2b :: t | x2d :: t => t | _ => t end in
      let '(ds, r) := span is_digit t in if decide (ds = []) then None else Some (true, r)
  | _ => Some (false, l)
  end.

(** At least one digit and no leading zero. *)
Definition int_part (ds : bytes) : bool := match ds with [] | x30 :: _ :: _ => false | _ => true end.

Definition parse_number (l : bytes) : option (Value * bytes) :=
  let '(neg, l1) := match l with x2d :: t => (true, t) | _ => (false, l) end in
  let '(ds, l2) := span is_digit l1 in
  if negb (int_part ds) then None
  else
    '(frac, l3) ← parse_fraction l2;
    '(exp, l4) ← parse_exponent l3;
    let n := dec_value ds in
    let float := V_Float (take (length l - length l4) l) in
    Some (if frac || exp then float
          else if neg then if (n =? 0) || (n >? - i64_min) then float else V_Int (- n)
          else if n >? u64_max then float else V_Int n, l4).

(** The elements of an array and the members of an object, after the opening
    bracket of a container that is not empty. *)
Section elements.
Context (value : bytes → option (Value * bytes)).

Fixpoint parse_elems (fuel : nat) (l : bytes) : option (list Value * bytes) :=
  match fuel with
  | O => None
  | S fuel =>
      '(v, l) ← value l;
      match skip_ws l with
      | x5d :: l => Some ([v], l)
      | x2c :: l => '(vs, l) ← parse_elems fuel l; Some (v :: vs, l)
      | _ => None
      end
  end.

Fixpoint parse_members (fuel : nat) (l : bytes) : option (list (bytes * Value) * bytes) :=
  match fuel with
  | O => None
  | S fuel =>
      match skip_ws l with
      | x22 :: l =>
          '(k, l) ← parse_chars l;
          match skip_ws l with
          | x3a :: l =>
              '(v, l) ← value l;
              match skip_ws l with
              | x7d :: l => Some ([(k, v)], l)
              | x2c :: l => '(ms, l) ← parse_members fuel l; Some ((k, v) :: ms, l)
              | _ => None
              end
          | _ => None
          end
      | _ => None
      end
  end.

End elements.

(** [depth]: how many containers may still be entered. *)
Fixpoint parse_value (depth : nat) (l : bytes) : option (Value * bytes) :=
  match skip_ws l with
  | x6e :: x75 :: x6c :: x6c :: t => Some (V_Null, t)
  | x74 :: x72 :: x75 :: x65 :: t => Some (V_Bool true, t)
  | x66 :: x61 :: x6c :: x73 :: x65 :: t => Some (V_Bool false, t)
  | x22 :: t => '(s, t) ← parse_chars t; Some (V_Str s, t)
  | x5b :: t =>
      match depth with
      | O => None
      | S depth =>
          match skip_ws t with
          | x5d :: t => Some (V_Arr [], t)
          | t => '(vs, t) ← parse_elems (parse_value depth) (length t) t; Some (V_Arr vs, t)
          end
      end
  | x7b :: t =>
      match depth with
      | O => None
      | S depth =>
          match skip_ws t with
          | x7d :: t => Some (V_Obj [], t)
          | t => '(ms, t) ← parse_members (parse_value depth) (length t) t; Some (V_Obj ms, t)
          end
      end
  | t => parse_number t
  end.

(** [from_slice]: 127 nested containers, and nothing but white space after the
    value. *)
Definition json_parse (l : bytes) : option Value :=
  '(v, t) ← parse_value 127 l;
  match skip_ws t with [] => Some v | _ => None end.

(** ** What is printed parses back *)

Lemma parse_chars_step b l : parse_chars (escape_byte b ++ l) = ('(s, r) ← parse_chars l; Some (b :: s, r)).
Proof. destruct b; reflexivity. Qed.

Lemma parse_chars_escape s l : parse_chars (escape s ++ x22 :: l) = Some (s, l).
Proof.
  induction s as [|b s IH]; [done|]. unfold escape. cbn [mbind list_bind].
  rewrite <-(assoc_L (++)), parse_chars_step. unfold escape in IH. by rewrite IH.
Qed.

Lemma span_app p x l : Forall (λ b, p b = true) x → match l with b :: _ => p b = false | [] => True end → span p (x ++ l) = (x, l).
Proof.
  intros Hx Hl. induction Hx as [|b x Hb _ IH]; cbn.
  - destruct l as [|c l]; cbn; [done|]. by rewrite Hl.
  - by rewrite Hb, IH.
Qed.

Lemma skip_ws_app w l : Forall (λ b, is_ws b = true) w → skip_ws (w ++ l) = skip_ws l.
Proof. induction 1 as [|b w Hb _ IH]; cbn; [done|]. by rewrite Hb. Qed.

(** What may follow a number. *)
Definition number_ends (l : bytes) : Prop :=
  match l with b :: _ => is_digit b = false ∧ b ≠ x2e ∧ b ≠ x65 ∧ b ≠ x45 | [] => True end.

Lemma parse_fraction_ends l : number_ends l → parse_fraction l = Some (false, l).
Proof. destruct l as [|b l]; [done|]. intros (_ & H & _). destruct b; done. Qed.
Lemma parse_exponent_ends l : number_ends l → parse_exponent l = Some (false, l).
Proof. destruct l as [|b l]; [done|]. intros (_ & _ & H1 & H2). destruct b; done. Qed.

(** No leading zero, and at least one digit. *)
Lemma dec_digits_head fuel n acc :
  0 <= n < 10 ^ Z.of_nat fuel → (0 < fuel)%nat →
  ∃ b t, dec_digits fuel n acc = b :: t ∧ is_digit b = true ∧ (b = x30 → n = 0 ∧ t = acc).
Proof.
  revert n acc. induction fuel as [|fuel IH]; intros n acc Hn Hf; [lia|]. cbn [dec_digits].
  pose proof (Z.mod_pos_bound n 10 ltac:(lia)). case_match eqn:E.
  - eexists _, _. split; [done|]. split; [apply digit_byte|]. intros Hb%(f_equal u8).
    rewrite Z.mod_small, u8_as_u8 in Hb by lia. change (u8 x30) with 48 in Hb. split; [lia|done].
  - apply Z.ltb_ge in E. rewrite Nat2Z.inj_succ, Z.pow_succ_r in Hn by lia.
    assert (0 < n / 10) by (apply Z.div_str_pos; lia).
    assert (n / 10 < 10 ^ Z.of_nat fuel) by (apply Z.div_lt_upper_bound; lia).
    destruct fuel; [cbn in *; lia|].
    destruct (IH (n / 10) (as_u8 (48 + n mod 10) :: acc)) as (b & t & -> & Hb & Hz); [lia..|].
    eexists _, _. split; [done|]. split; [done|]. intros ->. destruct (Hz eq_refl). lia.
Qed.

Lemma show_u64_int_part n : 0 <= n <= u64_max → int_part (show_u64 n) = true.
Proof.
  intros Hn. destruct (dec_digits_head 20 n []) as (b & t & Hs & _ & Hz); [unfold u64_max in *; lia..|].
  unfold show_u64. rewrite Hs. destruct b; try done. by destruct (Hz eq_refl) as [_ ->].
Qed.

Definition int_ok (n : Z) : Prop := i64_min <= n <= u64_max.

Lemma span_u64 n l : number_ends l → span is_digit (show_u64 n ++ l) = (show_u64 n, l).
Proof. intros Hl. apply span_app; [apply show_u64_digits|]. destruct l; naive_solver. Qed.

Lemma show_u64_not_minus n l : 0 <= n <= u64_max → ∃ b t, show_u64 n ++ l = b :: t ∧ b ≠ x2d.
Proof.
  intros Hn. destruct (dec_digits_head 20 n []) as (b & t & Hs & Hb & _); [unfold u64_max in *; lia..|].
  exists b, (t ++ l). unfold show_u64. rewrite Hs. split; [done|]. by intros ->.
Qed.

Lemma parse_number_int n l : int_ok n → number_ends l → parse_number (show_i64 n ++ l) = Some (V_Int n, l).
Proof.
  intros Hn Hl. unfold int_ok in Hn. unfold show_i64, parse_number. destruct (n <? 0) eqn:E.
  - assert (0 <= - n <= u64_max) by (unfold i64_min, u64_max in *; lia).
    cbn [app]. rewrite span_u64, show_u64_int_part by done. cbn [negb].
    rewrite parse_fraction_ends by done. cbn [mbind option_bind]. rewrite parse_exponent_ends by done. cbn [mbind option_bind orb].
    rewrite show_u64_value, Z.opp_involutive by done.
    by replace ((- n =? 0) || (- n >? - i64_min)) with false by (unfold i64_min in *; lia).
  - assert (0 <= n <= u64_max) as Hm by lia. destruct (show_u64_not_minus n l Hm) as (b & t & Hs & Hb).
    replace (match show_u64 n ++ l with x2d :: t => (true, t) | _ => (false, show_u64 n ++ l) end)
      with (false, show_u64 n ++ l) by (rewrite Hs; destruct b; done).
    rewrite span_u64, show_u64_int_part by done. cbn [negb].
    rewrite parse_fraction_ends by done. cbn [mbind option_bind]. rewrite parse_exponent_ends by done. cbn [mbind option_bind orb].
    rewrite show_u64_value by done. by replace (n >? u64_max) with false by lia.
Qed.

(** Values a printer of integers and strings writes, nested at most [depth] deep. *)
Fixpoint printable (depth : nat) (v : Value) {struct v} : bool :=
  match v with
  | V_Int n => (i64_min <=? n) && (n <=? u64_max)
  | V_Float _ => false
  | V_Arr vs => match depth with O => false | S depth => forallb (printable depth) vs end
  | V_Obj ms => match depth with O => false | S depth => forallb (λ kv, printable depth (snd kv)) ms end
  | _ => true
  end.

Lemma printable_mono depth depth' v : (depth <= depth')%nat → printable depth v = true → printable depth' v = true.
Proof.
  revert depth depth'. induction v as [| | | | |vs IH|ms IH] using Value_nested; intros depth depth' Hd; try by destruct depth, depth'.
  - destruct depth, depth'; cbn; [done..|lia|]. rewrite !forallb_forall. intros Hv x Hx.
    rewrite Forall_forall in IH. apply (IH x) with depth; [by apply list_elem_of_In|lia|by apply Hv].
  - destruct depth, depth'; cbn; [done..|lia|]. rewrite !forallb_forall. intros Hv x Hx.
    rewrite Forall_forall in IH. apply (IH x) with depth; [by apply list_elem_of_In|lia|by apply Hv].
Qed.

Lemma join_map_cons {A} sep (f : A → bytes) a b l : join sep (map f (a :: b :: l)) = f a ++ sep ++ join sep (map f (b :: l)).
Proof. done. Qed.
Lemma join_map_one {A} sep (f : A → bytes) a : join sep (map f [a]) = f a.
Proof. done. Qed.

Section roundtrip.
Context (nl : nat → bytes) (sp : bytes).
Context (Hnl : ∀ d, Forall (λ b, is_ws b = true) (nl d)) (Hsp : Forall (λ b, is_ws b = true) sp).

Abbreviation rendering := (render nl (x3a :: sp)).

(** How a text may begin. *)
Definition starts (b : byte) : Prop := is_ws b = false ∧ b ≠ x5d ∧ b ≠ x7d.

Lemma digit_starts b : is_digit b = true → starts b.
Proof. destruct b; (done || by intros _; split_and!). Qed.

Lemma render_starts depth d v l : printable depth v = true → ∃ b t, rendering d v ++ l = b :: t ∧ starts b.
Proof.
  intros Hv. destruct v as [|[]|n| |s|[|v vs]|[|m ms]]; try done;
    try (eexists _, _; split; [reflexivity|by split_and!]).
  cbn in Hv. apply andb_true_iff in Hv as [H1 H2]. unfold rendering, show_i64. cbn [render]. unfold show_i64.
  case_match; [eexists _, _; split; [reflexivity|by split_and!]|].
  destruct (dec_digits_head 20 n []) as (b & t & Hs & Hb & _); [unfold u64_max in *; lia..|].
  unfold show_u64. rewrite Hs. eexists _, _. split; [reflexivity|by apply digit_starts].
Qed.

Lemma skip_ws_starts w b t : Forall (λ b, is_ws b = true) w → starts b → skip_ws (w ++ b :: t) = b :: t.
Proof. intros Hw [Hb _]. rewrite skip_ws_app by done. cbn. by rewrite Hb. Qed.

Lemma parse_value_ws depth w l : Forall (λ b, is_ws b = true) w → parse_value depth (w ++ l) = parse_value depth l.
Proof. intros Hw. destruct depth; cbn [parse_value]; by rewrite skip_ws_app. Qed.

Lemma number_ends_ws w b l : Forall (λ b, is_ws b = true) w → number_ends (b :: l) → number_ends (w ++ b :: l).
Proof. intros [|c w' Hc _] Hb; [done|]. cbn. destruct c; done. Qed.

(** The property of one value that the containers use. *)
Definition reads (v : Value) : Prop :=
  ∀ depth d l, printable depth v = true → number_ends l → parse_value depth (rendering d v ++ l) = Some (v, l).

Lemma parse_elems_join depth d v vs w fuel l :
  Forall reads (v :: vs) → forallb (printable depth) (v :: vs) = true → (length vs < fuel)%nat →
  Forall (λ b, is_ws b = true) w →
  parse_elems (parse_value depth) fuel (w ++ join (x2c :: nl d) (map (rendering d) (v :: vs)) ++ nl (pred d) ++ x5d :: l) =
  Some (v :: vs, l).
Proof.
  revert v w fuel. induction vs as [|v' vs IH]; intros v w [|fuel] Hr Hp Hf Hw; try (cbn in Hf; lia);
    apply Forall_cons in Hr as [Hv Hr]; cbn [forallb] in Hp; apply andb_true_iff in Hp as [Hpv Hp];
    cbn [parse_elems]; rewrite parse_value_ws by done.
  - rewrite join_map_one, Hv; [|done|by apply number_ends_ws]. cbn [mbind option_bind].
    rewrite skip_ws_app by done. done.
  - rewrite join_map_cons, <-!(assoc_L (++)), Hv by done. cbn [mbind option_bind app].
    change (skip_ws (x2c :: ?x)) with (x2c :: x). cbn [mbind option_bind].
    rewrite (IH v' (nl d) fuel) by (done || cbn in Hf; lia). done.
Qed.

Lemma parse_members_join depth d k v ms w fuel l :
  Forall (λ kv, reads (snd kv)) ((k, v) :: ms) → forallb (λ kv, printable depth (snd kv)) ((k, v) :: ms) = true →
  (length ms < fuel)%nat → Forall (λ b, is_ws b = true) w →
  parse_members (parse_value depth) fuel
    (w ++ join (x2c :: nl d) (map (λ kv, member (x3a :: sp) (fst kv) (rendering d (snd kv))) ((k, v) :: ms)) ++ nl (pred d) ++ x7d :: l) =
  Some ((k, v) :: ms, l).
Proof.
  revert k v w fuel. induction ms as [|[k' v'] ms IH]; intros k v w [|fuel] Hr Hp Hf Hw; try (cbn in Hf; lia);
    apply Forall_cons in Hr as [Hv Hr]; cbn [forallb snd] in Hp, Hv; apply andb_true_iff in Hp as [Hpv Hp];
    cbn [parse_members]; rewrite skip_ws_app by done; rewrite ?join_map_cons, ?join_map_one; cbn [fst snd]; unfold member at 1, quoted at 1;
    rewrite <-!(assoc_L (++)); cbn [app]; change (skip_ws (x22 :: ?x)) with (x22 :: x); cbn [mbind option_bind];
    rewrite <-!(assoc_L (++)); cbn [app]; rewrite parse_chars_escape; cbn [mbind option_bind];
    change (skip_ws (x3a :: ?x)) with (x3a :: x); cbn [mbind option_bind]; rewrite parse_value_ws by done.
  - rewrite Hv; [|done|by apply number_ends_ws]. cbn [mbind option_bind]. rewrite skip_ws_app by done. done.
  - rewrite Hv by done. cbn [mbind option_bind app].
    change (skip_ws (x2c :: ?x)) with (x2c :: x). cbn [mbind option_bind].
    by rewrite (IH k' v' (nl d) fuel) by (done || cbn in Hf; lia).
Qed.

Lemma length_join sep (ts : list bytes) : sep ≠ [] → (length ts <= S (length (join sep ts)))%nat.
Proof.
  intros Hs. assert (1 <= length sep)%nat by (destruct sep; cbn; [done|lia]).
  induction ts as [|t [|t' ts] IH]; cbn [join length] in *; [lia..|]. rewrite !length_app. lia.
Qed.

(** After the opening bracket: the white space, then the first element. *)
Lemma open_container d t ts b u w c l :
  t = b :: u → starts b →
  let text := join (x2c :: nl (S d)) (t :: ts) ++ w ++ c :: l in
  skip_ws (nl (S d) ++ text) = text ∧ (length ts < length text)%nat ∧ ∃ r, text = b :: r.
Proof.
  intros -> Hb text.
  assert (∃ r, text = b :: r) as [r Hr] by (unfold text; destruct ts; cbn; eauto).
  split_and!; [|unfold text|eauto].
  - rewrite Hr. by apply skip_ws_starts.
  - pose proof (length_join (x2c :: nl (S d)) ((b :: u) :: ts) ltac:(done)). rewrite !length_app. cbn [length] in *. lia.
Qed.

Lemma parse_value_arr depth t u b r :
  skip_ws t = u → u = b :: r → b ≠ x5d →
  parse_value (S depth) (x5b :: t) = ('(vs, t) ← parse_elems (parse_value depth) (length u) u; Some (V_Arr vs, t)).
Proof. intros Ht -> Hb. cbn [parse_value skip_ws is_ws]. rewrite Ht. destruct b; done. Qed.

Lemma parse_value_obj depth t u b r :
  skip_ws t = u → u = b :: r → b ≠ x7d →
  parse_value (S depth) (x7b :: t) = ('(ms, t) ← parse_members (parse_value depth) (length u) u; Some (V_Obj ms, t)).
Proof. intros Ht -> Hb. cbn [parse_value skip_ws is_ws]. rewrite Ht. destruct b; done. Qed.

Lemma parse_value_number depth b t : is_digit b = true ∨ b = x2d → parse_value depth (b :: t) = parse_number (b :: t).
Proof. intros [Hb | ->]; [|by destruct depth]. destruct b; try done; by destruct depth. Qed.

Lemma show_i64_head n l : int_ok n → ∃ b t, show_i64 n ++ l = b :: t ∧ (is_digit b = true ∨ b = x2d).
Proof.
  intros [H1 H2]. unfold show_i64. case_match; [cbn; eauto|].
  destruct (dec_digits_head 20 n []) as (b & t & Hs & Hb & _); [unfold u64_max in *; lia..|].
  unfold show_u64. rewrite Hs. cbn. eauto.
Qed.

Lemma container_text open close d t ts l :
  container nl open close d (t :: ts) ++ l =
  open :: nl (S d) ++ join (x2c :: nl (S d)) (t :: ts) ++ nl d ++ close :: l.
Proof. unfold container. cbn [app]. by rewrite <-!(assoc_L (++)). Qed.

Lemma parse_render v : reads v.
Proof.
  induction v as [|[]|n|f|s|vs IH|ms IH] using Value_nested; intros depth d l Hp Hl; try by destruct depth.
  - cbn in Hp. apply andb_true_iff in Hp as [H1 H2]. assert (int_ok n) as Hn by (unfold int_ok; lia).
    cbn [render]. destruct (show_i64_head n l Hn) as (b & t & Ht & Hb).
    rewrite Ht, (parse_value_number depth b t Hb), <-Ht. by apply parse_number_int.
  - destruct depth; cbn [render]; unfold quoted; cbn [app parse_value skip_ws is_ws]; rewrite <-(assoc_L (++)); cbn [app];
      by rewrite parse_chars_escape.
  - destruct depth as [|depth]; [done|]. destruct vs as [|v vs]; [done|]. cbn [render]. cbn [printable] in Hp.
    destruct (render_starts depth (S d) v []) as (b & u & Hb & Hst); [by apply andb_true_iff in Hp as [? _]|].
    rewrite app_nil_r in Hb. change (map (rendering (S d)) (v :: vs)) with (rendering (S d) v :: map (rendering (S d)) vs).
    rewrite container_text.
    destruct (open_container d _ (map (rendering (S d)) vs) b u (nl d) x5d l Hb Hst) as (Hs & Hlen & r & Hr).
    rewrite (parse_value_arr depth _ _ b r Hs Hr) by apply Hst. rewrite length_map in Hlen.
    pose proof (parse_elems_join depth (S d) v vs [] _ l IH Hp Hlen (Forall_nil_2 _)) as He.
    cbn [app map Nat.pred] in He. by rewrite He.
  - destruct depth as [|depth]; [done|]. destruct ms as [|[k v] ms]; [done|]. cbn [render map fst snd]. cbn [printable] in Hp.
    rewrite container_text.
    destruct (open_container d (member (x3a :: sp) k (rendering (S d) v)) (map (λ kv, member (x3a :: sp) (fst kv) (rendering (S d) (snd kv))) ms) x22
      (escape k ++ x22 :: x3a :: sp ++ rendering (S d) v) (nl d) x7d l) as (Hs & Hlen & r & Hr);
      [unfold member, quoted; cbn [app]; by rewrite <-!(assoc_L (++))|by split_and!|].
    rewrite (parse_value_obj depth _ _ x22 r Hs Hr) by done. rewrite length_map in Hlen.
    pose proof (parse_members_join depth (S d) k v ms [] _ l IH Hp Hlen (Forall_nil_2 _)) as He.
    cbn [app map Nat.pred fst snd] in He. by rewrite He.
Qed.

End roundtrip.

(** *** Both printers *)

Lemma json_parse_text v t : (∀ l, number_ends l → parse_value 127 (t ++ l) = Some (v, l)) → json_parse t = Some v.
Proof. intros Ht. unfold json_parse. specialize (Ht [] I). rewrite app_nil_r in Ht. by rewrite Ht. Qed.

Lemma json_parse_compact v : printable 127 v = true → json_parse (json_compact v) = Some v.
Proof. intros Hv. apply json_parse_text. intros l Hl. by apply (parse_render (λ _, []) []). Qed.

Lemma json_parse_pretty v : printable 127 v = true → json_parse (json_pretty v) = Some v.
Proof.
  intros Hv. apply json_parse_text. intros l Hl.
  apply (parse_render (λ d, x0a :: replicate (2 * d) x20) [x20]); [|by repeat constructor|done..].
  intros d. constructor; [done|]. apply Forall_replicate. done.
Qed.

(** ** The bytes of a text *)

(** The bytes of the brackets, literals and numbers. *)
Definition syntax_byte (b : byte) : bool := bool_decide (b ∈ B "[]{},:-0123456789nulltruefalse") || bool_decide (b = x22).

(** A property of byte strings closed under concatenation holds of a text when
    it holds of the syntax and of the escaped strings. *)
Section bytes_of.
Context (Q : bytes → Prop) (Q_nil : Q []) (Q_app : ∀ a b, Q a → Q b → Q (a ++ b)).
Context (nl : nat → bytes) (colon : bytes) (Hnl : ∀ d, Q (nl d)) (Hcolon : Q colon) (Hsyntax : ∀ b, syntax_byte b = true → Q [b]).
Context (str_ok : bytes → Prop) (Hstr : ∀ s, str_ok s → Q (escape s)).

(** Every string of the value, keys included, satisfies [str_ok]. *)
Fixpoint strings (v : Value) : Prop :=
  match v with
  | V_Str s => str_ok s
  | V_Arr vs => foldr (λ v, and (strings v)) True vs
  | V_Obj ms => foldr (λ kv, and (str_ok (fst kv) ∧ strings (snd kv))) True ms
  | _ => True
  end.

Lemma Q_cons b l : Q [b] → Q l → Q (b :: l).
Proof. intros Hb Hl. by apply (Q_app [b]). Qed.

Lemma Q_syntax l : forallb syntax_byte l = true → Q l.
Proof. induction l as [|b l IH]; [done|]. cbn. intros [Hb Hl]%andb_true_iff. apply Q_cons; auto. Qed.

Lemma Q_join sep ts : Q sep → Forall Q ts → Q (join sep ts).
Proof.
  intros Hs. induction 1 as [|t [|t' ts] Ht Hts IH]; [done|done|].
  change (join sep (t :: t' :: ts)) with (t ++ sep ++ join sep (t' :: ts)). auto.
Qed.

Lemma Q_container open close d ts : Q [open] → Q [close] → Forall Q ts → Q (container nl open close d ts).
Proof.
  intros Ho Hc Hts. destruct ts as [|t ts]; cbn [container]; [by apply Q_cons|].
  apply Q_cons; [done|]. apply Q_app; [done|]. apply Q_app; [|by apply Q_app].
  apply Q_join; [|done]. apply Q_cons; [by apply Hsyntax|done].
Qed.

Lemma Q_quoted s : str_ok s → Q (quoted s).
Proof. intros Hs. apply Q_cons; [by apply Hsyntax|]. apply Q_app; [auto|by apply Hsyntax]. Qed.

Lemma Q_digits n : Q (show_u64 n).
Proof.
  apply Q_syntax, forallb_forall. intros b Hb%list_elem_of_In.
  pose proof (show_u64_digits n) as H. rewrite Forall_forall in H. specialize (H b Hb). destruct b; done.
Qed.

Lemma Q_render depth d v : printable depth v = true → strings v → Q (render nl colon d v).
Proof.
  revert depth d. induction v as [|[]|n|f|s|vs IH|ms IH] using Value_nested; intros depth d Hp Hs; try done;
    try by apply Q_syntax.
  - cbn [render]. unfold show_i64. case_match; [apply Q_cons; [by apply Hsyntax|]|]; apply Q_digits.
  - by apply Q_quoted.
  - cbn [render]. apply Q_container; [by apply Hsyntax..|]. destruct depth as [|depth]; [done|]. cbn [printable] in Hp.
    induction IH as [|v vs Hv _ IH']; [constructor|]. cbn in Hp, Hs. apply andb_true_iff in Hp as [??]. destruct Hs.
    constructor; [by eapply Hv|by apply IH'].
  - cbn [render]. apply Q_container; [by apply Hsyntax..|]. destruct depth as [|depth]; [done|]. cbn [printable] in Hp.
    induction IH as [|[k v] ms Hv _ IH']; [constructor|]. cbn in Hp, Hs, Hv. apply andb_true_iff in Hp as [??]. destruct Hs as [[] ?].
    constructor; [|by apply IH']. cbn [fst snd]. apply Q_app; [by apply Q_quoted|]. apply Q_app; [done|by eapply Hv].
Qed.

End bytes_of.

Lemma strings_all (str_ok : bytes → Prop) v : (∀ s, str_ok s) → strings str_ok v.
Proof.
  intros H. induction v as [|[]|n|f|s|vs IH|ms IH] using Value_nested; cbn; auto.
  - induction IH; cbn; auto.
  - induction IH; cbn; auto.
Qed.

(** *** A compact text is one line *)

Definition no_control (l : bytes) : Prop := Forall (λ b, 32 <= u8 b) l.

Lemma escape_visible s : no_control (escape s).
Proof.
  unfold escape, no_control. induction s as [|b s IH]; [constructor|]. cbn [mbind list_bind].
  apply Forall_app_2; [|done]. destruct b; repeat (constructor; [by vm_compute|]); constructor.
Qed.

Lemma json_compact_visible depth v : printable depth v = true → no_control (json_compact v).
Proof.
  intros Hp. apply (Q_render no_control (Forall_nil_2 _)) with (str_ok := λ _, True) (depth := depth); try done.
  - intros a b. apply Forall_app_2.
  - intros _. constructor.
  - by repeat constructor.
  - intros b Hb. constructor; [|constructor]. destruct b; (discriminate Hb || by vm_compute).
  - intros s _. apply escape_visible.
  - by apply strings_all.
Qed.

Lemma visible_no_lf l : no_control l → x0a ∉ l.
Proof. intros Hl Hin. unfold no_control in Hl. rewrite Forall_forall in Hl. by apply Hl in Hin. Qed.

(** *** Length *)

Lemma escape_len s : len (escape s) <= 6 * len s.
Proof.
  unfold escape. induction s as [|b s IH]; [done|]. cbn [mbind list_bind]. autorewrite with len_simpl.
  assert (len (escape_byte b) <= 6) by (destruct b; vm_compute; congruence). lia.
Qed.

(** *** UTF-8 *)

(** One character. *)
Definition utf8_char (c : bytes) : bool :=
  match c with
  | [b0] => u8 b0 <? 128
  | [b0; b1] => in_range 194 223 b0 && cont b1
  | [b0; b1; b2] => in_range 224 239 b0 && second3 b0 b1 && cont b2
  | [b0; b1; b2; b3] => in_range 240 244 b0 && second4 b0 b1 && cont b2 && cont b3
  | _ => false
  end.

Inductive utf8 : bytes → Prop :=
| utf8_nil : utf8 []
| utf8_cons c l : utf8_char c = true → utf8 l → utf8 (c ++ l).

Lemma utf8_of_chars off l : is_ok (utf8_chars off l) = true → utf8 l.
Proof.
  revert off. induction l as [l IH] using list_len_ind. intros off. destruct l as [|b0 l]; [constructor|].
  assert (∀ c k off' (f : list (Z * Z) → list (Z * Z)), b0 :: l = c ++ k → utf8_char c = true →
    is_ok (utf8_chars off' k ≫= (λ cs, mret (f cs))) = true → utf8 (b0 :: l)) as Hrec.
  { intros c k off' f Hl Hc Hok. rewrite Hl. constructor; [done|]. apply (IH k) with off'.
    - rewrite Hl. destruct c; [done|]. cbn. rewrite length_app. lia.
    - by destruct (utf8_chars off' k). }
  cbn [utf8_chars]. destruct (u8 b0 <? 128) eqn:E0; [apply (Hrec [b0] l); done|].
  destruct (in_range 194 223 b0) eqn:E1.
  { destruct l as [|b1 l]; [done|]. destruct (cont b1) eqn:C1; [|done]. apply (Hrec [b0; b1] l); [done|]. cbn. by rewrite E1, C1. }
  destruct (in_range 224 239 b0) eqn:E2.
  { destruct l as [|b1 [|b2 l]]; [done..|]. destruct (second3 b0 b1 && cont b2) eqn:C; [|done].
    apply (Hrec [b0; b1; b2] l); [done|]. cbn. by rewrite E2, <-andb_assoc, C. }
  destruct (in_range 240 244 b0) eqn:E3; [|done].
  destruct l as [|b1 [|b2 [|b3 l]]]; [done..|]. destruct (second4 b0 b1 && cont b2 && cont b3) eqn:C; [|done].
  apply (Hrec [b0; b1; b2; b3] l); [done|]. cbn. rewrite E3. exact C.
Qed.

(** The first bytes of longer characters are in disjoint ranges. *)
Lemma utf8_chars_char c l off : utf8_char c = true → is_ok (utf8_chars (off + len c) l) = true → is_ok (utf8_chars off (c ++ l)) = true.
Proof.
  assert (∀ (r : result Z (list (Z * Z))) (f : list (Z * Z) → list (Z * Z)),
    is_ok (r ≫= (λ cs, mret (f cs))) = is_ok r) as Hbind by (by intros []).
  intros Hc Hl. destruct c as [|b0 [|b1 [|b2 [|b3 [|]]]]]; try done; cbn in Hc; cbn [app utf8_chars].
  - by rewrite Hc, Hbind.
  - apply andb_true_iff in Hc as [H0 H1]. replace (u8 b0 <? 128) with false by (unfold in_range in H0; lia).
    by rewrite H0, H1, Hbind.
  - rewrite <-andb_assoc in Hc. apply andb_true_iff in Hc as [H0 H1].
    replace (u8 b0 <? 128) with false by (unfold in_range in H0; lia).
    replace (in_range 194 223 b0) with false by (unfold in_range in *; lia). by rewrite H0, H1, Hbind.
  - rewrite <-!andb_assoc in Hc. apply andb_true_iff in Hc as [H0 H1]. rewrite andb_assoc in H1.
    replace (u8 b0 <? 128) with false by (unfold in_range in H0; lia).
    replace (in_range 194 223 b0) with false by (unfold in_range in *; lia).
    replace (in_range 224 239 b0) with false by (unfold in_range in *; lia). by rewrite H0, H1, Hbind.
Qed.

Lemma utf8_from_utf8 l : from_utf8 l = Ok l ↔ utf8 l.
Proof.
  unfold from_utf8, char_indices. split.
  - intros H. apply (utf8_of_chars 0). by destruct (utf8_chars 0 l).
  - intros Hl. assert (∀ off, is_ok (utf8_chars off l) = true) as Hok.
    { induction Hl as [|c l Hc _ IH]; intros off; [done|]. by apply utf8_chars_char. }
    specialize (Hok 0). by destruct (utf8_chars 0 l).
Qed.

Lemma utf8_app l1 l2 : utf8 l1 → utf8 l2 → utf8 (l1 ++ l2).
Proof. induction 1 as [|c l Hc _ IH]; [done|]. intros H2. rewrite <-(assoc_L (++)). constructor; auto. Qed.

Lemma utf8_ascii l : Forall (λ b, u8 b < 128) l → utf8 l.
Proof. intros Hl. apply utf8_from_utf8, from_utf8_ascii, Hl. Qed.

Lemma escape_byte_big b : 128 <= u8 b → escape_byte b = [b].
Proof. destruct b; try reflexivity; vm_compute; congruence. Qed.

Lemma utf8_char_big c : utf8_char c = true → (2 <= length c)%nat → Forall (λ b, 128 <= u8 b) c.
Proof.
  intros Hc Hl. destruct c as [|b0 [|b1 [|b2 [|b3 [|]]]]]; cbn in Hl, Hc; try lia; try done;
    unfold second3, second4, cont, in_range in Hc; repeat case_decide; repeat constructor; lia.
Qed.

Lemma escape_app a b : escape (a ++ b) = escape a ++ escape b.
Proof. apply bind_app. Qed.

Lemma escape_utf8 s : utf8 s → utf8 (escape s).
Proof.
  induction 1 as [|c l Hc _ IH]; [constructor|]. rewrite escape_app. apply utf8_app; [|done].
  destruct (decide (2 <= length c)%nat) as [Hl|Hl].
  - assert (escape c = c) as ->; [|rewrite <-(app_nil_r c); constructor; [done|constructor]].
    pose proof (utf8_char_big c Hc Hl) as HF. clear -HF. unfold escape.
    induction HF as [|b c Hb _ IH]; [done|]. cbn [mbind list_bind]. rewrite escape_byte_big by done. cbn [app]. f_equal. exact IH.
  - destruct c as [|b [|]]; cbn in Hl, Hc; try lia; try done. apply utf8_ascii. unfold escape. cbn. rewrite app_nil_r.
    destruct b; repeat (constructor; [by vm_compute|]); try constructor; discriminate Hc.
Qed.

Lemma json_pretty_utf8 depth v : printable depth v = true → strings utf8 v → utf8 (json_pretty v).
Proof.
  intros Hp Hs. apply (Q_render utf8 utf8_nil utf8_app) with (str_ok := utf8) (depth := depth); try done.
  - intros d. apply utf8_ascii. constructor; [by vm_compute|]. apply Forall_replicate. by vm_compute.
  - apply utf8_ascii. by repeat constructor.
  - intros b Hb. apply utf8_ascii. constructor; [|constructor]. destruct b; (discriminate Hb || by vm_compute).
  - apply escape_utf8.
Qed.
