(* ===== verification/Identity.v ===== *)
(** * Validated names: [src/identity.rs] and [src/note.rs]

    [Identity] and [Note] are newtypes over [String] whose only constructor
    is their [parse].  Each is a record around the bytes, its [parse] is the
    source's, and [Identity_ok]/[Note_ok] are the well-formedness predicates
    "holding the value proves the rule was applied". *)

From S2P Require Import Prelude.

(** ** [Identity] *)

Record Identity := MkIdentity { as_str : bytes }.

#[export] Instance Identity_eq_dec : EqDecision Identity.
Proof. solve_decision. Defined.
#[export] Instance Identity_countable : Countable Identity.
Proof. by refine (inj_countable' as_str MkIdentity _); intros []. Defined.

Inductive IdentityError :=
| IdentityBadLen (got : Z)
| IdentityBadCharset (offset : Z) (byte : byte).

Definition Identity_MAX_LEN : Z := 64.

(** The charset [[A-Za-z0-9._-]]. *)
Definition identity_byte (b : byte) : bool :=
  is_ascii_alphanumeric b || bool_decide (b ∈ [x2e; x5f; x2d]).

Definition Identity_parse (s : bytes) : result IdentityError Identity :=
  if (len s =? 0) || (Identity_MAX_LEN <? len s) then Err (IdentityBadLen (len s))
  else match find_byte (λ b, negb (identity_byte b)) s with
       | Some (offset, byte) => Err (IdentityBadCharset offset byte)
       | None => Ok (MkIdentity s)
       end.

(** ** [Note] *)

Record Note := MkNote { note_str : bytes }.

Inductive NoteError :=
| NoteBadLen (got : Z)
| NoteBadControl (offset : Z) (ch : Z).

Definition Note_MAX_LEN : Z := 256.

(** [find] over [char_indices]. *)
Fixpoint find_control (cs : list (Z * Z)) : option (Z * Z) :=
  match cs with
  | [] => None
  | (off, c) :: cs' => if is_control c then Some (off, c) else find_control cs'
  end.

(** The argument is a [&str], that is, valid UTF-8; [str_chars] is its
    [char_indices()]. *)
Definition str_chars (s : bytes) : list (Z * Z) := default [] (ok (char_indices s)).

Definition Note_parse (s : bytes) : result NoteError Note :=
  if (len s =? 0) || (Note_MAX_LEN <? len s) then Err (NoteBadLen (len s))
  else match find_control (str_chars s) with
       | Some (offset, ch) => Err (NoteBadControl offset ch)
       | None => Ok (MkNote s)
       end.

(** ** The rules as predicates *)

Definition Identity_ok (id : Identity) : Prop :=
  1 <= len (as_str id) <= Identity_MAX_LEN ∧
  Forall (λ b, identity_byte b = true) (as_str id).

Definition Note_ok (n : Note) : Prop :=
  1 <= len (note_str n) <= Note_MAX_LEN ∧
  from_utf8 (note_str n) = Ok (note_str n) ∧
  Forall (λ c, is_control c.2 = false) (str_chars (note_str n)).

#[export] Instance Identity_ok_dec id : Decision (Identity_ok id).
Proof. unfold Identity_ok. apply _. Defined.

#[export] Instance utf8_dec (b : bytes) : Decision (from_utf8 b = Ok b).
Proof.
  refine (match from_utf8 b as r return Decision (r = Ok b) with
          | Ok x => match decide (x = b) with left e => left _ | right n => right _ end
          | Err _ => right _
          end); congruence.
Defined.

#[export] Instance Note_ok_dec n : Decision (Note_ok n).
Proof. unfold Note_ok. apply _. Defined.

(** ** Lemmas *)

Lemma Identity_parse_Ok s id :
  Identity_parse s = Ok id ↔ id = MkIdentity s ∧ Identity_ok (MkIdentity s).
Proof.
  unfold Identity_parse, Identity_ok; simpl. pose proof (len_nonneg s).
  destruct (_ || _) eqn:E; [naive_solver lia|].
  destruct (find_byte _ s) as [[i b]|] eqn:F.
  - split; [done|]. intros (_ & _ & H2).
    apply find_byte_Some in F as (l1 & l2 & -> & _ & Hb & _).
    apply Forall_app in H2 as [_ H2]. apply Forall_cons in H2 as [H2 _].
    by rewrite H2 in Hb.
  - apply find_byte_None in F. split.
    + intros [= <-]. split_and!; [done|lia..|]. eapply Forall_impl; [done|].
      intros b Hb. simpl in Hb. by destruct (identity_byte b).
    + by intros [-> _].
Qed.

Lemma Identity_parse_ok id : Identity_ok id → Identity_parse (as_str id) = Ok id.
Proof. intros H. apply Identity_parse_Ok. by destruct id. Qed.
#[export] Hint Resolve Identity_parse_ok : sym.

Lemma identity_byte_ascii b : identity_byte b = true → u8 b < 128.
Proof. byte_cases b. Qed.

(** Bytes the line-oriented formats give a meaning to are not in an identity. *)
Lemma identity_byte_sep b :
  identity_byte b = true → b ∉ [x0a; x0d; x00; x3a; x20; x2f; x3d].
Proof. intros H. eapply bool_decide_eq_false_1. revert H. byte_cases b. Qed.

Lemma Identity_ok_no id c :
  Identity_ok id → identity_byte c = false → c ∉ as_str id.
Proof.
  intros [_ H] Hc Hin. rewrite Forall_forall in H. apply H in Hin. congruence.
Qed.

Lemma Identity_ok_utf8 id : Identity_ok id → from_utf8 (as_str id) = Ok (as_str id).
Proof.
  intros [_ H]. apply from_utf8_ascii. eapply Forall_impl; [done|].
  apply identity_byte_ascii.
Qed.
#[export] Hint Resolve Identity_ok_utf8 : sym.

Lemma find_control_None cs :
  find_control cs = None ↔ Forall (λ c, is_control c.2 = false) cs.
Proof.
  induction cs as [|[o c] cs IH]; simpl; [by split|].
  rewrite Forall_cons, <-IH. simpl. destruct (is_control c); naive_solver.
Qed.

(** ** Properties *)

(** [Identity::parse] accepts a string exactly when it has 1 to 64 bytes
    of the charset [A-Za-z0-9._-], and wraps it unchanged; every rejection is
    either the length error with the real length or the charset error naming
    the first byte outside the charset and its offset. *)
Lemma Identity_parse_spec s :
  match Identity_parse s with
  | Ok id => as_str id = s ∧ Identity_ok id
  | Err (IdentityBadLen got) => got = len s ∧ (len s = 0 ∨ Identity_MAX_LEN < len s)
  | Err (IdentityBadCharset offset b) =>
      ∃ l1 l2, s = l1 ++ b :: l2 ∧ len l1 = offset ∧ identity_byte b = false ∧
               Forall (λ c, identity_byte c = true) l1
  end.
Proof.
  destruct (Identity_parse s) as [id|e] eqn:E.
  { by apply Identity_parse_Ok in E as [-> ?]. }
  unfold Identity_parse in E. pose proof (len_nonneg s).
  destruct (_ || _) eqn:L; [simplify_eq; lia|].
  destruct (find_byte _ s) as [[i b]|] eqn:F; simplify_eq.
  apply find_byte_Some in F as (l1 & l2 & -> & <- & Hb & Hl). exists l1, l2.
  split_and!; try done; [by apply negb_true_iff in Hb|].
  eapply Forall_impl; [done|]. intros c Hc. by apply negb_false_iff in Hc.
Qed.

(** On valid UTF-8, [Note::parse] accepts a string exactly when it has 1
    to 256 bytes and none of its characters is a control character, so no
    note can carry the CR, LF or NUL that would inject a line. *)
Lemma Note_parse_spec s n :
  from_utf8 s = Ok s → (Note_parse s = Ok n ↔ n = MkNote s ∧ Note_ok n).
Proof.
  intros Hs. unfold Note_parse, Note_ok. pose proof (len_nonneg s).
  destruct (_ || _) eqn:E.
  { split; [done|]. intros [-> [? _]]. simpl in *. lia. }
  destruct (find_control (str_chars s)) as [[o c]|] eqn:F.
  - split; [done|]. intros [-> (_ & _ & Hno)]. apply find_control_None in Hno.
    simpl in Hno. congruence.
  - apply find_control_None in F. split; [|by intros [-> _]].
    intros [= <-]. split; [done|]. split; [simpl; lia|done].
Qed.

Lemma Note_parse_spec_witness :
  Note_parse (B "provisioned 2026-05-01") = Ok (MkNote (B "provisioned 2026-05-01"))
  ∧ Note_ok (MkNote (B "provisioned 2026-05-01")).
Proof.
  assert (Note_parse (B "provisioned 2026-05-01") = Ok (MkNote (B "provisioned 2026-05-01")))
    as H by reflexivity.
  split; [exact H|].
  exact (proj2 (proj1 (Note_parse_spec (B "provisioned 2026-05-01") _ eq_refl) H)).
Defined.
