(* ===== verification/Psk.v ===== *)
(** * Keys and the PSK store: [src/psk.rs], [src/broker_key.rs], [src/psk_store.rs]

    The [hex] crate is outside the repository, so the hex codec is the class
    [HexCodec]: the two functions the sources call and the documented laws
    they rely on.  [hex_model] is a concrete codec that satisfies the laws. *)

From S2P Require Import Prelude Identity.

(** ** The hex codec *)

(** [hex_encode] is [hex::encode_to_slice] (lowercase output);
    [hex_decode n h] is [hex::decode_to_slice(h, &mut [0; n])]. *)
Class HexCodec := {
  FromHexError : Type;
  hex_encode : bytes → bytes;
  hex_decode : Z → bytes → result FromHexError bytes;
}.

Definition lower_hex (b : byte) : bool := in_range 48 57 b || in_range 97 102 b.

Class HexLaws `{!HexCodec} : Prop := {
  hex_encode_len b : len (hex_encode b) = 2 * len b;
  hex_encode_charset b : Forall (λ c, lower_hex c = true) (hex_encode b);
  hex_decode_encode b : hex_decode (len b) (hex_encode b) = Ok b;
  hex_decode_Ok n h b : hex_decode n h = Ok b → len b = n ∧ len h = 2 * n;
}.

(** ** [Psk], [BrokerPrivateKey], [BrokerPublicKey] *)

Definition Psk_LEN : Z := 32.
Definition Psk_HEX_LEN : Z := Psk_LEN * 2.
Definition BrokerPrivateKey_LEN : Z := 32.

Record Psk := MkPsk { psk_bytes : bytes }.
Record BrokerPrivateKey := MkBrokerPrivateKey { priv_bytes : bytes }.
Record BrokerPublicKey := MkBrokerPublicKey { pub_bytes : bytes }.

#[export] Instance Psk_eq_dec : EqDecision Psk.
Proof. solve_decision. Defined.

(** [[u8; 32]]: the length the array type enforces. *)
Definition Psk_ok (p : Psk) : Prop := len (psk_bytes p) = Psk_LEN.

Section codec.
Context {HX : HexCodec}.

Definition Psk_from_hex (h : bytes) : result FromHexError Psk :=
  MkPsk <$> hex_decode Psk_LEN h.

(** [{:x}] *)
Definition Psk_lower_hex (p : Psk) : bytes := hex_encode (psk_bytes p).

Definition BrokerPrivateKey_from_hex (h : bytes) : result FromHexError BrokerPrivateKey :=
  MkBrokerPrivateKey <$> hex_decode BrokerPrivateKey_LEN h.

Definition BrokerPublicKey_from_hex (h : bytes) : result FromHexError BrokerPublicKey :=
  MkBrokerPublicKey <$> hex_decode BrokerPrivateKey_LEN h.

(** [Display] *)
Definition BrokerPublicKey_to_string (k : BrokerPublicKey) : bytes := hex_encode (pub_bytes k).

(** ** [PskStore] *)

Inductive PskStoreError :=
| PskUtf8 (valid_up_to : Z)
| PskMissingSeparator (line : Z)
| PskBadIdentity (line : Z) (source : IdentityError)
| PskBadPskHex (line : Z) (source : FromHexError)
| PskDuplicateIdentity (line : Z) (identity : Identity).

Record PskStore := MkPskStore { entries : gmap Identity Psk }.

Definition PskStore_new : PskStore := MkPskStore ∅.

Definition is_crlf (b : byte) : bool := bool_decide (b ∈ [x0d; x0a]).

(** One iteration of the loop of [PskStore::parse] at line [line_no]. *)
Definition PskStore_parse_line (line_no : Z) (raw : bytes) (m : gmap Identity Psk) :
    result PskStoreError (gmap Identity Psk) :=
  let line := trim_end_matches is_crlf raw in
  if decide (line = []) then Ok m
  else
    '(id_str, hex) ← ok_or (PskMissingSeparator line_no) (split_once x3a line);
    id ← map_err (PskBadIdentity line_no) (Identity_parse id_str);
    psk ← map_err (PskBadPskHex line_no) (Psk_from_hex hex);
    match m !! id with
    | Some _ => Err (PskDuplicateIdentity line_no id)
    | None => Ok (<[id := psk]> m)
    end.

Fixpoint PskStore_parse_lines (idx : Z) (ls : list bytes) (m : gmap Identity Psk) :
    result PskStoreError (gmap Identity Psk) :=
  match ls with
  | [] => Ok m
  | raw :: ls' =>
      m' ← PskStore_parse_line (idx + 1) raw m;
      PskStore_parse_lines (idx + 1) ls' m'
  end.

Definition PskStore_parse (text : bytes) : result PskStoreError PskStore :=
  MkPskStore <$> PskStore_parse_lines 0 (lines text) ∅.

Definition PskStore_lookup (s : PskStore) (id : Identity) : option Psk := entries s !! id.

Definition PskStore_insert (s : PskStore) (id : Identity) (p : Psk) : PskStore :=
  MkPskStore (<[id := p]> (entries s)).

(** The store afterwards and whether anything was removed. *)
Definition PskStore_remove (s : PskStore) (id : Identity) : PskStore * bool :=
  (MkPskStore (delete id (entries s)), bool_decide (is_Some (entries s !! id))).

(** [writeln!(out, "{k}:{psk:x}")] *)
Definition render_line (kv : Identity * Psk) : bytes :=
  as_str kv.1 ++ x3a :: Psk_lower_hex kv.2.

(** [HashMap] iteration yields the entries in an unspecified order: [iter]
    is that order, a permutation of the entries. *)
Definition PskStore_render (iter : list (Identity * Psk)) : bytes :=
  concat (map (λ kv, render_line kv ++ [x0a]) iter).

(** Well-formed store: the keys obey the identity rule, the values are 32
    bytes long. *)
Definition PskStore_ok (s : PskStore) : Prop :=
  map_Forall (λ id p, Identity_ok id ∧ Psk_ok p) (entries s).

(** What a non-blank line of the file says. *)
Definition line_says (line : bytes) (kv : Identity * Psk) : Prop :=
  ∃ hex, line = as_str kv.1 ++ x3a :: hex ∧ Identity_ok kv.1 ∧ Psk_from_hex hex = Ok kv.2.

Definition psk_lines (text : bytes) : list bytes :=
  filter (λ l, l ≠ []) (map (trim_end_matches is_crlf) (lines text)).

End codec.

(** ** A concrete codec *)

Inductive FromHexErrorModel :=
| OddLength
| InvalidStringLength
| InvalidHexCharacter (c : byte).

Definition hex_digit (n : Z) : byte := as_u8 (if n <? 10 then 48 + n else 87 + n).

Definition hex_value (b : byte) : option Z :=
  if in_range 48 57 b then Some (u8 b - 48)
  else if in_range 97 102 b then Some (u8 b - 87)
  else if in_range 65 70 b then Some (u8 b - 55)
  else None.

Fixpoint hex_encode_model (l : bytes) : bytes :=
  match l with
  | [] => []
  | b :: l' => hex_digit (u8 b / 16) :: hex_digit (u8 b mod 16) :: hex_encode_model l'
  end.

Fixpoint hex_pairs (l : bytes) : result FromHexErrorModel bytes :=
  match l with
  | [] => Ok []
  | [_] => Err OddLength
  | h :: w :: l' =>
      x ← ok_or (InvalidHexCharacter h) (hex_value h);
      y ← ok_or (InvalidHexCharacter w) (hex_value w);
      r ← hex_pairs l';
      mret (as_u8 (x * 16 + y) :: r)
  end.

Definition hex_decode_model (n : Z) (h : bytes) : result FromHexErrorModel bytes :=
  if Z.odd (len h) then Err OddLength
  else if negb (len h =? 2 * n) then Err InvalidStringLength
  else hex_pairs h.

Definition hex_model : HexCodec :=
  {| FromHexError := FromHexErrorModel;
     hex_encode := hex_encode_model;
     hex_decode := hex_decode_model |}.

Lemma hex_digit_hi b : hex_value (hex_digit (u8 b / 16)) = Some (u8 b / 16).
Proof. byte_cases b. Qed.
Lemma hex_digit_lo b : hex_value (hex_digit (u8 b mod 16)) = Some (u8 b mod 16).
Proof. byte_cases b. Qed.
Lemma hex_digits_lower b :
  lower_hex (hex_digit (u8 b / 16)) = true ∧ lower_hex (hex_digit (u8 b mod 16)) = true.
Proof. byte_cases b. Qed.

Lemma hex_encode_model_len b : len (hex_encode_model b) = 2 * len b.
Proof. induction b as [|x b IH]; simpl; [done|]. autorewrite with len_simpl. lia. Qed.

Lemma hex_pairs_encode b : hex_pairs (hex_encode_model b) = Ok b.
Proof.
  induction b as [|x b IH]; [done|]. cbn [hex_encode_model hex_pairs].
  rewrite hex_digit_hi, hex_digit_lo. cbn. rewrite IH. cbn. do 2 f_equal.
  rewrite (Z.mul_comm _ 16), <-Z.div_mod by lia. apply as_u8_u8.
Qed.

Lemma hex_pairs_len h b : hex_pairs h = Ok b → len h = 2 * len b.
Proof.
  revert b. induction h as [h IH] using list_len_ind. intros b.
  destruct h as [|x [|y h]]; cbn [hex_pairs]; intros H; inv_ok; [done|].
  match goal with H : hex_pairs _ = Ok _ |- _ => apply IH in H; [|simpl; lia] end.
  autorewrite with len_simpl. lia.
Qed.

#[export] Instance hex_model_laws : @HexLaws hex_model.
Proof.
  split; cbn.
  - apply hex_encode_model_len.
  - intros b. induction b as [|x b IH]; simpl; [done|].
    destruct (hex_digits_lower x). by repeat constructor.
  - intros b. unfold hex_decode_model. rewrite hex_encode_model_len, Z.odd_mul, Z.eqb_refl.
    apply hex_pairs_encode.
  - intros n h b. unfold hex_decode_model. repeat case_match; try done.
    intros H'%hex_pairs_len. apply negb_false_iff in H0. lia.
Qed.

(** ** Lemmas about the text format *)

Lemma lines_terminated ps :
  Forall (λ p, x0a ∉ p) ps →
  lines (concat (map (λ p, p ++ [x0a]) ps)) = map strip_cr ps.
Proof.
  unfold lines. induction ps as [|p ps IH]; intros Hps; [done|].
  apply Forall_cons in Hps as [Hp Hps]. simpl. rewrite <-(assoc_L (++)). simpl.
  rewrite split_on_app by done. specialize (IH Hps).
  remember (concat (map (λ p, p ++ [x0a]) ps)) as rest.
  pose proof (split_on_nonempty x0a rest).
  destruct (split_on x0a rest); [done|]. simpl in *. by rewrite IH.
Qed.

Lemma drop_while_hd p (l : bytes) :
  (∀ b, head l = Some b → p b = false) → drop_while p l = l.
Proof. destruct l as [|b l]; simpl; intros H; [done|]. by rewrite H. Qed.

Lemma trim_end_id p (l : bytes) :
  Forall (λ b, p b = false) l → trim_end_matches p l = l.
Proof.
  intros H. unfold trim_end_matches. rewrite drop_while_hd; [apply reverse_involutive|].
  intros b Hb. apply head_Some_elem_of in Hb.
  rewrite elem_of_reverse in Hb. rewrite Forall_forall in H. by apply H.
Qed.

Lemma strip_cr_id (l : bytes) : x0d ∉ l → strip_cr l = l.
Proof.
  intros H. unfold strip_cr. destruct (strip_suffix [x0d] l) as [k|] eqn:E; [|done].
  apply strip_suffix_Some in E as ->. set_solver.
Qed.

(** ** The store against its file format *)

Section store.
Context {HX : HexCodec}.

Lemma line_says_split line kv :
  line_says line kv →
  ∃ hex, split_once x3a line = Some (as_str kv.1, hex) ∧
         Identity_parse (as_str kv.1) = Ok kv.1 ∧ Psk_from_hex hex = Ok kv.2.
Proof.
  intros (hex & -> & Hid & Hp). exists hex. split_and!; auto with sym.
  apply split_once_Some. split; [done|]. by eapply Identity_ok_no.
Qed.

Lemma PskStore_parse_line_Ok n raw m m' :
  PskStore_parse_line n raw m = Ok m' ↔
  let line := trim_end_matches is_crlf raw in
  (line = [] ∧ m' = m) ∨
  (line ≠ [] ∧ ∃ kv, line_says line kv ∧ m !! kv.1 = None ∧ m' = <[kv.1 := kv.2]> m).
Proof.
  unfold PskStore_parse_line. cbn zeta. case_decide as Hl; [naive_solver|]. split.
  - intros H. inv_ok. case_match; inv_ok. right. split; [done|].
    match goal with Hs : split_once _ _ = _ |- _ => apply split_once_Some in Hs as [-> _] end.
    match goal with Hi : Identity_parse _ = _ |- _ => apply Identity_parse_Ok in Hi as [-> Hok] end.
    eexists (MkIdentity _, _). split_and!; [|done..]. by eexists.
  - intros [[? _]|(_ & kv & Hs & Hm & ->)]; [done|].
    apply line_says_split in Hs as (hex & -> & Hid & Hp). cbn.
    rewrite Hid. cbn. rewrite Hp. cbn. by rewrite Hm.
Qed.

Lemma PskStore_parse_lines_Ok idx ls m m' :
  PskStore_parse_lines idx ls m = Ok m' ↔
  ∃ kvs, Forall2 line_says (filter (λ l, l ≠ []) (map (trim_end_matches is_crlf) ls)) kvs ∧
         NoDup kvs.*1 ∧ (∀ k, k ∈ kvs.*1 → m !! k = None) ∧ m' = list_to_map kvs ∪ m.
Proof.
  revert idx m m'. induction ls as [|raw ls IH]; intros idx m m'; cbn [PskStore_parse_lines map].
  { split.
    - intros [= <-]. exists []. split_and!; [by apply Forall2_nil|by apply NoDup_nil| |by rewrite list_to_map_nil, (left_id_L ∅ (∪))]. set_solver.
    - intros (kvs & H & _ & _ & ->). apply Forall2_nil_inv_l in H as ->.
      by rewrite list_to_map_nil, (left_id_L ∅ (∪)). }
  rewrite bind_Ok. setoid_rewrite PskStore_parse_line_Ok. cbn zeta. rewrite filter_cons.
  case_decide as Hl.
  - split.
    + intros (m1 & [[? _]|(_ & [k p] & Hs & Hm & ->)] & Hr); [done|]. simpl fst in *. simpl snd in *.
      apply IH in Hr as (kvs & Hf & Hnd & Hfr & ->). exists ((k, p) :: kvs).
      assert (k ∉ kvs.*1) as Hk. { intros Hk%Hfr. by rewrite lookup_insert_eq in Hk. }
      split_and!; [by constructor|by constructor| |].
      * intros k'. rewrite fmap_cons, elem_of_cons. intros [->|Hk']; [done|].
        specialize (Hfr _ Hk'). rewrite lookup_insert_ne in Hfr; [done|]. by intros ->.
      * cbn. rewrite <-insert_union_l, insert_union_r; [done|].
        by apply not_elem_of_list_to_map.
    + intros (kvs & Hf & Hnd & Hfr & ->).
      apply Forall2_cons_inv_l in Hf as ([k p] & kvs' & Hs & Hf & ->).
      cbn in Hnd. apply NoDup_cons in Hnd as [Hk Hnd].
      exists (<[k := p]> m). split.
      { right. split; [done|]. exists (k, p). split_and!; [done| |done]. apply Hfr. set_solver. }
      apply IH. exists kvs'. split_and!; [done|done| |].
      * intros k' Hk'. rewrite lookup_insert_ne by (by intros ->). apply Hfr. set_solver.
      * cbn. rewrite <-insert_union_l, insert_union_r; [done|].
        by apply not_elem_of_list_to_map.
  - split.
    + intros (m1 & [[_ ->]|(? & _)] & Hr); [|done]. by apply IH in Hr.
    + intros Hr. exists m. split; [|by apply IH]. by left.
Qed.

Lemma PskStore_insert_ok s id p :
  PskStore_ok s → Identity_ok id → Psk_ok p → PskStore_ok (PskStore_insert s id p).
Proof. intros. by apply map_Forall_insert_2. Qed.

Lemma PskStore_remove_ok s id : PskStore_ok s → PskStore_ok (PskStore_remove s id).1.
Proof. intros. by apply map_Forall_delete. Qed.

Context {HXL : HexLaws}.

Lemma Psk_from_hex_ok h p : Psk_from_hex h = Ok p → Psk_ok p.
Proof.
  unfold Psk_from_hex. destruct (hex_decode Psk_LEN h) as [b|] eqn:E; cbn; intros [= <-].
  by apply hex_decode_Ok in E as [? _].
Qed.

Lemma Psk_hex_roundtrip p : Psk_ok p → Psk_from_hex (Psk_lower_hex p) = Ok p.
Proof.
  intros H. unfold Psk_from_hex, Psk_lower_hex. rewrite <-H, hex_decode_encode. by destruct p.
Qed.

Lemma lower_hex_sep b : lower_hex b = true → b ∉ [x0a; x0d; x3a].
Proof. intros H. eapply bool_decide_eq_false_1. revert H. byte_cases b. Qed.

Lemma Psk_hex_no p c : c ∈ [x0a; x0d; x3a] → c ∉ Psk_lower_hex p.
Proof.
  intros Hc Hin. pose proof (hex_encode_charset (psk_bytes p)) as H.
  rewrite Forall_forall in H. apply H, lower_hex_sep in Hin. done.
Qed.

Lemma render_line_no kv c :
  Identity_ok kv.1 → c ∈ [x0a; x0d] → c ∉ render_line kv.
Proof.
  intros Hid Hc. unfold render_line. rewrite elem_of_app, elem_of_cons.
  intros [Hin|[->|Hin]].
  - destruct Hid as [_ Hid]. rewrite Forall_forall in Hid.
    apply Hid, identity_byte_sep in Hin. set_solver.
  - set_solver.
  - eapply Psk_hex_no; [|done]. set_solver.
Qed.

Lemma psk_lines_render iter :
  Forall (λ kv, Identity_ok kv.1) iter → psk_lines (PskStore_render iter) = map render_line iter.
Proof.
  intros Hok. unfold psk_lines, PskStore_render.
  rewrite <-(map_map render_line (λ p, p ++ [x0a])), lines_terminated, map_map, map_map.
  - induction Hok as [|kv iter Hkv _ IH]; [done|]. cbn [map].
    rewrite strip_cr_id by (apply render_line_no; set_solver).
    rewrite trim_end_id.
    + rewrite filter_cons, decide_True by (unfold render_line; by destruct (as_str kv.1)).
      by rewrite IH.
    + apply Forall_forall. intros b Hb. apply bool_decide_eq_false. intros Hc.
      eapply render_line_no; [done| |done]. set_solver.
  - rewrite Forall_map. eapply Forall_impl; [done|]. intros kv Hkv. apply render_line_no; set_solver.
Qed.

Lemma line_says_render kv : Identity_ok kv.1 → Psk_ok kv.2 → line_says (render_line kv) kv.
Proof. intros. exists (Psk_lower_hex kv.2). split_and!; [done..|]. by apply Psk_hex_roundtrip. Qed.

Lemma PskStore_parse_iff text s :
  PskStore_parse text = Ok s ↔
  ∃ kvs, Forall2 line_says (psk_lines text) kvs ∧ NoDup kvs.*1 ∧ entries s = list_to_map kvs.
Proof.
  unfold PskStore_parse, psk_lines. split.
  - intros H. destruct (PskStore_parse_lines 0 (lines text) ∅) as [m|] eqn:E; [|done].
    injection H as <-. apply PskStore_parse_lines_Ok in E as (kvs & Hf & Hnd & _ & ->).
    exists kvs. by rewrite (right_id_L ∅ (∪)).
  - intros (kvs & Hf & Hnd & Hs).
    assert (PskStore_parse_lines 0 (lines text) ∅ = Ok (entries s)) as ->.
    { apply PskStore_parse_lines_Ok. exists kvs. rewrite (right_id_L ∅ (∪)).
      split_and!; [done..| |done]. intros. apply lookup_empty. }
    by destruct s.
Qed.

Lemma PskStore_parse_render s iter :
  PskStore_ok s → iter ≡ₚ map_to_list (entries s) →
  PskStore_parse (PskStore_render iter) = Ok s.
Proof.
  intros Hok Hp. apply PskStore_parse_iff. exists iter.
  assert (Forall (λ kv, Identity_ok kv.1 ∧ Psk_ok kv.2) iter) as Hall.
  { rewrite Hp. apply map_Forall_to_list in Hok. eapply Forall_impl; [done|]. by intros []. }
  assert (NoDup iter.*1) as Hnd by (rewrite Hp; apply NoDup_fst_map_to_list).
  split_and!; [|done|].
  - rewrite psk_lines_render by (eapply Forall_impl; [done|naive_solver]).
    apply Forall2_fmap_l, Forall_Forall2_diag. eapply Forall_impl; [done|].
    intros kv [??]. by apply line_says_render.
  - rewrite (list_to_map_proper iter (map_to_list (entries s)) Hnd Hp).
    symmetry. apply list_to_map_to_list.
Qed.

(** ** Properties *)

(** The PSK file format is what the documentation says.  [PskStore::parse]
    accepts a text exactly when each non-blank line reads
    [identity:64 hex digits] with a valid identity and no identity occurs
    twice, and the store it returns is exactly that table. *)
Theorem PskStore_parse_spec text s :
  PskStore_parse text = Ok s ↔
  ∃ kvs, Forall2 line_says (psk_lines text) kvs ∧ NoDup kvs.*1 ∧ entries s = list_to_map kvs.
Proof. apply PskStore_parse_iff. Qed.

(** Rendering a store and parsing the text gives the store back, whatever
    order the hash map is iterated in. *)
Theorem PskStore_roundtrip s iter :
  PskStore_ok s → iter ≡ₚ map_to_list (entries s) →
  PskStore_parse (PskStore_render iter) = Ok s.
Proof. apply PskStore_parse_render. Qed.

(** A store that comes out of [parse] is well formed: every key obeys the
    identity rule and every PSK is 32 bytes. *)
Lemma PskStore_parse_ok text s : PskStore_parse text = Ok s → PskStore_ok s.
Proof.
  intros (kvs & Hf & Hnd & He)%PskStore_parse_iff. unfold PskStore_ok. rewrite He.
  intros id p Hl. apply elem_of_list_to_map_2 in Hl.
  apply (Forall2_Forall_r _ (λ kv, Identity_ok kv.1 ∧ Psk_ok kv.2)) in Hf.
  - rewrite Forall_forall in Hf. by apply Hf in Hl.
  - apply Forall_true. intros line kv (hex & _ & ? & Hp). split; [done|].
    by eapply Psk_from_hex_ok.
Qed.

End store.

(** ** Witnesses *)

Definition demo_psk : Psk := MkPsk (replicate 32 xaa).
Definition demo_id : Identity := MkIdentity (B "dev-vm-1").
Definition demo_store : PskStore := MkPskStore {[ demo_id := demo_psk ]}.

Lemma demo_store_ok : PskStore_ok demo_store.
Proof.
  apply map_Forall_singleton. split; [|done]. by refine (bool_decide_unpack (Identity_ok demo_id) _).
Qed.

Lemma PskStore_roundtrip_witness :
  @PskStore_parse hex_model (@PskStore_render hex_model (map_to_list (entries demo_store)))
  = Ok demo_store.
Proof.
  apply (@PskStore_roundtrip hex_model hex_model_laws demo_store _); [|reflexivity].
  exact demo_store_ok.
Defined.

Lemma PskStore_parse_ok_witness : PskStore_ok demo_store.
Proof.
  apply (@PskStore_parse_ok hex_model hex_model_laws
    (@PskStore_render hex_model [(demo_id, demo_psk)])).
  vm_compute. reflexivity.
Defined.
