(* ===== verification/GitCredential.v ===== *)
(** * The git-credential protocol: [src/git_credential.rs]

    [Request_parse] is the request parser, one definition per part of its
    body; [Response_new] and [Response_encode] validate and emit the answer. *)

From S2P Require Import Prelude.

(** ** Data *)

Record Request := MkRequest {
  protocol : bytes;
  host : bytes;
  path : bytes;
  client_supports_authtype : bool;
}.

Record Response := MkResponse {
  username : bytes;
  password : bytes;
  password_expiry_utc : Z;   (* SystemTime *)
}.

Inductive GitCredentialError :=
| UnterminatedBlock
| TrailingBytes
| MissingSeparator (line_no : Z)
| EmptyKey (line_no : Z)
| EmptyValue (key : bytes)
| DuplicateKey (key : bytes)
| MissingRequiredKey (key : bytes)
| ControlByteInLine (line_no offset : Z) (byte : byte)
| InvalidUtf8 (key : bytes)
| ResponseControlByte (field : bytes)
| PreEpochExpiry
| ValueTooLong (key : bytes) (max : Z)
| RequestTooLarge (max : Z).

(** ** [Response::new] and its helpers *)

Definition is_line_control (b : byte) : bool := bool_decide (b ∈ [x00; x0d; x0a]).

Definition Response_check_field (field value : bytes) : result GitCredentialError () :=
  match find_byte is_line_control value with
  | Some _ => Err (ResponseControlByte field)
  | None => Ok ()
  end.

Definition Response_new (user pass : bytes) (expiry : Z) : result GitCredentialError Response :=
  _ ← Response_check_field (B "username") user;
  _ ← Response_check_field (B "password") pass;
  if expiry <? 0 then Err PreEpochExpiry else Ok (MkResponse user pass expiry).

(** [duration_since(UNIX_EPOCH).expect(..).as_secs()]: [None] is the panic of
    the [expect]. *)
Definition password_expiry_unix_secs (r : Response) : option Z :=
  if password_expiry_utc r <? 0 then None else Some (as_secs (password_expiry_utc r)).

(** ** [Response::encode]: the bytes appended to [out]; [None] is a panic. *)
Definition Response_encode (r : Response) (client_supports_authtype : bool) (out : bytes) :
    option bytes :=
  expiry_secs ← password_expiry_unix_secs r;
  let out := if client_supports_authtype then out ++ B "capability[]=authtype" ++ [x0a] else out in
  let out := out ++ B "username=" ++ username r ++ [x0a] in
  let out := out ++ B "password=" ++ password r ++ [x0a] in
  let out := if client_supports_authtype then out ++ B "ephemeral=true" ++ [x0a] else out in
  Some (out ++ B "password_expiry_utc=" ++ show_u64 expiry_secs ++ [x0a; x0a]).

(** ** [Request::parse] *)

Definition MAX_VALUE_BYTES : Z := 4 * 1024.
Definition PARSER_HARD_MAX : Z := 64 * 1024.

(** [input.windows(2).position(|w| w == b"\n\n")] *)
Fixpoint find_blank (l : bytes) : option Z :=
  match l with
  | b :: (c :: _) as l' =>
      if decide (b = x0a ∧ c = x0a) then Some 0
      else match find_blank l' with Some i => Some (i + 1) | None => None end
  | _ => None
  end.

Definition block_end (input : bytes) : result GitCredentialError Z :=
  match find_blank input with
  | Some pos => if pos + 2 <? len input then Err TrailingBytes else Ok pos
  | None =>
      if decide (last input = Some x0a) then Ok (len input - 1) else Err UnterminatedBlock
  end.

(** The four local variables the loop updates. *)
Record Slots := MkSlots {
  s_protocol : option bytes;
  s_host : option bytes;
  s_path : option bytes;
  s_authtype : bool;
}.

Definition is_cr_nul (b : byte) : bool := bool_decide (b ∈ [x00; x0d]).

(** The checks on a recognised key's value, in the source's order. *)
Definition fill_slot (key : bytes) (slot : option bytes) (value : bytes) :
    result GitCredentialError (option bytes) :=
  match slot with
  | Some _ => Err (DuplicateKey key)
  | None =>
      if MAX_VALUE_BYTES <? len value then Err (ValueTooLong key MAX_VALUE_BYTES)
      else if decide (value = []) then Err (EmptyValue key)
      else v ← map_err (λ _, InvalidUtf8 key) (from_utf8 value); Ok (Some v)
  end.

Definition parse_request_line (line_no : Z) (line : bytes) (s : Slots) :
    result GitCredentialError Slots :=
  match find_byte is_cr_nul line with
  | Some (offset, byte) => Err (ControlByteInLine line_no offset byte)
  | None =>
      '(key, value) ← ok_or (MissingSeparator line_no) (split_once x3d line);
      if decide (key = []) then Err (EmptyKey line_no)
      else if decide (key = B "capability[]") then
        Ok (if decide (value = []) then MkSlots (s_protocol s) (s_host s) (s_path s) false
            else if decide (value = B "authtype")
            then MkSlots (s_protocol s) (s_host s) (s_path s) true
            else s)
      else if decide (key = B "protocol") then
        o ← fill_slot (B "protocol") (s_protocol s) value;
        Ok (MkSlots o (s_host s) (s_path s) (s_authtype s))
      else if decide (key = B "host") then
        o ← fill_slot (B "host") (s_host s) value;
        Ok (MkSlots (s_protocol s) o (s_path s) (s_authtype s))
      else if decide (key = B "path") then
        o ← fill_slot (B "path") (s_path s) value;
        Ok (MkSlots (s_protocol s) (s_host s) o (s_authtype s))
      else Ok s
  end.

Fixpoint parse_request_lines (i : Z) (ls : list bytes) (s : Slots) :
    result GitCredentialError Slots :=
  match ls with
  | [] => Ok s
  | line :: ls' =>
      s' ← parse_request_line (i + 1) line s;
      parse_request_lines (i + 1) ls' s'
  end.

Definition finish_request (s : Slots) : result GitCredentialError Request :=
  p ← ok_or (MissingRequiredKey (B "protocol")) (s_protocol s);
  h ← ok_or (MissingRequiredKey (B "host")) (s_host s);
  path_raw ← ok_or (MissingRequiredKey (B "path")) (s_path s);
  q ← match strip_suffix (B ".git") path_raw with
      | Some [] => Err (EmptyValue (B "path"))
      | Some stripped => Ok stripped
      | None => Ok path_raw
      end;
  Ok (MkRequest p h q (s_authtype s)).

Definition Request_parse (input : bytes) : result GitCredentialError Request :=
  if PARSER_HARD_MAX <? len input then Err (RequestTooLarge PARSER_HARD_MAX)
  else
    e ← block_end input;
    let block := take (Z.to_nat e) input in
    s ← parse_request_lines 0 (split_on x0a block) (MkSlots None None None false);
    finish_request s.

(** ** The grammar the parser is compared with *)

Definition unlines (ls : list bytes) : bytes := concat (map (λ l, l ++ [x0a]) ls).

(** A line of the block: no CR, LF or NUL, a non-empty key, a separator. *)
Definition request_line (l : bytes) : Prop :=
  (x0a ∉ l) ∧ (x0d ∉ l) ∧ (x00 ∉ l) ∧ (∃ k v, k ≠ [] ∧ split_once x3d l = Some (k, v)).

(** The values the lines give to [key], in order. *)
Definition values (key : bytes) (ls : list bytes) : list bytes :=
  omap (λ l, match split_once x3d l with
             | Some (k, v) => if decide (k = key) then Some v else None
             | None => None
             end) ls.

Definition value_ok (v : bytes) : Prop :=
  v ≠ [] ∧ len v <= MAX_VALUE_BYTES ∧ from_utf8 v = Ok v.

(** Array semantics of [capability[]]: the empty value resets the flag. *)
Definition cap_step (f : bool) (v : bytes) : bool :=
  if decide (v = []) then false else if decide (v = B "authtype") then true else f.

Definition strip_git (p : bytes) : bytes := default p (strip_suffix (B ".git") p).

(** What it means for a byte string to be the request [r]. *)
Definition is_request (input : bytes) (r : Request) : Prop :=
  len input <= PARSER_HARD_MAX ∧
  ∃ ls raw,
    ls ≠ [] ∧ Forall request_line ls ∧
    (input = unlines ls ∨ input = unlines ls ++ [x0a]) ∧
    values (B "protocol") ls = [protocol r] ∧ value_ok (protocol r) ∧
    values (B "host") ls = [host r] ∧ value_ok (host r) ∧
    values (B "path") ls = [raw] ∧ value_ok raw ∧
    path r = strip_git raw ∧ path r ≠ [] ∧
    client_supports_authtype r = foldl cap_step false (values (B "capability[]") ls).

(** ** Lemmas: blocks and lines *)

Lemma unlines_cons l ls : unlines (l :: ls) = l ++ x0a :: unlines ls.
Proof. unfold unlines. simpl. by rewrite <-(assoc_L (++)). Qed.

Lemma unlines_join ls : ls ≠ [] → unlines ls = join_with x0a ls ++ [x0a].
Proof.
  induction ls as [|l ls IH]; intros Hne; [done|]. rewrite unlines_cons.
  destruct ls as [|l' ls]; [done|]. rewrite IH by done. simpl.
  by rewrite <-(assoc_L (++)).
Qed.

Lemma find_blank_app p rest :
  x0a ∉ p →
  find_blank (p ++ x0a :: rest) =
  if decide (head rest = Some x0a) then Some (len p)
  else (λ i, i + (len p + 1)) <$> find_blank rest.
Proof.
  induction p as [|b p IH]; intros Hp.
  - destruct rest as [|c rest]; [done|]. cbn [app find_blank head].
    destruct (decide (c = x0a)) as [->|Hc].
    + by rewrite !decide_True.
    + rewrite !decide_False by naive_solver. by destruct (find_blank (c :: rest)).
  - assert (b ≠ x0a ∧ x0a ∉ p) as [Hb Hp'] by set_solver.
    replace (find_blank ((b :: p) ++ x0a :: rest))
      with ((λ i, i + 1) <$> find_blank (p ++ x0a :: rest)).
    + rewrite IH by done. rewrite len_cons. case_decide; [done|].
      destruct (find_blank rest); simpl; [|done]. f_equal. lia.
    + destruct (p ++ x0a :: rest) as [|c q] eqn:E; [by destruct p|].
      cbn [app]. rewrite E. cbn [find_blank]. rewrite decide_False by naive_solver.
      by destruct (find_blank (c :: q)).
Qed.

Lemma find_blank_Some l i :
  find_blank l = Some i → ∃ l1 l2, l = l1 ++ x0a :: x0a :: l2 ∧ len l1 = i.
Proof.
  revert i. induction l as [|b l IH]; intros i; [done|].
  destruct l as [|c l]; [done|]. cbn [find_blank]. case_decide as H.
  - intros [= <-]. destruct H as [-> ->]. by exists [], l.
  - change (match l with [] => None | _ => _ end) with (find_blank (c :: l)) in *.
    destruct (find_blank (c :: l)) as [j|]; [|done]. intros [= <-].
    destruct (IH j eq_refl) as (l1 & l2 & -> & <-). exists (b :: l1), l2.
    by rewrite len_cons.
Qed.

Definition plain_line (l : bytes) : Prop := (x0a ∉ l) ∧ l ≠ [].

Lemma head_unlines ls : Forall plain_line ls → head (unlines ls) ≠ Some x0a.
Proof.
  intros Hls. destruct Hls as [|l ls [H1 H2] _]; [done|]. rewrite unlines_cons.
  destruct l; [done|]. simpl. set_solver.
Qed.

(** The first blank line of a well-formed block is the one that ends it. *)
Lemma find_blank_unlines ls :
  Forall plain_line ls → find_blank (unlines ls) = None.
Proof.
  induction 1 as [|l ls [Hl _] Hls IH]; [done|]. rewrite unlines_cons, find_blank_app by done.
  rewrite decide_False by (by apply head_unlines). by rewrite IH.
Qed.

Lemma find_blank_unlines_lf ls :
  ls ≠ [] → Forall plain_line ls →
  find_blank (unlines ls ++ [x0a]) = Some (len (unlines ls) - 1).
Proof.
  intros Hne Hls. induction Hls as [|l ls [Hl _] Hls IH]; [done|].
  rewrite unlines_cons, <-(assoc_L (++)). simpl app. rewrite find_blank_app by done.
  autorewrite with len_simpl. destruct ls as [|l' ls].
  - rewrite decide_True by done. change (unlines []) with ([] : bytes). rewrite len_nil.
    f_equal. lia.
  - rewrite decide_False.
    + rewrite IH by done. simpl. f_equal. lia.
    + apply Forall_cons in Hls as [[H1 H2] _]. rewrite unlines_cons. destruct l'; [done|].
      simpl. set_solver.
Qed.

Lemma last_unlines ls : ls ≠ [] → last (unlines ls) = Some x0a.
Proof. intros. by rewrite unlines_join, last_snoc. Qed.

(** [block_end] cuts the terminator off; what is left splits into the lines. *)
Lemma block_end_lines input e :
  block_end input = Ok e →
  let ls := split_on x0a (take (Z.to_nat e) input) in
  input = unlines ls ∨ input = unlines ls ++ [x0a].
Proof.
  unfold block_end. intros H. cbn zeta.
  rewrite unlines_join by apply split_on_nonempty. rewrite split_on_join.
  destruct (find_blank input) as [pos|] eqn:E.
  - case_match; inv_ok. apply find_blank_Some in E as (l1 & l2 & -> & <-).
    autorewrite with len_simpl in *. pose proof (len_nonneg l2).
    assert (l2 = []) as -> by (apply len_0_iff; lia).
    right. rewrite len_to_nat, take_app_length, <-(assoc_L (++)). done.
  - case_decide as Hl; inv_ok. left. apply last_Some in Hl as [l ->].
    autorewrite with len_simpl. rewrite Z.add_simpl_r, len_to_nat.
    by rewrite take_app_length.
Qed.

Lemma lines_block_end ls input :
  ls ≠ [] → Forall plain_line ls →
  input = unlines ls ∨ input = unlines ls ++ [x0a] →
  ∃ e, block_end input = Ok e ∧ split_on x0a (take (Z.to_nat e) input) = ls.
Proof.
  intros Hne Hls Hin. exists (len (unlines ls) - 1). unfold block_end.
  assert (split_on x0a (join_with x0a ls) = ls) as Hsplit.
  { apply split_on_join_with; [done|]. eapply Forall_impl; [done|]. by intros ? []. }
  assert (len (unlines ls) - 1 = len (join_with x0a ls)) as Hlen.
  { rewrite unlines_join by done. autorewrite with len_simpl. lia. }
  destruct Hin as [->| ->].
  - rewrite find_blank_unlines, decide_True by auto using last_unlines. split; [done|].
    rewrite Hlen, len_to_nat, unlines_join, take_app_length by done. done.
  - rewrite find_blank_unlines_lf by done. autorewrite with len_simpl.
    destruct (_ <? _) eqn:E; [lia|]. split; [done|].
    rewrite Hlen, len_to_nat, unlines_join, <-(assoc_L (++)), take_app_length by done. done.
Qed.

(** ** Lemmas: the loop *)

(** What the lines do to one slot: at most one value, and only to an empty slot. *)
Definition slot_run (o : option bytes) (vs : list bytes) (o' : option bytes) : Prop :=
  match vs with
  | [] => o' = o
  | [v] => o = None ∧ value_ok v ∧ o' = Some v
  | _ => False
  end.

Definition slots_run (s : Slots) (ls : list bytes) (s' : Slots) : Prop :=
  slot_run (s_protocol s) (values (B "protocol") ls) (s_protocol s') ∧
  slot_run (s_host s) (values (B "host") ls) (s_host s') ∧
  slot_run (s_path s) (values (B "path") ls) (s_path s') ∧
  s_authtype s' = foldl cap_step (s_authtype s) (values (B "capability[]") ls).

Lemma fill_slot_Ok key o v o' : fill_slot key o v = Ok o' ↔ slot_run o [v] o'.
Proof.
  unfold fill_slot, slot_run, value_ok. destruct o as [w|]; [naive_solver|].
  destruct (MAX_VALUE_BYTES <? len v) eqn:E; [split; [done|]; naive_solver lia|].
  case_decide; [naive_solver|]. rewrite bind_Ok. setoid_rewrite map_err_Ok. split.
  - intros (a & Ha & [= <-]). pose proof (from_utf8_Ok _ _ Ha) as ->.
    split_and!; [done|done|lia|done..].
  - intros (_ & (_ & _ & Hv) & ->). by exists v.
Qed.

Lemma slot_run_app o vs1 vs2 o' :
  slot_run o (vs1 ++ vs2) o' ↔ ∃ o1, slot_run o vs1 o1 ∧ slot_run o1 vs2 o'.
Proof.
  destruct vs1 as [|v [|v' vs1]]; simpl; [naive_solver| |naive_solver].
  destruct vs2 as [|w vs2]; simpl; [naive_solver|].
  split; [by destruct vs2|]. intros (o1 & (_ & _ & ->) & H). destruct vs2; naive_solver.
Qed.

Lemma values_app key ls1 ls2 : values key (ls1 ++ ls2) = values key ls1 ++ values key ls2.
Proof. apply omap_app. Qed.

Lemma slots_run_app s ls1 ls2 s' :
  slots_run s (ls1 ++ ls2) s' ↔ ∃ s1, slots_run s ls1 s1 ∧ slots_run s1 ls2 s'.
Proof.
  unfold slots_run. rewrite !values_app, !slot_run_app, foldl_app. split.
  - intros ((o1 & ? & ?) & (o2 & ? & ?) & (o3 & ? & ?) & ?).
    by exists (MkSlots o1 o2 o3 (foldl cap_step (s_authtype s) (values (B "capability[]") ls1))).
  - intros (s1 & (? & ? & ? & Hc) & (? & ? & ? & Hc')). rewrite <-Hc. split_and!; eauto.
Qed.

Lemma values_one key l k v :
  split_once x3d l = Some (k, v) → values key [l] = if decide (k = key) then [v] else [].
Proof. intros H. unfold values. simpl. rewrite H. by case_decide. Qed.

(** Two different keys cannot both match. *)
Ltac other_keys :=
  repeat match goal with
  | |- context [decide (?k = B ?s)] => rewrite (decide_False (P := k = B s)) by (subst; by vm_compute)
  end.

Lemma parse_request_line_Ok n l s s' :
  parse_request_line n l s = Ok s' ↔
  ((x0d ∉ l) ∧ (x00 ∉ l) ∧ (∃ k v, k ≠ [] ∧ split_once x3d l = Some (k, v))) ∧ slots_run s [l] s'.
Proof.
  unfold parse_request_line. destruct (find_byte is_cr_nul l) as [[i b]|] eqn:F.
  { split; [done|]. intros [(H1 & H2 & _) _].
    apply find_byte_Some in F as (l1 & l2 & -> & _ & Hb & _).
    apply bool_decide_eq_true in Hb. set_solver. }
  assert ((x0d ∉ l) ∧ (x00 ∉ l)) as [Hcr Hnul].
  { apply find_byte_None in F. rewrite Forall_forall in F.
    split; intros Hin%F; by vm_compute in Hin. }
  destruct (split_once x3d l) as [[k v]|] eqn:Hs; simpl; [|naive_solver].
  case_decide as Hk; [naive_solver|].
  assert (∀ P : Prop, ((x0d ∉ l) ∧ (x00 ∉ l) ∧
    (∃ k0 v0 : bytes, k0 ≠ [] ∧ Some (k, v) = Some (k0, v0))) ∧ P ↔ P) as -> by naive_solver.
  unfold slots_run. rewrite !(values_one _ _ _ _ Hs). destruct s as [p h q c], s' as [p' h' q' c'].
  case_decide as K1; [|case_decide as K2; [|case_decide as K3; [|case_decide as K4]]].
  - subst k. other_keys. simpl. unfold cap_step. repeat case_decide; naive_solver.
  - subst k. other_keys. simpl. rewrite bind_Ok. setoid_rewrite fill_slot_Ok. naive_solver.
  - subst k. other_keys. simpl. rewrite bind_Ok. setoid_rewrite fill_slot_Ok. naive_solver.
  - subst k. other_keys. simpl. rewrite bind_Ok. setoid_rewrite fill_slot_Ok. naive_solver.
  - simpl. naive_solver.
Qed.

Lemma parse_request_lines_Ok i ls s s' :
  Forall (λ l, x0a ∉ l) ls →
  (parse_request_lines i ls s = Ok s' ↔ Forall request_line ls ∧ slots_run s ls s').
Proof.
  intros Hlf. revert i s. induction Hlf as [|l ls Hl Hls IH]; intros i s; cbn [parse_request_lines].
  { unfold slots_run. cbn. destruct s, s'; simpl. naive_solver. }
  rewrite bind_Ok. setoid_rewrite parse_request_line_Ok. setoid_rewrite IH.
  rewrite (slots_run_app s [l] ls), Forall_cons. unfold request_line at 2. naive_solver.
Qed.

Lemma finish_request_Ok s r :
  finish_request s = Ok r ↔
  s_protocol s = Some (protocol r) ∧ s_host s = Some (host r) ∧
  (∃ raw, s_path s = Some raw ∧ path r = strip_git raw ∧ (raw ≠ [] → path r ≠ [])) ∧
  client_supports_authtype r = s_authtype s.
Proof.
  unfold finish_request, strip_git. destruct s as [[p|] [h|] [raw|] c]; cbn; try naive_solver.
  destruct (strip_suffix (B ".git") raw) as [q|] eqn:E; cbn.
  - destruct q as [|b q]; cbn.
    + split; [done|]. intros (_ & _ & (raw' & [= <-] & Hp & Hne) & _).
      rewrite E in Hp. apply strip_suffix_Some in E. destruct Hne; [|done]. by subst.
    + destruct r as [p' h' q' c']; cbn. split.
      * intros [= <- <- <- <-]. split_and!; try done. exists raw. by rewrite E.
      * intros ([= ->] & [= ->] & (raw' & [= <-] & Hp & _) & ->). rewrite E in Hp. by subst.
  - destruct r as [p' h' q' c']; cbn. split.
    * intros [= <- <- <- <-]. split_and!; try done. exists raw. by rewrite E.
    * intros ([= ->] & [= ->] & (raw' & [= <-] & Hp & _) & ->). rewrite E in Hp. by subst.
Qed.

Lemma Request_parse_iff input r : Request_parse input = Ok r ↔ is_request input r.
Proof.
  unfold Request_parse, is_request. destruct (PARSER_HARD_MAX <? len input) eqn:E; [naive_solver lia|].
  rewrite bind_Ok. split.
  - intros (e & He & H). split; [lia|]. inv_ok. apply block_end_lines in He. cbn zeta in He.
    remember (split_on x0a _) as ls eqn:Els.
    match goal with H : parse_request_lines _ _ _ = _ |- _ => rename H into Hp end.
    apply parse_request_lines_Ok in Hp as [Hall (Hpr & Hho & Hpa & Hca)];
      [|subst; apply split_on_pieces].
    apply finish_request_Ok in H as (E1 & E2 & (raw & E3 & Hpath & Hne) & Hcap).
    rewrite E1 in Hpr. rewrite E2 in Hho. rewrite E3 in Hpa. cbn in Hpr, Hho, Hpa.
    exists ls, raw.
    destruct (values (B "protocol") ls) as [|v1 [|? ?]]; simpl in Hpr; [done| |done].
    destruct (values (B "host") ls) as [|v2 [|? ?]]; simpl in Hho; [done| |done].
    destruct (values (B "path") ls) as [|v3 [|? ?]]; simpl in Hpa; [done| |done].
    destruct Hpr as (_ & ? & [= <-]), Hho as (_ & ? & [= <-]), Hpa as (_ & Hv3 & [= <-]).
    split_and!; try done.
    + subst ls. apply split_on_nonempty.
    + apply Hne, Hv3.
    + by rewrite Hcap, Hca.
  - intros (Hlen & ls & raw & Hne & Hall & Hin & V1 & O1 & V2 & O2 & V3 & O3 & Hpath & Hpne & Hcap).
    destruct (lines_block_end ls input) as (e & He & Hsplit); [done| |done|].
    { eapply Forall_impl; [done|]. intros l (? & _ & _ & k & v & ? & Hkv).
      split; [done|]. by intros ->. }
    exists e. split; [done|]. cbn zeta. rewrite Hsplit, bind_Ok.
    exists (MkSlots (Some (protocol r)) (Some (host r)) (Some raw) (client_supports_authtype r)).
    split.
    + apply parse_request_lines_Ok.
      { eapply Forall_impl; [done|]. by intros l (? & _). }
      split; [done|]. unfold slots_run. rewrite V1, V2, V3. cbn. naive_solver.
    + apply finish_request_Ok. cbn. naive_solver.
Qed.

(** ** Lemmas: values and responses *)

Lemma values_elem key ls v :
  v ∈ values key ls → ∃ l, l ∈ ls ∧ split_once x3d l = Some (key, v).
Proof.
  unfold values. rewrite list_elem_of_omap. intros (l & Hl & Hv). exists l.
  destruct (split_once x3d l) as [[k w]|]; [|done]. case_decide; naive_solver.
Qed.

Lemma request_line_value key ls v c :
  Forall request_line ls → v ∈ values key ls → c ∈ [x0a; x0d; x00] → c ∉ v.
Proof.
  intros Hls (l & Hl & Hv)%values_elem Hc Hin. rewrite Forall_forall in Hls.
  apply split_once_Some in Hv as [-> _]. destruct (Hls _ Hl) as (H1 & H2 & H3 & _).
  set_solver.
Qed.

Lemma strip_git_elem p c : c ∈ strip_git p → c ∈ p.
Proof.
  unfold strip_git. destruct (strip_suffix (B ".git") p) as [q|] eqn:E; [|done].
  apply strip_suffix_Some in E as ->. simpl. set_solver.
Qed.

Lemma strip_git_len p : len (strip_git p) <= len p.
Proof.
  unfold strip_git. destruct (strip_suffix (B ".git") p) as [q|] eqn:E; simpl; [|lia].
  apply strip_suffix_Some in E as ->. rewrite len_app. pose proof (len_nonneg (B ".git")). lia.
Qed.

(** A field the line protocol can carry: bounded, non-empty, no CR, LF, NUL. *)
Definition clean_field (v : bytes) : Prop :=
  1 <= len v <= MAX_VALUE_BYTES ∧ ∀ c, c ∈ [x0a; x0d; x00] → c ∉ v.

Lemma clean_nonempty v :
  v ≠ [] → len v <= MAX_VALUE_BYTES → (∀ c, c ∈ [x0a; x0d; x00] → c ∉ v) → clean_field v.
Proof.
  intros H ? ?. split; [|done]. pose proof (len_nonneg v). split; [|done].
  destruct (decide (len v = 0)) as [E|]; [by apply len_0_iff in E|lia].
Qed.

Lemma Response_check_field_Ok f v :
  Response_check_field f v = Ok () ↔ ∀ c, c ∈ [x00; x0d; x0a] → c ∉ v.
Proof.
  unfold Response_check_field. destruct (find_byte is_line_control v) as [[i b]|] eqn:F.
  - apply find_byte_Some in F as (l1 & l2 & -> & _ & Hb & _). apply bool_decide_eq_true in Hb.
    split; [done|]. intros H. destruct (H b Hb). set_solver.
  - split; [|done]. intros _ c Hc Hin. apply find_byte_None in F. rewrite Forall_forall in F.
    apply F in Hin. apply bool_decide_eq_false in Hin. done.
Qed.

Lemma Response_new_Ok u p e r :
  Response_new u p e = Ok r ↔
  r = MkResponse u p e ∧ 0 <= e ∧ ∀ c, c ∈ [x00; x0d; x0a] → (c ∉ u) ∧ (c ∉ p).
Proof.
  unfold Response_new. rewrite bind_Ok. setoid_rewrite bind_Ok. split.
  - intros ([] & Hu & [] & Hp & H). case_match; inv_ok. split_and!; [done|lia|].
    rewrite Response_check_field_Ok in Hu, Hp. naive_solver.
  - intros (-> & He & H). exists (). rewrite Response_check_field_Ok.
    split; [naive_solver|]. exists (). rewrite Response_check_field_Ok.
    split; [naive_solver|]. by rewrite (proj2 (Z.ltb_ge _ _) He).
Qed.

(** The lines [Response::encode] means to emit. *)
Definition response_lines (r : Response) (authtype : bool) : list bytes :=
  (if authtype then [B "capability[]=authtype"] else []) ++
  [B "username=" ++ username r; B "password=" ++ password r] ++
  (if authtype then [B "ephemeral=true"] else []) ++
  [B "password_expiry_utc=" ++ show_u64 (as_secs (password_expiry_utc r))].

Lemma Response_encode_unlines r a out :
  0 <= password_expiry_utc r →
  Response_encode r a out = Some (out ++ unlines (response_lines r a) ++ [x0a]).
Proof.
  intros H. unfold Response_encode, password_expiry_unix_secs.
  rewrite (proj2 (Z.ltb_ge _ _) H). cbn. f_equal. unfold unlines, response_lines.
  destruct a; cbn; rewrite <-?(assoc_L (++)); cbn; rewrite ?app_nil_r; done.
Qed.

(** ** Properties *)

(** C27: the request parser is exactly the documented grammar.
    [Request::parse] returns [r] on a byte string of at most 64 KiB iff the
    string is a block of [key=value] lines, ended by a blank line or by end of
    input after LF, without CR or NUL, that gives [protocol], [host] and
    [path] exactly one valid value each (non-empty, at most 4 KiB, UTF-8),
    [path] with one [.git] suffix removed and still non-empty, and the
    capability flag follows the array semantics of [capability[]]. *)
Theorem Request_parse_spec input r : Request_parse input = Ok r ↔ is_request input r.
Proof. apply Request_parse_iff. Qed.

(** No accepted request can smuggle a line (the Clone2Leak class): every
    field of a parsed request is non-empty, at most 4 KiB and free of CR, LF
    and NUL, so it can be echoed on the line protocol. *)
Theorem Request_parse_clean input r :
  Request_parse input = Ok r →
  clean_field (protocol r) ∧ clean_field (host r) ∧ clean_field (path r).
Proof.
  intros (_ & ls & raw & _ & Hls & _ & V1 & (? & ? & _) & V2 & (? & ? & _) & V3 & (? & ? & _) & Hp & Hpne & _)%Request_parse_iff.
  split_and!; apply clean_nonempty; try done.
  - intros c. apply (request_line_value (B "protocol") ls); [done|]. rewrite V1. set_solver.
  - intros c. apply (request_line_value (B "host") ls); [done|]. rewrite V2. set_solver.
  - rewrite Hp. pose proof (strip_git_len raw). lia.
  - intros c Hc Hin. rewrite Hp in Hin. apply strip_git_elem in Hin. revert Hin.
    apply (request_line_value (B "path") ls); [done| |done]. rewrite V3. set_solver.
Qed.

(** Neither shape has a line of the Bearer form. *)
Lemma response_lines_basic r a :
  Forall (λ l, ¬ (B "authtype=" `prefix_of` l) ∧ ¬ (B "credential=" `prefix_of` l)) (response_lines r a ++ [[]; []]).
Proof.
  destruct a; cbn [response_lines app]; repeat (constructor; [by split; intros [k Hk]|]); constructor.
Qed.

(** C28: an answer built by [Response::new] is emitted without panic and
    splits at LF into exactly the lines of the protocol, the terminating blank
    line last: neither the user name nor the token can add a line.  The
    credential is always given as [username] and [password]: also for a client
    that declared the [authtype] capability there is no [authtype=] and no
    [credential=] line, as the comment of [encode] explains and against the
    shape that [docs/PROTOCOLS.md] describes for such clients. *)
Theorem Response_encode_lines u p e r a :
  Response_new u p e = Ok r →
  ∃ block, Response_encode r a [] = Some block ∧
           split_on x0a block = response_lines (MkResponse u p e) a ++ [[]; []] ∧
           Forall (λ l, ¬ (B "authtype=" `prefix_of` l) ∧ ¬ (B "credential=" `prefix_of` l)) (split_on x0a block).
Proof.
  intros (-> & He & Hc)%Response_new_Ok. eexists. split; [by apply Response_encode_unlines|].
  match goal with |- ?P ∧ _ => enough P as Hs by (split; [exact Hs|rewrite Hs; apply response_lines_basic]) end.
  cbn [app]. set (ls := response_lines _ a).
  replace (unlines ls ++ [x0a]) with (join_with x0a (ls ++ [[]; []])).
  - apply split_on_join_with; [by destruct ls|]. apply Forall_app. split; [|repeat constructor; set_solver].
    assert (∀ s, (bool_decide (x0a ∈ B s) = false) → x0a ∉ B s) as Hs.
    { intros s H. by apply bool_decide_eq_false in H. }
    destruct (Hc x0a ltac:(set_solver)) as [Hu Hp].
    assert (x0a ∉ show_u64 (as_secs e)) as He' by (by apply show_u64_no).
    unfold ls, response_lines; destruct a; cbn [app];
      repeat constructor; rewrite ?elem_of_app; cbn; try (by apply Hs);
      (intros [H|H]; [by eapply Hs in H|done]).
  - clearbody ls. induction ls as [|l ls IH]; [done|]. rewrite unlines_cons, <-(assoc_L (++)).
    cbn [app]. rewrite <-IH. by destruct ls.
Qed.

(** ** Witnesses *)

Definition demo_input : bytes :=
  B "protocol=https" ++ [x0a] ++ B "host=github.com" ++ [x0a] ++
  B "path=octo/repo.git" ++ [x0a] ++ B "capability[]=authtype" ++ [x0a; x0a].

Definition demo_request : Request :=
  MkRequest (B "https") (B "github.com") (B "octo/repo") true.

Lemma Request_parse_clean_witness :
  clean_field (protocol demo_request) ∧ clean_field (host demo_request) ∧
  clean_field (path demo_request).
Proof. apply (Request_parse_clean demo_input demo_request). vm_compute. reflexivity. Defined.

Definition demo_response : Response :=
  MkResponse (B "x-access-token") (B "ghs_demo") (from_secs 1700000000).

Lemma Response_encode_lines_witness :
  ∃ block, Response_encode demo_response true [] = Some block ∧
           split_on x0a block = response_lines demo_response true ++ [[]; []] ∧
           Forall (λ l, ¬ (B "authtype=" `prefix_of` l) ∧ ¬ (B "credential=" `prefix_of` l)) (split_on x0a block).
Proof.
  apply (Response_encode_lines (B "x-access-token") (B "ghs_demo") (from_secs 1700000000)).
  vm_compute. reflexivity.
Defined.
