(* ===== verification/Transport.v ===== *)
(** * The Noise transport: [src/transport.rs]

    The identity TLV, the framing, and the two session state machines.  The
    [snow] crate is outside the repository: its builder, handshake and
    transport objects are the class [Noise], one field per method the source
    calls; [NoiseLaws] states what the Noise specification and the crate's
    documentation promise of them.  [noise_model] is a concrete instance.

    A [Responder]/[Initiator] is its [state] field.  The other field,
    [scratch], is the output buffer of one crate call; its bytes are never
    read outside the call that wrote them, so a crate call returns the bytes
    it wrote.  Every method returns the state it leaves behind together with
    its result, because an error also moves the machine. *)

From S2P Require Import Prelude Identity Psk.

(** ** Constants *)

Definition NOISE_PATTERN : bytes := B "Noise_NKpsk2_25519_ChaChaPoly_BLAKE2s".
Definition PSK_SLOT : Z := 2.
Definition MAX_MESSAGE_SIZE : Z := 65535.
Definition TLV_MAGIC : bytes := B "SBLN".
Definition TLV_VERSION : byte := x02.

(** ** The identity TLV *)

Inductive TlvError :=
| Tlv_Incomplete (needed : Z)
| Tlv_BadMagic (got : bytes)
| Tlv_BadVersion (got : byte)
| Tlv_BadIdentityLen (got : byte)
| Tlv_InvalidCharset (offset : Z) (byte : byte)
| Tlv_TrailingBytes (extra : Z).

Definition TlvError_from_IdentityError (e : IdentityError) : TlvError :=
  match e with
  | IdentityBadLen got => Tlv_BadIdentityLen (as_u8 (Z.min got u8_max))
  | IdentityBadCharset offset byte => Tlv_InvalidCharset offset byte
  end.

Definition identity_tlv_size (identity_len : Z) : Z := 6 + identity_len.

Definition encode_identity_tlv (identity : Identity) : bytes :=
  let bytes := as_str identity in
  TLV_MAGIC ++ [TLV_VERSION] ++ [as_u8 (len bytes)] ++ bytes.

(** The argument is a [[u8; 6]]. *)
Definition parse_tlv_head (m0 m1 m2 m3 version id_len : byte) : result TlvError byte :=
  if decide ([m0; m1; m2; m3] ≠ TLV_MAGIC) then Err (Tlv_BadMagic [m0; m1; m2; m3])
  else if decide (version ≠ TLV_VERSION) then Err (Tlv_BadVersion version)
  else if (u8 id_len =? 0) || (Identity_MAX_LEN <? u8 id_len)
  then Err (Tlv_BadIdentityLen id_len)
  else Ok id_len.

(** [body[offset]] is in range: see [parse_tlv_body_Err]. *)
Definition parse_tlv_body (body : bytes) : result TlvError Identity :=
  match from_utf8 body with
  | Ok s => map_err TlvError_from_IdentityError (Identity_parse s)
  | Err offset => Err (Tlv_InvalidCharset offset (nth (Z.to_nat offset) body x00))
  end.

Definition parse_identity_tlv (input : bytes) : result TlvError (Identity * Z) :=
  match input with
  | m0 :: m1 :: m2 :: m3 :: version :: id_len :: _ =>
      id_len ← parse_tlv_head m0 m1 m2 m3 version id_len;
      let total := identity_tlv_size (u8 id_len) in
      if len input <? total then Err (Tlv_Incomplete (total - len input))
      else
        let body := drop 6 (take (Z.to_nat total) input) in
        identity ← parse_tlv_body body;
        Ok (identity, total)
  | _ => Err (Tlv_Incomplete (6 - len input))
  end.

(** ** The Noise implementation *)

Class Noise := {
  SnowError : Type;
  NoiseParams : Type;
  Builder : Type;
  HandshakeState : Type;
  TransportState : Type;
  parse_params : bytes → result SnowError NoiseParams;
  Builder_new : NoiseParams → Builder;
  local_private_key : Builder → bytes → result SnowError Builder;
  remote_public_key : Builder → bytes → result SnowError Builder;
  builder_psk : Builder → Z → bytes → result SnowError Builder;
  (** The second argument is the randomness the ephemeral key comes from. *)
  build_responder : Builder → Z → result SnowError HandshakeState;
  build_initiator : Builder → Z → result SnowError HandshakeState;
  hs_set_psk : HandshakeState → Z → bytes → result SnowError HandshakeState;
  hs_read_message : HandshakeState → bytes → result SnowError (HandshakeState * bytes);
  hs_write_message : HandshakeState → bytes → result SnowError (HandshakeState * bytes);
  into_transport_mode : HandshakeState → result SnowError TransportState;
  ts_read_message : TransportState → bytes → result SnowError (TransportState * bytes);
  ts_write_message : TransportState → bytes → result SnowError (TransportState * bytes);
  (** [MontgomeryPoint::mul_base_clamped(..).to_bytes()] *)
  mul_base_clamped : bytes → bytes;
}.

(** The two builder chains, with the crate's own errors. *)
Definition responder_hs `{!Noise} (seed : Z) (priv : bytes) : result SnowError HandshakeState :=
  p ← parse_params NOISE_PATTERN;
  b ← local_private_key (Builder_new p) priv;
  build_responder b seed.

Definition initiator_hs `{!Noise} (seed : Z) (psk pub : bytes) : result SnowError HandshakeState :=
  p ← parse_params NOISE_PATTERN;
  b ← remote_public_key (Builder_new p) pub;
  b ← builder_psk b PSK_SLOT psk;
  build_initiator b seed.

(** What the NKpsk2 pattern promises.  [r_ready hs]: a responder that has read
    message 1.  [ts_linked ti tr]: the two ends of one channel, in step. *)
Class NoiseLaws `{!Noise} := {
  r_ready : HandshakeState → Prop;
  ts_linked : TransportState → TransportState → Prop;
  hs_read_len hs m hs' p : hs_read_message hs m = Ok (hs', p) → len p <= MAX_MESSAGE_SIZE;
  hs_write_len hs p hs' m : hs_write_message hs p = Ok (hs', m) → len m <= MAX_MESSAGE_SIZE;
  ts_read_len ts m ts' p : ts_read_message ts m = Ok (ts', p) → len p <= MAX_MESSAGE_SIZE;
  ts_write_len ts p ts' m : ts_write_message ts p = Ok (ts', m) → len m <= MAX_MESSAGE_SIZE;
  responder_builds seed priv : len priv = 32 → ∃ hs, responder_hs seed priv = Ok hs;
  responder_reads seed priv hs m hs' p :
    responder_hs seed priv = Ok hs → hs_read_message hs m = Ok (hs', p) → r_ready hs';
  (** Message 2 of NKpsk2 with an empty payload: 32-byte ephemeral, 16-byte tag. *)
  responder_answers hs psk :
    r_ready hs → len psk = 32 →
    ∃ hs2 hs3 m2, hs_set_psk hs PSK_SLOT psk = Ok hs2 ∧
      hs_write_message hs2 [] = Ok (hs3, m2) ∧ len m2 = 48;
  (** [to_bytes()] of a Montgomery point is a 32-byte array. *)
  mul_base_len priv : len priv = 32 → len (mul_base_clamped priv) = 32;
  (** An honest handshake succeeds and delivers the first payload. *)
  handshake_completes si sr priv psk payload :
    len priv = 32 → len psk = 32 → len payload <= MAX_MESSAGE_SIZE - 48 →
    ∃ i0 i1 m1 r0 r1 r2 r3 m2 i2 p2 ti tr,
      initiator_hs si psk (mul_base_clamped priv) = Ok i0 ∧
      hs_write_message i0 payload = Ok (i1, m1) ∧
      responder_hs sr priv = Ok r0 ∧
      hs_read_message r0 m1 = Ok (r1, payload) ∧
      hs_set_psk r1 PSK_SLOT psk = Ok r2 ∧
      hs_write_message r2 [] = Ok (r3, m2) ∧
      hs_read_message i1 m2 = Ok (i2, p2) ∧
      into_transport_mode r3 = Ok tr ∧ into_transport_mode i2 = Ok ti ∧
      ts_linked ti tr;
  channel_to_responder ti tr m :
    ts_linked ti tr → len m <= MAX_MESSAGE_SIZE - 16 →
    ∃ ti' tr' c, ts_write_message ti m = Ok (ti', c) ∧ ts_read_message tr c = Ok (tr', m) ∧
                 ts_linked ti' tr';
  channel_to_initiator ti tr m :
    ts_linked ti tr → len m <= MAX_MESSAGE_SIZE - 16 →
    ∃ ti' tr' c, ts_write_message tr m = Ok (tr', c) ∧ ts_read_message ti c = Ok (ti', m) ∧
                 ts_linked ti' tr';
}.

(** ** The lower layer *)

Inductive TransportError `{!Noise} :=
| T_Params (e : SnowError)
| T_HandshakeRead (e : SnowError)
| T_HandshakeWrite (e : SnowError)
| T_Transition (e : SnowError)
| T_TransportRead (e : SnowError)
| T_TransportWrite (e : SnowError)
| T_OversizedFrame (got : Z).

(** [u16::to_be_bytes] of [n as u16] and [u16::from_be_bytes]. *)
Definition to_be_u16 (n : Z) : bytes := [as_u8 (n mod 65536 / 256); as_u8 (n mod 256)].
Definition from_be_u16 (hi lo : byte) : Z := u8 hi * 256 + u8 lo.

Section lower.
Context {NZ : Noise}.

Definition derive_public (k : BrokerPrivateKey) : BrokerPublicKey :=
  MkBrokerPublicKey (mul_base_clamped (priv_bytes k)).

Definition responder (seed : Z) (broker_key : BrokerPrivateKey) :
    result TransportError HandshakeState :=
  params ← map_err T_Params (parse_params NOISE_PATTERN);
  b ← map_err T_Params (local_private_key (Builder_new params) (priv_bytes broker_key));
  map_err T_Params (build_responder b seed).

Definition initiator (seed : Z) (psk : Psk) (broker_pub : BrokerPublicKey) :
    result TransportError HandshakeState :=
  params ← map_err T_Params (parse_params NOISE_PATTERN);
  b ← map_err T_Params (remote_public_key (Builder_new params) (pub_bytes broker_pub));
  b ← map_err T_Params (builder_psk b PSK_SLOT (psk_bytes psk));
  map_err T_Params (build_initiator b seed).

Definition into_transport (hs : HandshakeState) : result TransportError TransportState :=
  map_err T_Transition (into_transport_mode hs).

Definition frame (payload : bytes) : result TransportError bytes :=
  if MAX_MESSAGE_SIZE <? len payload then Err (T_OversizedFrame (len payload))
  else Ok (to_be_u16 (len payload) ++ payload).

(** The argument is a [[u8; 2]]. *)
Definition read_frame_length (hi lo : byte) : result TransportError Z :=
  let len := from_be_u16 hi lo in
  if MAX_MESSAGE_SIZE <? len then Err (T_OversizedFrame len) else Ok len.

Definition handshake_read (hs : HandshakeState) (msg : bytes) :=
  map_err T_HandshakeRead (hs_read_message hs msg).
Definition handshake_write (hs : HandshakeState) (payload : bytes) :=
  map_err T_HandshakeWrite (hs_write_message hs payload).
Definition transport_read (ts : TransportState) (ciphertext : bytes) :=
  map_err T_TransportRead (ts_read_message ts ciphertext).
Definition transport_write (ts : TransportState) (plaintext : bytes) :=
  map_err T_TransportWrite (ts_write_message ts plaintext).

(** ** Session events and errors *)

Inductive Step :=
| Step_ReadExact (n : Z)
| Step_NeedPsk (identity : Identity)
| Step_Write (out : bytes)
| Step_Request (plaintext : bytes)
| Step_Done.

Inductive Phase := Phase_Msg1 | Phase_AwaitingPsk | Phase_Handshake | Phase_Transport | Phase_Done.

Inductive SessionError :=
| S_TlvBadMagic (got : bytes)
| S_TlvBadVersion (got : byte)
| S_TlvBadIdentityLen (got : byte)
| S_TlvInvalidCharset (offset : Z) (byte : byte)
| S_TlvTrailingBytes (extra : Z)
| S_TlvIncomplete (needed : Z)
| S_HandshakeRead (e : SnowError)
| S_HandshakeWrite (e : SnowError)
| S_IntoTransport (e : SnowError)
| S_TransportRead (e : SnowError)
| S_TransportWrite (e : SnowError)
| S_FrameTooBig (got : Z)
| S_RecvLen (expected got : Z)
| S_WrongState (method state : bytes).

Definition SessionError_from_TlvError (e : TlvError) : SessionError :=
  match e with
  | Tlv_BadMagic got => S_TlvBadMagic got
  | Tlv_BadVersion got => S_TlvBadVersion got
  | Tlv_BadIdentityLen got => S_TlvBadIdentityLen got
  | Tlv_InvalidCharset offset byte => S_TlvInvalidCharset offset byte
  | Tlv_TrailingBytes extra => S_TlvTrailingBytes extra
  | Tlv_Incomplete needed => S_TlvIncomplete needed
  end.

Definition SessionError_from_TransportError (e : TransportError) : SessionError :=
  match e with
  | T_OversizedFrame got => S_FrameTooBig got
  | T_HandshakeRead s => S_HandshakeRead s
  | T_HandshakeWrite s => S_HandshakeWrite s
  | T_Transition s => S_IntoTransport s
  | T_TransportRead s => S_TransportRead s
  | T_TransportWrite s => S_TransportWrite s
  | T_Params s => S_HandshakeRead s
  end.

(** [?] on a [TransportError] inside a session method. *)
Definition lift {A} (r : result TransportError A) : result SessionError A :=
  map_err SessionError_from_TransportError r.

Definition check_recv_len (expected got : Z) : result SessionError () :=
  if expected =? got then Ok () else Err (S_RecvLen expected got).

(** [recv_chunk::<2>], the only length the source uses. *)
Definition recv_chunk (bs : bytes) : result SessionError (byte * byte) :=
  match bs with
  | [hi; lo] => Ok (hi, lo)
  | _ => Err (S_RecvLen 2 (len bs))
  end.

(** ** The responder *)

Inductive RState :=
| R_Failed
| R_NeedPsk (hs : HandshakeState) (identity : Identity)
| R_AwaitingPsk (hs : HandshakeState)
| R_WantHsLen (hs : HandshakeState)
| R_WantHsBody (hs : HandshakeState) (body_len : Z)
| R_WriteHs (hs : HandshakeState) (out : bytes)
| R_WroteHsPending (hs : HandshakeState)
| R_WantReqLen (ts : TransportState)
| R_WantReqBody (ts : TransportState) (body_len : Z)
| R_HaveRequest (ts : TransportState) (plaintext : bytes)
| R_AwaitingResponse (ts : TransportState)
| R_WriteResp (out : bytes)
| R_WroteRespPending
| R_Done.

(** [strum::IntoStaticStr], snake case. *)
Definition RState_name (s : RState) : bytes :=
  match s with
  | R_Failed => B "failed"
  | R_NeedPsk _ _ => B "need_psk"
  | R_AwaitingPsk _ => B "awaiting_psk"
  | R_WantHsLen _ => B "want_hs_len"
  | R_WantHsBody _ _ => B "want_hs_body"
  | R_WriteHs _ _ => B "write_hs"
  | R_WroteHsPending _ => B "wrote_hs_pending"
  | R_WantReqLen _ => B "want_req_len"
  | R_WantReqBody _ _ => B "want_req_body"
  | R_HaveRequest _ _ => B "have_request"
  | R_AwaitingResponse _ => B "awaiting_response"
  | R_WriteResp _ => B "write_resp"
  | R_WroteRespPending => B "wrote_resp_pending"
  | R_Done => B "done"
  end.

Definition RState_phase (s : RState) : Phase :=
  match s with
  | R_WantHsLen _ | R_WantHsBody _ _ => Phase_Msg1
  | R_NeedPsk _ _ | R_AwaitingPsk _ => Phase_AwaitingPsk
  | R_WriteHs _ _ | R_WroteHsPending _ => Phase_Handshake
  | R_WantReqLen _ | R_WantReqBody _ _ | R_HaveRequest _ _ | R_AwaitingResponse _
  | R_WriteResp _ | R_WroteRespPending => Phase_Transport
  | R_Done | R_Failed => Phase_Done
  end.

Definition Responder_new (seed : Z) (broker_key : BrokerPrivateKey) : result SessionError RState :=
  hs ← lift (responder seed broker_key);
  Ok (R_WantHsLen hs).

(** [mem::replace(&mut self.state, Failed)] then [?]: an error inside an arm
    leaves the machine in [Failed]. *)
Definition or_failed (r : result SessionError RState) : RState * result SessionError () :=
  match r with
  | Ok s => (s, Ok ())
  | Err e => (R_Failed, Err e)
  end.

Definition Responder_step (s : RState) : RState * result SessionError Step :=
  match s with
  | R_NeedPsk hs identity => (R_AwaitingPsk hs, Ok (Step_NeedPsk identity))
  | R_WantHsLen hs => (R_WantHsLen hs, Ok (Step_ReadExact 2))
  | R_WantHsBody hs body_len => (R_WantHsBody hs body_len, Ok (Step_ReadExact body_len))
  | R_WriteHs hs out => (R_WroteHsPending hs, Ok (Step_Write out))
  | R_WantReqLen ts => (R_WantReqLen ts, Ok (Step_ReadExact 2))
  | R_WantReqBody ts body_len => (R_WantReqBody ts body_len, Ok (Step_ReadExact body_len))
  | R_HaveRequest ts plaintext => (R_AwaitingResponse ts, Ok (Step_Request plaintext))
  | R_WriteResp out => (R_WroteRespPending, Ok (Step_Write out))
  | R_Done => (R_Done, Ok Step_Done)
  | R_Failed | R_AwaitingPsk _ | R_WroteHsPending _ | R_AwaitingResponse _ | R_WroteRespPending =>
      (s, Err (S_WrongState (B "step") (RState_name s)))
  end.

Definition Responder_recv (s : RState) (bs : bytes) : RState * result SessionError () :=
  match s with
  | R_WantHsLen hs => or_failed (
      '(hi, lo) ← recv_chunk bs;
      body_len ← lift (read_frame_length hi lo);
      Ok (R_WantHsBody hs body_len))
  | R_WantHsBody hs body_len => or_failed (
      _ ← check_recv_len body_len (len bs);
      '(hs, plain) ← lift (handshake_read hs bs);
      '(identity, consumed) ← map_err SessionError_from_TlvError (parse_identity_tlv plain);
      if negb (consumed =? len plain) then Err (S_TlvTrailingBytes (len plain - consumed))
      else Ok (R_NeedPsk hs identity))
  | R_WantReqLen ts => or_failed (
      '(hi, lo) ← recv_chunk bs;
      body_len ← lift (read_frame_length hi lo);
      Ok (R_WantReqBody ts body_len))
  | R_WantReqBody ts body_len => or_failed (
      _ ← check_recv_len body_len (len bs);
      '(ts, plain) ← lift (transport_read ts bs);
      Ok (R_HaveRequest ts plain))
  | other => (other, Err (S_WrongState (B "recv") (RState_name s)))
  end.

Definition Responder_set_psk (s : RState) (psk : Psk) : RState * result SessionError () :=
  match s with
  | R_AwaitingPsk hs => or_failed (
      hs ← map_err S_HandshakeWrite (hs_set_psk hs PSK_SLOT (psk_bytes psk));
      '(hs, msg) ← lift (handshake_write hs []);
      out ← lift (frame msg);
      Ok (R_WriteHs hs out))
  | other => (other, Err (S_WrongState (B "set_psk") (RState_name s)))
  end.

Definition Responder_wrote (s : RState) : RState * result SessionError () :=
  match s with
  | R_WroteHsPending hs => or_failed (
      ts ← lift (into_transport hs);
      Ok (R_WantReqLen ts))
  | R_WroteRespPending => (R_Done, Ok ())
  | other => (other, Err (S_WrongState (B "wrote") (RState_name s)))
  end.

Definition Responder_set_response (s : RState) (plaintext : bytes) : RState * result SessionError () :=
  match s with
  | R_AwaitingResponse ts => or_failed (
      '(ts, msg) ← lift (transport_write ts plaintext);
      out ← lift (frame msg);
      Ok (R_WriteResp out))
  | other => (other, Err (S_WrongState (B "set_response") (RState_name s)))
  end.

(** ** The initiator *)

Inductive IState :=
| I_Failed
| I_WriteHs1 (hs : HandshakeState) (msg1 request : bytes)
| I_WroteHs1Pending (hs : HandshakeState) (request : bytes)
| I_WantHs2Len (hs : HandshakeState) (request : bytes)
| I_WantHs2Body (hs : HandshakeState) (body_len : Z) (request : bytes)
| I_WriteReq (ts : TransportState) (out : bytes)
| I_WroteReqPending (ts : TransportState)
| I_WantRespLen (ts : TransportState)
| I_WantRespBody (ts : TransportState) (body_len : Z)
| I_Done (plaintext : bytes)
| I_Drained.

Definition IState_name (s : IState) : bytes :=
  match s with
  | I_Failed => B "failed"
  | I_WriteHs1 _ _ _ => B "write_hs1"
  | I_WroteHs1Pending _ _ => B "wrote_hs1_pending"
  | I_WantHs2Len _ _ => B "want_hs2_len"
  | I_WantHs2Body _ _ _ => B "want_hs2_body"
  | I_WriteReq _ _ => B "write_req"
  | I_WroteReqPending _ => B "wrote_req_pending"
  | I_WantRespLen _ => B "want_resp_len"
  | I_WantRespBody _ _ => B "want_resp_body"
  | I_Done _ => B "done"
  | I_Drained => B "drained"
  end.

Definition IState_phase (s : IState) : Phase :=
  match s with
  | I_WriteHs1 _ _ _ | I_WroteHs1Pending _ _ => Phase_Msg1
  | I_WantHs2Len _ _ | I_WantHs2Body _ _ _ => Phase_Handshake
  | I_WriteReq _ _ | I_WroteReqPending _ | I_WantRespLen _ | I_WantRespBody _ _ => Phase_Transport
  | I_Done _ | I_Drained | I_Failed => Phase_Done
  end.

Definition Initiator_new (seed : Z) (identity : Identity) (psk : Psk) (broker_pub : BrokerPublicKey)
    (request : bytes) : result SessionError IState :=
  hs ← lift (initiator seed psk broker_pub);
  let tlv := encode_identity_tlv identity in
  '(hs, msg) ← lift (handshake_write hs tlv);
  msg1 ← lift (frame msg);
  Ok (I_WriteHs1 hs msg1 request).

Definition i_or_failed (r : result SessionError IState) : IState * result SessionError () :=
  match r with
  | Ok s => (s, Ok ())
  | Err e => (I_Failed, Err e)
  end.

Definition Initiator_step (s : IState) : IState * result SessionError Step :=
  match s with
  | I_WriteHs1 hs msg1 request => (I_WroteHs1Pending hs request, Ok (Step_Write msg1))
  | I_WantHs2Len hs request => (s, Ok (Step_ReadExact 2))
  | I_WantHs2Body hs body_len request => (s, Ok (Step_ReadExact body_len))
  | I_WriteReq ts out => (I_WroteReqPending ts, Ok (Step_Write out))
  | I_WantRespLen ts => (s, Ok (Step_ReadExact 2))
  | I_WantRespBody ts body_len => (s, Ok (Step_ReadExact body_len))
  | I_Done plaintext => (s, Ok Step_Done)
  | other => (other, Err (S_WrongState (B "step") (IState_name s)))
  end.

Definition Initiator_recv (s : IState) (bs : bytes) : IState * result SessionError () :=
  match s with
  | I_WantHs2Len hs request => i_or_failed (
      '(hi, lo) ← recv_chunk bs;
      body_len ← lift (read_frame_length hi lo);
      Ok (I_WantHs2Body hs body_len request))
  | I_WantHs2Body hs body_len request => i_or_failed (
      _ ← check_recv_len body_len (len bs);
      '(hs, _) ← lift (handshake_read hs bs);
      ts ← lift (into_transport hs);
      '(ts, msg) ← lift (transport_write ts request);
      out ← lift (frame msg);
      Ok (I_WriteReq ts out))
  | I_WantRespLen ts => i_or_failed (
      '(hi, lo) ← recv_chunk bs;
      body_len ← lift (read_frame_length hi lo);
      Ok (I_WantRespBody ts body_len))
  | I_WantRespBody ts body_len => i_or_failed (
      _ ← check_recv_len body_len (len bs);
      '(ts, plain) ← lift (transport_read ts bs);
      Ok (I_Done plain))
  | other => (other, Err (S_WrongState (B "recv") (IState_name s)))
  end.

Definition Initiator_wrote (s : IState) : IState * result SessionError () :=
  match s with
  | I_WroteHs1Pending hs request => (I_WantHs2Len hs request, Ok ())
  | I_WroteReqPending ts => (I_WantRespLen ts, Ok ())
  | other => (other, Err (S_WrongState (B "wrote") (IState_name s)))
  end.

(** Consumes the session. *)
Definition take_response (s : IState) : result SessionError bytes :=
  match s with
  | I_Done plaintext => Ok plaintext
  | other => Err (S_WrongState (B "take_response") (IState_name other))
  end.

End lower.

(** ** Lemmas: the identity TLV *)

Lemma encode_identity_tlv_unfold id :
  encode_identity_tlv id = TLV_MAGIC ++ TLV_VERSION :: as_u8 (len (as_str id)) :: as_str id.
Proof. done. Qed.

Lemma encode_identity_tlv_len id : len (encode_identity_tlv id) = identity_tlv_size (len (as_str id)).
Proof.
  unfold encode_identity_tlv, identity_tlv_size. autorewrite with len_simpl.
  change (len TLV_MAGIC) with 4. lia.
Qed.
#[export] Hint Rewrite encode_identity_tlv_len : len_simpl.

Lemma parse_tlv_body_Ok body id :
  parse_tlv_body body = Ok id ↔ id = MkIdentity body ∧ Identity_ok id.
Proof.
  unfold parse_tlv_body. destruct (from_utf8 body) as [s|n] eqn:E.
  - apply from_utf8_Ok in E as ->. rewrite map_err_Ok, Identity_parse_Ok. naive_solver.
  - split; [done|]. intros [-> Hok]. apply Identity_ok_utf8 in Hok. cbn in Hok. congruence.
Qed.

Lemma identity_byte_ge128 b : 128 <= u8 b → identity_byte b = false.
Proof. intros Hb. destruct (identity_byte b) eqn:E; [|done]. apply identity_byte_ascii in E. lia. Qed.

(** The byte an [InvalidCharset] error reports is the byte at the reported
    offset (so [body[offset]] cannot panic) and is outside the charset. *)
Lemma parse_tlv_body_charset body offset b :
  parse_tlv_body body = Err (Tlv_InvalidCharset offset b) →
  ∃ l1 l2, body = l1 ++ b :: l2 ∧ len l1 = offset ∧ identity_byte b = false.
Proof.
  unfold parse_tlv_body. destruct (from_utf8 body) as [s|n] eqn:E.
  - apply from_utf8_Ok in E as ->. intros (e & He & Heq)%map_err_Err.
    destruct e as [|o c]; simplify_eq/=. unfold Identity_parse in He.
    case_match; [done|]. destruct (find_byte _ body) as [[i d]|] eqn:F; simplify_eq.
    apply find_byte_Some in F as (l1 & l2 & -> & <- & Hb & _). exists l1, l2.
    split_and!; [done..|]. by apply negb_true_iff in Hb.
  - unfold from_utf8, char_indices in E. destruct (utf8_chars 0 body) eqn:U; [done|].
    injection E as ->. apply utf8_chars_Err in U as (l1 & c & l2 & -> & -> & Hc).
    intros [= <- <-]. exists l1, l2. rewrite Z.add_0_l, len_to_nat.
    rewrite app_nth2, Nat.sub_diag by lia. split_and!; [done..|]. by apply identity_byte_ge128.
Qed.

Lemma parse_tlv_head_Ok m0 m1 m2 m3 v l n :
  parse_tlv_head m0 m1 m2 m3 v l = Ok n ↔
  [m0; m1; m2; m3] = TLV_MAGIC ∧ v = TLV_VERSION ∧ n = l ∧ 1 <= u8 l <= Identity_MAX_LEN.
Proof.
  unfold parse_tlv_head. pose proof (u8_range l).
  case_decide as Hm; [naive_solver|]. case_decide as Hv; [naive_solver|].
  destruct (_ || _) eqn:E; split; try done.
  - intros (_ & _ & _ & ?). lia.
  - intros [= <-]. split_and!; [done..|lia|lia].
  - naive_solver.
Qed.

Lemma parse_identity_tlv_iff input id n :
  parse_identity_tlv input = Ok (id, n) ↔
  Identity_ok id ∧ n = len (encode_identity_tlv id) ∧ ∃ rest, input = encode_identity_tlv id ++ rest.
Proof.
  rewrite encode_identity_tlv_len. unfold identity_tlv_size. split.
  - unfold parse_identity_tlv.
    destruct input as [|m0 [|m1 [|m2 [|m3 [|v [|l body]]]]]]; try done.
    intros H. inv_ok.
    match goal with H : parse_tlv_head _ _ _ _ _ _ = _ |- _ =>
      apply parse_tlv_head_Ok in H as (Hm & -> & -> & Hl) end.
    destruct (_ <? _) eqn:Hlt; [done|]. inv_ok.
    match goal with H : parse_tlv_body _ = _ |- _ => apply parse_tlv_body_Ok in H as [-> Hok] end.
    unfold identity_tlv_size in *. autorewrite with len_simpl in Hlt.
    replace (Z.to_nat (6 + u8 l)) with (6 + Z.to_nat (u8 l))%nat in * by lia.
    cbn [take drop Nat.add] in *. rewrite drop_0 in *. cbn [as_str].
    assert (len (take (Z.to_nat (u8 l)) body) = u8 l) as Hlen
      by (autorewrite with len_simpl; lia).
    rewrite encode_identity_tlv_unfold, <-Hm. cbn [as_str].
    split_and!; [done|lia|]. exists (drop (Z.to_nat (u8 l)) body).
    rewrite Hlen, as_u8_u8. cbn. by rewrite take_drop.
  - intros (Hok & -> & rest & ->). destruct Hok as [Hlen Hcs] eqn:E; clear E.
    unfold Identity_MAX_LEN in Hlen. pose proof (u8_as_u8 (len (as_str id)) ltac:(lia)) as Hu.
    rewrite encode_identity_tlv_unfold. change TLV_MAGIC with [x53; x42; x4c; x4e].
    cbn [app parse_identity_tlv].
    assert (parse_tlv_head x53 x42 x4c x4e TLV_VERSION (as_u8 (len (as_str id)))
            = Ok (as_u8 (len (as_str id)))) as Hh.
    { apply parse_tlv_head_Ok. rewrite Hu. unfold Identity_MAX_LEN. split_and!; [done..|lia|lia]. }
    rewrite Hh. cbn [mbind result_bind]. cbn zeta. unfold identity_tlv_size.
    rewrite Hu. autorewrite with len_simpl. pose proof (len_nonneg rest).
    destruct (_ <? _) eqn:Hlt; [lia|].
    replace (Z.to_nat (6 + len (as_str id))) with (6 + length (as_str id))%nat
      by (unfold len; lia).
    cbn [take drop Nat.add]. rewrite drop_0, take_app_length.
    assert (parse_tlv_body (as_str id) = Ok id) as ->; [|done].
    apply parse_tlv_body_Ok. by destruct id.
Qed.

(** ** Lemmas: framing *)

Lemma from_to_be_u16 n :
  0 <= n <= MAX_MESSAGE_SIZE → ∃ hi lo, to_be_u16 n = [hi; lo] ∧ from_be_u16 hi lo = n.
Proof.
  unfold MAX_MESSAGE_SIZE. intros Hn. do 2 eexists. split; [done|]. unfold from_be_u16.
  rewrite (Z.mod_small n 65536) by lia.
  assert (0 <= n / 256 < 256) by (split; [apply Z.div_pos|apply Z.div_lt_upper_bound]; lia).
  pose proof (Z.mod_pos_bound n 256 ltac:(lia)).
  rewrite !u8_as_u8 by lia. pose proof (Z.div_mod n 256 ltac:(lia)). lia.
Qed.

Section frames.
Context {NZ : Noise}.

Lemma read_frame_length_Ok hi lo : read_frame_length hi lo = Ok (from_be_u16 hi lo).
Proof.
  unfold read_frame_length, from_be_u16, MAX_MESSAGE_SIZE. pose proof (u8_range hi). pose proof (u8_range lo).
  destruct (_ <? _) eqn:E; [lia|done].
Qed.

Lemma from_be_u16_bound hi lo : 0 <= from_be_u16 hi lo <= MAX_MESSAGE_SIZE.
Proof.
  unfold from_be_u16, MAX_MESSAGE_SIZE. pose proof (u8_range hi). pose proof (u8_range lo). lia.
Qed.

Lemma frame_Ok payload out :
  frame payload = Ok out ↔
  len payload <= MAX_MESSAGE_SIZE ∧
  ∃ hi lo, out = hi :: lo :: payload ∧ to_be_u16 (len payload) = [hi; lo].
Proof.
  unfold frame. destruct (_ <? _) eqn:E.
  - split; [done|]. intros [? _]. lia.
  - split.
    + intros [= <-]. split; [lia|]. by do 2 eexists.
    + by intros (_ & hi & lo & -> & ->).
Qed.

(** What a framed message looks like to the reader. *)
Lemma frame_reads payload :
  len payload <= MAX_MESSAGE_SIZE →
  ∃ hi lo, frame payload = Ok (hi :: lo :: payload) ∧ read_frame_length hi lo = Ok (len payload).
Proof.
  intros H. destruct (from_to_be_u16 (len payload)) as (hi & lo & E & Hv).
  { pose proof (len_nonneg payload). lia. }
  exists hi, lo. rewrite read_frame_length_Ok, Hv. split; [|done].
  apply frame_Ok. split; [done|]. by exists hi, lo.
Qed.

Lemma to_from_be_u16 hi lo : to_be_u16 (from_be_u16 hi lo) = [hi; lo].
Proof.
  pose proof (u8_range hi). pose proof (u8_range lo). unfold to_be_u16, from_be_u16.
  rewrite (Z.mod_small _ 65536) by lia.
  rewrite Z.div_add_l, (Z.div_small (u8 lo)), Z.add_0_r by lia.
  replace ((u8 hi * 256 + u8 lo) mod 256) with (u8 lo) by (rewrite Z.add_comm, Z.mod_add, Z.mod_small; lia).
  by rewrite !as_u8_u8.
Qed.

(** A length prefix and a body of that length are a frame. *)
Lemma frame_of hi lo m : len m = from_be_u16 hi lo → frame m = Ok ([hi; lo] ++ m).
Proof.
  intros Hm. apply frame_Ok. rewrite Hm. split; [|exists hi, lo; by rewrite to_from_be_u16].
  apply from_be_u16_bound.
Qed.

Lemma recv_chunk_Ok bs hi lo : recv_chunk bs = Ok (hi, lo) → bs = [hi; lo].
Proof. by destruct bs as [|? [|? [|]]]; intros [= <- <-]. Qed.

Lemma check_recv_len_Ok a b x : check_recv_len a b = Ok x → b = a.
Proof. unfold check_recv_len. destruct (a =? b) eqn:E; [lia|done]. Qed.

End frames.

(** ** The responder under an arbitrary driver

    A driver is any sequence of method calls. *)

Inductive RCall :=
| Call_step
| Call_recv (bs : bytes)
| Call_set_psk (psk : Psk)
| Call_wrote
| Call_set_response (plaintext : bytes).

Inductive RCallKind := K_step | K_recv | K_set_psk | K_wrote | K_set_response.

Definition kind (c : RCall) : RCallKind :=
  match c with
  | Call_step => K_step
  | Call_recv _ => K_recv
  | Call_set_psk _ => K_set_psk
  | Call_wrote => K_wrote
  | Call_set_response _ => K_set_response
  end.

Section responder.
Context {NZ : Noise}.

Definition no_step (r : RState * result SessionError ()) : RState * result SessionError (option Step) :=
  (r.1, (λ _, None) <$> r.2).

Definition Responder_call (s : RState) (c : RCall) : RState * result SessionError (option Step) :=
  match c with
  | Call_step => let '(s', r) := Responder_step s in (s', Some <$> r)
  | Call_recv bs => no_step (Responder_recv s bs)
  | Call_set_psk psk => no_step (Responder_set_psk s psk)
  | Call_wrote => no_step (Responder_wrote s)
  | Call_set_response p => no_step (Responder_set_response s p)
  end.

(** The position of a state in the protocol. *)
Definition rank (s : RState) : nat :=
  match s with
  | R_WantHsLen _ => 0
  | R_WantHsBody _ _ => 1
  | R_NeedPsk _ _ => 2
  | R_AwaitingPsk _ => 3
  | R_WriteHs _ _ => 4
  | R_WroteHsPending _ => 5
  | R_WantReqLen _ => 6
  | R_WantReqBody _ _ => 7
  | R_HaveRequest _ _ => 8
  | R_AwaitingResponse _ => 9
  | R_WriteResp _ => 10
  | R_WroteRespPending => 11
  | R_Done => 12
  | R_Failed => 13
  end.

(** The call that moves on from each position. *)
Definition protocol_order : list RCallKind :=
  [K_recv; K_recv; K_step; K_set_psk; K_step; K_wrote; K_recv; K_recv; K_step;
   K_set_response; K_step; K_wrote].

(** What one call can do: it advances one position with the call the protocol
    expects there; or it repeats a read request or [Done]; or it is refused
    in the wrong state and changes nothing; or it fails for good. *)
Inductive call_effect (s : RState) (c : RCall) :
    RState → result SessionError (option Step) → Prop :=
| eff_advance s' o :
    rank s' = S (rank s) → (rank s' <= 12)%nat → protocol_order !! rank s = Some (kind c) →
    call_effect s c s' (Ok o)
| eff_repeat n : c = Call_step → s ≠ R_Failed → call_effect s c s (Ok (Some (Step_ReadExact n)))
| eff_done : c = Call_step → s = R_Done → call_effect s c s (Ok (Some Step_Done))
| eff_refused m : call_effect s c s (Err (S_WrongState m (RState_name s)))
| eff_failed e : (∀ m n, e ≠ S_WrongState m n) → s ≠ R_Failed →
    protocol_order !! rank s = Some (kind c) → call_effect s c R_Failed (Err e).

Lemma lift_not_wrong {A} (r : result TransportError A) m n : lift r ≠ Err (S_WrongState m n).
Proof. destruct r as [|[]]; done. Qed.

(** A session expression whose errors never are [WrongState]. *)
Definition ordinary {A} (r : result SessionError A) : Prop := ∀ m n, r ≠ Err (S_WrongState m n).

Lemma ordinary_bind {A C} (r : result SessionError A) (f : A → result SessionError C) :
  ordinary r → (∀ a, ordinary (f a)) → ordinary (r ≫= f).
Proof. intros Hr Hf m n. destruct r as [a|e]; cbn; [apply Hf|]. intros [= ->]. by eapply Hr. Qed.

Lemma ordinary_Ok {A} (a : A) : ordinary (Ok a).
Proof. done. Qed.
Lemma ordinary_lift {A} (r : result TransportError A) : ordinary (lift r).
Proof. intros m n. apply lift_not_wrong. Qed.
Lemma ordinary_tlv {A} (r : result TlvError A) : ordinary (map_err SessionError_from_TlvError r).
Proof. intros m n. destruct r as [|[]]; done. Qed.
Lemma ordinary_psk {A} (r : result SnowError A) : ordinary (map_err S_HandshakeWrite r).
Proof. intros m n. by destruct r. Qed.
Lemma ordinary_chunk bs : ordinary (recv_chunk bs).
Proof. intros m n. unfold recv_chunk. by repeat case_match. Qed.
Lemma ordinary_len a b : ordinary (check_recv_len a b).
Proof. intros m n. unfold check_recv_len. by case_match. Qed.

Create HintDb ordinary.
Hint Resolve ordinary_Ok ordinary_lift ordinary_tlv ordinary_psk ordinary_chunk ordinary_len : ordinary.

Ltac solve_ordinary :=
  repeat first
    [ progress auto with ordinary
    | apply ordinary_bind; [|intros ?]
    | match goal with
      | x : _ * _ |- ordinary _ => destruct x
      | |- ordinary (if ?b then _ else _) => destruct b
      | |- ordinary (Err _) => intros ? ?; discriminate
      end ].

Lemma or_failed_effect s c r :
  s ≠ R_Failed → ordinary r → protocol_order !! rank s = Some (kind c) → (rank s < 12)%nat →
  (∀ s', r = Ok s' → rank s' = S (rank s)) →
  call_effect s c (no_step (or_failed r)).1 (no_step (or_failed r)).2.
Proof.
  intros Hs Ho Hk Hlt Hr. destruct r as [s'|e]; cbn.
  - specialize (Hr s' eq_refl). apply eff_advance; [done|lia|done].
  - apply eff_failed; [|done..]. intros m n ->. by eapply Ho.
Qed.

Lemma Responder_call_cases s c :
  call_effect s c (Responder_call s c).1 (Responder_call s c).2.
Proof.
  destruct c as [|bs|psk| |p]; cbn [Responder_call].
  - destruct s; cbn; try (by apply eff_refused); try (by apply eff_repeat); try (by apply eff_done);
      (apply eff_advance; cbn; [done|lia|done]).
  - destruct s; try (by apply eff_refused); cbn [Responder_recv];
      (apply or_failed_effect; [done|solve_ordinary|done|cbn; lia|]);
      intros s' Hs'; inv_ok; repeat case_match; inv_ok; done.
  - destruct s; try (by apply eff_refused); cbn [Responder_set_psk];
      (apply or_failed_effect; [done|solve_ordinary|done|cbn; lia|]);
      intros s' Hs'; inv_ok; done.
  - destruct s; try (by apply eff_refused); cbn [Responder_wrote].
    + apply or_failed_effect; [done|solve_ordinary|done|cbn; lia|].
      intros s' Hs'; inv_ok; done.
    + by apply eff_advance; [done|cbn; lia|].
  - destruct s; try (by apply eff_refused); cbn [Responder_set_response];
      (apply or_failed_effect; [done|solve_ordinary|done|cbn; lia|]);
      intros s' Hs'; inv_ok; done.
Qed.

(** Running a driver: the final state and the kinds of the calls that
    advanced the machine. *)
Definition advanced (s s' : RState) : bool := (rank s <? rank s')%nat && (rank s' <=? 12)%nat.

Fixpoint Responder_run (s : RState) (cs : list RCall) : RState * list RCallKind :=
  match cs with
  | [] => (s, [])
  | c :: cs' =>
      let '(s', _) := Responder_call s c in
      let '(s'', ks) := Responder_run s' cs' in
      (s'', if advanced s s' then kind c :: ks else ks)
  end.

Lemma rank_le_13 s : (rank s <= 13)%nat.
Proof. destruct s; cbn; lia. Qed.

Lemma advanced_same s : advanced s s = false.
Proof. unfold advanced. by rewrite Nat.ltb_irrefl. Qed.

Lemma advanced_failed s : advanced s R_Failed = false.
Proof. unfold advanced. cbn. by rewrite andb_false_r. Qed.

Lemma Responder_run_failed cs : Responder_run R_Failed cs = (R_Failed, []).
Proof.
  induction cs as [|c cs IH]; [done|]. cbn [Responder_run].
  assert ((Responder_call R_Failed c).1 = R_Failed) as E by (by destruct c).
  destruct (Responder_call R_Failed c) as [s' r]. cbn in E. subst s'. rewrite IH.
  by rewrite advanced_same.
Qed.

Lemma Responder_run_order s cs s' ks :
  (rank s <= 12)%nat → Responder_run s cs = (s', ks) →
  ks = take (length ks) (drop (rank s) protocol_order) ∧
  (s' = R_Failed ∨ rank s' = (rank s + length ks)%nat).
Proof.
  revert s ks. induction cs as [|c cs IH]; intros s ks Hs Hrun; cbn [Responder_run] in Hrun.
  { injection Hrun as <- <-. cbn. split; [done|]. right. lia. }
  pose proof (Responder_call_cases s c) as He.
  destruct (Responder_call s c) as [s1 r1]. cbn in He.
  destruct (Responder_run s1 cs) as [s2 ks2] eqn:E2. injection Hrun as <- <-.
  destruct He as [s1 o Hr Hle Hk|n _ Hnf|_ Hd|m|e _ _ _].
  - assert (advanced s s1 = true) as ->.
    { unfold advanced. rewrite Hr in *. apply andb_true_iff. split; [apply Nat.ltb_lt|apply Nat.leb_le]; lia. }
    destruct (IH s1 ks2) as [Hks Hend]; [done..|]. cbn [length]. split.
    + rewrite (drop_S _ _ _ Hk). cbn [take]. f_equal. by rewrite <-Hr.
    + destruct Hend as [->|Hend]; [by left|right]. lia.
  - rewrite advanced_same. by apply IH.
  - rewrite advanced_same. by apply IH.
  - rewrite advanced_same. by apply IH.
  - rewrite advanced_failed. rewrite Responder_run_failed in E2. injection E2 as <- <-.
    split; [done|by left].
Qed.

(** ** Where the plaintext of a request comes from

    [r_hist hs0 cs s]: after the calls [cs] on a responder that started from
    [hs0], the state [s] has the history the protocol gives it. *)

Definition hist_msg1 (hs0 : HandshakeState) (cs : list RCall) (hs1 : HandshakeState) (id : Identity) : Prop :=
  Identity_ok id ∧
  ∃ m1, Call_recv m1 ∈ cs ∧ hs_read_message hs0 m1 = Ok (hs1, encode_identity_tlv id).

Definition hist_msg2 hs0 cs hs3 id psk : Prop :=
  ∃ hs1 hs2 m2, hist_msg1 hs0 cs hs1 id ∧ Call_set_psk psk ∈ cs ∧
    hs_set_psk hs1 PSK_SLOT (psk_bytes psk) = Ok hs2 ∧ hs_write_message hs2 [] = Ok (hs3, m2).

Definition hist_channel hs0 cs ts id psk : Prop :=
  ∃ hs3, hist_msg2 hs0 cs hs3 id psk ∧ into_transport_mode hs3 = Ok ts.

Definition hist_request hs0 cs p id psk : Prop :=
  ∃ ts ts' c, hist_channel hs0 cs ts id psk ∧ Call_recv c ∈ cs ∧ ts_read_message ts c = Ok (ts', p).

Definition r_hist (hs0 : HandshakeState) (cs : list RCall) (s : RState) : Prop :=
  match s with
  | R_WantHsLen hs | R_WantHsBody hs _ => hs = hs0
  | R_NeedPsk hs id => hist_msg1 hs0 cs hs id
  | R_AwaitingPsk hs => ∃ id, hist_msg1 hs0 cs hs id
  | R_WriteHs hs _ | R_WroteHsPending hs => ∃ id psk, hist_msg2 hs0 cs hs id psk
  | R_WantReqLen ts | R_WantReqBody ts _ => ∃ id psk, hist_channel hs0 cs ts id psk
  | R_HaveRequest _ p => ∃ id psk, hist_request hs0 cs p id psk
  | _ => True
  end.

Lemma hist_msg1_mono hs0 cs c hs1 id : hist_msg1 hs0 cs hs1 id → hist_msg1 hs0 (cs ++ [c]) hs1 id.
Proof. unfold hist_msg1. set_solver. Qed.
Lemma hist_msg2_mono hs0 cs c hs id psk : hist_msg2 hs0 cs hs id psk → hist_msg2 hs0 (cs ++ [c]) hs id psk.
Proof.
  intros (? & ? & ? & ?%(hist_msg1_mono _ _ c) & ? & ? & ?). do 3 eexists.
  split_and!; [done|by apply elem_of_app; left|done..].
Qed.
Lemma hist_channel_mono hs0 cs c ts id psk :
  hist_channel hs0 cs ts id psk → hist_channel hs0 (cs ++ [c]) ts id psk.
Proof. intros (? & ?%(hist_msg2_mono _ _ c) & ?). by eexists. Qed.
Lemma hist_request_mono hs0 cs c p id psk :
  hist_request hs0 cs p id psk → hist_request hs0 (cs ++ [c]) p id psk.
Proof.
  intros (? & ? & ? & ?%(hist_channel_mono _ _ c) & ? & ?). do 3 eexists.
  split_and!; [done|by apply elem_of_app; left|done].
Qed.

Create HintDb hist.
Hint Resolve hist_msg1_mono hist_msg2_mono hist_channel_mono hist_request_mono : hist.

Lemma elem_of_snoc {A} (x : A) l : x ∈ l ++ [x].
Proof. set_solver. Qed.
Hint Resolve elem_of_snoc : hist.

Lemma r_hist_mono hs0 cs c s : r_hist hs0 cs s → r_hist hs0 (cs ++ [c]) s.
Proof. destruct s; cbn; naive_solver eauto with hist. Qed.

(** The hard arm: message 1 is one TLV and nothing else. *)
Lemma r_hist_msg1 hs0 cs m1 n s' :
  (Responder_recv (R_WantHsBody hs0 n) m1) = (s', Ok ()) → r_hist hs0 (cs ++ [Call_recv m1]) s'.
Proof.
  cbn [Responder_recv]. intros H.
  match type of H with or_failed ?r = _ => destruct r as [s1|e] eqn:E; cbn in H; [|done] end.
  injection H as <-. inv_ok. case_match eqn:Hc; inv_ok. cbn.
  match goal with H : parse_identity_tlv _ = _ |- _ =>
    apply parse_identity_tlv_iff in H as (Hid & -> & rest & ->) end.
  apply negb_false_iff in Hc. rewrite len_app in Hc.
  assert (rest = []) as -> by (apply len_0_iff; lia). rewrite app_nil_r in *.
  split; [done|]. eexists. split; [apply elem_of_snoc|].
  match goal with H : lift (handshake_read _ _) = Ok _ |- _ =>
    by apply map_err_Ok, map_err_Ok in H end.
Qed.

(** Reading off the value of an arm that succeeded. *)
Ltac inv_arm H :=
  match type of H with or_failed ?r = _ =>
    destruct r eqn:?; cbn in H; [|discriminate H]; injection H as <- end;
  unfold lift, transport_read, transport_write, handshake_write, into_transport in *; inv_ok.

Lemma r_hist_call hs0 cs s c :
  r_hist hs0 cs s → r_hist hs0 (cs ++ [c]) (Responder_call s c).1.
Proof.
  intros Hs. destruct (Responder_call s c) as [s' r] eqn:E. cbn.
  destruct r as [o|e].
  2:{ pose proof (Responder_call_cases s c) as He. rewrite E in He. cbn in He.
      inversion He; subst; [by apply r_hist_mono|done]. }
  destruct c as [|bs|psk| |p]; cbn [Responder_call] in E.
  - destruct s; cbn in E; inv_ok; simplify_eq/=; try done; eauto with hist;
      try (destruct Hs as (? & ? & ?)); eauto with hist.
  - unfold no_step in E. destruct (Responder_recv s bs) as [s1 r1] eqn:Er. cbn in E.
    destruct r1 as [[]|]; [|done]. injection E as <- _.
    destruct s; try discriminate Er.
    + cbn in Er, Hs. inv_arm Er. done.
    + cbn in Hs. subst. by eapply r_hist_msg1.
    + cbn in Er, Hs. inv_arm Er. cbn. destruct Hs as (? & ? & ?). eauto with hist.
    + cbn in Er, Hs. inv_arm Er. cbn. destruct Hs as (id & psk & Hch). exists id, psk.
      do 3 eexists. eauto with hist.
  - unfold no_step in E. destruct (Responder_set_psk s psk) as [s1 r1] eqn:Er. cbn in E.
    destruct r1 as [[]|]; [|done]. injection E as <- _.
    destruct s; try discriminate Er. cbn in Er, Hs. inv_arm Er. cbn.
    destruct Hs as (id & Hm). exists id, psk. do 3 eexists. eauto with hist.
  - unfold no_step in E. destruct (Responder_wrote s) as [s1 r1] eqn:Er. cbn in E.
    destruct r1 as [[]|]; [|done]. injection E as <- _.
    destruct s; try discriminate Er; cbn in Er, Hs.
    + inv_arm Er. cbn. destruct Hs as (id & psk & Hm). exists id, psk. eexists. eauto with hist.
    + by injection Er as <-.
  - unfold no_step in E. destruct (Responder_set_response s p) as [s1 r1] eqn:Er. cbn in E.
    destruct r1 as [[]|]; [|done]. injection E as <- _.
    destruct s; try discriminate Er. cbn in Er. by inv_arm Er.
Qed.

Lemma r_hist_run hs0 cs0 s cs :
  r_hist hs0 cs0 s → r_hist hs0 (cs0 ++ cs) (Responder_run s cs).1.
Proof.
  revert cs0 s. induction cs as [|c cs IH]; intros cs0 s Hs; cbn [Responder_run].
  { by rewrite app_nil_r. }
  apply (r_hist_call _ _ _ c) in Hs. destruct (Responder_call s c) as [s1 r1]. cbn in Hs.
  apply IH in Hs. destruct (Responder_run s1 cs) as [s2 ks]. cbn in *.
  by rewrite <-(assoc_L (++)) in Hs.
Qed.

End responder.

(** ** Two machines and a wire

    The driver loop of the [Responder] documentation and its mirror image on
    the client side, one [step()] per turn, over two byte queues.  A driver
    whose [ReadExact] is not yet satisfied leaves everything as it is. *)

Section session.
Context {NZ : Noise}.

(** The new state, what is left of the input queue, what was written. *)
Definition Initiator_turn (i : IState) (inq : bytes) : result SessionError (IState * bytes * bytes) :=
  match Initiator_step i with
  | (i', Ok (Step_ReadExact n)) =>
      if len inq <? n then Ok (i', inq, [])
      else match Initiator_recv i' (take (Z.to_nat n) inq) with
           | (i'', Ok _) => Ok (i'', drop (Z.to_nat n) inq, [])
           | (_, Err e) => Err e
           end
  | (i', Ok (Step_Write out)) =>
      match Initiator_wrote i' with
      | (i'', Ok _) => Ok (i'', inq, out)
      | (_, Err e) => Err e
      end
  | (i', Ok _) => Ok (i', inq, [])
  | (_, Err e) => Err e
  end.

Definition Responder_turn (lookup : Identity → Psk) (handle : bytes → bytes) (r : RState) (inq : bytes) :
    result SessionError (RState * bytes * bytes) :=
  match Responder_step r with
  | (r', Ok (Step_ReadExact n)) =>
      if len inq <? n then Ok (r', inq, [])
      else match Responder_recv r' (take (Z.to_nat n) inq) with
           | (r'', Ok _) => Ok (r'', drop (Z.to_nat n) inq, [])
           | (_, Err e) => Err e
           end
  | (r', Ok (Step_NeedPsk identity)) =>
      match Responder_set_psk r' (lookup identity) with
      | (r'', Ok _) => Ok (r'', inq, [])
      | (_, Err e) => Err e
      end
  | (r', Ok (Step_Write out)) =>
      match Responder_wrote r' with
      | (r'', Ok _) => Ok (r'', inq, out)
      | (_, Err e) => Err e
      end
  | (r', Ok (Step_Request plaintext)) =>
      match Responder_set_response r' (handle plaintext) with
      | (r'', Ok _) => Ok (r'', inq, [])
      | (_, Err e) => Err e
      end
  | (r', Ok Step_Done) => Ok (r', inq, [])
  | (_, Err e) => Err e
  end.

Record World := MkWorld { w_i : IState; w_r : RState; c2r : bytes; r2c : bytes }.

Definition world_turn lookup handle (w : World) : result SessionError World :=
  '(i, r2c', out_i) ← Initiator_turn (w_i w) (r2c w);
  '(r, c2r', out_r) ← Responder_turn lookup handle (w_r w) (c2r w ++ out_i);
  Ok (MkWorld i r c2r' (r2c' ++ out_r)).

Fixpoint session lookup handle (fuel : nat) (w : World) : result SessionError World :=
  match fuel with
  | O => Ok w
  | S fuel' =>
      w' ← world_turn lookup handle w;
      session lookup handle fuel' w'
  end.

Lemma len_ltb_app {A} (a rest : list A) : (len (a ++ rest) <? len a) = false.
Proof. rewrite len_app. pose proof (len_nonneg rest). lia. Qed.

Lemma Initiator_turn_read i i' a rest :
  Initiator_step i = (i, Ok (Step_ReadExact (len a))) → Initiator_recv i a = (i', Ok ()) →
  Initiator_turn i (a ++ rest) = Ok (i', rest, []).
Proof.
  intros Hs Hr. unfold Initiator_turn. rewrite Hs, len_ltb_app.
  rewrite len_to_nat, take_app_length, drop_app_length. by rewrite Hr.
Qed.

Lemma Responder_turn_read lk h r r' a rest :
  Responder_step r = (r, Ok (Step_ReadExact (len a))) → Responder_recv r a = (r', Ok ()) →
  Responder_turn lk h r (a ++ rest) = Ok (r', rest, []).
Proof.
  intros Hs Hr. unfold Responder_turn. rewrite Hs, len_ltb_app.
  rewrite len_to_nat, take_app_length, drop_app_length. by rewrite Hr.
Qed.

Lemma session_S lk h n w w' w'' :
  world_turn lk h w = Ok w' → session lk h n w' = Ok w'' → session lk h (S n) w = Ok w''.
Proof. intros H1 H2. cbn. by rewrite H1. Qed.

Lemma world_turn_intro lk h i r q1 q2 i' q2' o1 r' q1' o2 :
  Initiator_turn i q2 = Ok (i', q2', o1) → Responder_turn lk h r (q1 ++ o1) = Ok (r', q1', o2) →
  world_turn lk h (MkWorld i r q1 q2) = Ok (MkWorld i' r' q1' (q2' ++ o2)).
Proof. intros H1 H2. unfold world_turn. cbn. rewrite H1. cbn. by rewrite H2. Qed.

(** Arms of the two machines on framed input. *)
Lemma recv_len_arms hi lo n :
  read_frame_length hi lo = Ok n →
  (∀ hs, Responder_recv (R_WantHsLen hs) [hi; lo] = (R_WantHsBody hs n, Ok ())) ∧
  (∀ ts, Responder_recv (R_WantReqLen ts) [hi; lo] = (R_WantReqBody ts n, Ok ())) ∧
  (∀ hs q, Initiator_recv (I_WantHs2Len hs q) [hi; lo] = (I_WantHs2Body hs n q, Ok ())) ∧
  (∀ ts, Initiator_recv (I_WantRespLen ts) [hi; lo] = (I_WantRespBody ts n, Ok ())).
Proof. intros H. cbn. unfold lift. rewrite H. done. Qed.

Lemma check_recv_len_refl n : check_recv_len n n = Ok ().
Proof. unfold check_recv_len. by rewrite Z.eqb_refl. Qed.

Lemma Responder_recv_msg1 hs hs' m id :
  hs_read_message hs m = Ok (hs', encode_identity_tlv id) → Identity_ok id →
  Responder_recv (R_WantHsBody hs (len m)) m = (R_NeedPsk hs' id, Ok ()).
Proof.
  intros H Hid. cbn [Responder_recv]. rewrite check_recv_len_refl. unfold handshake_read, lift.
  rewrite H. cbn.
  assert (parse_identity_tlv (encode_identity_tlv id) = Ok (id, len (encode_identity_tlv id))) as ->.
  { apply parse_identity_tlv_iff. split_and!; [done..|]. exists []. by rewrite app_nil_r. }
  cbn. by rewrite Z.eqb_refl.
Qed.

Lemma Responder_set_psk_Ok hs psk hs2 hs3 m out :
  hs_set_psk hs PSK_SLOT (psk_bytes psk) = Ok hs2 → hs_write_message hs2 [] = Ok (hs3, m) →
  frame m = Ok out → Responder_set_psk (R_AwaitingPsk hs) psk = (R_WriteHs hs3 out, Ok ()).
Proof.
  intros H1 H2 H3. cbn [Responder_set_psk]. rewrite H1. cbn. unfold handshake_write. rewrite H2.
  cbn. by rewrite H3.
Qed.

(** The last bytes in the queue are the ones asked for. *)
Lemma Initiator_turn_all i i' a :
  Initiator_step i = (i, Ok (Step_ReadExact (len a))) → Initiator_recv i a = (i', Ok ()) →
  Initiator_turn i a = Ok (i', [], []).
Proof. intros. rewrite <-(app_nil_r a) at 1. by apply Initiator_turn_read. Qed.

Lemma Responder_turn_all lk h r r' a :
  Responder_step r = (r, Ok (Step_ReadExact (len a))) → Responder_recv r a = (r', Ok ()) →
  Responder_turn lk h r a = Ok (r', [], []).
Proof. intros. rewrite <-(app_nil_r a) at 1. by apply Responder_turn_read. Qed.

Lemma session_app lk h n1 n2 w w1 w2 :
  session lk h n1 w = Ok w1 → session lk h n2 w1 = Ok w2 → session lk h (n1 + n2) w = Ok w2.
Proof.
  revert w. induction n1 as [|n1 IH]; intros w H1 H2; cbn in *; [by injection H1 as ->|].
  destruct (world_turn lk h w); cbn in *; [by apply IH|done].
Qed.

(** One honest run, its messages given. *)
Section honest.
Context (lookup : Identity → Psk) (handle : bytes → bytes) (id : Identity) (request : bytes).
Context (i1 i2 r0 r1 r2 r3 : HandshakeState) (ti ti1 ti2 tr tr1 tr2 : TransportState).
Context (m1 m2 p2 c1 c2 : bytes) (h1 l1 h2 l2 h3 l3 h4 l4 : byte).
Hypothesis Hid : Identity_ok id.
Hypothesis (F1 : frame m1 = Ok (h1 :: l1 :: m1)) (L1 : read_frame_length h1 l1 = Ok (len m1)).
Hypothesis (F2 : frame m2 = Ok (h2 :: l2 :: m2)) (L2 : read_frame_length h2 l2 = Ok (len m2)).
Hypothesis (F3 : frame c1 = Ok (h3 :: l3 :: c1)) (L3 : read_frame_length h3 l3 = Ok (len c1)).
Hypothesis (F4 : frame c2 = Ok (h4 :: l4 :: c2)) (L4 : read_frame_length h4 l4 = Ok (len c2)).
Hypothesis Er1 : hs_read_message r0 m1 = Ok (r1, encode_identity_tlv id).
Hypothesis Esp : hs_set_psk r1 PSK_SLOT (psk_bytes (lookup id)) = Ok r2.
Hypothesis Ew2 : hs_write_message r2 [] = Ok (r3, m2).
Hypothesis Er2 : hs_read_message i1 m2 = Ok (i2, p2).
Hypothesis (Etr : into_transport_mode r3 = Ok tr) (Eti : into_transport_mode i2 = Ok ti).
Hypothesis (Ec1 : ts_write_message ti request = Ok (ti1, c1)) (Ed1 : ts_read_message tr c1 = Ok (tr1, request)).
Hypothesis Ec2 : ts_write_message tr1 (handle request) = Ok (tr2, c2).
Hypothesis Ed2 : ts_read_message ti1 c2 = Ok (ti2, handle request).

Ltac crypto :=
  unfold Initiator_turn, Responder_turn; cbn -[check_recv_len len frame];
  rewrite ?check_recv_len_refl; cbn -[frame];
  unfold handshake_read, handshake_write, into_transport, transport_read, transport_write;
  repeat match goal with H : ?l = Ok _ |- context [?l] => progress rewrite H; cbn -[frame] end; done.

Lemma honest_handshake :
  session lookup handle 6 (MkWorld (I_WriteHs1 i1 (h1 :: l1 :: m1) request) (R_WantHsLen r0) [] [])
  = Ok (MkWorld (I_WriteReq ti1 (h3 :: l3 :: c1)) (R_WantReqLen tr) [] []).
Proof.
  destruct (recv_len_arms _ _ _ L1) as (A1 & _), (recv_len_arms _ _ _ L2) as (_ & _ & A2 & _).
  eapply session_S; [eapply world_turn_intro; [done|]; by apply (Responder_turn_read _ _ _ _ [h1; l1])|].
  eapply session_S.
  { eapply world_turn_intro; [done|]. rewrite app_nil_r.
    apply Responder_turn_all; [done|]. by apply Responder_recv_msg1. }
  eapply session_S; [eapply world_turn_intro; [done|crypto]|].
  eapply session_S; [eapply world_turn_intro; [done|crypto]|].
  eapply session_S; [eapply world_turn_intro; [by apply (Initiator_turn_read _ _ [h2; l2])|done]|].
  eapply session_S; [eapply world_turn_intro|].
  - rewrite app_nil_r. apply Initiator_turn_all; [done|]. crypto.
  - done.
  - done.
Qed.

Lemma honest_exchange :
  session lookup handle 6 (MkWorld (I_WriteReq ti1 (h3 :: l3 :: c1)) (R_WantReqLen tr) [] [])
  = Ok (MkWorld (I_Done (handle request)) R_Done [] []).
Proof.
  destruct (recv_len_arms _ _ _ L3) as (_ & A3 & _), (recv_len_arms _ _ _ L4) as (_ & _ & _ & A4).
  eapply session_S; [eapply world_turn_intro; [done|]; by apply (Responder_turn_read _ _ _ _ [h3; l3])|].
  eapply session_S.
  { eapply world_turn_intro; [done|]. rewrite app_nil_r. apply Responder_turn_all; [done|]. crypto. }
  eapply session_S; [eapply world_turn_intro; [done|crypto]|].
  eapply session_S; [eapply world_turn_intro; [done|crypto]|].
  eapply session_S; [eapply world_turn_intro; [by apply (Initiator_turn_read _ _ [h4; l4])|done]|].
  eapply session_S; [eapply world_turn_intro|].
  - rewrite app_nil_r. apply Initiator_turn_all; [done|]. crypto.
  - done.
  - done.
Qed.
End honest.

Lemma Initiator_new_Ok si id psk pub request i0 i1 m1 out :
  initiator_hs si (psk_bytes psk) (pub_bytes pub) = Ok i0 →
  hs_write_message i0 (encode_identity_tlv id) = Ok (i1, m1) → frame m1 = Ok out →
  Initiator_new si id psk pub request = Ok (I_WriteHs1 i1 out request).
Proof.
  intros Ei Ew F. unfold Initiator_new, initiator_hs in *. inv_ok. unfold lift, initiator.
  repeat match goal with H : ?l = Ok _ |- context [?l] => progress rewrite H; cbn -[frame] end.
  unfold handshake_write. rewrite Ew. cbn -[frame]. by rewrite F.
Qed.

Lemma Responder_new_Ok sr key r0 :
  responder_hs sr (priv_bytes key) = Ok r0 → Responder_new sr key = Ok (R_WantHsLen r0).
Proof.
  intros Er. unfold Responder_new, responder_hs in *. inv_ok. unfold lift, responder.
  repeat match goal with H : ?l = Ok _ |- context [?l] => progress rewrite H; cbn end. done.
Qed.

Lemma Responder_new_inv sr key s :
  Responder_new sr key = Ok s → ∃ r0, responder_hs sr (priv_bytes key) = Ok r0 ∧ s = R_WantHsLen r0.
Proof.
  unfold Responder_new, responder, responder_hs. intros H. inv_ok. unfold lift in *. inv_ok.
  repeat match goal with H : ?l = Ok _ |- context [?l] => progress rewrite H; cbn end. eauto.
Qed.

Context {NL : NoiseLaws}.

Lemma frame_written hs p hs' m :
  hs_write_message hs p = Ok (hs', m) →
  ∃ hi lo, frame m = Ok (hi :: lo :: m) ∧ read_frame_length hi lo = Ok (len m).
Proof. intros H. apply frame_reads. by eapply hs_write_len. Qed.

Lemma frame_sealed ts p ts' m :
  ts_write_message ts p = Ok (ts', m) →
  ∃ hi lo, frame m = Ok (hi :: lo :: m) ∧ read_frame_length hi lo = Ok (len m).
Proof. intros H. apply frame_reads. by eapply ts_write_len. Qed.

Lemma identity_tlv_fits id : Identity_ok id → len (encode_identity_tlv id) <= MAX_MESSAGE_SIZE - 48.
Proof.
  intros [Hid _]. rewrite encode_identity_tlv_len. unfold identity_tlv_size, MAX_MESSAGE_SIZE, Identity_MAX_LEN in *.
  lia.
Qed.

(** ** Properties *)

(** C15: an honest session works end to end.  Whatever the broker key, the
    enrolled PSK and the identity, a client that holds that PSK and the
    broker's public key, and a responder that looks the PSK up by the
    identity it decrypts, connected by a reliable wire, finish in twelve
    turns: the broker's handler receives exactly the request bytes and the
    client obtains exactly the handler's answer. *)
Theorem honest_session lookup handle si sr key id psk request :
  len (priv_bytes key) = 32 → Psk_ok psk → Identity_ok id → lookup id = psk →
  len request <= MAX_MESSAGE_SIZE - 16 → len (handle request) <= MAX_MESSAGE_SIZE - 16 →
  ∃ i0 r0 w,
    Initiator_new si id psk (derive_public key) request = Ok i0 ∧
    Responder_new sr key = Ok r0 ∧
    session lookup handle 12 (MkWorld i0 r0 [] []) = Ok w ∧
    take_response (w_i w) = Ok (handle request) ∧ w_r w = R_Done ∧ c2r w = [] ∧ r2c w = [].
Proof.
  intros Hk Hp Hid <- Hreq Hresp.
  destruct (handshake_completes si sr (priv_bytes key) (psk_bytes (lookup id)) (encode_identity_tlv id))
    as (i0 & i1 & m1 & r0 & r1 & r2 & r3 & m2 & i2 & p2 & ti & tr & Ei & Ew1 & Er & Er1 & Esp & Ew2 & Er2 & Etr & Eti & Hlink);
    [done|done|by apply identity_tlv_fits|].
  destruct (channel_to_responder _ _ _ Hlink Hreq) as (ti1 & tr1 & c1 & Ec1 & Ed1 & Hlink1).
  destruct (channel_to_initiator _ _ _ Hlink1 Hresp) as (ti2 & tr2 & c2 & Ec2 & Ed2 & _).
  destruct (frame_written _ _ _ _ Ew1) as (h1 & l1 & F1 & L1).
  destruct (frame_written _ _ _ _ Ew2) as (h2 & l2 & F2 & L2).
  destruct (frame_sealed _ _ _ _ Ec1) as (h3 & l3 & F3 & L3).
  destruct (frame_sealed _ _ _ _ Ec2) as (h4 & l4 & F4 & L4).
  exists (I_WriteHs1 i1 (h1 :: l1 :: m1) request), (R_WantHsLen r0), (MkWorld (I_Done (handle request)) R_Done [] []).
  split_and!; try done.
  - by eapply Initiator_new_Ok.
  - by apply Responder_new_Ok.
  - eapply (session_app _ _ 6 6).
    + by eapply (honest_handshake lookup handle id request i1 i2 r0 r1 r2 r3 ti ti1 tr m1 m2 p2 c1).
    + by eapply (honest_exchange lookup handle request ti1 ti2 tr tr1 tr2 c1 c2).
Qed.

(** [step()] in [NeedPsk] moves the identity out: a second call is refused. *)
Lemma NeedPsk_step_not_idempotent hs id :
  let s1 := (Responder_step (R_NeedPsk hs id)).1 in
  (Responder_step (R_NeedPsk hs id)).2 = Ok (Step_NeedPsk id) ∧
  (Responder_step s1).2 = Err (S_WrongState (B "step") (B "awaiting_psk")).
Proof. done. Qed.

(** C20: the plaintext a responder hands to its driver is authentic with
    respect to the driver's own choices.  Whatever calls a driver makes, in
    whatever order and with whatever bytes, if [step()] then emits
    [Request p], there are a message 1 and a transport message among the
    bytes fed in and a PSK among those supplied such that message 1 decrypts
    to exactly the TLV of a valid identity, message 2 was written under that
    PSK, and [p] is the decryption of the transport message in the channel of
    that handshake. *)
Theorem Responder_request_provenance sr key s0 cs p :
  Responder_new sr key = Ok s0 →
  (Responder_step (Responder_run s0 cs).1).2 = Ok (Step_Request p) →
  ∃ hs0 id psk, responder_hs sr (priv_bytes key) = Ok hs0 ∧ Identity_ok id ∧
                hist_request hs0 cs p id psk.
Proof.
  intros (hs0 & Hhs & ->)%Responder_new_inv Hp.
  pose proof (r_hist_run hs0 [] (R_WantHsLen hs0) cs eq_refl) as H. cbn [app] in H.
  destruct (Responder_run (R_WantHsLen hs0) cs).1; try discriminate Hp. cbn in Hp. injection Hp as <-.
  destruct H as (id & psk & Hr). exists hs0, id, psk. split_and!; [done| |done].
  by destruct Hr as (? & ? & ? & (? & (? & ? & ? & (? & _) & _) & _) & _).
Qed.

(** C26: the responder runs the protocol in one order only, under any driver:
    the calls that advance it are a prefix of the fixed twelve-call sequence,
    so [set_psk] cannot be skipped, no request is taken before message 2 was
    flushed, and a session is over after at most twelve advances. *)
Theorem Responder_protocol_order sr key s0 cs s ks :
  Responder_new sr key = Ok s0 → Responder_run s0 cs = (s, ks) →
  ks = take (length ks) protocol_order ∧ (length ks <= 12)%nat ∧
  (s = R_Failed ∨ rank s = length ks).
Proof.
  intros (hs0 & _ & ->)%Responder_new_inv Hrun.
  apply Responder_run_order in Hrun as [Hks Hs]; [|cbn; lia]. cbn [rank drop Nat.add] in *.
  split_and!; [done| |done].
  rewrite Hks, length_take. cbn. lia.
Qed.

(** Errors of the responder: a call in the wrong state is refused with
    the name of the state and changes nothing; any other error leaves the
    machine in [Failed], from which no call succeeds; a success advances by
    one position or, for [step] on a read state or on [Done], repeats. *)
Lemma Responder_call_effect s c :
  call_effect s c (Responder_call s c).1 (Responder_call s c).2 ∧
  (s = R_Failed → is_ok (Responder_call s c).2 = false).
Proof. split; [apply Responder_call_cases|]. intros ->. by destruct c. Qed.

(** No identity enumeration through message 2.  Once message 1 has been
    accepted, supplying any 32-byte PSK, the enrolled one or a random
    substitute, succeeds and the driver is told to write a frame of 50 bytes:
    neither the shape nor the size of the answer depends on the PSK. *)
Lemma Responder_psk_oblivious sr key hs m1 hs1 id psk :
  responder_hs sr (priv_bytes key) = Ok hs →
  Responder_recv (R_WantHsBody hs (len m1)) m1 = (R_NeedPsk hs1 id, Ok ()) → Psk_ok psk →
  ∃ hs3 out,
    Responder_step (R_NeedPsk hs1 id) = (R_AwaitingPsk hs1, Ok (Step_NeedPsk id)) ∧
    Responder_set_psk (R_AwaitingPsk hs1) psk = (R_WriteHs hs3 out, Ok ()) ∧
    Responder_step (R_WriteHs hs3 out) = (R_WroteHsPending hs3, Ok (Step_Write out)) ∧
    len out = 50.
Proof.
  intros Hhs Hrecv Hp. cbn [Responder_recv] in Hrecv.
  rewrite check_recv_len_refl in Hrecv. cbn in Hrecv.
  unfold lift, handshake_read in Hrecv.
  destruct (hs_read_message hs m1) as [[hs' plain]|e] eqn:E; cbn in Hrecv; [|done].
  assert (hs' = hs1) as ->.
  { destruct (parse_identity_tlv plain) as [[??]|]; cbn in Hrecv; [|done].
    destruct (negb _) in Hrecv; cbn in Hrecv; naive_solver. }
  destruct (responder_answers hs1 (psk_bytes psk)) as (hs2 & hs3 & m2 & E1 & E2 & El);
    [by eapply responder_reads|done|].
  destruct (frame_written _ _ _ _ E2) as (hi & lo & F & _).
  exists hs3, (hi :: lo :: m2). split_and!; [done|by eapply Responder_set_psk_Ok|done|].
  autorewrite with len_simpl. lia.
Qed.

End session.

(** C40: the identity TLV round trip and its converse: [parse_identity_tlv]
    returns identity [id] and length [n] exactly on the inputs that start with
    [encode_identity_tlv id] for a valid [id], [n] being its length, and it
    never looks past that prefix. *)
Theorem parse_identity_tlv_spec input id n :
  parse_identity_tlv input = Ok (id, n) ↔
  Identity_ok id ∧ n = len (encode_identity_tlv id) ∧ ∃ rest, input = encode_identity_tlv id ++ rest.
Proof. apply parse_identity_tlv_iff. Qed.

(** Framing: a payload of at most 65535 bytes is framed as a two-byte
    prefix and itself, and reading the prefix back gives its length; a longer
    one is refused with its length.  Reading a prefix never fails, since two
    bytes cannot announce more than the maximum. *)
Lemma frame_spec {NZ : Noise} payload :
  match frame payload with
  | Ok out => ∃ hi lo, out = hi :: lo :: payload ∧ read_frame_length hi lo = Ok (len payload)
  | Err (T_OversizedFrame got) => got = len payload ∧ MAX_MESSAGE_SIZE < len payload
  | Err _ => False
  end ∧ ∀ hi lo, ∃ n, read_frame_length hi lo = Ok n ∧ 0 <= n <= MAX_MESSAGE_SIZE.
Proof.
  split.
  - destruct (decide (len payload <= MAX_MESSAGE_SIZE)) as [H|H].
    + destruct (frame_reads payload H) as (hi & lo & -> & ?). eauto.
    + unfold frame. destruct (_ <? _) eqn:E; lia.
  - intros hi lo. eexists. split; [apply read_frame_length_Ok|apply from_be_u16_bound].
Qed.

(** ** A concrete Noise implementation

    Tags are plain suffixes; nothing is secret.  It has the message sizes and
    the sequencing of NKpsk2, refuses a message 1 for another broker key and
    a message 2 or transport message under another PSK. *)

Inductive ModelError := ModelPattern | ModelKey | ModelState | ModelDecrypt | ModelSize.

Record ModelBuilder := MkModelBuilder {
  mb_pub : option bytes;
  mb_psk : option bytes;
}.

Record ModelHs := MkModelHs {
  mh_initiator : bool;
  mh_pub : bytes;
  mh_psk : option bytes;
  mh_stage : nat;
}.

Definition model_tag : bytes := replicate 16 x00.

Definition sized (m : bytes) : result ModelError bytes :=
  if MAX_MESSAGE_SIZE <? len m then Err ModelSize else Ok m.

(** Strip [pre] in front and [tag] behind. *)
Definition model_open (pre tag m : bytes) : result ModelError bytes :=
  if decide (take (length pre) m = pre) then
    p ← ok_or ModelDecrypt (strip_suffix tag (drop (length pre) m)); sized p
  else Err ModelDecrypt.

Definition model_hs_write (h : ModelHs) (p : bytes) : result ModelError (ModelHs * bytes) :=
  match mh_initiator h, mh_stage h, mh_psk h with
  | true, 0%nat, o =>
      m ← sized (mh_pub h ++ p ++ model_tag); Ok (MkModelHs true (mh_pub h) o 1, m)
  | false, 1%nat, Some k => m ← sized (k ++ p ++ model_tag); Ok (MkModelHs false (mh_pub h) (Some k) 2, m)
  | _, _, _ => Err ModelState
  end.

Definition model_hs_read (h : ModelHs) (m : bytes) : result ModelError (ModelHs * bytes) :=
  match mh_initiator h, mh_stage h, mh_psk h with
  | false, 0%nat, o => p ← model_open (mh_pub h) model_tag m; Ok (MkModelHs false (mh_pub h) o 1, p)
  | true, 1%nat, Some k => p ← model_open k model_tag m; Ok (MkModelHs true (mh_pub h) (Some k) 2, p)
  | _, _, _ => Err ModelState
  end.

Definition key32 (k : bytes) : result ModelError bytes := if len k =? 32 then Ok k else Err ModelKey.

Definition noise_model : Noise := {|
  SnowError := ModelError;
  NoiseParams := ();
  Builder := ModelBuilder;
  HandshakeState := ModelHs;
  TransportState := bytes;
  parse_params s := if decide (s = NOISE_PATTERN) then Ok () else Err ModelPattern;
  Builder_new _ := MkModelBuilder None None;
  local_private_key b k := k ← key32 k; Ok (MkModelBuilder (Some (reverse k)) (mb_psk b));
  remote_public_key b k := k ← key32 k; Ok (MkModelBuilder (Some k) (mb_psk b));
  builder_psk b i k := k ← key32 k; if i =? 2 then Ok (MkModelBuilder (mb_pub b) (Some k)) else Err ModelKey;
  build_responder b _ := k ← ok_or ModelKey (mb_pub b); Ok (MkModelHs false k (mb_psk b) 0);
  build_initiator b _ := k ← ok_or ModelKey (mb_pub b); Ok (MkModelHs true k (mb_psk b) 0);
  hs_set_psk h i k :=
    k ← key32 k;
    if i =? 2 then Ok (MkModelHs (mh_initiator h) (mh_pub h) (Some k) (mh_stage h)) else Err ModelKey;
  hs_read_message := model_hs_read;
  hs_write_message := model_hs_write;
  into_transport_mode h := if (mh_stage h =? 2)%nat then ok_or ModelState (mh_psk h) else Err ModelState;
  ts_read_message k m := p ← model_open [] (take 16 k) m; Ok (k, p);
  ts_write_message k p := m ← sized (p ++ take 16 k); Ok (k, m);
  mul_base_clamped := reverse;
|}.

Lemma sized_Ok m m' : sized m = Ok m' ↔ m' = m ∧ len m <= MAX_MESSAGE_SIZE.
Proof. unfold sized. destruct (_ <? _) eqn:E; naive_solver lia. Qed.

Lemma key32_Ok k k' : key32 k = Ok k' ↔ k' = k ∧ len k = 32.
Proof. unfold key32. destruct (_ =? _) eqn:E; naive_solver lia. Qed.

Lemma model_open_len pre tag m p : model_open pre tag m = Ok p → len p <= MAX_MESSAGE_SIZE.
Proof. unfold model_open. case_decide; [|done]. intros H'. inv_ok. by apply sized_Ok in H' as [-> ?]. Qed.

Lemma model_open_seal pre tag p :
  len p <= MAX_MESSAGE_SIZE → model_open pre tag (pre ++ p ++ tag) = Ok p.
Proof.
  intros H. unfold model_open. rewrite take_app_length, drop_app_length, decide_True by done.
  rewrite (proj2 (strip_suffix_Some _ _ _) eq_refl). cbn. by apply sized_Ok.
Qed.

Lemma len_reverse {A} (l : list A) : len (reverse l) = len l.
Proof. unfold len. by rewrite length_reverse. Qed.

Lemma model_hs_write_len h p h' m : model_hs_write h p = Ok (h', m) → len m <= MAX_MESSAGE_SIZE.
Proof.
  unfold model_hs_write. repeat case_match; try done; intros H'; inv_ok;
    match goal with H : sized _ = Ok _ |- _ => by apply sized_Ok in H as [-> ?] end.
Qed.

Lemma model_hs_read_len h m h' p : model_hs_read h m = Ok (h', p) → len p <= MAX_MESSAGE_SIZE.
Proof.
  unfold model_hs_read. repeat case_match; try done; intros H'; inv_ok;
    match goal with H : model_open _ _ _ = Ok _ |- _ => by apply model_open_len in H end.
Qed.

Definition model_ready (h : ModelHs) : Prop := mh_initiator h = false ∧ mh_stage h = 1%nat.
Definition model_linked (ti tr : bytes) : Prop := ti = tr ∧ len tr = 32.

Lemma model_key32 k : len k = 32 → key32 k = Ok k.
Proof. intros. by apply key32_Ok. Qed.

Lemma model_channel k m :
  len k = 32 → len m <= MAX_MESSAGE_SIZE - 16 →
  ∃ c, @ts_write_message noise_model k m = Ok (k, c) ∧ @ts_read_message noise_model k c = Ok (k, m).
Proof.
  intros Hk Hm. exists (m ++ take 16 k). cbn. split.
  - rewrite (proj2 (sized_Ok _ (m ++ take 16 k))); [done|]. split; [done|].
    autorewrite with len_simpl. rewrite Hk. unfold MAX_MESSAGE_SIZE in *. lia.
  - change (m ++ take 16 k) with ([] ++ m ++ take 16 k). by rewrite model_open_seal by lia.
Qed.

Lemma model_handshake si sr priv psk payload :
  len priv = 32 → len psk = 32 → len payload <= MAX_MESSAGE_SIZE - 48 →
  ∃ (i0 i1 : ModelHs) m1 (r0 r1 r2 r3 : ModelHs) m2 (i2 : ModelHs) p2 (ti tr : bytes),
    @initiator_hs noise_model si psk (reverse priv) = Ok i0 ∧
    model_hs_write i0 payload = Ok (i1, m1) ∧
    @responder_hs noise_model sr priv = Ok r0 ∧
    model_hs_read r0 m1 = Ok (r1, payload) ∧
    @hs_set_psk noise_model r1 PSK_SLOT psk = Ok r2 ∧
    model_hs_write r2 [] = Ok (r3, m2) ∧
    model_hs_read i1 m2 = Ok (i2, p2) ∧
    @into_transport_mode noise_model r3 = Ok tr ∧ @into_transport_mode noise_model i2 = Ok ti ∧
    model_linked ti tr.
Proof.
  intros Hk Hp Hl. unfold MAX_MESSAGE_SIZE in Hl. pose proof (len_reverse priv) as Hrev.
  assert (∀ p k, len k = 32 → len p <= 65535 - 48 → sized (k ++ p ++ model_tag) = Ok (k ++ p ++ model_tag)) as Hsz.
  { intros p k ? ?. apply sized_Ok. split; [done|]. autorewrite with len_simpl.
    change (len model_tag) with 16. unfold MAX_MESSAGE_SIZE. lia. }
  exists (MkModelHs true (reverse priv) (Some psk) 0), (MkModelHs true (reverse priv) (Some psk) 1),
    (reverse priv ++ payload ++ model_tag), (MkModelHs false (reverse priv) None 0),
    (MkModelHs false (reverse priv) None 1), (MkModelHs false (reverse priv) (Some psk) 1),
    (MkModelHs false (reverse priv) (Some psk) 2), (psk ++ [] ++ model_tag),
    (MkModelHs true (reverse priv) (Some psk) 2), [], psk, psk.
  unfold initiator_hs, responder_hs. cbn -[len model_tag app]. rewrite !decide_True by done.
  rewrite (model_key32 psk), (model_key32 priv), (model_key32 (reverse priv)) by lia.
  cbn -[len model_tag app]. unfold model_hs_write, model_hs_read. cbn -[len model_tag app].
  rewrite !Hsz by (rewrite ?len_nil; lia).
  rewrite !model_open_seal by (rewrite ?len_nil; unfold MAX_MESSAGE_SIZE; lia). done.
Qed.

Definition noise_model_laws : @NoiseLaws noise_model.
Proof.
  unshelve refine (@Build_NoiseLaws noise_model model_ready model_linked _ _ _ _ _ _ _ _ _ _ _); cbn.
  - apply model_hs_read_len.
  - apply model_hs_write_len.
  - intros ts m ts' p H'. inv_ok.
    match goal with H : model_open _ _ _ = Ok _ |- _ => by apply model_open_len in H end.
  - intros ts m ts' p H'. inv_ok.
    match goal with H : sized _ = Ok _ |- _ => by apply sized_Ok in H as [-> ?] end.
  - intros seed priv Hk. unfold responder_hs. cbn -[len]. rewrite model_key32 by done. by eexists.
  - intros seed priv hs m hs' p Hhs Hr. unfold responder_hs in Hhs. cbn -[key32] in Hhs. inv_ok.
    cbn in *. simplify_eq. unfold model_hs_read in Hr. cbn in Hr. inv_ok. done.
  - intros hs psk [Hi Hs] Hp. destruct hs as [i pub o st]. cbn in Hi, Hs. subst.
    cbn -[len key32]. rewrite model_key32 by done. cbn -[len]. do 3 eexists. split; [done|].
    unfold model_hs_write. cbn -[len]. rewrite (proj2 (sized_Ok _ (psk ++ model_tag))).
    + split; [done|]. rewrite len_app, Hp. done.
    + split; [done|]. rewrite len_app, Hp. done.
  - intros priv Hk. by rewrite len_reverse.
  - apply model_handshake.
  - intros ti tr m [-> Hk] Hm. destruct (model_channel tr m Hk Hm) as (c & ? & ?). by exists tr, tr, c.
  - intros ti tr m [-> Hk] Hm. destruct (model_channel tr m Hk Hm) as (c & ? & ?). by exists tr, tr, c.
Qed.

(** ** Witnesses *)

Definition demo_key : BrokerPrivateKey := MkBrokerPrivateKey (replicate 31 x11 ++ [x07]).

Definition echo (p : bytes) : bytes := B "echo:" ++ p.

Lemma demo_id_ok : Identity_ok demo_id.
Proof. by refine (bool_decide_unpack (Identity_ok demo_id) _). Qed.

Lemma honest_session_witness :
  ∃ i0 r0 w,
    @Initiator_new noise_model 1 demo_id demo_psk (@derive_public noise_model demo_key) (B "ping") = Ok i0 ∧
    @Responder_new noise_model 2 demo_key = Ok r0 ∧
    @session noise_model (λ _, demo_psk) echo 12 (MkWorld i0 r0 [] []) = Ok w ∧
    take_response (w_i w) = Ok (echo (B "ping")) ∧ w_r w = R_Done ∧ c2r w = [] ∧ r2c w = [].
Proof.
  refine (@honest_session noise_model noise_model_laws (λ _, demo_psk) echo 1 2 demo_key demo_id
    demo_psk (B "ping") _ _ _ _ _ _).
  - reflexivity.
  - reflexivity.
  - exact demo_id_ok.
  - reflexivity.
  - vm_compute. discriminate.
  - vm_compute. discriminate.
Defined.

(** A driver that performs one whole session up to the request. *)
Definition demo_msg1 : bytes := reverse (priv_bytes demo_key) ++ encode_identity_tlv demo_id ++ model_tag.
Definition demo_frame : bytes := B "hello" ++ replicate 16 xaa.
Definition demo_calls : list RCall :=
  [Call_step; Call_recv (to_be_u16 (len demo_msg1)); Call_step; Call_recv demo_msg1; Call_step;
   Call_set_psk demo_psk; Call_step; Call_wrote; Call_step; Call_recv (to_be_u16 (len demo_frame));
   Call_recv demo_frame].

Definition demo_hs0 : @HandshakeState noise_model := MkModelHs false (reverse (priv_bytes demo_key)) None 0.

Lemma Responder_request_provenance_witness :
  ∃ hs0 id psk, @responder_hs noise_model 2 (priv_bytes demo_key) = Ok hs0 ∧ Identity_ok id ∧
                hist_request hs0 demo_calls (B "hello") id psk.
Proof.
  apply (@Responder_request_provenance noise_model 2 demo_key (R_WantHsLen demo_hs0)).
  - vm_compute. reflexivity.
  - vm_compute. reflexivity.
Defined.

Lemma Responder_protocol_order_witness :
  [K_recv; K_recv; K_step; K_set_psk; K_step; K_wrote; K_recv; K_recv] =
    take 8 protocol_order ∧ (8 <= 12)%nat ∧
  ((@Responder_run noise_model (R_WantHsLen demo_hs0) demo_calls).1 = R_Failed ∨
   rank (Responder_run (R_WantHsLen demo_hs0) demo_calls).1 = 8%nat).
Proof.
  refine (@Responder_protocol_order noise_model 2 demo_key (R_WantHsLen demo_hs0) demo_calls
    _ [K_recv; K_recv; K_step; K_set_psk; K_step; K_wrote; K_recv; K_recv] _ _).
  - vm_compute. reflexivity.
  - vm_compute. reflexivity.
Defined.

Definition demo_hs1 : @HandshakeState noise_model := MkModelHs false (reverse (priv_bytes demo_key)) None 1.

Lemma Responder_psk_oblivious_witness :
  ∃ hs3 out,
    @Responder_step noise_model (R_NeedPsk demo_hs1 demo_id)
      = (R_AwaitingPsk demo_hs1, Ok (Step_NeedPsk demo_id)) ∧
    @Responder_set_psk noise_model (R_AwaitingPsk demo_hs1)
      (MkPsk (replicate 32 x55)) = (R_WriteHs hs3 out, Ok ()) ∧
    Responder_step (R_WriteHs hs3 out) = (R_WroteHsPending hs3, Ok (Step_Write out)) ∧
    len out = 50.
Proof.
  apply (@Responder_psk_oblivious noise_model noise_model_laws 2 demo_key demo_hs0 demo_msg1).
  - vm_compute. reflexivity.
  - vm_compute. reflexivity.
  - vm_compute. reflexivity.
Defined.
