(* ===== verification/TtlCache.v ===== *)
(** * The expiring cache: [src/ttl_cache.rs]

    [entries] is the hash map; [expirations] is the binary heap, as the list
    of its elements in the order [pop] yields them (the heap's contract: the
    smallest [(deadline, key)] first, ties between equal deadlines by key).
    The clock is a parameter of each call.  The cache is compared with
    [SpecMap], a map that never forgets and filters by the clock on reading. *)

From Stdlib Require Import Sorting.Sorted.
From S2P Require Import Prelude.

Section ttl.
Context {K V : Type} `{Countable K}.
(** [K: Ord], only used to break ties in the heap. *)
Context (k_leb : K → K → bool).

Record TtlCache := MkTtlCache {
  ttl_entries : gmap K (V * Z);
  expirations : list (Z * K);
}.

Definition TtlCache_new : TtlCache := MkTtlCache ∅ [].

(** [Ord] on [(T, K)]. *)
Definition pair_leb (x y : Z * K) : bool :=
  (x.1 <? y.1) || ((x.1 =? y.1) && k_leb x.2 y.2).

(** [BinaryHeap::push] of a [Reverse] pair. *)
Fixpoint heap_push (x : Z * K) (h : list (Z * K)) : list (Z * K) :=
  match h with
  | [] => [x]
  | y :: h' => if pair_leb x y then x :: y :: h' else y :: heap_push x h'
  end.

(** [Inner::sweep]: pop while the earliest deadline has passed. *)
Fixpoint sweep_loop (now : Z) (h : list (Z * K)) (m : gmap K (V * Z)) : gmap K (V * Z) * list (Z * K) :=
  match h with
  | [] => (m, [])
  | (expires_at, k) :: h' =>
      if expires_at <=? now then
        sweep_loop now h'
          (match m !! k with
           | Some (_, t) => if t =? expires_at then delete k m else m
           | None => m
           end)
      else (m, h)
  end.

Definition sweep (now : Z) (c : TtlCache) : TtlCache :=
  let '(m, h) := sweep_loop now (expirations c) (ttl_entries c) in MkTtlCache m h.

Definition get_with_expiry (now : Z) (key : K) (c : TtlCache) : option (V * Z) * TtlCache :=
  let c := sweep now c in (ttl_entries c !! key, c).

Definition TtlCache_insert (now : Z) (key : K) (value : V) (expires_at : Z) (c : TtlCache) : TtlCache :=
  let c := sweep now c in
  MkTtlCache (<[key := (value, expires_at)]> (ttl_entries c)) (heap_push (expires_at, key) (expirations c)).

Definition TtlCache_invalidate (key : K) (c : TtlCache) : TtlCache :=
  MkTtlCache (delete key (ttl_entries c)) (expirations c).

(** ** Traces and the abstract map *)

Inductive TtlOp :=
| Op_get (now : Z) (k : K)
| Op_insert (now : Z) (k : K) (v : V) (expires_at : Z)
| Op_invalidate (k : K).

Definition op_time (o : TtlOp) : option Z :=
  match o with Op_get n _ => Some n | Op_insert n _ _ _ => Some n | Op_invalidate _ => None end.

Definition ttl_op (c : TtlCache) (o : TtlOp) : TtlCache * option (V * Z) :=
  match o with
  | Op_get now k => let '(r, c') := get_with_expiry now k c in (c', r)
  | Op_insert now k v t => (TtlCache_insert now k v t c, None)
  | Op_invalidate k => (TtlCache_invalidate k c, None)
  end.

Abbreviation SpecMap := (gmap K (V * Z)).

Definition live (now : Z) (e : option (V * Z)) : option (V * Z) :=
  '(v, t) ← e; if now <? t then Some (v, t) else None.

Definition spec_op (m : SpecMap) (o : TtlOp) : SpecMap * option (V * Z) :=
  match o with
  | Op_get now k => (m, live now (m !! k))
  | Op_insert _ k v t => (<[k := (v, t)]> m, None)
  | Op_invalidate k => (delete k m, None)
  end.

(** Run a trace; the answers in order. *)
Fixpoint ttl_run (c : TtlCache) (os : list TtlOp) : TtlCache * list (option (V * Z)) :=
  match os with
  | [] => (c, [])
  | o :: os' =>
      let '(c', r) := ttl_op c o in
      let '(c'', rs) := ttl_run c' os' in (c'', r :: rs)
  end.

Fixpoint spec_run (m : SpecMap) (os : list TtlOp) : SpecMap * list (option (V * Z)) :=
  match os with
  | [] => (m, [])
  | o :: os' =>
      let '(m', r) := spec_op m o in
      let '(m'', rs) := spec_run m' os' in (m'', r :: rs)
  end.

(** The clock never goes back from [now] on. *)
Fixpoint clock_ok (now : Z) (os : list TtlOp) : Prop :=
  match os with
  | [] => True
  | o :: os' =>
      match op_time o with
      | Some n => now <= n ∧ clock_ok n os'
      | None => clock_ok now os'
      end
  end.

(** ** Invariant *)

(** The heap yields deadlines in order and covers every entry. *)
Definition ttl_inv (c : TtlCache) : Prop :=
  StronglySorted Z.le (expirations c).*1 ∧
  ∀ k v t, ttl_entries c !! k = Some (v, t) → (t, k) ∈ expirations c.

Lemma heap_push_elem x h y : y ∈ heap_push x h ↔ y = x ∨ y ∈ h.
Proof.
  induction h as [|z h IH]; cbn [heap_push]; [set_solver|].
  case_match; [set_solver|]. rewrite elem_of_cons, IH. set_solver.
Qed.

Lemma pair_leb_fst x y : pair_leb x y = true → x.1 <= y.1.
Proof. unfold pair_leb. lia. Qed.
Lemma pair_leb_fst_false x y : pair_leb x y = false → y.1 <= x.1.
Proof. unfold pair_leb. lia. Qed.

Lemma heap_push_sorted x h :
  StronglySorted Z.le h.*1 → StronglySorted Z.le (heap_push x h).*1.
Proof.
  induction h as [|y h IH]; intros Hs; cbn [heap_push]; [repeat constructor|].
  apply StronglySorted_inv in Hs as [Hs Hall]. case_match eqn:E.
  - apply pair_leb_fst in E. constructor; [by constructor|].
    constructor; [done|]. eapply Forall_impl; [done|]. intros. cbn in *. lia.
  - apply pair_leb_fst_false in E. constructor; [by apply IH|]. rewrite Forall_forall in *.
    intros t (z & -> & [->|Hz]%heap_push_elem)%list_elem_of_fmap; [done|].
    apply Hall, list_elem_of_fmap. eauto.
Qed.

(** What a sweep keeps: the entries that outlive [now], and only later deadlines. *)
Lemma sweep_loop_spec now h m m' h' :
  sweep_loop now h m = (m', h') →
  StronglySorted Z.le h.*1 → (∀ k v t, m !! k = Some (v, t) → (t, k) ∈ h ∨ now < t) →
  StronglySorted Z.le h'.*1 ∧ (∀ x, x ∈ h' ↔ x ∈ h ∧ now < x.1) ∧
  ∀ k, m' !! k = live now (m !! k).
Proof.
  revert m. induction h as [|[t0 k0] h IH]; intros m; cbn [sweep_loop].
  { intros [= <- <-] _ Hm. split_and!; [constructor|set_solver|]. intros k. unfold live.
    destruct (m !! k) as [[v t]|] eqn:E; [|done]. cbn.
    destruct (Hm _ _ _ E) as [?|?]; [set_solver|]. by rewrite (proj2 (Z.ltb_lt _ _)). }
  intros Hrun Hs Hm. apply StronglySorted_inv in Hs as [Hs Hall]. cbn in Hall.
  destruct (t0 <=? now) eqn:Ht.
  - apply IH in Hrun as (Hs' & Hh & Hmm); [|done|].
    + split_and!; [done|intros x; rewrite Hh; split; [set_solver|]|].
      * intros [[->|?]%elem_of_cons ?]; [cbn in *; lia|done].
      * intros k. rewrite Hmm. destruct (m !! k0) as [[v t]|] eqn:E; [|done].
        destruct (t =? t0) eqn:Et; [|done]. destruct (decide (k = k0)) as [->|Hk].
        -- rewrite lookup_delete_eq, E. cbn. rewrite (proj2 (Z.ltb_ge _ _)) by lia. done.
        -- by rewrite lookup_delete_ne.
    + intros k v t Hk.
      assert (m !! k = Some (v, t) ∧ ¬ (k = k0 ∧ t = t0)) as [Hk' Hne].
      { destruct (m !! k0) as [[v1 t1]|] eqn:E.
        - destruct (t1 =? t0) eqn:Et.
          + apply lookup_delete_Some in Hk as [? ?]. naive_solver.
          + split; [done|]. intros [-> ->]. rewrite E in Hk. simplify_eq. lia.
        - split; [done|]. intros [-> _]. congruence. }
      destruct (Hm _ _ _ Hk') as [[?|?]%elem_of_cons|?]; naive_solver.
  - injection Hrun as <- <-.
    assert (∀ x, x ∈ (t0, k0) :: h → now < x.1) as Hlate.
    { intros x [->|Hx]%elem_of_cons; [cbn; lia|]. rewrite Forall_forall in Hall.
      specialize (Hall x.1 ltac:(apply list_elem_of_fmap; eauto)). lia. }
    split_and!; [by constructor|naive_solver|]. intros k. unfold live.
    destruct (m !! k) as [[v t]|] eqn:E; [|done]. cbn.
    rewrite (proj2 (Z.ltb_lt _ _)); [done|].
    destruct (Hm _ _ _ E) as [Hin|?]; [by apply Hlate in Hin|done].
Qed.

Lemma sweep_spec now c :
  ttl_inv c → ttl_inv (sweep now c) ∧
  (∀ k, ttl_entries (sweep now c) !! k = live now (ttl_entries c !! k)) ∧
  ∀ x, x ∈ expirations (sweep now c) → now < x.1.
Proof.
  intros [Hs Hm]. unfold sweep. destruct (sweep_loop now (expirations c) (ttl_entries c)) as [m' h'] eqn:E.
  apply sweep_loop_spec in E as (Hs' & Hh & Hmm); [|done|by eauto]. cbn.
  split_and!; [|done|intros x; rewrite Hh; by intros [_ ?]].
  split; [done|]. cbn. intros k v t Hk. rewrite Hmm in Hk. unfold live in Hk.
  destruct (ttl_entries c !! k) as [[v1 t1]|] eqn:E; cbn in Hk; [|done].
  destruct (now <? t1) eqn:Hlt; [|done]. injection Hk as <- <-. apply Hh. split; [by eapply Hm|].
  cbn. lia.
Qed.

Lemma live_live n1 n2 e : n1 <= n2 → live n2 (live n1 e) = live n2 e.
Proof.
  intros Hn. destruct e as [[v t]|]; [|done]. cbn. destruct (n1 <? t) eqn:E1; [done|]. cbn.
  destruct (n2 <? t) eqn:E2; [lia|done].
Qed.

Lemma ttl_op_inv c o : ttl_inv c → ttl_inv (ttl_op c o).1.
Proof.
  intros Hc. destruct o as [now k|now k v t|k]; cbn.
  - by apply sweep_spec.
  - destruct (sweep_spec now c Hc) as ([Hs Hm] & _ & _). split; cbn; [by apply heap_push_sorted|].
    intros k' v' t'. rewrite heap_push_elem. rewrite lookup_insert_Some.
    intros [[-> [= <- <-]]|[_ ?]]; [by left|right; eauto].
  - destruct Hc as [Hs Hm]. split; cbn; [done|]. intros k' v' t' [_ ?]%lookup_delete_Some. eauto.
Qed.

(** ** Simulation *)

(** Concrete and abstract agree on everything that outlives [now]. *)
Definition ttl_sim (now : Z) (c : TtlCache) (m : SpecMap) : Prop :=
  ttl_inv c ∧ ∀ k, live now (ttl_entries c !! k) = live now (m !! k).

Lemma ttl_sim_op now c m o :
  ttl_sim now c m → (∀ n, op_time o = Some n → now <= n) →
  ttl_sim (default now (op_time o)) (ttl_op c o).1 (spec_op m o).1 ∧ (ttl_op c o).2 = (spec_op m o).2.
Proof.
  intros [Hinv Hsim] Ht. pose proof (ttl_op_inv c o Hinv) as Hinv'.
  assert (∀ n k, now <= n → live n (ttl_entries c !! k) = live n (m !! k)) as Hlater.
  { intros n k Hn. rewrite <-(live_live now n), Hsim, live_live by done. done. }
  destruct o as [n k|n k v t|k]; cbn [op_time default ttl_op spec_op fst snd] in *.
  - destruct (sweep_spec n c Hinv) as (_ & Hl & _). specialize (Ht n eq_refl). cbn. split.
    + split; [done|]. intros k'. rewrite Hl, live_live by lia. by apply Hlater.
    + rewrite Hl. by apply Hlater.
  - destruct (sweep_spec n c Hinv) as (_ & Hl & _). specialize (Ht n eq_refl). split; [|done].
    split; [done|]. intros k'. cbn. destruct (decide (k = k')) as [->|Hk].
    + by rewrite !lookup_insert_eq.
    + rewrite !lookup_insert_ne by done. rewrite Hl, live_live by lia. by apply Hlater.
  - split; [|done]. split; [done|]. intros k'. cbn. destruct (decide (k = k')) as [->|Hk].
    + by rewrite !lookup_delete_eq.
    + by rewrite !lookup_delete_ne.
Qed.

Lemma ttl_sim_run now c m os :
  ttl_sim now c m → clock_ok now os → (ttl_run c os).2 = (spec_run m os).2.
Proof.
  revert now c m. induction os as [|o os IH]; intros now c m Hsim Hclk; [done|].
  assert (∀ n, op_time o = Some n → now <= n) as Ht.
  { intros n Hn. cbn in Hclk. rewrite Hn in Hclk. by destruct Hclk. }
  destruct (ttl_sim_op now c m o Hsim Ht) as [Hsim' Hr]. cbn.
  destruct (ttl_op c o) as [c' r], (spec_op m o) as [m' r']. cbn in *. subst r'.
  apply IH in Hsim'; [|by destruct (op_time o); [destruct Hclk|]].
  destruct (ttl_run c' os), (spec_run m' os). cbn in *. by subst.
Qed.

Lemma ttl_new_inv : ttl_inv TtlCache_new.
Proof. split; [constructor|]. intros k v t Hk. cbn in Hk. by rewrite lookup_empty in Hk. Qed.

Lemma ttl_run_inv c os : ttl_inv c → ttl_inv (ttl_run c os).1.
Proof.
  revert c. induction os as [|o os IH]; intros c Hc; [done|]. cbn.
  pose proof (ttl_op_inv c o Hc) as Hc'. destruct (ttl_op c o) as [c' r]. cbn in Hc'.
  specialize (IH c' Hc'). by destruct (ttl_run c' os).
Qed.

(** Without any assumption on the clock: the cache never holds more than the
    abstract map does. *)
Lemma ttl_run_subset c m os :
  ttl_inv c → ttl_entries c ⊆ m → ttl_entries (ttl_run c os).1 ⊆ (spec_run m os).1.
Proof.
  revert c m. induction os as [|o os IH]; intros c m Hinv Hsub; [done|]. cbn.
  pose proof (ttl_op_inv c o Hinv) as Hinv'.
  assert (∀ n, ttl_entries (sweep n c) ⊆ m) as Hsw.
  { intros n. destruct (sweep_spec n c Hinv) as (_ & Hl & _). apply map_subseteq_spec.
    intros k e He. rewrite Hl in He. unfold live in He.
    destruct (ttl_entries c !! k) as [[v t]|] eqn:E; cbn in He; [|done].
    destruct (n <? t); [|done]. injection He as <-. by eapply lookup_weaken. }
  assert (ttl_entries (ttl_op c o).1 ⊆ (spec_op m o).1) as Hsub'.
  { destruct o; cbn; [apply Hsw|by apply insert_mono|by apply delete_mono]. }
  destruct (ttl_op c o) as [c' r], (spec_op m o) as [m' r']. cbn in Hinv', Hsub'.
  specialize (IH c' m' Hinv' Hsub'). destruct (ttl_run c' os), (spec_run m' os). done.
Qed.

(** ** Properties *)

(** C33: the cache is an expiring map.  Over any sequence of gets, inserts and
    invalidations whose clock readings do not go back, every answer is the one
    of a map that keeps everything and hides an entry from its deadline on:
    the heap, its tombstones and the sweeping are invisible. *)
Theorem TtlCache_refines os now0 :
  clock_ok now0 os → (ttl_run TtlCache_new os).2 = (spec_run ∅ os).2.
Proof. apply ttl_sim_run. split; [apply ttl_new_inv|done]. Qed.

(** Whatever the clock does, a hit is never an expired entry, is the value
    last inserted for that key and not invalidated since, and after any
    lookup nothing past its deadline is left in the map or in the heap. *)
Lemma TtlCache_hit_fresh os now k :
  let c := (ttl_run TtlCache_new os).1 in
  let '(r, c') := get_with_expiry now k c in
  (∀ v t, r = Some (v, t) → now < t ∧ (spec_run ∅ os).1 !! k = Some (v, t)) ∧
  (∀ k' v t, ttl_entries c' !! k' = Some (v, t) → now < t) ∧
  (∀ t k', (t, k') ∈ expirations c' → now < t).
Proof.
  intros c. pose proof (ttl_run_inv TtlCache_new os ttl_new_inv) as Hinv.
  pose proof (ttl_run_subset TtlCache_new ∅ os ttl_new_inv (map_empty_subseteq _)) as Hsub.
  destruct (sweep_spec now c Hinv) as (_ & Hl & Hh). unfold get_with_expiry.
  assert (∀ k' v t, ttl_entries (sweep now c) !! k' = Some (v, t) →
            now < t ∧ ttl_entries c !! k' = Some (v, t)) as Hget.
  { intros k' v t He. rewrite Hl in He. unfold live in He.
    destruct (ttl_entries c !! k') as [[v1 t1]|]; cbn in He; [|done].
    destruct (now <? t1) eqn:E; [|done]. injection He as <- <-. split; [lia|done]. }
  split_and!.
  - intros v t He. apply Hget in He as [? He]. split; [done|]. by eapply lookup_weaken.
  - intros k' v t He. by apply Hget in He as [? _].
  - intros t k' Hin. by apply (Hh (t, k')).
Qed.

End ttl.

(** ** Witness *)

Definition demo_ttl_ops : list (@TtlOp bytes Z) :=
  [Op_insert 10 (B "a") 1 20; Op_insert 11 (B "a") 2 30; Op_get 25 (B "a"); Op_get 30 (B "a");
   Op_insert 31 (B "b") 3 50; Op_invalidate (B "b"); Op_get 32 (B "b")].

Lemma TtlCache_refines_witness :
  (ttl_run (λ _ _, true) TtlCache_new demo_ttl_ops).2 = (spec_run ∅ demo_ttl_ops).2 ∧
  (spec_run ∅ demo_ttl_ops).2 = [None; None; Some (2, 30); None; None; None; None].
Proof.
  split; [|vm_compute; reflexivity].
  apply (TtlCache_refines (λ _ _, true) demo_ttl_ops 0).
  cbn. lia.
Defined.
