(* ===== verification/RateLimit.v ===== *)
(** * The log rate limiter: [src/rate_limit.rs]

    The GCRA token bucket of the unknown-identity log event.  Instants and
    durations are integers; the clock reading is an argument of each call. *)

From S2P Require Import Prelude.

Record TokenBucket := MkTokenBucket {
  refill_interval : Z;
  burst_tolerance : Z;
  tat : Z;
  suppressed : Z;   (* u64 *)
}.

Definition TokenBucket_new (refill burst now : Z) : TokenBucket := MkTokenBucket refill burst now 0.

Definition try_acquire (b : TokenBucket) (now : Z) : TokenBucket * option Z :=
  if tat b <=? now + burst_tolerance b then
    (MkTokenBucket (refill_interval b) (burst_tolerance b)
       (Z.max (tat b) now + refill_interval b) 0, Some (suppressed b))
  else
    (MkTokenBucket (refill_interval b) (burst_tolerance b) (tat b)
       (saturating_add_u64 (suppressed b) 1), None).

(** One call per clock reading; the answers in order. *)
Fixpoint bucket_run (b : TokenBucket) (ts : list Z) : TokenBucket * list (option Z) :=
  match ts with
  | [] => (b, [])
  | t :: ts' =>
      let '(b', r) := try_acquire b t in
      let '(b'', rs) := bucket_run b' ts' in (b'', r :: rs)
  end.

(** The number of admitted events. *)
Definition admitted (rs : list (option Z)) : Z := len (omap id rs).
(** The number of suppressed events and the numbers reported on admission. *)
Definition rejected (rs : list (option Z)) : Z := len rs - admitted rs.
Definition reported (rs : list (option Z)) : Z := foldr Z.add 0 (omap id rs).

Lemma admitted_cons r rs :
  admitted (r :: rs) = match r with Some _ => 1 | None => 0 end + admitted rs.
Proof. unfold admitted. destruct r; cbn [omap list_omap id]; autorewrite with len_simpl; lia. Qed.

Lemma reported_cons r rs : reported (r :: rs) = default 0 r + reported rs.
Proof. by destruct r. Qed.

(** Every admission moves the theoretical arrival time on by one interval. *)
Lemma bucket_run_tat b ts b' rs :
  0 <= refill_interval b → bucket_run b ts = (b', rs) →
  refill_interval b' = refill_interval b ∧ burst_tolerance b' = burst_tolerance b ∧
  tat b + admitted rs * refill_interval b <= tat b'.
Proof.
  intros Hr. revert b b' rs Hr. induction ts as [|t ts IH]; intros b b' rs Hr Hrun; cbn in Hrun.
  { injection Hrun as <- <-. split_and!; [done..|]. change (admitted []) with 0. lia. }
  destruct (try_acquire b t) as [b1 r] eqn:E. destruct (bucket_run b1 ts) as [b2 rs2] eqn:E2.
  injection Hrun as <- <-. unfold try_acquire in E. rewrite admitted_cons.
  destruct (tat b <=? _) in E; injection E as <- <-;
    apply IH in E2 as (? & ? & ?); cbn in *; split_and?; nia.
Qed.

(** Burst: at one instant, from a bucket at rest with tolerance for [n] events,
    the first [n + 1] tries are admitted. *)
Lemma burst_admits n b now :
  0 <= refill_interval b → now <= tat b →
  tat b + Z.of_nat n * refill_interval b <= now + burst_tolerance b →
  let '(b', rs) := bucket_run b (replicate (S n) now) in
  admitted rs = Z.of_nat (S n) ∧ tat b' = tat b + Z.of_nat (S n) * refill_interval b ∧
  refill_interval b' = refill_interval b ∧ burst_tolerance b' = burst_tolerance b ∧ suppressed b' = 0.
Proof.
  revert b. induction n as [|n IH]; intros b Hr Hnow Hb.
  - cbn. unfold try_acquire. rewrite (proj2 (Z.leb_le _ _)) by lia. cbn [tat refill_interval burst_tolerance suppressed].
    rewrite admitted_cons. change (admitted []) with 0. lia.
  - change (replicate (S (S n)) now) with (now :: replicate (S n) now).
    cbn [bucket_run]. unfold try_acquire at 1. rewrite (proj2 (Z.leb_le _ _)) by lia.
    specialize (IH (MkTokenBucket (refill_interval b) (burst_tolerance b)
       (Z.max (tat b) now + refill_interval b) 0)). cbn [refill_interval tat burst_tolerance] in IH.
    destruct (bucket_run _ (replicate (S n) now)) as [b' rs]. rewrite admitted_cons.
    destruct IH as (-> & -> & -> & -> & ->); lia.
Qed.

Lemma suppressed_run c ts b rs :
  0 <= suppressed c → suppressed c + len ts <= u64_max → bucket_run c ts = (b, rs) →
  reported rs + suppressed b = rejected rs + suppressed c.
Proof.
  unfold rejected. revert c b rs. induction ts as [|t ts IH]; intros c b rs H0 Hle Hrun.
  { injection Hrun as <- <-. change (admitted []) with 0. change (reported []) with 0. unfold len. cbn. lia. }
  cbn [bucket_run] in Hrun. rewrite len_cons in Hle.
  destruct (try_acquire c t) as [b1 r] eqn:E. destruct (bucket_run b1 ts) as [b2 rs2] eqn:E2.
  injection Hrun as <- <-. unfold try_acquire in E. pose proof (len_nonneg ts).
  apply IH in E2.
  - rewrite admitted_cons, reported_cons, len_cons.
    destruct (tat c <=? _) in E; injection E as <- <-; cbn [default id suppressed] in *;
      unfold id, saturating_add_u64 in *; lia.
  - destruct (tat c <=? _) in E; injection E as <- <-; cbn; unfold saturating_add_u64, u64_max; lia.
  - destruct (tat c <=? _) in E; injection E as <- <-; cbn [suppressed]; unfold saturating_add_u64; lia.
Qed.

(** ** Properties *)

(** The rate is bounded.  Take any stretch of calls that begins and ends
    with an admitted event, from any bucket state and with any clock
    readings: the [n] admissions of the stretch satisfy
    [(n - 1) * refill_interval <= last - first + burst_tolerance].  With the
    tolerance [(N - 1) * refill_interval] that is at most [N] in an instant
    and one per interval on top. *)
Theorem rate_bounded b t ts u b1 r rs b2 n1 n2 :
  0 <= refill_interval b →
  try_acquire b t = (b1, Some n1) → bucket_run b1 ts = (b2, rs) → try_acquire b2 u = (r, Some n2) →
  (admitted rs + 1) * refill_interval b <= u - t + burst_tolerance b.
Proof.
  intros Hr H1 H2 H3. unfold try_acquire in H1, H3.
  destruct (tat b <=? _) eqn:E1; [|done].
  injection H1 as <- <-. apply bucket_run_tat in H2 as (Hi & Hb & Ht); [|done]. cbn in *.
  destruct (tat b2 <=? _) eqn:E3; [|done]. lia.
Qed.

(** Nothing is lost silently: over any run of fewer than [2^64] calls from
    a fresh bucket, the suppressed counts reported on admission plus the
    pending count add up to the number of rejected events. *)
Lemma suppressed_accounted refill burst now0 ts b rs :
  len ts <= u64_max → bucket_run (TokenBucket_new refill burst now0) ts = (b, rs) →
  reported rs + suppressed b = rejected rs.
Proof.
  intros Hle Hrun. apply suppressed_run in Hrun; cbn [suppressed TokenBucket_new] in *; lia.
Qed.

(** A bucket at rest admits exactly a burst of [n + 1] events at one
    instant when its tolerance is [n] intervals, and refuses the next. *)
Lemma burst_exact n refill now b rs :
  0 < refill →
  bucket_run (TokenBucket_new refill (Z.of_nat n * refill) now) (replicate (S n) now) = (b, rs) →
  admitted rs = Z.of_nat (S n) ∧ (try_acquire b now).2 = None ∧ (try_acquire b (now + refill)).2 = Some 0.
Proof.
  intros Hr Hrun.
  pose proof (burst_admits n (TokenBucket_new refill (Z.of_nat n * refill) now) now) as H.
  rewrite Hrun in H. cbn in H. destruct H as (Ha & Ht & Hi & Hb & Hs); [lia..|].
  unfold try_acquire. rewrite Ht, Hi, Hb. split_and!; [done|..].
  - rewrite (proj2 (Z.leb_gt _ _)); [done|]. lia.
  - rewrite (proj2 (Z.leb_le _ _)); [by cbn; rewrite Hs|]. lia.
Qed.

(** ** Witnesses *)

Definition demo_bucket : TokenBucket := TokenBucket_new 10 20 0.

Lemma rate_bounded_witness : (admitted [Some 0; Some 0; None] + 1) * 10 <= 15 - 0 + 20.
Proof.
  refine (rate_bounded demo_bucket 0 [1; 1; 5] 15 (MkTokenBucket 10 20 10 0)
    (MkTokenBucket 10 20 40 0) [Some 0; Some 0; None] (MkTokenBucket 10 20 30 1) 0 1 _ _ _ _).
  - vm_compute. discriminate.
  - vm_compute. reflexivity.
  - vm_compute. reflexivity.
  - vm_compute. reflexivity.
Defined.

Lemma suppressed_accounted_witness :
  reported [Some 0; Some 0; Some 0; None; None] + 2 = rejected [Some 0; Some 0; Some 0; None; None].
Proof.
  refine (suppressed_accounted 10 20 0 [0; 0; 0; 1; 2] (MkTokenBucket 10 20 30 2)
    [Some 0; Some 0; Some 0; None; None] _ _).
  - vm_compute. discriminate.
  - vm_compute. reflexivity.
Defined.

Lemma burst_exact_witness :
  admitted [Some 0; Some 0; Some 0] = 3 ∧ (try_acquire (MkTokenBucket 10 20 30 0) 0).2 = None ∧
  (try_acquire (MkTokenBucket 10 20 30 0) (0 + 10)).2 = Some 0.
Proof.
  refine (burst_exact 2 10 0 (MkTokenBucket 10 20 30 0) [Some 0; Some 0; Some 0] _ _).
  - reflexivity.
  - vm_compute. reflexivity.
Defined.
