(* ===== verification/Singleflight.v ===== *)
(** * The singleflight memo: [src/singleflight_cache.rs]

    The runtime is single threaded: a task runs without interruption from one
    [await] to the next.  [with] has two suspension points, [ev.listen()] and
    [resolve()], so a task is either waiting, resolving, woken or finished,
    and a world of tasks moves by the actions below: a task starts, a woken
    task runs on, a resolve returns, a task is dropped ("cancelled"), a key is
    invalidated.  An [Event] is a fresh number; [notify(usize::MAX)] wakes the
    tasks listening at that moment and nobody else. *)

From S2P Require Import Prelude.

Section sf.
Context {K V Er : Type} `{Countable K}.

Inductive StoreEntry :=
| Memo (value : V)
| InFlight (ev : nat).

Inductive Claim :=
| Claim_Hit (value : V)
| Claim_Wait (ev : nat)
| Claim_Resolve (ev : nat).

(** The store and the next unused event. *)
Record Store := MkStore { memo : gmap K StoreEntry; next_event : nat }.

Definition claim (s : Store) (key : K) : Store * Claim :=
  match memo s !! key with
  | Some (Memo value) => (s, Claim_Hit value)
  | Some (InFlight ev) => (s, Claim_Wait ev)
  | None =>
      let ev := next_event s in
      (MkStore (<[key := InFlight ev]> (memo s)) (S ev), Claim_Resolve ev)
  end.

Definition sf_invalidate (s : Store) (key : K) : Store := MkStore (delete key (memo s)) (next_event s).

(** The RAII guard; [g_result] is [None] until [commit_done]. *)
Record InFlightGuard := MkGuard { g_key : K; g_event : nat; g_result : option V }.

Definition InFlightGuard_new (key : K) (ev : nat) : InFlightGuard := MkGuard key ev None.
Definition commit_done (g : InFlightGuard) (value : V) : InFlightGuard :=
  MkGuard (g_key g) (g_event g) (Some value).

Inductive Task :=
| T_Waiting (key : K) (ev : nat)
| T_Woken (key : K)
| T_Resolving (guard : InFlightGuard)
| T_Finished (key : K) (r : result Er V)
| T_Cancelled.

Record SfWorld := MkSfWorld { sf_store : Store; sf_tasks : gmap nat Task }.

(** [event.notify(usize::MAX)] *)
Definition wake (ev : nat) (t : Task) : Task :=
  match t with
  | T_Waiting key e => if decide (e = ev) then T_Woken key else t
  | _ => t
  end.
Definition notify (ev : nat) (ts : gmap nat Task) : gmap nat Task := wake ev <$> ts.

Definition release_done (key : K) (value : V) (ev : nat) (w : SfWorld) : SfWorld :=
  MkSfWorld (MkStore (<[key := Memo value]> (memo (sf_store w))) (next_event (sf_store w)))
            (notify ev (sf_tasks w)).

Definition release_failed (key : K) (ev : nat) (w : SfWorld) : SfWorld :=
  MkSfWorld (MkStore (delete key (memo (sf_store w))) (next_event (sf_store w)))
            (notify ev (sf_tasks w)).

(** [Drop for InFlightGuard] *)
Definition guard_drop (g : InFlightGuard) (w : SfWorld) : SfWorld :=
  match g_result g with
  | Some value => release_done (g_key g) value (g_event g) w
  | None => release_failed (g_key g) (g_event g) w
  end.

Definition set_task (t : nat) (x : Task) (w : SfWorld) : SfWorld :=
  MkSfWorld (sf_store w) (<[t := x]> (sf_tasks w)).

(** [with] from the top of its loop to the next suspension point. *)
Definition with_loop (t : nat) (key : K) (w : SfWorld) : SfWorld :=
  let '(s, c) := claim (sf_store w) key in
  let w := MkSfWorld s (sf_tasks w) in
  match c with
  | Claim_Hit value => set_task t (T_Finished key (Ok value)) w
  | Claim_Wait ev => set_task t (T_Waiting key ev) w
  | Claim_Resolve ev => set_task t (T_Resolving (InFlightGuard_new key ev)) w
  end.

(** [resolve().await] returned: commit on success, then the guard drops. *)
Definition with_resolved (t : nat) (g : InFlightGuard) (r : result Er V) (w : SfWorld) : SfWorld :=
  let g' := match r with Ok value => commit_done g value | Err _ => g end in
  set_task t (T_Finished (g_key g) r) (guard_drop g' w).

Inductive SfAction :=
| A_start (t : nat) (key : K)
| A_wake (t : nat)
| A_resolved (t : nat) (r : result Er V)
| A_cancel (t : nat)
| A_invalidate (key : K).

(** One action; an action that is not enabled changes nothing. *)
Definition sf_step (w : SfWorld) (a : SfAction) : SfWorld :=
  match a with
  | A_start t key =>
      match sf_tasks w !! t with None => with_loop t key w | Some _ => w end
  | A_wake t =>
      match sf_tasks w !! t with Some (T_Woken key) => with_loop t key w | _ => w end
  | A_resolved t r =>
      match sf_tasks w !! t with Some (T_Resolving g) => with_resolved t g r w | _ => w end
  | A_cancel t =>
      match sf_tasks w !! t with
      | Some (T_Resolving g) => set_task t T_Cancelled (guard_drop g w)
      | Some (T_Waiting _ _) | Some (T_Woken _) => set_task t T_Cancelled w
      | _ => w
      end
  | A_invalidate key => MkSfWorld (sf_invalidate (sf_store w) key) (sf_tasks w)
  end.

Definition sf_init : SfWorld := MkSfWorld (MkStore ∅ 0) ∅.
Definition sf_run (w : SfWorld) (acts : list SfAction) : SfWorld := foldl sf_step w acts.

(** ** Invariants *)

(** Task [t] runs the resolve of [key] that will notify [ev]. *)
Definition resolves (w : SfWorld) (t : nat) (key : K) (ev : nat) : Prop :=
  sf_tasks w !! t = Some (T_Resolving (InFlightGuard_new key ev)).

Record sf_inv (w : SfWorld) : Prop := {
  inv_guard t g : sf_tasks w !! t = Some (T_Resolving g) →
    g = InFlightGuard_new (g_key g) (g_event g) ∧ (g_event g < next_event (sf_store w))%nat;
  inv_event t1 t2 k1 k2 ev : resolves w t1 k1 ev → resolves w t2 k2 ev → t1 = t2;
  inv_marker k ev : memo (sf_store w) !! k = Some (InFlight ev) → ∃ t, resolves w t k ev;
  inv_waiting t k ev : sf_tasks w !! t = Some (T_Waiting k ev) → ∃ t', resolves w t' k ev;
}.

(** One resolver per key, the one whose marker is in the store. *)
Definition sf_single (w : SfWorld) : Prop :=
  ∀ t k ev, resolves w t k ev → memo (sf_store w) !! k = Some (InFlight ev).

Lemma wake_resolving ev t g : wake ev t = T_Resolving g ↔ t = T_Resolving g.
Proof. destruct t; cbn; try done. case_decide; naive_solver. Qed.

Lemma notify_resolving ev ts t g :
  notify ev ts !! t = Some (T_Resolving g) ↔ ts !! t = Some (T_Resolving g).
Proof.
  unfold notify. rewrite lookup_fmap_Some. setoid_rewrite wake_resolving. naive_solver.
Qed.

Lemma notify_waiting ev ts t k e :
  notify ev ts !! t = Some (T_Waiting k e) ↔ ts !! t = Some (T_Waiting k e) ∧ e ≠ ev.
Proof.
  unfold notify. rewrite lookup_fmap_Some. split.
  - intros (x & Hx & Hts). destruct x; cbn in Hx; try done. case_decide; naive_solver.
  - intros [Hts Hne]. exists (T_Waiting k e). cbn. by rewrite decide_False.
Qed.

Lemma resolves_guard w t k ev : resolves w t k ev ↔
  sf_tasks w !! t = Some (T_Resolving (InFlightGuard_new k ev)).
Proof. done. Qed.

(** Changing the state of a task that does not resolve, to one that does not. *)
Lemma sf_inv_set t x w :
  sf_inv w → (∀ g, sf_tasks w !! t ≠ Some (T_Resolving g)) →
  match x with T_Resolving _ | T_Waiting _ _ => False | _ => True end →
  sf_inv (set_task t x w).
Proof.
  intros [H1 H2 H3 H4] Ht Hx.
  assert (∀ t' k ev, resolves w t' k ev ↔ resolves (set_task t x w) t' k ev) as Hres.
  { intros t' k ev. unfold resolves. cbn. destruct (decide (t = t')) as [<-|Hne].
    - rewrite lookup_insert_eq. split; [naive_solver|]. intros [= ->]. done.
    - by rewrite lookup_insert_ne. }
  split.
  - intros t' g. cbn. rewrite lookup_insert_Some. intros [[-> ->]|[_ ?]]; [done|by eapply H1].
  - intros t1 t2 k1 k2 ev. rewrite <-!Hres. apply H2.
  - intros k ev Hm. destruct (H3 k ev Hm) as [t' ?]. exists t'. by apply Hres.
  - intros t' k ev. cbn. rewrite lookup_insert_Some. intros [[-> ->]|[_ Hw]]; [done|].
    destruct (H4 _ _ _ Hw) as [t'' ?]. exists t''. by apply Hres.
Qed.

Lemma sf_inv_with_loop t key w :
  sf_inv w → (∀ g, sf_tasks w !! t ≠ Some (T_Resolving g)) → sf_inv (with_loop t key w).
Proof.
  intros Hi Ht. unfold with_loop, claim. destruct (memo (sf_store w) !! key) as [[v|ev]|] eqn:E.
  - destruct w as [s ts]. by apply sf_inv_set.
  - destruct Hi as [H1 H2 H3 H4].
    assert (∀ t' k ev', resolves (set_task t (T_Waiting key ev) w) t' k ev' ↔ resolves w t' k ev') as Hres.
    { intros t' k ev'. unfold resolves. cbn. destruct (decide (t = t')) as [<-|Hne].
      - rewrite lookup_insert_eq. split; [naive_solver|]. intros ?%Ht. done.
      - by rewrite lookup_insert_ne. }
    destruct w as [s ts]. cbn in *. split.
    + intros t' g. cbn. rewrite lookup_insert_Some. naive_solver.
    + intros t1 t2 k1 k2 e. rewrite !Hres. apply H2.
    + intros k e Hm. destruct (H3 k e Hm) as [t' ?]. exists t'. by apply Hres.
    + intros t' k e. cbn. rewrite lookup_insert_Some. intros [[-> [= <- <-]]|[_ Hw]].
      * destruct (H3 _ _ E) as [t'' ?]. exists t''. by apply Hres.
      * destruct (H4 _ _ _ Hw) as [t'' ?]. exists t''. by apply Hres.
  - destruct Hi as [H1 H2 H3 H4]. destruct w as [[m n] ts]. cbn in *.
    assert (∀ t' k ev, resolves (MkSfWorld (MkStore m n) ts) t' k ev → t' ≠ t ∧ (ev < n)%nat) as Hold.
    { intros t' k ev Hr. split; [intros ->; by eapply Ht|]. by destruct (H1 _ _ Hr). }
    assert (∀ t' k ev, resolves (set_task t (T_Resolving (InFlightGuard_new key n))
        (MkSfWorld (MkStore (<[key:=InFlight n]> m) (S n)) ts)) t' k ev ↔
        (t' = t ∧ k = key ∧ ev = n) ∨ resolves (MkSfWorld (MkStore m n) ts) t' k ev) as Hres.
    { intros t' k ev. unfold resolves at 1. cbn. rewrite lookup_insert_Some. split.
      - intros [[-> [= <- <-]]|[_ ?]]; [by left|by right].
      - intros [(-> & -> & ->)|Hr]; [by left|right]. destruct (Hold _ _ _ Hr). done. }
    split; cbn.
    + intros t' g. rewrite lookup_insert_Some. intros [[-> [= <-]]|[_ Hg]]; [cbn; split; [done|lia]|].
      destruct (H1 _ _ Hg). split; [done|lia].
    + intros t1 t2 k1 k2 e. rewrite !Hres.
      intros [(-> & _ & ->)|Hr1] [(-> & _ & Heq)|Hr2]; [done|..|by eapply H2].
      * apply Hold in Hr2 as [_ ?]. lia.
      * apply Hold in Hr1 as [_ ?]. lia.
    + intros k e. rewrite lookup_insert_Some. intros [[-> [= <-]]|[_ Hm]].
      * exists t. apply Hres. by left.
      * destruct (H3 _ _ Hm) as [t' ?]. exists t'. apply Hres. by right.
    + intros t' k e. rewrite lookup_insert_Some. intros [[_ ?]|[_ Hw]]; [done|].
      destruct (H4 _ _ _ Hw) as [t'' ?]. exists t''. apply Hres. by right.
Qed.

(** Dropping the guard of a finished resolve: its waiters wake, nobody else's
    resolve is affected. *)
Lemma sf_inv_drop t g r x w :
  sf_inv w → sf_tasks w !! t = Some (T_Resolving g) →
  match x with T_Resolving _ | T_Waiting _ _ => False | _ => True end →
  sf_inv (set_task t x (guard_drop (MkGuard (g_key g) (g_event g) r) w)).
Proof.
  intros [H1 H2 H3 H4] Hg Hx. destruct (H1 _ _ Hg) as [Hgeq Hlt].
  set (w' := set_task t x _).
  assert (resolves w t (g_key g) (g_event g)) as Hrt by (unfold resolves; by rewrite <-Hgeq).
  assert (sf_tasks w' = <[t := x]> (notify (g_event g) (sf_tasks w)) ∧
          next_event (sf_store w') = next_event (sf_store w)) as [Hts Hn] by (by destruct r).
  assert (∀ t' k ev, resolves w' t' k ev ↔ resolves w t' k ev ∧ t' ≠ t) as Hres.
  { intros t' k ev. unfold resolves. rewrite Hts, lookup_insert_Some, notify_resolving. split.
    - intros [[-> ->]|[? ?]]; [done|]. split; congruence.
    - intros [? ?]. right. split; congruence. }
  assert (∀ k ev, (∃ t', resolves w t' k ev) → ev ≠ g_event g → ∃ t', resolves w' t' k ev) as Hkeep.
  { intros k ev [t' Hr] Hne. exists t'. apply Hres. split; [done|]. intros ->. unfold resolves in *.
    rewrite Hg in Hr. injection Hr as ->. cbn in Hne. done. }
  split.
  - intros t' g'. rewrite Hts, Hn, lookup_insert_Some, notify_resolving.
    intros [[-> ->]|[_ Hg']]; [done|by eapply H1].
  - intros t1 t2 k1 k2 ev. rewrite !Hres. intros [? _] [? _]. by eapply H2.
  - intros k ev Hm.
    assert (memo (sf_store w) !! k = Some (InFlight ev) ∧ k ≠ g_key g) as [Hm' Hk].
    { unfold w' in Hm. destruct r; cbn in Hm.
      - apply lookup_insert_Some in Hm as [[_ ?]|[? ?]]; [done|]. done.
      - apply lookup_delete_Some in Hm as [? ?]. done. }
    apply Hkeep; [by apply H3|]. intros ->. destruct (H3 _ _ Hm') as [t' Hr'].
    pose proof (H2 _ _ _ _ _ Hr' Hrt) as ->. unfold resolves in *. rewrite Hg in Hr'.
    injection Hr' as Heq. apply Hk. rewrite Heq. done.
  - intros t' k ev. rewrite Hts, lookup_insert_Some, notify_waiting.
    intros [[-> ->]|[_ [Hw Hne]]]; [done|]. apply Hkeep; [by eapply H4|done].
Qed.

Lemma guard_fresh g :
  g = InFlightGuard_new (g_key g) (g_event g) →
  ∀ w, guard_drop g w = guard_drop (MkGuard (g_key g) (g_event g) None) w.
Proof. destruct g. by intros [= ->]. Qed.

Lemma guard_committed g (r : result Er V) :
  g = InFlightGuard_new (g_key g) (g_event g) →
  match r with Ok value => commit_done g value | Err _ => g end
  = MkGuard (g_key g) (g_event g) (ok r).
Proof. destruct g, r; [done|]. by intros [= ->]. Qed.

Lemma sf_inv_step w a : sf_inv w → sf_inv (sf_step w a).
Proof.
  intros Hi. destruct a as [t key|t|t r|t|key]; cbn [sf_step].
  - destruct (sf_tasks w !! t) eqn:E; [done|]. apply sf_inv_with_loop; [done|]. congruence.
  - destruct (sf_tasks w !! t) as [[]|] eqn:E; try done. apply sf_inv_with_loop; [done|]. congruence.
  - destruct (sf_tasks w !! t) as [[]|] eqn:E; try done. unfold with_resolved.
    destruct (inv_guard _ Hi _ _ E) as [Hg _].
    rewrite (guard_committed guard r Hg).
    by apply sf_inv_drop.
  - destruct (sf_tasks w !! t) as [[| |g| |]|] eqn:E; try done.
    + apply sf_inv_set; [done| |done]. congruence.
    + apply sf_inv_set; [done| |done]. congruence.
    + destruct (inv_guard _ Hi _ _ E) as [Hg _]. rewrite (guard_fresh g Hg). by apply sf_inv_drop.
  - destruct Hi as [H1 H2 H3 H4]. split; [done|done| |done].
    intros k ev Hm. cbn in Hm. apply lookup_delete_Some in Hm as [_ ?]. by apply H3.
Qed.

Lemma sf_inv_run w acts : sf_inv w → sf_inv (sf_run w acts).
Proof. revert w. induction acts as [|a acts IH]; intros w Hi; [done|]. cbn. by apply IH, sf_inv_step. Qed.

Lemma sf_inv_init : sf_inv sf_init.
Proof. split; cbn; intros *; unfold resolves; cbn; rewrite ?lookup_empty; done. Qed.

Definition no_invalidate (a : SfAction) : Prop := match a with A_invalidate _ => False | _ => True end.

Lemma sf_single_with_loop t key w :
  sf_single w → (∀ g, sf_tasks w !! t ≠ Some (T_Resolving g)) → sf_single (with_loop t key w).
Proof.
  intros Hs Ht t' k ev. unfold with_loop, claim.
  destruct (memo (sf_store w) !! key) as [[v|e]|] eqn:E; destruct w as [[m n] ts]; unfold resolves; cbn in *;
    rewrite lookup_insert_Some.
  - intros [[_ ?]|[_ ?]]; [done|by apply (Hs t')].
  - intros [[_ ?]|[_ ?]]; [done|by apply (Hs t')].
  - intros [[_ [= <- <-]]|[_ Hr]]; [by rewrite lookup_insert_eq|].
    apply Hs in Hr. cbn in Hr. rewrite lookup_insert_ne; [done|]. intros ->. congruence.
Qed.

Lemma sf_single_drop t g r x w :
  sf_inv w → sf_single w → sf_tasks w !! t = Some (T_Resolving g) →
  match x with T_Resolving _ => False | _ => True end →
  sf_single (set_task t x (guard_drop (MkGuard (g_key g) (g_event g) r) w)).
Proof.
  intros Hi Hs Hg Hx t' k ev Hr. destruct (inv_guard _ Hi _ _ Hg) as [Hgeq _].
  assert (resolves w t (g_key g) (g_event g)) as Hrt by (unfold resolves; by rewrite <-Hgeq).
  assert (resolves w t' k ev ∧ t' ≠ t) as [Hr' Hne].
  { unfold resolves in *. destruct r; cbn in Hr;
      rewrite lookup_insert_Some, notify_resolving in Hr; destruct Hr as [[-> ->]|[? ?]]; by split. }
  pose proof (Hs _ _ _ Hr') as Hm. pose proof (Hs _ _ _ Hrt) as Hmt.
  assert (k ≠ g_key g) as Hk.
  { intros ->. rewrite Hmt in Hm. injection Hm as <-. by destruct (inv_event _ Hi _ _ _ _ _ Hr' Hrt). }
  destruct r; cbn; [by rewrite lookup_insert_ne|by rewrite lookup_delete_ne].
Qed.

Lemma sf_single_set t x w :
  sf_single w → match x with T_Resolving _ => False | _ => True end → sf_single (set_task t x w).
Proof.
  intros Hs Hx t' k ev. unfold resolves. cbn. rewrite lookup_insert_Some.
  intros [[-> ->]|[_ ?]]; [done|]. by apply (Hs t').
Qed.

Lemma sf_single_step w a : sf_inv w → sf_single w → no_invalidate a → sf_single (sf_step w a).
Proof.
  intros Hi Hs Ha. destruct a as [t key|t|t r|t|key]; cbn [sf_step]; [..|done].
  - destruct (sf_tasks w !! t) eqn:E; [done|]. apply sf_single_with_loop; [done|]. congruence.
  - destruct (sf_tasks w !! t) as [[]|] eqn:E; try done. apply sf_single_with_loop; [done|]. congruence.
  - destruct (sf_tasks w !! t) as [[]|] eqn:E; try done. unfold with_resolved.
    destruct (inv_guard _ Hi _ _ E) as [Hg _].
    rewrite (guard_committed guard r Hg).
    by apply sf_single_drop.
  - destruct (sf_tasks w !! t) as [[| |g| |]|] eqn:E; try done; try by apply sf_single_set.
    destruct (inv_guard _ Hi _ _ E) as [Hg _]. rewrite (guard_fresh g Hg). by apply sf_single_drop.
Qed.

Lemma sf_single_run w acts :
  sf_inv w → sf_single w → Forall no_invalidate acts → sf_single (sf_run w acts).
Proof.
  revert w. induction acts as [|a acts IH]; intros w Hi Hs Ha; [done|]. cbn.
  apply Forall_cons in Ha as [??]. apply IH; [by apply sf_inv_step|by apply sf_single_step|done].
Qed.

(** ** Where values come from *)

(** Somewhere in [acts] a resolver of [k] returned [Ok v]. *)
Definition produced (acts : list SfAction) (k : K) (v : V) : Prop :=
  ∃ pre t ev post, acts = pre ++ A_resolved t (Ok v) :: post ∧ resolves (sf_run sf_init pre) t k ev.

Definition sf_sourced (acts : list SfAction) (w : SfWorld) : Prop :=
  (∀ k v, memo (sf_store w) !! k = Some (Memo v) → produced acts k v) ∧
  (∀ t k v, sf_tasks w !! t = Some (T_Finished k (Ok v)) → produced acts k v).

Lemma produced_snoc acts a k v : produced acts k v → produced (acts ++ [a]) k v.
Proof.
  intros (pre & t & ev & post & -> & Hr). exists pre, t, ev, (post ++ [a]). split; [|done].
  by rewrite <-(assoc_L (++)).
Qed.

Lemma notify_finished ev ts t k r :
  notify ev ts !! t = Some (T_Finished k r) → ts !! t = Some (T_Finished k r).
Proof.
  unfold notify. rewrite lookup_fmap_Some. intros (x & Hx & Hts).
  destruct x; cbn in Hx; try congruence. case_decide; congruence.
Qed.

Lemma sourced_with_loop acts t key w : sf_sourced acts w → sf_sourced acts (with_loop t key w).
Proof.
  intros [Hm Hf]. unfold with_loop, claim.
  destruct (memo (sf_store w) !! key) as [[v|e]|] eqn:E; destruct w as [[m n] ts]; cbn in *; split; cbn.
  - done.
  - intros t' k' v'. rewrite lookup_insert_Some. intros [[_ [= <- <-]]|[_ ?]]; [by apply Hm|by eapply Hf].
  - done.
  - intros t' k' v'. rewrite lookup_insert_Some. intros [[_ ?]|[_ ?]]; [done|by eapply Hf].
  - intros k' v'. rewrite lookup_insert_Some. intros [[_ ?]|[_ ?]]; [done|by apply Hm].
  - intros t' k' v'. rewrite lookup_insert_Some. intros [[_ ?]|[_ ?]]; [done|by eapply Hf].
Qed.

Lemma sourced_drop acts t g r x w :
  sf_sourced acts w → (∀ v, r = Some v → produced acts (g_key g) v) →
  (∀ k v, x = T_Finished k (Ok v) → produced acts k v) →
  sf_sourced acts (set_task t x (guard_drop (MkGuard (g_key g) (g_event g) r) w)).
Proof.
  intros [Hm Hf] Hr Hx. split.
  - intros k v. destruct r; cbn.
    + rewrite lookup_insert_Some. intros [[<- [= <-]]|[_ ?]]; [by apply Hr|by apply Hm].
    + rewrite lookup_delete_Some. intros [_ ?]. by apply Hm.
  - intros t' k v. destruct r; cbn; rewrite lookup_insert_Some;
      (intros [[_ ?]|[_ ?%notify_finished]]; [by apply Hx|by eapply Hf]).
Qed.

Lemma sf_sourced_run acts : sf_sourced acts (sf_run sf_init acts).
Proof.
  induction acts as [|a acts IH] using rev_ind.
  { split; cbn; intros *; by rewrite lookup_empty. }
  assert (sf_inv (sf_run sf_init acts)) as Hi by apply sf_inv_run, sf_inv_init.
  assert (sf_sourced (acts ++ [a]) (sf_run sf_init acts)) as Hs.
  { destruct IH as [Hm Hf]. split; intros *; intros H0; apply produced_snoc; eauto. }
  unfold sf_run in *. rewrite foldl_app. cbn [foldl].
  set (w := foldl sf_step sf_init acts) in *. clear IH.
  destruct a as [t key|t|t r|t|key]; cbn [sf_step].
  - destruct (sf_tasks w !! t) eqn:E; [done|by apply sourced_with_loop].
  - destruct (sf_tasks w !! t) as [[]|] eqn:E; try done. by apply sourced_with_loop.
  - destruct (sf_tasks w !! t) as [[| |g| |]|] eqn:E; try done. unfold with_resolved.
    destruct (inv_guard _ Hi _ _ E) as [Hg _]. rewrite (guard_committed g r Hg).
    assert (∀ v, r = Ok v → produced (acts ++ [A_resolved t r]) (g_key g) v) as Hp.
    { intros v ->. exists acts, t, (g_event g), []. split; [done|]. unfold resolves. by rewrite <-Hg. }
    apply sourced_drop; [done|intros v; destruct r; naive_solver|naive_solver].
  - destruct (sf_tasks w !! t) as [[| |g| |]|] eqn:E; try done.
    1,2: destruct Hs as [Hm Hf]; split; [done|]; intros t' k' v'; cbn; rewrite lookup_insert_Some;
      (intros [[_ ?]|[_ ?]]; [done|by eapply Hf]).
    destruct (inv_guard _ Hi _ _ E) as [Hg _]. rewrite (guard_fresh g Hg). by apply sourced_drop.
  - destruct Hs as [Hm Hf]. split; [|done]. intros k v. cbn. rewrite lookup_delete_Some. intros [_ ?]. by apply Hm.
Qed.

(** ** Properties *)

(** No waiter is ever stranded.  In every reachable world, whatever the
    interleaving of starts, wake-ups, results, cancellations and
    invalidations, a task waiting on an event has a running resolver of its
    own key that owns that event, and when that resolver succeeds, fails or
    is cancelled the waiter is woken. *)
Theorem sf_no_lost_wakeup acts t k ev :
  let w := sf_run sf_init acts in
  sf_tasks w !! t = Some (T_Waiting k ev) →
  ∃ t', resolves w t' k ev ∧
    (∀ r, sf_tasks (sf_step w (A_resolved t' r)) !! t = Some (T_Woken k)) ∧
    sf_tasks (sf_step w (A_cancel t')) !! t = Some (T_Woken k).
Proof.
  intros w Hw. assert (sf_inv w) as Hi by apply sf_inv_run, sf_inv_init.
  destruct (inv_waiting _ Hi _ _ _ Hw) as [t' Hr]. exists t'. split; [done|].
  assert (t' ≠ t) as Hne. { intros ->. unfold resolves in Hr. congruence. }
  assert (∀ g x, g_event g = ev →
    sf_tasks (set_task t' x (guard_drop g w)) !! t = Some (T_Woken k)) as Hwake.
  { intros g x Hg. unfold guard_drop. destruct (g_result g); cbn;
      rewrite lookup_insert_ne by done; unfold notify; rewrite lookup_fmap, Hw; cbn;
      by rewrite decide_True. }
  unfold resolves in Hr. cbn [sf_step]. rewrite Hr. split; [intros r|by apply Hwake].
  unfold with_resolved. destruct r; by apply Hwake.
Qed.

(** As long as nobody invalidates, at most one resolve per key is in
    flight at any time, and while it runs the store holds its marker, so that
    every other caller waits. *)
Theorem sf_single_flight acts t1 t2 k ev1 ev2 :
  Forall no_invalidate acts →
  let w := sf_run sf_init acts in
  resolves w t1 k ev1 → resolves w t2 k ev2 → t1 = t2 ∧ ev1 = ev2.
Proof.
  intros Ha w H1 H2. assert (sf_inv w) as Hi by apply sf_inv_run, sf_inv_init.
  assert (sf_single w) as Hs.
  { apply sf_single_run; [apply sf_inv_init| |done]. intros t k' ev Hr. unfold resolves in Hr.
    cbn in Hr. by rewrite lookup_empty in Hr. }
  pose proof (Hs _ _ _ H1) as M1. pose proof (Hs _ _ _ H2) as M2. rewrite M1 in M2.
  injection M2 as <-. split; [|done]. by eapply inv_event.
Qed.

(** [with] returns [Ok v] only for a [v] that a resolver of the same key
    returned: a memo or a coalesced wait can never hand out the value of
    another key or of a failed resolve. *)
Theorem sf_value_provenance acts t k v :
  sf_tasks (sf_run sf_init acts) !! t = Some (T_Finished k (Ok v)) → produced acts k v.
Proof. apply sf_sourced_run. Qed.

End sf.

Arguments SfAction : clear implicits.

(** Invalidation removes the marker of a resolve in flight as well: after it a
    second resolver of the same key is admitted beside the first. *)
Definition demo_overlap : list (SfAction nat nat ()) :=
  [A_start 1 7%nat; A_invalidate 7%nat; A_start 2 7%nat].

Lemma sf_invalidate_breaks_single_flight :
  let w := sf_run sf_init demo_overlap in
  resolves w 1 7%nat 0 ∧ resolves w 2 7%nat 1.
Proof. split; vm_compute; reflexivity. Qed.

(** ** Witnesses *)

Definition demo_coalesce : list (SfAction nat nat ()) := [A_start 1 7%nat; A_start 2 7%nat].

Lemma sf_no_lost_wakeup_witness :
  ∃ t', resolves (sf_run sf_init demo_coalesce) t' 7%nat 0 ∧
    (∀ r, sf_tasks (sf_step (sf_run sf_init demo_coalesce) (A_resolved t' r)) !! 2%nat = Some (T_Woken 7%nat)) ∧
    sf_tasks (sf_step (sf_run sf_init demo_coalesce) (A_cancel t')) !! 2%nat = Some (T_Woken 7%nat).
Proof. apply (sf_no_lost_wakeup demo_coalesce 2 7%nat 0). vm_compute. reflexivity. Defined.

Lemma sf_single_flight_witness : 1%nat = 1%nat ∧ 0%nat = 0%nat.
Proof.
  apply (sf_single_flight demo_coalesce 1 1 7%nat 0 0).
  - repeat constructor.
  - vm_compute. reflexivity.
  - vm_compute. reflexivity.
Defined.

Lemma sf_value_provenance_witness :
  produced (demo_coalesce ++ [A_resolved 1 (Ok 42%nat); A_wake 2]) 7%nat 42%nat.
Proof.
  apply (sf_value_provenance (demo_coalesce ++ [A_resolved 1 (Ok 42%nat); A_wake 2]) 2).
  vm_compute. reflexivity.
Defined.
