(* ===== verification/AtomicFs.v ===== *)
(** * Atomic file replacement: [src/atomic_fs.rs]

    The file system is a map from (directory, name) to contents.  Every
    operation of [atomic_write] may fail; the environment's choice for one
    call is a [FsEnv].  The function returns the states of the file system it
    goes through, oldest first: a crash (SIGKILL, power loss after the data
    reached the disk) or the cancellation of the task leaves one of them. *)

From S2P Require Import Prelude.

Abbreviation FileKey := (bytes * bytes)%type.
Abbreviation Fs := (gmap FileKey bytes).

(** [Path::parent] and [Path::file_name] of the target. *)
Record Path := MkPath { parent : option bytes; file_name : option bytes }.

Inductive IoError := Io_InvalidInput | Io_NotFound | Io_Other.

(** What the environment does to one call: which operation fails, how much of
    the content a failing write leaves in the temporary file, and the fresh
    ULID of the temporary name. *)
Record FsEnv := MkFsEnv {
  e_ulid : bytes;
  e_open_fails : bool;
  e_write_fails : option nat;
  e_sync_fails : bool;
  e_rename_fails : bool;
  e_remove_fails : bool;
  e_opendir_fails : bool;
  e_syncdir_fails : bool;
}.

Definition tmp_name (base ulid : bytes) : bytes := base ++ B ".tmp." ++ ulid.

(** The states passed through, the last one being the final one, and the result. *)
Definition atomic_write (env : FsEnv) (path : Path) (content : bytes) (fs : Fs) :
    list Fs * result IoError () :=
  match parent path with
  | None => ([fs], Err Io_InvalidInput)
  | Some dir =>
  match file_name path with
  | None => ([fs], Err Io_InvalidInput)
  | Some base =>
  let tmp := (dir, tmp_name base (e_ulid env)) in
  if e_open_fails env then ([fs], Err Io_Other)
  else
  let fs1 := <[tmp := []]> fs in
  match e_write_fails env with
  | Some k => ([fs; fs1; <[tmp := take k content]> fs], Err Io_Other)
  | None =>
  let fs2 := <[tmp := content]> fs in
  if e_sync_fails env then ([fs; fs1; fs2], Err Io_Other)
  else if e_rename_fails env then
    ([fs; fs1; fs2; if e_remove_fails env then fs2 else delete tmp fs2], Err Io_Other)
  else
  let fs3 := <[(dir, base) := content]> (delete tmp fs2) in
  if e_opendir_fails env || e_syncdir_fails env then ([fs; fs1; fs2; fs3], Err Io_Other)
  else ([fs; fs1; fs2; fs3], Ok ())
  end end end.

(** The target as a key, when the path has one. *)
Definition target (path : Path) : option FileKey :=
  dir ← parent path; base ← file_name path; Some (dir, base).

(** Writing the rest of a file system: everything but temporary files. *)
Definition same_files (path : Path) (ulid : bytes) (fs fs' : Fs) : Prop :=
  ∀ k, target path ≠ Some k →
       (∀ dir base, parent path = Some dir → file_name path = Some base → k ≠ (dir, tmp_name base ulid)) →
       fs' !! k = fs !! k.

Lemma tmp_name_ne base ulid : tmp_name base ulid ≠ base.
Proof.
  unfold tmp_name. intros H%(f_equal length). rewrite !length_app in H.
  change (length (B ".tmp.")) with 5%nat in H. lia.
Qed.

(** The two contents the target can have. *)
Definition old_or_new (key : FileKey) (content : bytes) (fs fs' : Fs) : Prop :=
  fs' !! key = fs !! key ∨ fs' !! key = Some content.

Lemma atomic_write_states env path content fs key :
  target path = Some key →
  Forall (old_or_new key content fs) (atomic_write env path content fs).1.
Proof.
  unfold target, atomic_write, old_or_new. destruct path as [[dir|] [base|]]; cbn; try done.
  intros [= <-]. pose proof (tmp_name_ne base (e_ulid env)) as Hne.
  assert (∀ c, (<[(dir, tmp_name base (e_ulid env)) := c]> fs) !! (dir, base) = fs !! (dir, base)) as Htmp.
  { intros c. rewrite lookup_insert_ne; [done|]. congruence. }
  assert (∀ m : Fs, delete (dir, tmp_name base (e_ulid env)) m !! (dir, base) = m !! (dir, base)) as Hdel.
  { intros m. rewrite lookup_delete_ne; [done|]. congruence. }
  repeat case_match; cbn; repeat (apply Forall_cons; split); try apply Forall_nil; auto;
    rewrite ?lookup_insert_eq, ?Hdel, ?Htmp; auto.
Qed.

Lemma atomic_write_nonempty env path content fs : (atomic_write env path content fs).1 ≠ [].
Proof. unfold atomic_write. repeat case_match; done. Qed.

Definition final_fs (fs : Fs) (r : list Fs * result IoError ()) : Fs := default fs (last r.1).

Lemma atomic_write_Ok env path content fs :
  (atomic_write env path content fs).2 = Ok () →
  ∃ key, target path = Some key ∧
    final_fs fs (atomic_write env path content fs) !! key = Some content.
Proof.
  unfold atomic_write, target, final_fs. destruct path as [[dir|] [base|]]; cbn; try done.
  repeat case_match; try done. intros _. eexists. split; [done|]. cbn. by rewrite lookup_insert_eq.
Qed.

(** Nothing but the target and the temporary file is touched. *)
Lemma atomic_write_frame env path content fs :
  Forall (same_files path (e_ulid env) fs) (atomic_write env path content fs).1.
Proof.
  unfold atomic_write, same_files, target. destruct path as [[dir|] [base|]]; cbn;
    try (by apply Forall_singleton).
  assert (∀ k (m : Fs) c, k ≠ (dir, tmp_name base (e_ulid env)) →
            <[(dir, tmp_name base (e_ulid env)) := c]> m !! k = m !! k) as H1
    by (intros; by apply lookup_insert_ne).
  assert (∀ k (m : Fs), k ≠ (dir, tmp_name base (e_ulid env)) →
            delete (dir, tmp_name base (e_ulid env)) m !! k = m !! k) as H2
    by (intros; by apply lookup_delete_ne).
  repeat case_match; cbn [fst]; repeat (apply Forall_cons; split); try (by apply Forall_nil);
    intros k Hk Ht; specialize (Ht _ _ eq_refl eq_refl);
    rewrite ?lookup_insert_ne by congruence; rewrite ?H2, ?H1 by done; done.
Qed.

(** ** Properties *)

(** C39: crash coherence of every state file.  Whatever fails and wherever the
    process stops, the target file holds its previous content or the whole
    new content, never a part of it; success means the new content is there;
    and no other file is touched except the temporary one. *)
Theorem atomic_write_coherent env path content fs key :
  target path = Some key →
  let r := atomic_write env path content fs in
  Forall (λ fs', old_or_new key content fs fs' ∧ same_files path (e_ulid env) fs fs') r.1 ∧
  (r.2 = Ok () → final_fs fs r !! key = Some content).
Proof.
  intros Hk r. split.
  - apply Forall_and. split; [by apply atomic_write_states|apply atomic_write_frame].
  - intros Hok. destruct (atomic_write_Ok _ _ _ _ Hok) as (key' & Hk' & Hf).
    rewrite Hk in Hk'. by injection Hk' as ->.
Qed.

(** An error does not mean the old content is still there: when only the
    directory fsync fails, the new content is already in place. *)
Definition demo_path : Path := MkPath (Some (B "/var/lib/symbolon")) (Some (B "psks")).
Definition fsync_dir_fails : FsEnv := MkFsEnv (B "01J") false None false false false false true.

Lemma atomic_write_err_after_rename :
  let r := atomic_write fsync_dir_fails demo_path (B "new") ∅ in
  r.2 = Err Io_Other ∧ final_fs ∅ r !! (B "/var/lib/symbolon", B "psks") = Some (B "new").
Proof. split; vm_compute; reflexivity. Qed.

(** ** Witness *)

Lemma atomic_write_coherent_witness :
  let r := atomic_write fsync_dir_fails demo_path (B "new") ∅ in
  Forall (λ fs', old_or_new (B "/var/lib/symbolon", B "psks") (B "new") ∅ fs' ∧
                 same_files demo_path (B "01J") ∅ fs') r.1 ∧
  (r.2 = Ok () → final_fs ∅ r !! (B "/var/lib/symbolon", B "psks") = Some (B "new")).
Proof.
  apply (atomic_write_coherent fsync_dir_fails demo_path (B "new") ∅ (B "/var/lib/symbolon", B "psks")).
  reflexivity.
Defined.
