(* ===== verification/Config.v ===== *)
(** * Configuration and client table files: [src/config.rs], [src/loader.rs]

    The records of [config.toml] and [clients.json].  The TOML and JSON
    readers are external crates: they are the class [FileFormats], with the
    round-trip law of the JSON pair the daemon relies on.  Also here: the
    choice of the signing backend ([daemon::spawn_signing_backend]), whose
    [expect]s rest on the validation done by [Config::parse]. *)

From S2P Require Import Prelude Identity AtomicFs.

(** ** [providers/mod.rs]: the provider kinds *)

Inductive ProviderKind := Github.
#[export] Instance ProviderKind_eq_dec : EqDecision ProviderKind.
Proof. solve_decision. Defined.
#[export] Instance ProviderKind_countable : Countable ProviderKind.
Proof. by refine (inj_countable' (λ _, ()) (λ _, Github) _); intros []. Defined.

(** ** [config.toml] *)

Record RuntimeConfig := MkRuntimeConfig { pidfile : option Path }.

Record ListenConfig := MkListenConfig {
  bind : bytes;   (* SocketAddr *)
  psk_file : Path;
  static_key_file : Path;
}.

Record AdminConfig := MkAdminConfig { socket_path : Path }.
Record ClientsConfig := MkClientsConfig { clients_path : Path }.

Inductive Level := Trace | Debug | Info | Warn | Error.
Record LoggingConfig := MkLoggingConfig { level : Level }.

Inductive SandboxMode := Sandbox_Required | Sandbox_BestEffort | Sandbox_Off.
Inductive MlockMode := Mlock_Required | Mlock_BestEffort | Mlock_Off.

Record SecurityConfig := MkSecurityConfig {
  sandbox : SandboxMode;
  extra_read_dirs : list bytes;
  mlock : MlockMode;
}.

Inductive AppKeyBackend := Tpm | File.

Record ProviderGithubTpm := MkProviderGithubTpm {
  device : bytes;
  persistent_handle : Z;   (* u32 *)
}.

Record ProviderGithub := MkProviderGithub {
  gh_host : bytes;
  api_base : bytes;
  client_id : bytes;
  installation_id : Z;   (* u64 *)
  app_key_backend : AppKeyBackend;
  private_key_path : option bytes;
  tpm : option ProviderGithubTpm;
  selfcheck_timeout : Z;
  request_timeout : Z;
  user_agent : bytes;
}.

(** The values serde fills in for absent keys. *)
Definition default_request_timeout : Z := from_secs 10.
Definition default_tpm_device : bytes := B "/dev/tpmrm0".
Definition default_user_agent : bytes := B "symbolon".
Definition SandboxMode_default : SandboxMode := Sandbox_BestEffort.
Definition MlockMode_default : MlockMode := Mlock_BestEffort.

Record Config := MkConfig {
  cfg_listen : ListenConfig;
  cfg_admin : AdminConfig;
  cfg_clients : ClientsConfig;
  cfg_logging : LoggingConfig;
  cfg_security : SecurityConfig;
  cfg_runtime : RuntimeConfig;
  cfg_github : option ProviderGithub;   (* Providers { github } *)
}.

(** ** [clients.json] *)

Record ClientEntry := MkClientEntry {
  ce_name : bytes;
  ce_providers : list ProviderKind;
  ce_enrolled_at : Z;   (* OffsetDateTime *)
  ce_note : option Note;
}.

Record ClientsFile := MkClientsFile { cf_clients : list ClientEntry }.

(** The serde data formats. *)
Class FileFormats := {
  TomlError : Type;
  JsonError : Type;
  toml_from_str : bytes → result TomlError Config;
  json_from_str : bytes → result JsonError ClientsFile;
  json_to_vec_pretty : ClientsFile → result JsonError bytes;
}.

(** What is written reads back, and is valid UTF-8. *)
Class FileFormatLaws `{!FileFormats} : Prop := {
  json_roundtrip f b : json_to_vec_pretty f = Ok b → json_from_str b = Ok f;
  json_utf8 f b : json_to_vec_pretty f = Ok b → from_utf8 b = Ok b;
}.

(** The messages of [validate_backend], by their cause. *)
Inductive BackendMismatch :=
| TpmSectionMissing
| PrivateKeyPathUnused
| PrivateKeyPathMissing
| TpmSectionUnused.

Inductive ParseError `{!FileFormats} :=
| Parse_Toml (e : TomlError)
| Parse_Json (e : JsonError)
| Parse_Backend (e : BackendMismatch).

Definition validate_backend (gh : ProviderGithub) : result BackendMismatch () :=
  match app_key_backend gh with
  | Tpm =>
      if decide (tpm gh = None) then Err TpmSectionMissing
      else if decide (private_key_path gh ≠ None) then Err PrivateKeyPathUnused
      else Ok ()
  | File =>
      if decide (private_key_path gh = None) then Err PrivateKeyPathMissing
      else if decide (tpm gh ≠ None) then Err TpmSectionUnused
      else Ok ()
  end.

Section parse.
Context {FF : FileFormats}.

Definition Config_parse (text : bytes) : result ParseError Config :=
  cfg ← map_err Parse_Toml (toml_from_str text);
  _ ← match cfg_github cfg with
      | Some gh => map_err Parse_Backend (validate_backend gh)
      | None => Ok ()
      end;
  Ok cfg.

Definition ClientsFile_parse (text : bytes) : result ParseError ClientsFile :=
  map_err Parse_Json (json_from_str text).

(** ** [loader.rs]: [content] is what [compio::fs::read] returned. *)

Inductive LoadError :=
| Load_Io (e : IoError)
| Load_Utf8
| Load_Parse (e : ParseError).

Definition read_utf8 (content : result IoError bytes) : result LoadError bytes :=
  b ← map_err Load_Io content;
  map_err (λ _, Load_Utf8) (from_utf8 b).

Definition load_config (content : result IoError bytes) : result LoadError Config :=
  text ← read_utf8 content;
  map_err Load_Parse (Config_parse text).

Definition load_clients_file (content : result IoError bytes) : result LoadError ClientsFile :=
  text ← read_utf8 content;
  map_err Load_Parse (ClientsFile_parse text).

(** ** [daemon::spawn_signing_backend]

    Which backend is spawned and with what; [None] is the panic of an
    [expect] on an absent sub-config. *)
Inductive SpawnRequest :=
| Spawn_Agent (key_path : bytes)
| Spawn_Tpm (dev : bytes) (handle : Z).

Definition spawn_signing_backend (gh : ProviderGithub) : option SpawnRequest :=
  match app_key_backend gh with
  | File => Spawn_Agent <$> private_key_path gh
  | Tpm => (λ t, Spawn_Tpm (device t) (persistent_handle t)) <$> tpm gh
  end.

(** The sub-config of the selected backend is there. *)
Lemma Config_parse_spawns text cfg gh :
  Config_parse text = Ok cfg → cfg_github cfg = Some gh → is_Some (spawn_signing_backend gh).
Proof.
  unfold Config_parse. intros H Hgh. inv_ok. rewrite Hgh in *.
  match goal with H : map_err _ _ = Ok _ |- _ => apply map_err_Ok in H; rename H into Hv end.
  unfold validate_backend, spawn_signing_backend in *. destruct (app_key_backend gh).
  - destruct (tpm gh) as [t|]; [by eexists|done].
  - destruct (private_key_path gh) as [q|]; [by eexists|done].
Qed.

(** ** Properties *)

(** A configuration that parses has exactly the sub-config of its signing
    backend, and spawning that backend cannot panic: the file backend gets the
    configured key path and no TPM section is present, the TPM backend gets
    the configured device and handle and no key path is present. *)
Lemma Config_parse_backend text cfg gh :
  Config_parse text = Ok cfg → cfg_github cfg = Some gh →
  match app_key_backend gh with
  | File => tpm gh = None ∧ ∃ p, private_key_path gh = Some p ∧ spawn_signing_backend gh = Some (Spawn_Agent p)
  | Tpm => private_key_path gh = None ∧
           ∃ t, tpm gh = Some t ∧ spawn_signing_backend gh = Some (Spawn_Tpm (device t) (persistent_handle t))
  end.
Proof.
  unfold Config_parse. intros H Hgh. inv_ok. rewrite Hgh in *.
  match goal with H : map_err _ _ = Ok _ |- _ => apply map_err_Ok in H; rename H into Hv end.
  unfold validate_backend, spawn_signing_backend in *. destruct (app_key_backend gh).
  - destruct (tpm gh) as [t|]; [|done]. destruct (private_key_path gh); [done|]. naive_solver.
  - destruct (private_key_path gh) as [p|]; [|done]. destruct (tpm gh); [done|]. naive_solver.
Qed.

End parse.

(** ** A concrete pair of formats

    The TOML reader knows one text; the client table is written as the digits
    of its number in a fixed enumeration of all tables. *)

Definition entry_tuple (e : ClientEntry) : bytes * list ProviderKind * Z * option bytes :=
  (ce_name e, ce_providers e, ce_enrolled_at e, note_str <$> ce_note e).
Definition tuple_entry (t : bytes * list ProviderKind * Z * option bytes) : ClientEntry :=
  let '(n, p, z, o) := t in MkClientEntry n p z (MkNote <$> o).

#[export] Instance entry_tuple_inj : Inj (=) (=) entry_tuple.
Proof. intros [? ? ? [[]|]] [? ? ? [[]|]] H; unfold entry_tuple in H; by simplify_eq/=. Qed.

#[export] Instance ClientEntry_eq_dec : EqDecision ClientEntry := inj_eq_dec entry_tuple.
#[export] Instance ClientEntry_countable : Countable ClientEntry.
Proof. refine (inj_countable' entry_tuple tuple_entry _). by intros [? ? ? [[]|]]. Defined.

Fixpoint pos_digits (p : positive) : bytes :=
  match p with
  | xH => []
  | xO q => x30 :: pos_digits q
  | xI q => x31 :: pos_digits q
  end.
Fixpoint digits_pos (b : bytes) : option positive :=
  match b with
  | [] => Some xH
  | c :: b' =>
      p ← digits_pos b';
      if decide (c = x30) then Some (xO p) else if decide (c = x31) then Some (xI p) else None
  end.

Lemma digits_pos_digits p : digits_pos (pos_digits p) = Some p.
Proof. induction p as [p IH|p IH|]; cbn; [by rewrite IH..|done]. Qed.

Lemma pos_digits_ascii p : Forall (λ b, u8 b < 128) (pos_digits p).
Proof. induction p; cbn; repeat constructor; done. Qed.

Definition demo_github : ProviderGithub :=
  MkProviderGithub (B "github.com") (B "https://api.github.com") (B "Iv23liDemo") 4242 File
    (Some (B "/etc/symbolon/app.pem")) None (from_secs 5) default_request_timeout default_user_agent.

Definition demo_config : Config :=
  MkConfig
    (MkListenConfig (B "127.0.0.1:9418") demo_path
       (MkPath (Some (B "/etc/symbolon")) (Some (B "static.key"))))
    (MkAdminConfig (MkPath (Some (B "/run/symbolon")) (Some (B "admin.sock"))))
    (MkClientsConfig (MkPath (Some (B "/var/lib/symbolon")) (Some (B "clients.json"))))
    (MkLoggingConfig Info)
    (MkSecurityConfig SandboxMode_default [] MlockMode_default)
    (MkRuntimeConfig None) (Some demo_github).

Definition formats_model : FileFormats := {|
  TomlError := ();
  JsonError := ();
  toml_from_str b := if decide (b = B "demo") then Ok demo_config else Err ();
  json_from_str b := ok_or () (MkClientsFile <$> (digits_pos b ≫= decode));
  json_to_vec_pretty f := Ok (pos_digits (encode (cf_clients f)));
|}.

#[export] Instance formats_model_laws : @FileFormatLaws formats_model.
Proof.
  split.
  - intros [cs] b [= <-].
    change (ok_or () (MkClientsFile <$> (digits_pos (pos_digits (encode cs)) ≫= decode)) = Ok (MkClientsFile cs)).
    rewrite digits_pos_digits. change (Some (encode cs) ≫= decode) with (decode (encode cs) : option (list ClientEntry)).
    by rewrite decode_encode.
  - intros [cs] b [= <-]. apply from_utf8_ascii, pos_digits_ascii.
Qed.

Lemma Config_parse_backend_witness :
  tpm demo_github = None ∧
  ∃ p, private_key_path demo_github = Some p ∧ spawn_signing_backend demo_github = Some (Spawn_Agent p).
Proof. apply (@Config_parse_backend formats_model (B "demo") demo_config demo_github); reflexivity. Defined.
