(* ===== verification/Serde.v ===== *)
(** * The serde derives: typed values and their JSON

    [#[derive(Serialize, Deserialize)]] of the program's types, attribute by
    attribute: a codec per type with the values of the type as a predicate, the
    visitors of a derived struct (objects with ignored or denied unknown
    members, duplicates refused, positional sequences) and enum, and the file
    [clients.json] of [config.rs].  [FileFormats] is discharged by
    [formats_serde]. *)

From S2P Require Import Prelude Identity Psk Config Json.

Inductive JsonFault := Json_Syntax | Json_Data.

(** ** Codecs *)

Record Codec (A : Type) := MkCodec {
  ser : A → Value;
  de : Value → result JsonFault A;
  (** the values the Rust type has *)
  typed : A → Prop;
}.
Arguments MkCodec {_} _ _ _.
Arguments ser {_} _ _.
Arguments de {_} _ _.
Arguments typed {_} _ _.

(** What is written is at most [depth] containers deep and reads back; what is
    read is a value of the type. *)
Record CodecLaws {A} (depth : nat) (c : Codec A) : Prop := {
  ser_printable a : typed c a → printable depth (ser c a) = true;
  de_ser a : typed c a → de c (ser c a) = Ok a;
  de_typed v a : de c v = Ok a → typed c a;
}.

Definition refuse {A} : result JsonFault A := Err Json_Data.

(** [String]: strings are checked when they are visited *)
Definition string_codec : Codec bytes := MkCodec V_Str
  (λ v, match v with V_Str s => map_err (λ _, Json_Data) (from_utf8 s) | _ => refuse end)
  (λ s, from_utf8 s = Ok s).

Definition u_codec (max : Z) : Codec Z := MkCodec V_Int
  (λ v, match v with V_Int n => if (0 <=? n) && (n <=? max) then Ok n else refuse | _ => refuse end)
  (λ n, 0 <= n <= max).
Definition u64_codec : Codec Z := u_codec u64_max.
Definition u8_codec : Codec Z := u_codec 255.

Definition bool_codec : Codec bool := MkCodec V_Bool (λ v, match v with V_Bool b => Ok b | _ => refuse end) (λ _, True).

(** [Vec<T>] *)
Definition vec_codec {A} (c : Codec A) : Codec (list A) := MkCodec
  (λ l, V_Arr (ser c <$> l)) (λ v, match v with V_Arr vs => mapM (de c) vs | _ => refuse end) (Forall (typed c)).

(** [Option<T>] *)
Definition option_codec {A} (c : Codec A) : Codec (option A) := MkCodec
  (λ o, match o with Some a => ser c a | None => V_Null end)
  (λ v, match v with V_Null => Ok None | v => a ← de c v; Ok (Some a) end)
  (λ o, match o with Some a => typed c a | None => True end).

(** [#[serde(into = "String", try_from = "String")]] *)
Definition identity_codec : Codec Identity := MkCodec (λ i, V_Str (as_str i))
  (λ v, s ← de string_codec v; map_err (λ _, Json_Data) (Identity_parse s)) Identity_ok.
Definition note_codec : Codec Note := MkCodec (λ n, V_Str (note_str n))
  (λ v, s ← de string_codec v; map_err (λ _, Json_Data) (Note_parse s)) Note_ok.

(** [#[serde(transparent)]] on [[u8; 32]] *)
Definition psk_codec : Codec Psk := MkCodec (λ p, ser (vec_codec u8_codec) (u8 <$> psk_bytes p))
  (λ v, l ← de (vec_codec u8_codec) v; if len l =? Psk_LEN then Ok (MkPsk (as_u8 <$> l)) else refuse) Psk_ok.

(** A unit variant: its name, or an object with its name alone. *)
Definition unit_variant (v : Value) : result JsonFault bytes :=
  match v with
  | V_Str s => Ok s
  | V_Obj [(k, V_Null)] => Ok k
  | _ => refuse
  end.

(** [#[serde(rename_all = "snake_case")]] *)
Definition provider_codec : Codec ProviderKind := MkCodec (λ p, V_Str (match p with Github => B "github" end))
  (λ v, s ← unit_variant v; if decide (s = B "github") then Ok Github else refuse) (λ _, True).

(** ** Derived structs *)

(** [f_opt]: an [Option] or [#[serde(default)]], may be missing from an object;
    [f_default]: may be missing at the end of a sequence. *)
Record Field := MkField { f_name : bytes; f_opt : bool; f_default : bool }.
Definition required (name : bytes) : Field := MkField name false false.
Definition optional (name : bytes) : Field := MkField name true false.
Definition defaulted (name : bytes) : Field := MkField name true true.

(** The member of that name; two of them are an error. *)
Definition find_member (name : bytes) (ms : list (bytes * Value)) : result JsonFault (option Value) :=
  match filter (λ kv, fst kv = name) ms with
  | [] => Ok None
  | [kv] => Ok (Some (snd kv))
  | _ => refuse
  end.

Definition visit_field (ms : list (bytes * Value)) (f : Field) : result JsonFault (option Value) :=
  o ← find_member (f_name f) ms;
  match o with None => if f_opt f then Ok None else refuse | Some _ => Ok o end.

Fixpoint visit_seq (fs : list Field) (vs : list Value) : result JsonFault (list (option Value)) :=
  match fs, vs with
  | [], [] => Ok []
  | f :: fs, v :: vs => os ← visit_seq fs vs; Ok (Some v :: os)
  | f :: fs, [] => if f_default f then os ← visit_seq fs []; Ok (None :: os) else refuse
  | [], _ :: _ => refuse
  end.

Definition known (fs : list Field) (k : bytes) : bool := bool_decide (k ∈ f_name <$> fs).

(** The fields in their order; [deny]: [#[serde(deny_unknown_fields)]]. *)
Definition visit_struct (deny : bool) (fs : list Field) (v : Value) : result JsonFault (list (option Value)) :=
  match v with
  | V_Obj ms =>
      if forallb (λ kv, is_ok (from_utf8 (fst kv)) && (negb deny || known fs (fst kv))) ms
      then mapM (visit_field ms) fs else refuse
  | V_Arr vs => visit_seq fs vs
  | _ => refuse
  end.

(** A field that is there. *)
Definition de_req {A} (c : Codec A) (o : option Value) : result JsonFault A :=
  match o with Some v => de c v | None => refuse end.
(** An [Option] field: absent is [None]. *)
Definition de_opt {A} (c : Codec A) (o : option Value) : result JsonFault (option A) :=
  match o with Some v => de (option_codec c) v | None => Ok None end.

(** [from_slice] into a type *)
Definition from_json {A} (d : Value → result JsonFault A) (text : bytes) : result JsonFault A :=
  v ← ok_or Json_Syntax (json_parse text); d v.

Lemma from_json_Ok {A} (d : Value → result JsonFault A) t a : from_json d t = Ok a → ∃ v, d v = Ok a.
Proof. unfold from_json. intros (v & _ & H)%bind_Ok. eauto. Qed.

Lemma from_json_compact {A} depth (d : Value → result JsonFault A) v :
  printable depth v = true → (depth <= 127)%nat → from_json d (json_compact v) = d v.
Proof. intros Hv Hd. unfold from_json. rewrite json_parse_compact by (by apply (printable_mono depth)). done. Qed.

Lemma json_compact_nonempty depth v : printable depth v = true → (depth <= 127)%nat → json_compact v ≠ [].
Proof.
  intros Hv Hd E. assert (json_parse (json_compact v) = Some v) as Hp by (apply json_parse_compact; by apply (printable_mono depth)).
  by rewrite E in Hp.
Qed.

(** ** Members with other names *)

Lemma Forall_forallb {A} (p : A → bool) l : forallb p l = true → Forall (λ x, p x = true) l.
Proof. intros H. apply Forall_forall. intros x Hx%list_elem_of_In. rewrite forallb_forall in H. by apply H. Qed.

Lemma filter_none {A} (P : A → Prop) `{!∀ x, Decision (P x)} l : Forall (λ x, ¬ P x) l → filter P l = [].
Proof. induction 1 as [|x l Hx _ IH]; [done|]. by rewrite filter_cons_False. Qed.
Lemma filter_all {A} (P : A → Prop) `{!∀ x, Decision (P x)} l : Forall P l → filter P l = l.
Proof. induction 1 as [|x l Hx _ IH]; [done|]. by rewrite filter_cons_True, IH. Qed.

(** Proper keys, none of them [name]. *)
Definition keys_apart (name : bytes) (ms : list (bytes * Value)) : bool :=
  forallb (λ kv, is_ok (from_utf8 (fst kv)) && negb (bool_decide (fst kv = name))) ms.

Lemma keys_apart_Forall name ms : keys_apart name ms = true → Forall (λ kv, fst kv ≠ name) ms ∧ Forall (λ kv, is_ok (from_utf8 (fst kv)) = true) ms.
Proof.
  unfold keys_apart. induction ms as [|kv ms IH]; cbn; [split; constructor|].
  intros [[Hu Hk%negb_true_iff%bool_decide_eq_false]%andb_true_iff Hms]%andb_true_iff.
  destruct (IH Hms). split; by constructor.
Qed.

Lemma find_member_head name v ms : keys_apart name ms = true → find_member name ((name, v) :: ms) = Ok (Some v).
Proof.
  intros [Hk _]%keys_apart_Forall. unfold find_member. rewrite filter_cons_True, filter_none by done. done.
Qed.

(** A struct of one field, read from an object with other members. *)
Lemma visit_struct_one name v ms :
  is_ok (from_utf8 name) = true → keys_apart name ms = true →
  visit_struct false [required name] (V_Obj ((name, v) :: ms)) = Ok [Some v].
Proof.
  intros Hn Hms. pose proof (keys_apart_Forall _ _ Hms) as [_ Hu]. unfold visit_struct.
  assert (forallb (λ kv, is_ok (from_utf8 (fst kv)) && (negb false || known [required name] (fst kv))) ((name, v) :: ms) = true) as ->.
  { apply forallb_forall. intros kv. rewrite <-list_elem_of_In. intros Hin. rewrite orb_true_l, andb_true_r.
    apply elem_of_cons in Hin as [->|Hin]; [done|]. rewrite Forall_forall in Hu. by apply Hu. }
  unfold mapM, visit_field. cbn [f_name required]. by rewrite find_member_head.
Qed.

(** ** The laws of the basic codecs *)

Lemma string_laws : CodecLaws 0 string_codec.
Proof.
  split; cbn.
  - done.
  - by intros s ->.
  - intros [] a H; try done. apply map_err_Ok in H. by rewrite (from_utf8_Ok _ _ H) in H |- *.
Qed.

Lemma u_laws max : max <= u64_max → CodecLaws 0 (u_codec max).
Proof.
  intros Hm. split; cbn.
  - intros n Hn. unfold i64_min. lia.
  - intros n Hn. by replace ((0 <=? n) && (n <=? max)) with true by lia.
  - intros [] a H; try done. case_match; simplify_eq. lia.
Qed.

Lemma bool_laws : CodecLaws 0 bool_codec.
Proof. split; [done..|]. intros [] ? ?; done. Qed.

Lemma mapM_de_ser {A} (c : Codec A) l : (∀ a, typed c a → de c (ser c a) = Ok a) → Forall (typed c) l → mapM (de c) (ser c <$> l) = Ok l.
Proof. intros Hc. induction 1 as [|a l Ha _ IH]; [done|]. cbn. rewrite Hc by done. cbn. by rewrite IH. Qed.

Lemma mapM_typed {A} (c : Codec A) vs l : (∀ v a, de c v = Ok a → typed c a) → mapM (de c) vs = Ok l → Forall (typed c) l.
Proof.
  intros Hc. revert l. induction vs as [|v vs IH]; cbn; intros l H; inv_ok; [constructor|].
  constructor; eauto.
Qed.

Lemma vec_laws {A} depth (c : Codec A) : CodecLaws depth c → CodecLaws (S depth) (vec_codec c).
Proof.
  intros [Hp Hr Ht]. split; cbn.
  - intros l Hl. rewrite forallb_forall. intros v. rewrite <-list_elem_of_In, list_elem_of_fmap. intros (a & -> & Ha).
    apply Hp. by eapply Forall_forall.
  - intros l Hl. by apply mapM_de_ser.
  - intros [] l H; try done. by eapply mapM_typed.
Qed.

Lemma option_laws {A} depth (c : Codec A) : (∀ a, ser c a ≠ V_Null) → CodecLaws depth c → CodecLaws depth (option_codec c).
Proof.
  intros Hn [Hp Hr Ht]. split; cbn.
  - intros [a|] H; [by apply Hp|done].
  - intros [a|] H; [|done]. pose proof (Hn a). rewrite (Hr a H). by destruct (ser c a).
  - intros v [a|] H; [|done]. destruct v; inv_ok; try done; by eapply Ht.
Qed.

Lemma identity_laws : CodecLaws 0 identity_codec.
Proof.
  split; cbn.
  - done.
  - intros i Hi. rewrite Identity_ok_utf8 by done. cbn. by rewrite Identity_parse_ok.
  - intros v i H. inv_ok. match goal with H : Identity_parse _ = _ |- _ => apply Identity_parse_Ok in H as [-> ?] end. done.
Qed.

Lemma note_laws : CodecLaws 0 note_codec.
Proof.
  split; cbn [ser de typed note_codec].
  - done.
  - intros n Hn. pose proof Hn as (_ & Hu & _). cbn [de string_codec]. rewrite Hu. cbn.
    assert (Note_parse (note_str n) = Ok n) as ->; [|done]. apply Note_parse_spec; [done|]. by destruct n.
  - intros v n H. apply bind_Ok in H as (s & Hs & H%map_err_Ok).
    apply (de_typed _ _ string_laws) in Hs. by apply (Note_parse_spec _ _ Hs) in H as [-> ?].
Qed.

Lemma u8_values (bs : bytes) : Forall (typed u8_codec) (u8 <$> bs).
Proof. apply Forall_fmap, Forall_forall. intros b _. cbn. pose proof (u8_range b). lia. Qed.

Lemma as_u8_values (bs : bytes) : as_u8 <$> (u8 <$> bs) = bs.
Proof. rewrite <-list_fmap_compose. rewrite <-(list_fmap_id bs) at 2. apply list_fmap_ext. intros _ b _. apply as_u8_u8. Qed.

Lemma psk_laws : CodecLaws 1 psk_codec.
Proof.
  assert (CodecLaws 1 (vec_codec u8_codec)) as [Hp Hr Ht] by (apply vec_laws, u_laws; unfold u64_max; lia).
  split; cbn [ser de typed psk_codec].
  - intros p _. apply Hp. apply u8_values.
  - intros p Hk. rewrite Hr by apply u8_values. cbn [mbind result_bind].
    replace (len (u8 <$> psk_bytes p)) with (len (psk_bytes p)) by (unfold len; by rewrite length_fmap).
    unfold Psk_ok in Hk. rewrite Hk, Z.eqb_refl, as_u8_values. by destruct p.
  - intros v p H. inv_ok. case_match eqn:E; [|done]. inv_ok. unfold Psk_ok. cbn. unfold len in *. rewrite length_fmap. lia.
Qed.

Lemma provider_laws : CodecLaws 0 provider_codec.
Proof. split; [done|by intros []|done]. Qed.

(** ** [clients.json] *)

(** [time::serde::rfc3339]: what is formatted is text and parses back. *)
Class Rfc3339 := { rfc3339_format : Z → bytes; rfc3339_parse : bytes → option Z }.
Class Rfc3339Laws `{!Rfc3339} : Prop := {
  rfc3339_roundtrip t : rfc3339_parse (rfc3339_format t) = Some t;
  rfc3339_utf8 t : from_utf8 (rfc3339_format t) = Ok (rfc3339_format t);
}.

Section clients.
Context {RF : Rfc3339}.

Definition time_codec : Codec Z := MkCodec (λ t, V_Str (rfc3339_format t))
  (λ v, s ← de string_codec v; ok_or Json_Data (rfc3339_parse s)) (λ _, True).

Definition ClientEntry_fields : list Field := [required (B "name"); required (B "providers"); required (B "enrolled_at"); optional (B "note")].

Definition entry_codec : Codec ClientEntry := MkCodec
  (λ e, V_Obj [(B "name", V_Str (ce_name e)); (B "providers", ser (vec_codec provider_codec) (ce_providers e));
               (B "enrolled_at", ser time_codec (ce_enrolled_at e)); (B "note", ser (option_codec note_codec) (ce_note e))])
  (λ v, os ← visit_struct true ClientEntry_fields v;
        match os with
        | [n; p; t; o] =>
            name ← de_req string_codec n; providers ← de_req (vec_codec provider_codec) p;
            enrolled_at ← de_req time_codec t; note ← de_opt note_codec o;
            Ok (MkClientEntry name providers enrolled_at note)
        | _ => refuse
        end)
  (λ e, from_utf8 (ce_name e) = Ok (ce_name e) ∧ match ce_note e with Some n => Note_ok n | None => True end).

Definition file_codec : Codec ClientsFile := MkCodec
  (λ f, V_Obj [(B "clients", ser (vec_codec entry_codec) (cf_clients f))])
  (λ v, os ← visit_struct true [required (B "clients")] v;
        match os with
        | [o] => clients ← de_req (vec_codec entry_codec) o; Ok (MkClientsFile clients)
        | _ => refuse
        end)
  (λ f, Forall (typed entry_codec) (cf_clients f)).

Context {RL : Rfc3339Laws}.

Lemma time_laws : CodecLaws 0 time_codec.
Proof.
  split; cbn; [done| |done]. intros t _. rewrite rfc3339_utf8. cbn. by rewrite rfc3339_roundtrip.
Qed.

Lemma note_not_null n : ser note_codec n ≠ V_Null.
Proof. done. Qed.

Lemma visit_entry a b c d :
  visit_struct true ClientEntry_fields (V_Obj [(B "name", a); (B "providers", b); (B "enrolled_at", c); (B "note", d)]) =
  Ok [Some a; Some b; Some c; Some d].
Proof. by vm_compute. Qed.

Lemma entry_laws : CodecLaws 2 entry_codec.
Proof.
  pose proof (vec_laws 0 provider_codec provider_laws) as Hp.
  pose proof (option_laws 0 note_codec note_not_null note_laws) as Hn.
  split.
  - intros e [_ Ho]. cbn [ser entry_codec printable forallb snd].
    rewrite (ser_printable _ _ Hp (ce_providers e)) by (by apply Forall_forall).
    rewrite (printable_mono 0 1 _ ltac:(lia) (ser_printable _ _ time_laws (ce_enrolled_at e) I)).
    by rewrite (printable_mono 0 1 _ ltac:(lia) (ser_printable _ _ Hn (ce_note e) Ho)).
  - intros e [Hu Ho]. cbn [de ser entry_codec]. rewrite visit_entry. cbn [mbind result_bind de_req].
    rewrite (de_ser _ _ string_laws (ce_name e) Hu : de string_codec (V_Str _) = _). cbn [mbind result_bind].
    rewrite (de_ser _ _ Hp) by (by apply Forall_forall). cbn [mbind result_bind].
    rewrite (de_ser _ _ time_laws) by done. cbn [mbind result_bind de_opt]. rewrite (de_ser _ _ Hn) by done. by destruct e.
  - intros v e H. cbn [de entry_codec] in H. apply bind_Ok in H as (os & _ & H).
    destruct os as [|n [|p [|t [|o []]]]]; try done.
    apply bind_Ok in H as (name & Hname & H). apply bind_Ok in H as (ps & _ & H). apply bind_Ok in H as (t' & _ & H).
    apply bind_Ok in H as (note & Hnote & [= <-]). cbn [typed entry_codec ce_name ce_note]. split.
    + destruct n; [|done]. by apply (de_typed _ _ string_laws) in Hname.
    + destruct o as [v'|]; [|by injection Hnote as <-]. by apply (de_typed _ _ Hn) in Hnote.
Qed.

Lemma visit_file a : visit_struct true [required (B "clients")] (V_Obj [(B "clients", a)]) = Ok [Some a].
Proof. by vm_compute. Qed.

Lemma file_laws : CodecLaws 4 file_codec.
Proof.
  pose proof (vec_laws 2 entry_codec entry_laws) as Hv. split.
  - intros f Hf. cbn [ser file_codec printable forallb snd]. by rewrite (ser_printable _ _ Hv).
  - intros f Hf. cbn [de ser file_codec]. rewrite visit_file. cbn [mbind result_bind de_req]. rewrite (de_ser _ _ Hv) by done. by destruct f.
  - intros v f H. cbn [de file_codec] in H. apply bind_Ok in H as (os & _ & H). destruct os as [|o []]; try done.
    apply bind_Ok in H as (cs & Hcs & [= <-]). destruct o; [|done]. by apply (de_typed _ _ Hv) in Hcs.
Qed.

#[local] Instance file_typed_dec f : Decision (typed file_codec f).
Proof. cbn [typed file_codec entry_codec]. apply Forall_dec. intros e. destruct (ce_note e); apply _. Defined.

(** [serde_json::from_str], [serde_json::to_vec_pretty]; a value outside the
    Rust type has no text. *)
Definition formats_serde {E} (toml : bytes → result E Config) : FileFormats := {|
  TomlError := E;
  JsonError := JsonFault;
  toml_from_str := toml;
  json_from_str := from_json (de file_codec);
  json_to_vec_pretty f := if decide (typed file_codec f) then Ok (json_pretty (ser file_codec f)) else Err Json_Data;
|}.

Lemma entry_strings e : typed entry_codec e → strings utf8 (ser entry_codec e).
Proof.
  assert (∀ t, Forall (λ b, u8 b < 128) (B t) → utf8 (B t)) as Hk by (intros t; apply utf8_ascii).
  intros [Hu Ho]. cbn. split_and!; try (apply utf8_ascii; by repeat constructor); try done.
  - by apply utf8_from_utf8.
  - induction (ce_providers e) as [|[] ps IH]; cbn; [done|]. split; [|done]. apply utf8_ascii. by repeat constructor.
  - apply utf8_from_utf8, rfc3339_utf8.
  - destruct (ce_note e) as [n|]; [|done]. destruct Ho as (_ & Hn & _). by apply utf8_from_utf8.
Qed.

Lemma formats_serde_laws {E} (toml : bytes → result E Config) : @FileFormatLaws (formats_serde toml).
Proof.
  split; intros f b; cbn [json_to_vec_pretty json_from_str formats_serde]; case_decide as Hf; try done; intros [= <-].
  - unfold from_json. rewrite json_parse_pretty.
    + cbn [ok_or mbind result_bind]. by apply (de_ser _ _ file_laws).
    + apply (printable_mono 4); [lia|]. by apply (ser_printable _ _ file_laws).
  - apply utf8_from_utf8, (json_pretty_utf8 4); [by apply (ser_printable _ _ file_laws)|].
    cbn. split; [|done]. split; [apply utf8_ascii; by repeat constructor|].
    cbn in Hf. induction Hf as [|e es He _ IH]; cbn; [done|]. split; [by apply entry_strings|done].
Qed.

End clients.

(** A text form of every instant that satisfies the laws. *)
Definition demo_rfc3339 : Rfc3339 := {|
  rfc3339_format t := pos_digits (encode t);
  rfc3339_parse b := digits_pos b ≫= decode;
|}.

Lemma demo_rfc3339_laws : @Rfc3339Laws demo_rfc3339.
Proof.
  split; intros t; cbn [rfc3339_format rfc3339_parse demo_rfc3339].
  - rewrite digits_pos_digits. apply decode_encode.
  - apply from_utf8_ascii, pos_digits_ascii.
Qed.
