(* ===== verification/ConfigWire.v ===== *)
(** * [config.toml]: the serde derives of [config.rs]

    Every section as a derived struct over the tree the TOML reader gives
    ([Value]): required, optional and defaulted keys, unknown keys denied, the
    enums in snake case, the level through [FromStr].  [Config_de] is
    [toml::from_str::<Config>] after the syntax; [formats_toml] puts it in place
    of the parameter of [FileFormats]. *)

From S2P Require Import Prelude AtomicFs Config Json Serde.

(** ** Scalars *)

(** [SocketAddr::from_str], and the durations of the humantime crate, in
    nanoseconds. *)
Class ConfigText := { socket_addr : bytes → bool; humantime : bytes → option Z }.

(** [PathBuf::from], by its components: the directory and the last one. *)
Definition slashed (abs : bool) (cs : list bytes) : bytes := (if abs then [x2f] else []) ++ join [x2f] cs.
Definition path_of (s : bytes) : Path :=
  let abs := match s with x2f :: _ => true | _ => false end in
  match reverse (filter (λ c, c ≠ [] ∧ c ≠ B ".") (split_on x2f s)) with
  | [] => MkPath None None
  | last :: rest => MkPath (Some (slashed abs (reverse rest))) (if decide (last = B "..") then None else Some last)
  end.

Definition de_path (v : Value) : result JsonFault Path := s ← de string_codec v; Ok (path_of s).

Definition ascii_lower (b : byte) : byte := if in_range 65 90 b then as_u8 (u8 b + 32) else b.

(** [Level::from_str]: a number from 1 to 5, or a name in any case. *)
Definition Level_from_str (s : bytes) : option Level :=
  let digits := match s with x2b :: t => t | _ => s end in
  let num := if forallb is_digit digits && negb (bool_decide (digits = [])) then dec_value digits else 0 in
  let name := ascii_lower <$> s in
  if (num =? 1) || bool_decide (name = B "error") then Some Error
  else if (num =? 2) || bool_decide (name = B "warn") then Some Warn
  else if (num =? 3) || bool_decide (name = B "info") then Some Info
  else if (num =? 4) || bool_decide (name = B "debug") then Some Debug
  else if (num =? 5) || bool_decide (name = B "trace") then Some Trace
  else None.

Definition deserialize_tracing_level (v : Value) : result JsonFault Level :=
  s ← de string_codec v; ok_or Json_Data (Level_from_str s).

(** A unit variant by its snake-case name. *)
Definition de_enum {A} (names : list (bytes * A)) (v : Value) : result JsonFault A :=
  s ← unit_variant v; ok_or Json_Data (snd <$> head (filter (λ kv, fst kv = s) names)).

Definition SandboxMode_de : Value → result JsonFault SandboxMode :=
  de_enum [(B "required", Sandbox_Required); (B "best_effort", Sandbox_BestEffort); (B "off", Sandbox_Off)].
Definition MlockMode_de : Value → result JsonFault MlockMode :=
  de_enum [(B "required", Mlock_Required); (B "best_effort", Mlock_BestEffort); (B "off", Mlock_Off)].
Definition AppKeyBackend_de : Value → result JsonFault AppKeyBackend := de_enum [(B "tpm", Tpm); (B "file", File)].

(** Present, or its default. *)
Definition field {A} (d : Value → result JsonFault A) (o : option Value) : result JsonFault A :=
  match o with Some v => d v | None => refuse end.
Definition field_or {A} (a : A) (d : Value → result JsonFault A) (o : option Value) : result JsonFault A :=
  match o with Some v => d v | None => Ok a end.
Definition opt {A} (d : Value → result JsonFault A) (v : Value) : result JsonFault (option A) :=
  match v with V_Null => Ok None | v => a ← d v; Ok (Some a) end.

(** ** The sections *)

Section sections.
Context {CT : ConfigText}.

Definition de_socket_addr (v : Value) : result JsonFault bytes :=
  s ← de string_codec v; if socket_addr s then Ok s else refuse.
Definition de_duration (v : Value) : result JsonFault Z := s ← de string_codec v; ok_or Json_Data (humantime s).

Definition ListenConfig_de (v : Value) : result JsonFault ListenConfig :=
  os ← visit_struct true [required (B "bind"); required (B "psk_file"); required (B "static_key_file")] v;
  match os with
  | [b; p; k] =>
      bind ← field de_socket_addr b; psk_file ← field de_path p; static_key_file ← field de_path k;
      Ok (MkListenConfig bind psk_file static_key_file)
  | _ => refuse
  end.

Definition AdminConfig_de (v : Value) : result JsonFault AdminConfig :=
  os ← visit_struct true [required (B "socket_path")] v;
  match os with [p] => socket_path ← field de_path p; Ok (MkAdminConfig socket_path) | _ => refuse end.

Definition ClientsConfig_de (v : Value) : result JsonFault ClientsConfig :=
  os ← visit_struct true [required (B "file")] v;
  match os with [p] => file ← field de_path p; Ok (MkClientsConfig file) | _ => refuse end.

Definition LoggingConfig_de (v : Value) : result JsonFault LoggingConfig :=
  os ← visit_struct true [required (B "level")] v;
  match os with [l] => level ← field deserialize_tracing_level l; Ok (MkLoggingConfig level) | _ => refuse end.

Definition SecurityConfig_default : SecurityConfig := MkSecurityConfig SandboxMode_default [] MlockMode_default.

Definition SecurityConfig_de (v : Value) : result JsonFault SecurityConfig :=
  os ← visit_struct true [defaulted (B "sandbox"); defaulted (B "extra_read_dirs"); defaulted (B "mlock")] v;
  match os with
  | [s; e; m] =>
      sandbox ← field_or SandboxMode_default SandboxMode_de s;
      extra_read_dirs ← field_or [] (de (vec_codec string_codec)) e;
      mlock ← field_or MlockMode_default MlockMode_de m;
      Ok (MkSecurityConfig sandbox extra_read_dirs mlock)
  | _ => refuse
  end.

Definition RuntimeConfig_default : RuntimeConfig := MkRuntimeConfig None.

Definition RuntimeConfig_de (v : Value) : result JsonFault RuntimeConfig :=
  os ← visit_struct true [defaulted (B "pidfile")] v;
  match os with [p] => pidfile ← field_or None (opt de_path) p; Ok (MkRuntimeConfig pidfile) | _ => refuse end.

Definition ProviderGithubTpm_de (v : Value) : result JsonFault ProviderGithubTpm :=
  os ← visit_struct true [defaulted (B "device"); required (B "persistent_handle")] v;
  match os with
  | [d; h] =>
      device ← field_or default_tpm_device (de string_codec) d;
      persistent_handle ← field (de (u_codec 4294967295)) h;
      Ok (MkProviderGithubTpm device persistent_handle)
  | _ => refuse
  end.

Definition ProviderGithub_fields : list Field :=
  [required (B "host"); required (B "api_base"); required (B "client_id"); required (B "installation_id");
   required (B "app_key_backend"); defaulted (B "private_key_path"); defaulted (B "tpm"); required (B "selfcheck_timeout");
   defaulted (B "request_timeout"); defaulted (B "user_agent")].

Definition ProviderGithub_de (v : Value) : result JsonFault ProviderGithub :=
  os ← visit_struct true ProviderGithub_fields v;
  match os with
  | [h; a; c; i; b; p; t; s; r; u] =>
      host ← field (de string_codec) h; api_base ← field (de string_codec) a; client_id ← field (de string_codec) c;
      installation_id ← field (de u64_codec) i; app_key_backend ← field AppKeyBackend_de b;
      private_key_path ← field_or None (opt (de string_codec)) p; tpm ← field_or None (opt ProviderGithubTpm_de) t;
      selfcheck_timeout ← field de_duration s; request_timeout ← field_or default_request_timeout de_duration r;
      user_agent ← field_or default_user_agent (de string_codec) u;
      Ok (MkProviderGithub host api_base client_id installation_id app_key_backend private_key_path tpm selfcheck_timeout
            request_timeout user_agent)
  | _ => refuse
  end.

Definition Providers_de (v : Value) : result JsonFault (option ProviderGithub) :=
  os ← visit_struct true [optional (B "github")] v;
  match os with [g] => field_or None (opt ProviderGithub_de) g | _ => refuse end.

Definition Config_fields : list Field :=
  [required (B "listen"); required (B "admin"); required (B "clients"); required (B "logging"); defaulted (B "security");
   defaulted (B "runtime"); required (B "provider")].

Definition Config_de (v : Value) : result JsonFault Config :=
  os ← visit_struct true Config_fields v;
  match os with
  | [l; a; c; g; s; r; p] =>
      listen ← field ListenConfig_de l; admin ← field AdminConfig_de a; clients ← field ClientsConfig_de c;
      logging ← field LoggingConfig_de g; security ← field_or SecurityConfig_default SecurityConfig_de s;
      runtime ← field_or RuntimeConfig_default RuntimeConfig_de r; provider ← field Providers_de p;
      Ok (MkConfig listen admin clients logging security runtime provider)
  | _ => refuse
  end.

(** The formats with [clients.json] as it is and [parse] for the TOML syntax. *)
Definition formats_toml {RF : Rfc3339} (parse : bytes → option Value) : FileFormats :=
  formats_serde (λ text, v ← ok_or Json_Syntax (parse text); Config_de v).

(** *** What an accepted configuration holds *)

Definition u32_max : Z := 4294967295.

Record github_ok (gh : ProviderGithub) : Prop := {
  gh_client_id_utf8 : from_utf8 (client_id gh) = Ok (client_id gh);
  gh_installation_u64 : 0 <= installation_id gh <= u64_max;
  gh_handle_u32 t : tpm gh = Some t → 0 <= persistent_handle t <= u32_max;
}.

Lemma opt_Some {A} (d : Value → result JsonFault A) v a : opt d v = Ok (Some a) → d v = Ok a.
Proof. unfold opt. destruct v; intros H; inv_ok; done. Qed.

(** Split the binds of a decoder. *)
Ltac de_inv H :=
  repeat match type of H with
  | _ ≫= _ = Ok _ => let x := fresh "x" in let Hx := fresh "Hx" in apply bind_Ok in H as (x & Hx & H)
  | match ?os with _ => _ end = Ok _ => destruct os as [|? ?]; try done
  end.

Lemma ProviderGithub_de_ok v gh : ProviderGithub_de v = Ok gh → github_ok gh.
Proof.
  intros H. unfold ProviderGithub_de in H. apply bind_Ok in H as (os & _ & H).
  do 10 (destruct os as [|? os]; [done|]). destruct os; [|done].
  de_inv H. injection H as <-. split; cbn [client_id installation_id tpm].
  - destruct o1; [|done]. by apply (de_typed _ _ string_laws) in Hx1.
  - destruct o2; [|done]. by apply (de_typed _ _ (u_laws u64_max (Z.le_refl _))) in Hx2.
  - intros t ->. destruct o5; [|done]. apply opt_Some in Hx5. unfold ProviderGithubTpm_de in Hx5.
    apply bind_Ok in Hx5 as (os & _ & Ht). destruct os as [|dev [|handle []]]; try done.
    apply bind_Ok in Ht as (dev' & _ & Ht). apply bind_Ok in Ht as (h & Hh & [= <-]). destruct handle; [|done].
    by apply (de_typed _ _ (u_laws 4294967295 ltac:(unfold u64_max; lia))) in Hh.
Qed.

(** Whatever the document, a configuration that is accepted has an issuer that
    is text, so that the claims signed for it are, and numbers of their width. *)
Lemma Config_de_ok v cfg gh : Config_de v = Ok cfg → cfg_github cfg = Some gh → github_ok gh.
Proof.
  intros H Hg. unfold Config_de in H. apply bind_Ok in H as (os & _ & H).
  do 7 (destruct os as [|? os]; [done|]). destruct os; [|done].
  de_inv H. injection H as <-. cbn in Hg. subst. destruct o5; [|done]. cbn in Hx5. unfold Providers_de in Hx5.
  apply bind_Ok in Hx5 as (os & _ & Hp). destruct os as [|g []]; try done. destruct g; [|done].
  by eapply ProviderGithub_de_ok, opt_Some.
Qed.

End sections.
