(* ===== verification/State.v ===== *)
(** * The daemon's client state: [SharedState] of [src/daemon.rs]

    Enrolment and revocation with their two file writes, the loading of the
    state files at start-up, and what readers of the tables can observe.

    [enroll_client] and [revoke_client] hold the mutation lock throughout, so
    they are serialised; they suspend only at the two [atomic_write]s.  Each
    write either runs to its end in some environment or the task is dropped
    in the middle of it ([Await]).  Both functions return the memory the
    readers see at each suspension, every state of the disk, and how they
    ended. *)

From S2P Require Import Prelude Identity Psk AtomicFs Config.

Record ResolvedClient := MkResolvedClient {
  rc_providers : list ProviderKind;
  rc_enrolled_at : Z;
  rc_note : option Note;
}.

Section state.
Context {HX : HexCodec} {FF : FileFormats}.

(** Iteration order of the two hash maps: unspecified. *)
Class HashOrder := {
  psk_iter : gmap Identity Psk → list (Identity * Psk);
  client_iter : gmap Identity ResolvedClient → list (Identity * ResolvedClient);
  psk_iter_perm m : psk_iter m ≡ₚ map_to_list m;
  client_iter_perm m : client_iter m ≡ₚ map_to_list m;
}.

(** ** Errors *)

(** Sources that only matter for the rendered message are left out. *)
Inductive DaemonError :=
| D_LoadClients (path : Path) (e : LoadError)
| D_LoadPsks (path : Path) (e : PskStoreError)
| D_BrokerKeyRead (path : Path) (e : IoError)
| D_BrokerKeyParse (path : Path) (e : FromHexError)
| D_Github
| D_PskRead (path : Path) (e : IoError)
| D_Accept (e : IoError)
| D_EnvFdTake (reason : bytes)
| D_DuplicateClientName (id : Identity)
| D_InvalidClientName (name : bytes) (e : IdentityError)
| D_NoParentDir (what : bytes)
| D_Sandbox
| D_CurrentExe
| D_SigningBackend
| D_Cancelled.

Inductive StateMutationError :=
| SM_ClientAlreadyEnrolled (client : Identity)
| SM_UnknownClient (client : bytes)
| SM_WritePsks (e : IoError)
| SM_WriteClients (e : IoError)
| SM_EncodeClients (e : JsonError).

(** ** Loading *)

Definition load_psk_store (path : Path) (content : result IoError bytes) : result DaemonError PskStore :=
  match content with
  | Err Io_NotFound => Ok PskStore_new
  | Err e => Err (D_PskRead path e)
  | Ok b =>
      text ← map_err (λ n, D_LoadPsks path (PskUtf8 n)) (from_utf8 b);
      map_err (D_LoadPsks path) (PskStore_parse text)
  end.

Definition load_broker_key (path : Path) (content : result IoError bytes) :
    result DaemonError BrokerPrivateKey :=
  b ← map_err (D_BrokerKeyRead path) content;
  map_err (D_BrokerKeyParse path) (BrokerPrivateKey_from_hex (trim_ascii b)).

(** [TryFrom<ClientsFile> for HashMap<Identity, ResolvedClient>] *)
Fixpoint clients_try_from_loop (entries : list ClientEntry) (table : gmap Identity ResolvedClient) :
    result DaemonError (gmap Identity ResolvedClient) :=
  match entries with
  | [] => Ok table
  | entry :: entries' =>
      key ← map_err (D_InvalidClientName (ce_name entry)) (Identity_parse (ce_name entry));
      let value := MkResolvedClient (ce_providers entry) (ce_enrolled_at entry) (ce_note entry) in
      match table !! key with
      | Some _ => Err (D_DuplicateClientName key)
      | None => clients_try_from_loop entries' (<[key := value]> table)
      end
  end.

Definition clients_try_from (file : ClientsFile) : result DaemonError (gmap Identity ResolvedClient) :=
  clients_try_from_loop (cf_clients file) ∅.

Definition render_entry (kv : Identity * ResolvedClient) : ClientEntry :=
  MkClientEntry (as_str kv.1) (rc_providers kv.2) (rc_enrolled_at kv.2) (rc_note kv.2).

Context {HO : HashOrder}.

Definition render_clients_doc (clients : gmap Identity ResolvedClient) (skip : option Identity) :
    result JsonError bytes :=
  let entries := render_entry <$> filter (λ kv, Some kv.1 ≠ skip) (client_iter clients) in
  json_to_vec_pretty (MkClientsFile entries).

(** ** The state *)

Record Mem := MkMem {
  m_psks : PskStore;
  m_clients : gmap Identity ResolvedClient;
}.

Context (psk_file_path clients_file_path : Path).

(** [compio::fs::read] *)
Definition fs_read (path : Path) (fs : Fs) : result IoError bytes :=
  match target path with
  | Some key => ok_or Io_NotFound (fs !! key)
  | None => Err Io_NotFound
  end.

(** The two tables of [Acquired::acquire]. *)
Definition acquire_tables (fs : Fs) : result DaemonError Mem :=
  clients_file ← map_err (D_LoadClients clients_file_path)
                   (load_clients_file (fs_read clients_file_path fs));
  clients ← clients_try_from clients_file;
  psks ← load_psk_store psk_file_path (fs_read psk_file_path fs);
  Ok (MkMem psks clients).

(** One [atomic_write(..).await]: it runs to its end, or the task is dropped
    after [n] of its file system actions. *)
Inductive Await :=
| Run (env : FsEnv)
| Dropped (env : FsEnv) (n : nat).

(** The states of the disk and the result, [None] when dropped. *)
Definition await_write (w : Await) (path : Path) (content : bytes) (fs : Fs) :
    list Fs * option (result IoError ()) :=
  match w with
  | Run env => let '(fss, r) := atomic_write env path content fs in (fss, Some r)
  | Dropped env n => (take (S n) (atomic_write env path content fs).1, None)
  end.

Record Outcome := MkOutcome {
  o_mem : Mem;
  o_disk : list Fs;      (* every state of the disk, oldest first *)
  o_visible : list Mem;  (* the tables at each suspension point *)
  o_result : option (result StateMutationError ());
}.

(** [Drop for Rollback] *)
Definition rollback (client : Identity) (m : Mem) : Mem :=
  MkMem (PskStore_remove (m_psks m) client).1 (delete client (m_clients m)).

Definition last_fs (fs : Fs) (fss : list Fs) : Fs := default fs (last fss).

(** The second half of [enroll_client], after the PSK file was written. *)
Definition enroll_write_clients (w2 : Await) (client : Identity) (m1 : Mem) (fs1 : Fs) (fss1 : list Fs) : Outcome :=
  match render_clients_doc (m_clients m1) None with
  | Err e => MkOutcome (rollback client m1) fss1 [m1] (Some (Err (SM_EncodeClients e)))
  | Ok clients_bytes =>
      let '(fss2, r2) := await_write w2 clients_file_path clients_bytes fs1 in
      match r2 with
      | None => MkOutcome (rollback client m1) (fss1 ++ fss2) [m1; m1] None
      | Some (Err e) => MkOutcome (rollback client m1) (fss1 ++ fss2) [m1; m1] (Some (Err (SM_WriteClients e)))
      | Some (Ok _) => MkOutcome m1 (fss1 ++ fss2) [m1; m1] (Some (Ok ()))
      end
  end.

Definition enroll_client (now : Z) (w1 w2 : Await) (client : Identity) (psk : Psk)
    (provider : ProviderKind) (note : option Note) (m : Mem) (fs : Fs) : Outcome :=
  if decide (is_Some (m_clients m !! client)) then
    MkOutcome m [fs] [] (Some (Err (SM_ClientAlreadyEnrolled client)))
  else
    let m1 := MkMem (PskStore_insert (m_psks m) client psk)
                    (<[client := MkResolvedClient [provider] now note]> (m_clients m)) in
    let psk_content := PskStore_render (psk_iter (entries (m_psks m1))) in
    let '(fss1, r1) := await_write w1 psk_file_path psk_content fs in
    match r1 with
    | None => MkOutcome (rollback client m1) fss1 [m1] None
    | Some (Err e) => MkOutcome (rollback client m1) fss1 [m1] (Some (Err (SM_WritePsks e)))
    | Some (Ok _) => enroll_write_clients w2 client m1 (last_fs fs fss1) fss1
    end.

(** The second half of [revoke_client], after clients.json was written. *)
Definition revoke_write_psks (w2 : Await) (client : Identity) (m : Mem) (fs1 : Fs) (fss1 : list Fs) : Outcome :=
  let m1 := MkMem (PskStore_remove (m_psks m) client).1 (m_clients m) in
  let psk_content := PskStore_render (psk_iter (entries (m_psks m1))) in
  let '(fss2, r2) := await_write w2 psk_file_path psk_content fs1 in
  match r2 with
  | None => MkOutcome m1 (fss1 ++ fss2) [m; m1] None
  | Some (Err e) => MkOutcome m1 (fss1 ++ fss2) [m; m1] (Some (Err (SM_WritePsks e)))
  | Some (Ok _) =>
      MkOutcome (MkMem (m_psks m1) (delete client (m_clients m1))) (fss1 ++ fss2) [m; m1] (Some (Ok ()))
  end.

Definition revoke_client (w1 w2 : Await) (client : Identity) (m : Mem) (fs : Fs) : Outcome :=
  if decide (m_clients m !! client = None) then
    MkOutcome m [fs] [] (Some (Err (SM_UnknownClient (as_str client))))
  else
    match render_clients_doc (m_clients m) (Some client) with
    | Err e => MkOutcome m [fs] [] (Some (Err (SM_EncodeClients e)))
    | Ok clients_bytes =>
        let '(fss1, r1) := await_write w1 clients_file_path clients_bytes fs in
        match r1 with
        | None => MkOutcome m fss1 [m] None
        | Some (Err e) => MkOutcome m fss1 [m] (Some (Err (SM_WriteClients e)))
        | Some (Ok _) => revoke_write_psks w2 client m (last_fs fs fss1) fss1
        end
    end.

(** ** What the tables mean

    The authorisation table: the identities a connection is accepted for and
    their PSKs ([Step::NeedPsk] arm of [handle_connection]: PSK known and
    metadata present). *)
Definition auth (m : Mem) : gmap Identity Psk :=
  filter (λ kv, is_Some (m_clients m !! kv.1)) (entries (m_psks m)).

Definition ended_ok (o : Outcome) : bool :=
  match o_result o with Some (Ok _) => true | _ => false end.

(** Type invariants of the tables: keys are [Identity] values, PSKs [Psk]s. *)
Definition mem_ok (m : Mem) : Prop :=
  PskStore_ok (m_psks m) ∧ map_Forall (λ id _, Identity_ok id) (m_clients m).

Lemma auth_lookup m id p :
  auth m !! id = Some p ↔ entries (m_psks m) !! id = Some p ∧ is_Some (m_clients m !! id).
Proof. unfold auth. by rewrite map_lookup_filter_Some. Qed.

Lemma map_eq_iff {K V} `{Countable K} (m1 m2 : gmap K V) :
  m1 = m2 ↔ ∀ k v, m1 !! k = Some v ↔ m2 !! k = Some v.
Proof.
  split; [by intros ->|]. intros Heq. apply map_eq. intros k. apply option_eq. apply Heq.
Qed.

Lemma auth_rollback client psk c m :
  m_clients m !! client = None →
  auth (rollback client (MkMem (PskStore_insert (m_psks m) client psk) (<[client := c]> (m_clients m)))) = auth m.
Proof.
  intros Hc. apply map_eq_iff. intros k v. rewrite !auth_lookup. cbn.
  rewrite delete_insert_eq, delete_insert_id by done.
  destruct (decide (k = client)) as [->|Hk].
  - rewrite lookup_delete_eq, Hc. split; [naive_solver|]. intros [_ [? ?]]. done.
  - by rewrite lookup_delete_ne by done.
Qed.

Lemma auth_enrolled client psk c m :
  auth (MkMem (PskStore_insert (m_psks m) client psk) (<[client := c]> (m_clients m))) = <[client := psk]> (auth m).
Proof.
  apply map_eq_iff. intros k v. rewrite auth_lookup, lookup_insert_Some, auth_lookup. cbn.
  destruct (decide (client = k)) as [->|Hk].
  - rewrite !lookup_insert_eq. naive_solver.
  - rewrite !lookup_insert_ne by done. naive_solver.
Qed.

Lemma auth_revoked client m cs :
  (∀ k, k ≠ client → cs !! k = m_clients m !! k) →
  auth (MkMem (PskStore_remove (m_psks m) client).1 cs) = delete client (auth m).
Proof.
  intros Hcs. apply map_eq_iff. intros k v. rewrite auth_lookup, lookup_delete_Some, auth_lookup. cbn.
  destruct (decide (client = k)) as [->|Hk].
  - rewrite lookup_delete_eq. naive_solver.
  - rewrite lookup_delete_ne, Hcs by done. naive_solver.
Qed.

(** How an enrolment can end. *)
Lemma enroll_client_cases now w1 w2 client psk provider note m fs :
  let o := enroll_client now w1 w2 client psk provider note m fs in
  let m1 := MkMem (PskStore_insert (m_psks m) client psk)
                  (<[client := MkResolvedClient [provider] now note]> (m_clients m)) in
  (is_Some (m_clients m !! client) ∧
     o = MkOutcome m [fs] [] (Some (Err (SM_ClientAlreadyEnrolled client)))) ∨
  (m_clients m !! client = None ∧ Forall (eq m1) (o_visible o) ∧
     ((ended_ok o = true ∧ o_mem o = m1) ∨ (ended_ok o = false ∧ o_mem o = rollback client m1))).
Proof.
  cbn zeta. unfold enroll_client. case_decide as Hc; [by left|]. right.
  apply eq_None_not_Some in Hc. split; [done|].
  destruct (await_write w1 _ _ fs) as [fss1 [[[]|e]|]]; cbn; auto using Forall_cons, Forall_nil.
  unfold enroll_write_clients. destruct (render_clients_doc _ None) as [b|e]; cbn;
    auto using Forall_cons, Forall_nil.
  destruct (await_write w2 _ b _) as [fss2 [[[]|e]|]]; cbn; auto 6 using Forall_cons, Forall_nil.
Qed.

(** How a revocation can end. *)
Lemma revoke_client_cases w1 w2 client m fs :
  let o := revoke_client w1 w2 client m fs in
  let m1 := MkMem (PskStore_remove (m_psks m) client).1 (m_clients m) in
  (m_clients m !! client = None ∧ o = MkOutcome m [fs] [] (Some (Err (SM_UnknownClient (as_str client))))) ∨
  (is_Some (m_clients m !! client) ∧ Forall (λ v, v = m ∨ v = m1) (o_visible o) ∧
     ((ended_ok o = false ∧ o_mem o = m) ∨ (ended_ok o = false ∧ o_mem o = m1) ∨
      (ended_ok o = true ∧ o_mem o = MkMem (m_psks m1) (delete client (m_clients m))))).
Proof.
  cbn zeta. unfold revoke_client. case_decide as Hc; [by left|]. right.
  apply not_eq_None_Some in Hc. split; [done|].
  destruct (render_clients_doc _ (Some client)) as [b|e]; cbn; [|auto using Forall_nil].
  destruct (await_write w1 _ b fs) as [fss1 [[[]|e]|]]; cbn; auto using Forall_cons, Forall_nil.
  unfold revoke_write_psks. destruct (await_write w2 _ _ _) as [fss2 [[[]|e]|]]; cbn;
    auto 8 using Forall_cons, Forall_nil.
Qed.

(** ** What is written loads back *)

Lemma clients_try_from_loop_entries l t :
  NoDup l.*1 → Forall (λ kv, Identity_ok kv.1) l → (∀ k, k ∈ l.*1 → t !! k = None) →
  clients_try_from_loop (render_entry <$> l) t = Ok (list_to_map l ∪ t).
Proof.
  revert t. induction l as [|[k c] l IH]; intros t Hnd Hok Hfr.
  { by rewrite list_to_map_nil, (left_id_L ∅ (∪)). }
  cbn in Hnd. apply NoDup_cons in Hnd as [Hk Hnd]. apply Forall_cons in Hok as [Hid Hok].
  cbn in Hid. cbn [fmap list_fmap clients_try_from_loop]. cbn [render_entry ce_name fst].
  rewrite (Identity_parse_ok k Hid). cbn [map_err mbind result_bind]. cbn zeta.
  rewrite (Hfr k) by set_solver. rewrite IH; [|done|done|].
  - destruct c. cbn. f_equal. rewrite <-insert_union_l, insert_union_r; [done|].
    by apply not_elem_of_list_to_map.
  - intros k' Hk'. rewrite lookup_insert_ne by (by intros ->). apply Hfr. set_solver.
Qed.

Lemma clients_try_from_rendered l :
  NoDup l.*1 → Forall (λ kv, Identity_ok kv.1) l →
  clients_try_from (MkClientsFile (render_entry <$> l)) = Ok (list_to_map l).
Proof.
  intros Hnd Hok. unfold clients_try_from. cbn [cf_clients].
  rewrite clients_try_from_loop_entries; [|done|done|].
  - by rewrite (right_id_L ∅ (∪)).
  - intros. apply lookup_empty.
Qed.

Lemma iter_NoDup (m : gmap Identity ResolvedClient) : NoDup (client_iter m).*1.
Proof. rewrite client_iter_perm. apply NoDup_fst_map_to_list. Qed.

(** The table [render_clients_doc] describes. *)
Definition without (skip : option Identity) (m : gmap Identity ResolvedClient) : gmap Identity ResolvedClient :=
  match skip with Some id => delete id m | None => m end.

Lemma rendered_table (m : gmap Identity ResolvedClient) skip :
  (list_to_map (filter (λ kv, Some kv.1 ≠ skip) (client_iter m)) : gmap Identity ResolvedClient) = without skip m.
Proof.
  assert (NoDup (filter (λ kv : Identity * ResolvedClient, Some kv.1 ≠ skip) (client_iter m)).*1) as Hnd.
  { eapply sublist_NoDup; [apply iter_NoDup|]. apply fmap_sublist, sublist_filter. }
  apply map_eq_iff. intros k v. rewrite <-elem_of_list_to_map by done.
  rewrite list_elem_of_filter, client_iter_perm, elem_of_map_to_list. cbn.
  destruct skip as [id|]; cbn; [rewrite lookup_delete_Some|]; naive_solver.
Qed.

Context {HXL : HexLaws} {FFL : FileFormatLaws}.

Lemma load_clients_rendered m skip b :
  map_Forall (λ id _, Identity_ok id) m → render_clients_doc m skip = Ok b →
  load_clients_file (Ok b) = Ok (MkClientsFile (render_entry <$>
     filter (λ kv, Some kv.1 ≠ skip) (client_iter m))) ∧
  clients_try_from (MkClientsFile (render_entry <$> filter (λ kv, Some kv.1 ≠ skip) (client_iter m)))
    = Ok (without skip m).
Proof.
  intros Hok Hr. unfold render_clients_doc in Hr. split.
  - unfold load_clients_file, read_utf8. cbn. rewrite (json_utf8 _ _ Hr). cbn.
    unfold ClientsFile_parse. rewrite (json_roundtrip _ _ Hr). done.
  - rewrite clients_try_from_rendered, rendered_table; [done| |].
    + eapply sublist_NoDup; [apply iter_NoDup|]. apply fmap_sublist, sublist_filter.
    + apply Forall_forall. intros [k c]. rewrite list_elem_of_filter, client_iter_perm, elem_of_map_to_list.
      intros [_ Hk]. by eapply Hok.
Qed.

Lemma render_ascii iter :
  Forall (λ kv, Identity_ok kv.1) iter → Forall (λ b, u8 b < 128) (PskStore_render iter).
Proof.
  intros Hok. unfold PskStore_render. apply Forall_concat, Forall_map.
  eapply Forall_impl; [done|]. intros [k p] [_ Hk]. cbn in Hk. cbn. unfold render_line. cbn.
  rewrite Forall_app. split; [|by repeat constructor]. apply Forall_app. split.
  - eapply Forall_impl; [done|]. apply identity_byte_ascii.
  - constructor; [done|]. eapply Forall_impl; [apply hex_encode_charset|]. intros b. byte_cases b.
Qed.

Lemma load_psks_rendered path s :
  PskStore_ok s → load_psk_store path (Ok (PskStore_render (psk_iter (entries s)))) = Ok s.
Proof.
  intros Hs. unfold load_psk_store.
  assert (Forall (λ kv, Identity_ok kv.1 ∧ Psk_ok kv.2) (psk_iter (entries s))) as Hall.
  { rewrite psk_iter_perm. apply map_Forall_to_list in Hs. eapply Forall_impl; [done|]. by intros []. }
  rewrite from_utf8_ascii by (apply render_ascii; eapply Forall_impl; [done|naive_solver]). cbn.
  apply map_err_Ok, PskStore_parse_render; [done|apply psk_iter_perm].
Qed.

(** ** The two files on disk *)

(** One awaited write of a file: another file stays as it is, the target has
    the old or the new content, the new one if the write returned [Ok]. *)
Lemma await_write_keys w path k k' content fs :
  target path = Some k → k ≠ k' →
  (∀ dir base ulid, parent path = Some dir → file_name path = Some base → k' ≠ (dir, tmp_name base ulid)) →
  let '(fss, r) := await_write w path content fs in
  Forall (λ fs', fs' !! k' = fs !! k' ∧ (fs' !! k = fs !! k ∨ fs' !! k = Some content)) fss ∧
  (r = Some (Ok ()) → last_fs fs fss !! k = Some content ∧ last_fs fs fss !! k' = fs !! k').
Proof.
  intros Hk Hne Htmp.
  assert (∀ env, Forall (λ fs', fs' !! k' = fs !! k' ∧ (fs' !! k = fs !! k ∨ fs' !! k = Some content))
            (atomic_write env path content fs).1) as Hall.
  { intros env. pose proof (atomic_write_states env _ content fs _ Hk) as H1.
    pose proof (atomic_write_frame env path content fs) as H2.
    rewrite Forall_forall in *. intros fs' Hin. split; [|by apply H1].
    apply (H2 _ Hin); [rewrite Hk; congruence|]. intros. by eapply Htmp. }
  destruct w as [env|env n]; cbn.
  - specialize (Hall env). pose proof (atomic_write_Ok env path content fs) as Hok.
    destruct (atomic_write env path content fs) as [fss r]. cbn in *. split; [done|].
    intros [= ->]. destruct (Hok eq_refl) as (k0 & Hk0 & Hf). rewrite Hk in Hk0. injection Hk0 as <-.
    unfold final_fs in Hf. unfold last_fs. cbn in Hf. split; [done|].
    destruct (last fss) as [f|] eqn:E; [|done]. cbn. rewrite Forall_forall in Hall.
    by apply Hall, last_Some_elem_of.
  - split; [|done]. rewrite Forall_forall in *. intros fs' Hin. specialize (Hall env).
    rewrite Forall_forall in Hall. apply Hall. apply elem_of_take in Hin as (i & Hi & _).
    by eapply list_elem_of_lookup_2.
Qed.

Section disk.
Context (kp kc : FileKey).
Hypothesis Hkp : target psk_file_path = Some kp.
Hypothesis Hkc : target clients_file_path = Some kc.
(** The two state files are different files, and no temporary name of one is
    the name of the other. *)
Hypothesis Hne : kp ≠ kc.
Hypothesis Htmp_p : ∀ dir base ulid, parent psk_file_path = Some dir → file_name psk_file_path = Some base →
  kc ≠ (dir, tmp_name base ulid).
Hypothesis Htmp_c : ∀ dir base ulid, parent clients_file_path = Some dir → file_name clients_file_path = Some base →
  kp ≠ (dir, tmp_name base ulid).

(** What a start-up would read. *)
Definition disk_has (fs : Fs) (p c : option bytes) : Prop := fs !! kp = p ∧ fs !! kc = c.

Lemma acquire_tables_disk fs fs' :
  fs !! kp = fs' !! kp → fs !! kc = fs' !! kc → acquire_tables fs = acquire_tables fs'.
Proof. intros H1 H2. unfold acquire_tables, fs_read. by rewrite Hkp, Hkc, H1, H2. Qed.

Lemma await_write_psks w content fs :
  let '(fss, r) := await_write w psk_file_path content fs in
  Forall (λ fs', fs' !! kc = fs !! kc ∧ (fs' !! kp = fs !! kp ∨ fs' !! kp = Some content)) fss ∧
  (r = Some (Ok ()) → last_fs fs fss !! kp = Some content ∧ last_fs fs fss !! kc = fs !! kc).
Proof. by apply await_write_keys. Qed.

Lemma await_write_clients w content fs :
  let '(fss, r) := await_write w clients_file_path content fs in
  Forall (λ fs', fs' !! kp = fs !! kp ∧ (fs' !! kc = fs !! kc ∨ fs' !! kc = Some content)) fss ∧
  (r = Some (Ok ()) → last_fs fs fss !! kc = Some content ∧ last_fs fs fss !! kp = fs !! kp).
Proof. by apply await_write_keys. Qed.

Lemma acquire_tables_Ok fs m :
  acquire_tables fs = Ok m ↔
  (∃ f, load_clients_file (fs_read clients_file_path fs) = Ok f ∧ clients_try_from f = Ok (m_clients m)) ∧
  load_psk_store psk_file_path (fs_read psk_file_path fs) = Ok (m_psks m).
Proof.
  unfold acquire_tables. split.
  - intros Hm. inv_ok. cbn. eauto.
  - intros [(f & Hf & Hc) Hp]. rewrite Hf. cbn. rewrite Hc. cbn. rewrite Hp. by destruct m.
Qed.

Lemma fs_read_psks fs : fs_read psk_file_path fs = ok_or Io_NotFound (fs !! kp).
Proof. unfold fs_read. by rewrite Hkp. Qed.
Lemma fs_read_clients fs : fs_read clients_file_path fs = ok_or Io_NotFound (fs !! kc).
Proof. unfold fs_read. by rewrite Hkc. Qed.

(** Loading a disk of which each file is either as it was when [m] was loaded
    from it, or freshly written from well-formed tables. *)
Lemma acquire_mixed fs fs' m psks clients :
  acquire_tables fs = Ok m →
  ((fs' !! kp = fs !! kp ∧ psks = m_psks m) ∨
   (PskStore_ok psks ∧ fs' !! kp = Some (PskStore_render (psk_iter (entries psks))))) →
  ((fs' !! kc = fs !! kc ∧ clients = m_clients m) ∨
   (∃ cs skip b, map_Forall (λ id _, Identity_ok id) cs ∧ clients = without skip cs ∧
      render_clients_doc cs skip = Ok b ∧ fs' !! kc = Some b)) →
  acquire_tables fs' = Ok (MkMem psks clients).
Proof.
  rewrite !acquire_tables_Ok, !fs_read_psks, !fs_read_clients. cbn.
  intros [(f & Hf & Hc) Hp] Hpsks Hclients. split.
  - destruct Hclients as [[-> ->]|(cs & skip & b & Hok & -> & Hr & ->)]; [by eauto|].
    destruct (load_clients_rendered cs skip b Hok Hr) as [? ?]. eauto.
  - destruct Hpsks as [[-> ->]|[Hok ->]]; [done|]. by apply load_psks_rendered.
Qed.

(** Whatever loads is well formed: both parsers check what they read. *)
Lemma clients_try_from_loop_ok l t t' :
  clients_try_from_loop l t = Ok t' → map_Forall (λ id _, Identity_ok id) t → map_Forall (λ id _, Identity_ok id) t'.
Proof.
  revert t. induction l as [|e l IH]; intros t; cbn; [by intros [= <-]|].
  destruct (Identity_parse (ce_name e)) as [id|] eqn:E; [|done]. cbn.
  apply Identity_parse_Ok in E as [-> Hid]. destruct (t !! _); [done|]. intros Ht Hok.
  apply IH in Ht; [done|]. by apply map_Forall_insert_2.
Qed.

Lemma acquire_tables_mem_ok fs m : acquire_tables fs = Ok m → mem_ok m.
Proof.
  intros [(f & _ & Hc) Hp]%acquire_tables_Ok. split.
  - unfold load_psk_store in Hp. destruct (fs_read psk_file_path fs) as [b|e]; [|destruct e; inv_ok; match goal with H : _ = m_psks m |- _ => rewrite <-H end; apply map_Forall_empty].
    inv_ok. match goal with H : PskStore_parse _ = _ |- _ => by apply PskStore_parse_ok in H end.
  - eapply clients_try_from_loop_ok; [exact Hc|apply map_Forall_empty].
Qed.

Lemma mem_ok_inserted client psk c m :
  mem_ok m → Identity_ok client → Psk_ok psk →
  mem_ok (MkMem (PskStore_insert (m_psks m) client psk) (<[client := c]> (m_clients m))).
Proof.
  intros [H1 H2] Hid Hp. split; cbn.
  - by apply PskStore_insert_ok.
  - by apply map_Forall_insert_2.
Qed.

(** Every state of the disk during an enrolment loads: as the tables [md] that
    were on disk before, as [md] with the PSKs after, or as the tables after.
    The memory [m] need not be what the disk holds: an earlier mutation may
    have failed. *)
Lemma enroll_disk now w1 w2 client psk provider note md m fs :
  acquire_tables fs = Ok md → mem_ok m → Identity_ok client → Psk_ok psk →
  let m1 := MkMem (PskStore_insert (m_psks m) client psk)
                  (<[client := MkResolvedClient [provider] now note]> (m_clients m)) in
  let o := enroll_client now w1 w2 client psk provider note m fs in
  m_clients m !! client = None →
  Forall (λ fs', acquire_tables fs' = Ok md ∨ acquire_tables fs' = Ok (MkMem (m_psks m1) (m_clients md)) ∨
                 acquire_tables fs' = Ok m1) (o_disk o) ∧
  (ended_ok o = true → acquire_tables (last_fs fs (o_disk o)) = Ok m1).
Proof.
  intros Hload Hok Hid Hp m1 o Hc. unfold o, enroll_client. rewrite decide_False by (rewrite Hc; by intros [? ?]).
  fold m1. set (pc := PskStore_render _).
  assert (mem_ok m1) as [Hok1 Hok1'] by by apply mem_ok_inserted.
  pose proof (await_write_psks w1 pc fs) as Hw1.
  destruct (await_write w1 psk_file_path pc fs) as [fss1 r1]. destruct Hw1 as [Hall1 Hlast1].
  assert (Forall (λ fs', acquire_tables fs' = Ok md ∨ acquire_tables fs' = Ok (MkMem (m_psks m1) (m_clients md)) ∨
                 acquire_tables fs' = Ok m1) fss1) as Hd1.
  { eapply Forall_impl; [exact Hall1|]. intros fs' [Hcs [Hps|Hps]].
    - left. rewrite <-Hload. by apply acquire_tables_disk.
    - right; left. apply (acquire_mixed fs _ md); [done|by right|by left]. }
  destruct r1 as [[[]|e]|]; [|by split..]. destruct (Hlast1 eq_refl) as [Hp1 Hc1].
  unfold enroll_write_clients. destruct (render_clients_doc (m_clients m1) None) as [b|e] eqn:Hr; [|by split].
  pose proof (await_write_clients w2 b (last_fs fs fss1)) as Hw2.
  destruct (await_write w2 clients_file_path b (last_fs fs fss1)) as [fss2 r2]. destruct Hw2 as [Hall2 Hlast2].
  assert (∀ fs', fs' !! kp = Some pc → fs' !! kc = Some b → acquire_tables fs' = Ok m1) as Hafter.
  { intros fs' H1 H2. apply (acquire_mixed fs _ md); [done|by right|]. right. exists (m_clients m1), None, b. done. }
  assert (Forall (λ fs', acquire_tables fs' = Ok md ∨ acquire_tables fs' = Ok (MkMem (m_psks m1) (m_clients md)) ∨
                 acquire_tables fs' = Ok m1) (fss1 ++ fss2)) as Hd2.
  { apply Forall_app. split; [done|]. eapply Forall_impl; [exact Hall2|]. intros fs' [Hps [Hcs|Hcs]].
    - right; left. apply (acquire_mixed fs _ md); [done|right; split; [done|by rewrite Hps]|left; split; [by rewrite Hcs|done]].
    - right; right. apply Hafter; congruence. }
  destruct r2 as [[[]|e]|]; [|by split..]. split; [done|]. intros _. cbn.
  destruct (Hlast2 eq_refl) as [Hc2 Hp2]. unfold last_fs. rewrite last_app.
  destruct (last fss2) as [f|] eqn:E; cbn; unfold last_fs in *; rewrite E in *; cbn in *; apply Hafter; congruence.
Qed.

Lemma mem_ok_removed client m : mem_ok m → PskStore_ok (PskStore_remove (m_psks m) client).1.
Proof. intros [? _]. by apply PskStore_remove_ok. Qed.

(** The same for a revocation: the tables on disk before, the same with the
    clients after, or the tables after. *)
Lemma revoke_disk w1 w2 client md m fs :
  acquire_tables fs = Ok md → mem_ok m →
  let m1 := MkMem (PskStore_remove (m_psks m) client).1 (delete client (m_clients m)) in
  let o := revoke_client w1 w2 client m fs in
  Forall (λ fs', acquire_tables fs' = Ok md ∨ acquire_tables fs' = Ok (MkMem (m_psks md) (m_clients m1)) ∨
                 acquire_tables fs' = Ok m1) (o_disk o) ∧
  (ended_ok o = true → acquire_tables (last_fs fs (o_disk o)) = Ok m1).
Proof.
  intros Hload Hok m1 o. pose proof (mem_ok_removed client m Hok) as Hok1.
  unfold o, revoke_client. case_decide as Hc; [split; [|done]; constructor; [by left|done]|].
  destruct (render_clients_doc (m_clients m) (Some client)) as [b|e] eqn:Hr;
    [|split; [|done]; constructor; [by left|done]].
  pose proof (await_write_clients w1 b fs) as Hw1.
  destruct (await_write w1 clients_file_path b fs) as [fss1 r1]. destruct Hw1 as [Hall1 Hlast1].
  assert (∀ fs' : Fs, fs' !! kc = Some b → (fs' !! kc = fs !! kc ∧ m_clients m1 = m_clients md) ∨
    ∃ cs skip b', map_Forall (λ id _, Identity_ok id) cs ∧ m_clients m1 = without skip cs ∧
      render_clients_doc cs skip = Ok b' ∧ fs' !! kc = Some b') as Hcnew.
  { intros fs' Hfs'. right. exists (m_clients m), (Some client), b. by destruct Hok. }
  assert (Forall (λ fs', acquire_tables fs' = Ok md ∨ acquire_tables fs' = Ok (MkMem (m_psks md) (m_clients m1)) ∨
                 acquire_tables fs' = Ok m1) fss1) as Hd1.
  { eapply Forall_impl; [exact Hall1|]. intros fs' [Hps [Hcs|Hcs]].
    - left. rewrite <-Hload. by apply acquire_tables_disk.
    - right; left. apply (acquire_mixed fs _ md); [done|by left|by apply Hcnew]. }
  destruct r1 as [[[]|e]|]; [|by split..]. destruct (Hlast1 eq_refl) as [Hc1 Hp1].
  unfold revoke_write_psks. cbn [m_psks]. set (pc := PskStore_render _).
  pose proof (await_write_psks w2 pc (last_fs fs fss1)) as Hw2.
  destruct (await_write w2 psk_file_path pc (last_fs fs fss1)) as [fss2 r2]. destruct Hw2 as [Hall2 Hlast2].
  assert (∀ fs', fs' !! kp = Some pc → fs' !! kc = Some b → acquire_tables fs' = Ok m1) as Hafter.
  { intros fs' H1 H2. apply (acquire_mixed fs _ md); [done|by right|by apply Hcnew]. }
  assert (Forall (λ fs', acquire_tables fs' = Ok md ∨ acquire_tables fs' = Ok (MkMem (m_psks md) (m_clients m1)) ∨
                 acquire_tables fs' = Ok m1) (fss1 ++ fss2)) as Hd2.
  { apply Forall_app. split; [done|]. eapply Forall_impl; [exact Hall2|]. intros fs' [Hcs [Hps|Hps]].
    - right; left. apply (acquire_mixed fs _ md); [done|left; split; [by rewrite Hps|done]|].
      apply Hcnew. by rewrite Hcs.
    - right; right. apply Hafter; congruence. }
  destruct r2 as [[[]|e]|]; [|by split..]. split; [done|]. intros _. cbn.
  destruct (Hlast2 eq_refl) as [Hp2 Hc2]. unfold last_fs. rewrite last_app.
  destruct (last fss2) as [f|] eqn:E; cbn; unfold last_fs in *; rewrite E in *; cbn in *; apply Hafter; congruence.
Qed.

(** A state file, once there, is never removed: the writes replace it by a
    rename. *)
Definition files_kept (fs fs' : Fs) : Prop :=
  (is_Some (fs !! kp) → is_Some (fs' !! kp)) ∧ (is_Some (fs !! kc) → is_Some (fs' !! kc)).

#[export] Instance files_kept_preorder : PreOrder files_kept.
Proof. split; unfold files_kept; [intros fs|intros fs1 fs2 fs3]; tauto. Qed.

Lemma files_kept_last fs fs' fss : files_kept fs fs' → Forall (files_kept fs) fss → files_kept fs (last_fs fs' fss).
Proof.
  intros H0 Hall. unfold last_fs. destruct (last fss) as [f|] eqn:E; [|done]. cbn. rewrite Forall_forall in Hall.
  by apply Hall, last_Some_elem_of.
Qed.

Lemma await_kept w path content fs :
  path = psk_file_path ∨ path = clients_file_path → Forall (files_kept fs) (await_write w path content fs).1.
Proof.
  intros [-> | ->].
  - pose proof (await_write_psks w content fs) as Hw. destruct (await_write _ _ _ _) as [fss r]. destruct Hw as [Hw _].
    eapply Forall_impl; [exact Hw|]. intros fs' [E [E'|E']]; unfold files_kept; rewrite E, E'; [done|]. split; [by eexists|done].
  - pose proof (await_write_clients w content fs) as Hw. destruct (await_write _ _ _ _) as [fss r]. destruct Hw as [Hw _].
    eapply Forall_impl; [exact Hw|]. intros fs' [E [E'|E']]; unfold files_kept; rewrite E, E'; [done|]. split; [done|by eexists].
Qed.

(** One write after another. *)
Lemma await_kept_next w path content fs fss :
  path = psk_file_path ∨ path = clients_file_path → Forall (files_kept fs) fss →
  Forall (files_kept fs) (fss ++ (await_write w path content (last_fs fs fss)).1).
Proof.
  intros Hp Hall. apply Forall_app. split; [done|]. eapply Forall_impl; [by apply await_kept|].
  intros fs' H'. etrans; [by apply files_kept_last|exact H'].
Qed.

Lemma enroll_kept now w1 w2 client psk provider note m fs :
  Forall (files_kept fs) (o_disk (enroll_client now w1 w2 client psk provider note m fs)).
Proof.
  unfold enroll_client. case_decide; [by repeat constructor|]. set (m1 := MkMem _ _). set (pc := PskStore_render _).
  pose proof (await_kept w1 psk_file_path pc fs (or_introl eq_refl)) as H1.
  destruct (await_write w1 psk_file_path pc fs) as [fss1 [[[]|e]|]]; [|exact H1..]. unfold enroll_write_clients.
  destruct (render_clients_doc _ _) as [b|e]; [|exact H1].
  pose proof (await_kept_next w2 clients_file_path b fs fss1 (or_intror eq_refl) H1) as H2.
  by destruct (await_write w2 clients_file_path b _) as [fss2 [[[]|e]|]].
Qed.

Lemma revoke_kept w1 w2 client m fs : Forall (files_kept fs) (o_disk (revoke_client w1 w2 client m fs)).
Proof.
  unfold revoke_client. case_decide; [by repeat constructor|]. destruct (render_clients_doc _ _) as [b|e]; [|by repeat constructor].
  pose proof (await_kept w1 clients_file_path b fs (or_intror eq_refl)) as H1.
  destruct (await_write w1 clients_file_path b fs) as [fss1 [[[]|e]|]]; [|exact H1..]. unfold revoke_write_psks.
  set (pc := PskStore_render _). pose proof (await_kept_next w2 psk_file_path pc fs fss1 (or_introl eq_refl) H1) as H2.
  by destruct (await_write w2 psk_file_path pc _) as [fss2 [[[]|e]|]].
Qed.

(** Every client on record has a PSK. *)
Definition no_dead_client (m : Mem) : Prop := ∀ id, is_Some (m_clients m !! id) → is_Some (entries (m_psks m) !! id).

(** ** Properties: crash consistency *)

(** C18: an enrolment interrupted anywhere (an error, a cancelled task, a
    crash) leaves a disk from which the tables load, and the clients a daemon
    started from them accepts are those accepted before, with the new client or without it; a
    client never appears in clients.json without its PSK; and a completed
    enrolment is entirely on disk. *)
Theorem enroll_crash_consistent now w1 w2 client psk provider note m fs :
  acquire_tables fs = Ok m → mem_ok m → Identity_ok client → Psk_ok psk →
  let o := enroll_client now w1 w2 client psk provider note m fs in
  Forall (λ fs', ∃ m', acquire_tables fs' = Ok m' ∧
            (auth m' = auth m ∨ auth m' = <[client := psk]> (auth m)) ∧
            (no_dead_client m → no_dead_client m')) (o_disk o) ∧
  (ended_ok o = true → acquire_tables (last_fs fs (o_disk o)) = Ok (o_mem o)).
Proof.
  intros Hload Hok Hid Hp o.
  pose proof (enroll_client_cases now w1 w2 client psk provider note m fs) as Hcases. cbn zeta in Hcases.
  fold o in Hcases. destruct Hcases as [[Hc Ho]|(Hc & _ & Hend)].
  { rewrite Ho. split; [|done]. constructor; [|done]. exists m. auto. }
  destruct (enroll_disk now w1 w2 client psk provider note m m fs) as [Hall Hlast]; [done..|]. fold o in Hall, Hlast.
  split.
  - eapply Forall_impl; [exact Hall|]. cbn beta. intros fs' [H|[H|H]]; rewrite H; eexists; (split; [done|]).
    + auto.
    + split.
      * left. apply map_eq_iff. intros k v. rewrite !auth_lookup. cbn. rewrite lookup_insert_Some. split.
        -- intros [[[<- _]|[_ ?]] Hk]; [rewrite Hc in Hk; by destruct Hk|done].
        -- intros [? Hk]. split; [|done]. right. split; [|done]. intros <-. rewrite Hc in Hk. by destruct Hk.
      * intros Hd id Hk. cbn in *. apply lookup_insert_is_Some. destruct (decide (client = id)); auto.
    + split; [right; apply auth_enrolled|]. intros Hd id. cbn. rewrite !lookup_insert_is_Some. naive_solver.
  - intros Hok'. destruct Hend as [[_ ->]|[? _]]; [by apply Hlast|congruence].
Qed.

(** C19: the same for a revocation: at every moment the disk loads and accepts
    the clients accepted before, with or without the revoked one, every one
    of them with its PSK; and a completed revocation is entirely on disk. *)
Theorem revoke_crash_consistent w1 w2 client m fs :
  acquire_tables fs = Ok m → mem_ok m →
  let o := revoke_client w1 w2 client m fs in
  Forall (λ fs', ∃ m', acquire_tables fs' = Ok m' ∧
            (auth m' = auth m ∨ auth m' = delete client (auth m)) ∧
            (no_dead_client m → no_dead_client m')) (o_disk o) ∧
  (ended_ok o = true → acquire_tables (last_fs fs (o_disk o)) = Ok (o_mem o)).
Proof.
  intros Hload Hok o. destruct (revoke_disk w1 w2 client m m fs) as [Hall Hlast]; [done..|]. fold o in Hall, Hlast.
  split.
  - eapply Forall_impl; [exact Hall|]. cbn beta. intros fs' [H|[H|H]]; rewrite H; eexists; (split; [done|]).
    + auto.
    + split.
      * right. apply map_eq_iff. intros k v. rewrite lookup_delete_Some, !auth_lookup. cbn.
        rewrite lookup_delete_is_Some. naive_solver.
      * intros Hd id. cbn. rewrite lookup_delete_is_Some. intros [_ ?]. by apply Hd.
    + split; [right; apply auth_revoked; cbn; intros; by apply lookup_delete_ne|].
      intros Hd id. cbn. rewrite !lookup_delete_is_Some. naive_solver.
  - intros Hok'. specialize (Hlast Hok'). rewrite Hlast.
    pose proof (revoke_client_cases w1 w2 client m fs) as Hcases. cbn zeta in Hcases.
    fold o in Hcases. destruct Hcases as [[_ Ho]|(_ & _ & [[? _]|[[? _]|[_ Ho]]])].
    + rewrite Ho in Hok'. done.
    + congruence.
    + congruence.
    + by rewrite Ho.
Qed.

End disk.

(** ** Properties: who is authorised *)

(** An enrolment is all or nothing for the readers of the tables: while it
    is being written to disk the new client is accepted with its PSK and
    nobody else is affected; afterwards it is accepted exactly if the
    enrolment succeeded; on any error or cancellation everything is as
    before.  A client already enrolled is refused without any effect. *)
Lemma enroll_auth now w1 w2 client psk provider note m fs :
  let o := enroll_client now w1 w2 client psk provider note m fs in
  auth (o_mem o) = (if ended_ok o then <[client := psk]> (auth m) else auth m) ∧
  m_clients (o_mem o) = (if ended_ok o then <[client := MkResolvedClient [provider] now note]> (m_clients m)
                         else m_clients m) ∧
  Forall (λ v, auth v = <[client := psk]> (auth m)) (o_visible o) ∧
  (is_Some (m_clients m !! client) → o = MkOutcome m [fs] [] (Some (Err (SM_ClientAlreadyEnrolled client)))).
Proof.
  intros o. pose proof (enroll_client_cases now w1 w2 client psk provider note m fs) as Hcases.
  cbn zeta in Hcases. fold o in Hcases. destruct Hcases as [[Hc Ho]|(Hc & Hvis & Hend)].
  { rewrite Ho. cbn. auto. }
  assert (Forall (λ v, auth v = <[client := psk]> (auth m)) (o_visible o)) as Hv.
  { eapply Forall_impl; [exact Hvis|]. cbn beta. intros v <-. apply auth_enrolled. }
  assert (¬ is_Some (m_clients m !! client)) as Hn by (rewrite Hc; by intros [? ?]).
  destruct Hend as [[-> ->]|[-> ->]]; split_and!; try done.
  - apply auth_enrolled.
  - by apply auth_rollback.
  - cbn. rewrite delete_insert_eq. by apply delete_id.
Qed.

(** A revocation only ever removes: while it runs and however it ends, the
    accepted clients are those before, with or without the revoked one; once
    it has reported success the client is gone from both tables. *)
Lemma revoke_auth w1 w2 client m fs :
  let o := revoke_client w1 w2 client m fs in
  Forall (λ v, auth v = auth m ∨ auth v = delete client (auth m)) (o_mem o :: o_visible o) ∧
  (ended_ok o = true →
     auth (o_mem o) = delete client (auth m) ∧ m_clients (o_mem o) = delete client (m_clients m) ∧
     entries (m_psks (o_mem o)) = delete client (entries (m_psks m))).
Proof.
  intros o. pose proof (revoke_client_cases w1 w2 client m fs) as Hcases.
  cbn zeta in Hcases. fold o in Hcases. destruct Hcases as [[_ Ho]|(_ & Hvis & Hend)].
  { rewrite Ho. cbn. split; [|done]. constructor; [by left|done]. }
  set (m1 := MkMem (PskStore_remove (m_psks m) client).1 (m_clients m)) in *.
  assert (auth m1 = delete client (auth m)) as Hm1 by (by apply auth_revoked).
  assert (auth (MkMem (m_psks m1) (delete client (m_clients m))) = delete client (auth m)) as Hm2.
  { apply auth_revoked. intros. by apply lookup_delete_ne. }
  split.
  - constructor; [|eapply Forall_impl; [exact Hvis|]; cbn beta; intros v [-> | ->]; auto].
    destruct Hend as [[_ ->]|[[_ ->]|[_ ->]]]; auto.
  - intros Hok. destruct Hend as [[? _]|[[? _]|[_ ->]]]; [congruence..|]. done.
Qed.

(** A run of the serialised mutations of an administrator. *)
Inductive Mutation :=
| Mut_enroll (now : Z) (w1 w2 : Await) (client : Identity) (psk : Psk) (provider : ProviderKind) (note : option Note)
| Mut_revoke (w1 w2 : Await) (client : Identity).

Definition mutate (mu : Mutation) (m : Mem) (fs : Fs) : Outcome :=
  match mu with
  | Mut_enroll now w1 w2 client psk provider note => enroll_client now w1 w2 client psk provider note m fs
  | Mut_revoke w1 w2 client => revoke_client w1 w2 client m fs
  end.

(** The final tables and the log: each mutation with whether it succeeded. *)
Fixpoint mutations (mus : list Mutation) (m : Mem) (fs : Fs) : Mem * list (Mutation * bool) :=
  match mus with
  | [] => (m, [])
  | mu :: mus' =>
      let o := mutate mu m fs in
      let '(m', log) := mutations mus' (o_mem o) (last_fs fs (o_disk o)) in
      (m', (mu, ended_ok o) :: log)
  end.

Definition enrolls (id : Identity) (p : Psk) (e : Mutation * bool) : Prop :=
  match e with (Mut_enroll _ _ _ c psk _ _, true) => c = id ∧ psk = p | _ => False end.
Definition revokes (id : Identity) (e : Mutation * bool) : Prop :=
  match e with (Mut_revoke _ _ c, true) => c = id | _ => False end.

Lemma mutate_auth mu m fs id p :
  auth (o_mem (mutate mu m fs)) !! id = Some p →
  enrolls id p (mu, ended_ok (mutate mu m fs)) ∨
  (auth m !! id = Some p ∧ ¬ revokes id (mu, ended_ok (mutate mu m fs))).
Proof.
  destruct mu as [now w1 w2 c psk pr n|w1 w2 c]; cbn [mutate].
  - pose proof (enroll_client_cases now w1 w2 c psk pr n m fs) as Hcs. cbn zeta in Hcs.
    set (o := enroll_client _ _ _ _ _ _ _ _ _) in *.
    destruct Hcs as [[_ Ho]|(Hc & _ & [[Hok Hm]|[Hok Hm]])].
    + rewrite Ho. cbn. auto.
    + rewrite Hm, auth_enrolled, lookup_insert_Some, Hok. cbn. naive_solver.
    + rewrite Hm, auth_rollback by done. rewrite Hok. cbn. auto.
  - pose proof (revoke_client_cases w1 w2 c m fs) as Hcs. cbn zeta in Hcs.
    set (o := revoke_client _ _ _ _ _) in *.
    destruct Hcs as [[_ Ho]|(Hc & _ & [[Hok Hm]|[[Hok Hm]|[Hok Hm]]])].
    + rewrite Ho. cbn. auto.
    + rewrite Hm, Hok. cbn. auto.
    + rewrite Hm, auth_revoked by done. rewrite lookup_delete_Some, Hok. cbn. naive_solver.
    + rewrite Hm. cbn [m_psks]. rewrite auth_revoked by (cbn; intros; by apply lookup_delete_ne).
      rewrite lookup_delete_Some, Hok. cbn. naive_solver.
Qed.

(** Nobody is ever accepted without a successful enrolment.  After any
    sequence of enrolments and revocations, with any failures, cancellations
    and crashes of their writes, if the daemon accepts [id] with PSK [p] then
    either it did so at the start and no successful revocation of [id]
    followed, or some enrolment of [id] with [p] succeeded and no successful
    revocation of [id] came after it. *)
Theorem authorised_only_by_enroll mus m fs m' log id p :
  mutations mus m fs = (m', log) → auth m' !! id = Some p →
  (auth m !! id = Some p ∧ Forall (λ e, ¬ revokes id e) log) ∨
  ∃ pre e post, log = pre ++ e :: post ∧ enrolls id p e ∧ Forall (λ e, ¬ revokes id e) post.
Proof.
  revert m fs log. induction mus as [|mu mus IH]; intros m fs log Hrun Hauth; cbn in Hrun.
  { injection Hrun as <- <-. by left. }
  destruct (mutations mus _ _) as [m1 log1] eqn:E. injection Hrun as <- <-.
  destruct (IH _ _ _ E Hauth) as [[Ha Hlog]|(pre & e & post & -> & He & Hpost)].
  - apply mutate_auth in Ha as [He|[Ha Hr]].
    + right. eexists [], _, log1. done.
    + left. split; [done|]. by constructor.
  - right. eexists (_ :: pre), e, post. done.
Qed.

End state.

(** ** Concrete runs *)

Definition plain_order : HashOrder.
Proof. by refine (@Build_HashOrder map_to_list map_to_list _ _). Defined.

Definition demo_clients_path : Path := MkPath (Some (B "/var/lib/symbolon")) (Some (B "clients.json")).
Definition all_ok : FsEnv := MkFsEnv (B "01J") false None false false false false false.
Definition disk_full : FsEnv := MkFsEnv (B "01J") false (Some 3%nat) false false false false false.

Definition demo_empty_clients : bytes := pos_digits (encode ([] : list ClientEntry)).
Definition demo_kp : FileKey := (B "/var/lib/symbolon", B "psks").
Definition demo_kc : FileKey := (B "/var/lib/symbolon", B "clients.json").
Definition demo_fs : Fs := {[ demo_kc := demo_empty_clients ]}.
Definition demo_mem : Mem := MkMem PskStore_new ∅.

Definition demo_enroll : @Outcome formats_model :=
  @enroll_client hex_model formats_model plain_order demo_path demo_clients_path
    7 (Run all_ok) (Run all_ok) demo_id demo_psk Github None demo_mem demo_fs.

Lemma demo_kc_not_tmp dir base ulid :
  parent demo_path = Some dir → file_name demo_path = Some base → demo_kc ≠ (dir, tmp_name base ulid).
Proof. intros [= <-] [= <-] H. vm_compute in H. discriminate H. Qed.

Lemma demo_kp_not_tmp dir base ulid :
  parent demo_clients_path = Some dir → file_name demo_clients_path = Some base → demo_kp ≠ (dir, tmp_name base ulid).
Proof. intros [= <-] [= <-] H. vm_compute in H. discriminate H. Qed.

Lemma demo_mem_ok : mem_ok demo_mem.
Proof. split; apply map_Forall_empty. Qed.

Lemma enroll_crash_consistent_witness :
  Forall (λ fs', ∃ m', @acquire_tables hex_model formats_model demo_path demo_clients_path fs' = Ok m' ∧
            (auth m' = auth demo_mem ∨ auth m' = <[demo_id := demo_psk]> (auth demo_mem)) ∧
            (no_dead_client demo_mem → no_dead_client m')) (o_disk demo_enroll) ∧
  (ended_ok demo_enroll = true →
     @acquire_tables hex_model formats_model demo_path demo_clients_path (last_fs demo_fs (o_disk demo_enroll))
     = Ok (o_mem demo_enroll)).
Proof.
  refine (@enroll_crash_consistent hex_model formats_model plain_order demo_path demo_clients_path
    hex_model_laws formats_model_laws demo_kp demo_kc eq_refl eq_refl _ demo_kc_not_tmp demo_kp_not_tmp
    7 (Run all_ok) (Run all_ok) demo_id demo_psk Github None demo_mem demo_fs _ _ _ _).
  - discriminate.
  - vm_compute. reflexivity.
  - exact demo_mem_ok.
  - by refine (bool_decide_unpack (Identity_ok demo_id) _).
  - reflexivity.
Defined.

Definition demo_mem1 : Mem := o_mem demo_enroll.
Definition demo_fs1 : Fs := last_fs demo_fs (o_disk demo_enroll).

(** A revocation whose PSK file write fails half way. *)
Definition demo_revoke : @Outcome formats_model :=
  @revoke_client hex_model formats_model plain_order demo_path demo_clients_path
    (Run all_ok) (Run disk_full) demo_id demo_mem1 demo_fs1.

Lemma demo_mem1_ok : mem_ok demo_mem1.
Proof.
  replace demo_mem1 with (MkMem (PskStore_insert PskStore_new demo_id demo_psk)
    (<[demo_id := MkResolvedClient [Github] 7 None]> ∅)) by (vm_compute; reflexivity).
  split; cbn.
  - apply demo_store_ok.
  - apply map_Forall_insert_2; [|apply map_Forall_empty].
    by refine (bool_decide_unpack (Identity_ok demo_id) _).
Qed.

Lemma revoke_crash_consistent_witness :
  Forall (λ fs', ∃ m', @acquire_tables hex_model formats_model demo_path demo_clients_path fs' = Ok m' ∧
            (auth m' = auth demo_mem1 ∨ auth m' = delete demo_id (auth demo_mem1)) ∧
            (no_dead_client demo_mem1 → no_dead_client m')) (o_disk demo_revoke) ∧
  (ended_ok demo_revoke = true →
     @acquire_tables hex_model formats_model demo_path demo_clients_path (last_fs demo_fs1 (o_disk demo_revoke))
     = Ok (o_mem demo_revoke)).
Proof.
  refine (@revoke_crash_consistent hex_model formats_model plain_order demo_path demo_clients_path
    hex_model_laws formats_model_laws demo_kp demo_kc eq_refl eq_refl _ demo_kc_not_tmp demo_kp_not_tmp
    (Run all_ok) (Run disk_full) demo_id demo_mem1 demo_fs1 _ _).
  - discriminate.
  - vm_compute. reflexivity.
  - exact demo_mem1_ok.
Defined.

Lemma authorised_only_by_enroll_witness :
  (auth demo_mem !! demo_id = Some demo_psk ∧
     Forall (λ e, ¬ revokes demo_id e) [(Mut_enroll 7 (Run all_ok) (Run all_ok) demo_id demo_psk Github None, true)]) ∨
  ∃ pre e post, [(Mut_enroll 7 (Run all_ok) (Run all_ok) demo_id demo_psk Github None, true)] = pre ++ e :: post ∧
    enrolls demo_id demo_psk e ∧ Forall (λ e, ¬ revokes demo_id e) post.
Proof.
  refine (@authorised_only_by_enroll hex_model formats_model plain_order demo_path demo_clients_path
    [Mut_enroll 7 (Run all_ok) (Run all_ok) demo_id demo_psk Github None] demo_mem demo_fs demo_mem1 _
    demo_id demo_psk _ _).
  - vm_compute. reflexivity.
  - vm_compute. reflexivity.
Defined.

(** When the PSK file write of a revocation fails, the client stays in the
    client table without a PSK, and the next enrolment of anybody else writes
    it back to clients.json, where the revocation had removed it. *)
Definition demo_id2 : Identity := MkIdentity (B "dev-vm-2").
Definition demo_enroll2 : @Outcome formats_model :=
  @enroll_client hex_model formats_model plain_order demo_path demo_clients_path
    8 (Run all_ok) (Run all_ok) demo_id2 demo_psk Github None (o_mem demo_revoke)
    (last_fs demo_fs1 (o_disk demo_revoke)).

Lemma failed_revoke_resurrects :
  o_result demo_revoke = Some (Err (SM_WritePsks Io_Other)) ∧
  (bool_decide (is_Some (m_clients (o_mem demo_revoke) !! demo_id)) = true) ∧
  entries (m_psks (o_mem demo_revoke)) !! demo_id = None ∧
  ended_ok demo_enroll2 = true ∧
  match @acquire_tables hex_model formats_model demo_path demo_clients_path
          (last_fs ∅ (o_disk demo_enroll2)) with
  | Ok m' => bool_decide (is_Some (m_clients m' !! demo_id)) = true ∧ entries (m_psks m') !! demo_id = None
  | Err _ => False
  end.
Proof. vm_compute. split_and!; reflexivity. Qed.

Lemma enroll_auth_witness :
  auth (o_mem demo_enroll) = {[ demo_id := demo_psk ]}.
Proof.
  destruct (@enroll_auth hex_model formats_model plain_order demo_path demo_clients_path
    7 (Run all_ok) (Run all_ok) demo_id demo_psk Github None demo_mem demo_fs) as (H & _).
  transitivity (<[demo_id := demo_psk]> (auth demo_mem)); [exact H|]. by vm_compute.
Defined.

Lemma revoke_auth_witness :
  Forall (λ v, auth v = auth demo_mem1 ∨ auth v = delete demo_id (auth demo_mem1)) (o_mem demo_revoke :: o_visible demo_revoke).
Proof.
  apply (@revoke_auth hex_model formats_model plain_order demo_path demo_clients_path
    (Run all_ok) (Run disk_full) demo_id demo_mem1 demo_fs1).
Defined.
