(* ===== verification/Signing.v ===== *)
(** * App JWT signing: [src/providers/jwt_backend.rs], [jwt_rs256.rs],
    [tpm_backend.rs], [tpm_backend/wire.rs], [agent_protocol.rs],
    [agent_backend.rs], [agent.rs]

    The claims, the compact JWS, the two signing backends behind one seam and
    the parsers of the TPM responses.  External code (serde_json, base64,
    sha2, rsa, the tpm2-protocol crate, the device and the socket) is the
    class [SignEnv]. *)

From S2P Require Import Prelude.

(** ** Claims *)

Record JwtClaims := MkJwtClaims { iss : bytes; iat : Z; exp : Z }.

Definition LEEWAY_PAST_SECS : Z := 60.
Definition LIFETIME_SECS : Z := 540.

(** [duration_since(UNIX_EPOCH).unwrap_or_default().as_secs()] *)
Definition unix_secs (now : Z) : Z := if now <? 0 then 0 else as_secs now.

Definition JwtClaims_new (now : Z) (client_id : bytes) : JwtClaims :=
  let unix := unix_secs now in
  MkJwtClaims client_id (saturating_sub unix LEEWAY_PAST_SECS) (saturating_add_u64 unix LIFETIME_SECS).

Inductive JwtBackendError :=
| JB_BackendDead
| JB_Io (what : bytes)
| JB_Protocol (what : bytes)
| JB_Rejected (msg : bytes)
| JB_Backend (what : bytes)
| JB_Construct (what : bytes).

(** ** TPM commands: the structures [wire.rs] hands to the marshaller

    Tags, handles and algorithms are the numbers of the TCG specification. *)

Record TpmtSigScheme := MkTpmtSigScheme { ss_scheme : Z; ss_hash_alg : Z }.
Record TpmtTkHashcheck := MkTpmtTkHashcheck { tk_tag : Z; tk_hierarchy : Z; tk_digest : bytes }.
Record TpmsAuthCommand := MkTpmsAuthCommand { au_session_handle : Z; au_nonce : bytes; au_attributes : Z; au_hmac : bytes }.

Inductive TpmCommand :=
| TpmReadPublicCommand (handle : Z)
| TpmSignCommand (handle : Z) (digest : bytes) (in_scheme : TpmtSigScheme) (validation : TpmtTkHashcheck).

Definition TPM_RS_PW : Z := 0x40000009.
Definition TPM_ST_NO_SESSIONS : Z := 0x8001.
Definition TPM_ST_SESSIONS : Z := 0x8002.
Definition TPM_ST_HASHCHECK : Z := 0x8024.
Definition TPM_RH_NULL : Z := 0x40000007.
Definition TPM_ALG_SHA256 : Z := 0xb.
Definition TPM_ALG_RSA : Z := 0x1.
Definition TPM_ALG_NULL : Z := 0x10.
Definition TPM_ALG_RSASSA : Z := 0x14.

(** ** The environment *)

Inductive AgentRequest := Req_SignJwt (claims : JwtClaims) | Req_Ping.
Inductive AgentResponse := Resp_Jwt (jwt : bytes) | Resp_Pong | Resp_Error (msg : bytes).

Class SignEnv := {
  SerdeError : Type;
  RsaKey : Type;
  (** [serde_json::to_vec] of the claims *)
  claims_json : JwtClaims → result SerdeError bytes;
  (** [URL_SAFE_NO_PAD.encode_string] *)
  b64url : bytes → bytes;
  sha256 : bytes → bytes;
  (** RSASSA-PKCS1-v1_5 over a SHA-256 digest *)
  rsa_sign_digest : RsaKey → bytes → bytes;
  from_pkcs8_pem : bytes → option RsaKey;
  from_pkcs1_pem : bytes → option RsaKey;
  (** [TpmResponse::cast] and [rc()]: the error text unless the response code
      is [TPM_RC_SUCCESS] *)
  tpm_response_ok : bytes → result bytes ();
  (** [Tpm2bDigest::try_from] and [tpm_marshal_command] into a 4 KiB buffer:
      the error as its [Debug] text *)
  tpm2b_digest : bytes → result bytes bytes;
  tpm_marshal_command : TpmCommand → Z → list TpmsAuthCommand → result bytes bytes;
  (** serde_json on the agent messages *)
  request_json : AgentRequest → result bytes bytes;
  request_of_json : bytes → result bytes AgentRequest;
  response_json : AgentResponse → result bytes bytes;
  response_of_json : bytes → result bytes AgentResponse;
}.

(** ** Compact JWS *)

Inductive JwtError `{!SignEnv} := JE_PemUtf8 | JE_PemParse | JE_SerializeClaims (e : SerdeError).

Definition HEADER_B64 : bytes := B "eyJ0eXAiOiJKV1QiLCJhbGciOiJSUzI1NiJ9".

Section jws.
Context {SE : SignEnv}.

Definition JwtError_display (e : JwtError) : bytes :=
  match e with
  | JE_PemUtf8 => B "PEM is not valid UTF-8"
  | JE_PemParse => B "PEM parse failed — not a recognised PKCS#1 or PKCS#8 RSA private key"
  | JE_SerializeClaims _ => B "claims serialization failed"
  end.

Definition JwtSigningKey_from_pem (pem_bytes : bytes) : result JwtError RsaKey :=
  pem ← map_err (λ _, JE_PemUtf8) (from_utf8 pem_bytes);
  match from_pkcs8_pem pem with
  | Some pkey => Ok pkey
  | None => ok_or JE_PemParse (from_pkcs1_pem pem)
  end.

Definition signing_input (claims : JwtClaims) : result JwtError bytes :=
  payload_json ← map_err JE_SerializeClaims (claims_json claims);
  Ok (HEADER_B64 ++ [x2e] ++ b64url payload_json).

Definition assemble_jwt (signing_input signature : bytes) : bytes :=
  signing_input ++ [x2e] ++ b64url signature.

(** [SigningKey::sign] hashes its input and signs the digest. *)
Definition sign_rs256 (key : RsaKey) (claims : JwtClaims) : result JwtError bytes :=
  input ← signing_input claims;
  let signature := rsa_sign_digest key (sha256 input) in
  Ok (assemble_jwt input signature).

(** ** TPM commands and responses: [tpm_backend/wire.rs] *)

Definition marshal (cmd : TpmCommand) (tag : Z) (auths : list TpmsAuthCommand) : result bytes bytes :=
  map_err (λ e, B "marshal: " ++ e) (tpm_marshal_command cmd tag auths).

Definition read_public_command (handle : Z) : result bytes bytes :=
  marshal (TpmReadPublicCommand handle) TPM_ST_NO_SESSIONS [].

Definition sign_command (handle : Z) (digest : bytes) : result bytes bytes :=
  digest ← map_err (λ e, B "digest: " ++ e) (tpm2b_digest digest);
  let cmd := TpmSignCommand handle digest (MkTpmtSigScheme TPM_ALG_RSASSA TPM_ALG_SHA256)
               (MkTpmtTkHashcheck TPM_ST_HASHCHECK TPM_RH_NULL []) in
  let auth := MkTpmsAuthCommand TPM_RS_PW [] 0 [] in
  marshal cmd TPM_ST_SESSIONS [auth].

(** [{:04x}] of a [u16] *)
Definition hex_nibble (n : Z) : byte := if n <? 10 then as_u8 (48 + n) else as_u8 (87 + n).
Definition hex4 (n : Z) : bytes :=
  [hex_nibble (n / 4096 mod 16); hex_nibble (n / 256 mod 16); hex_nibble (n / 16 mod 16); hex_nibble (n mod 16)].

(** The cursor is the bytes that are left. *)
Definition cursor_u16 (c : bytes) : result bytes (Z * bytes) :=
  match c with
  | a :: b :: c' => Ok (u8 a * 256 + u8 b, c')
  | _ => Err (B "truncated u16")
  end.

Definition cursor_u32 (c : bytes) : result bytes (Z * bytes) :=
  match c with
  | a :: b :: d :: e :: c' => Ok (((u8 a * 256 + u8 b) * 256 + u8 d) * 256 + u8 e, c')
  | _ => Err (B "truncated u32")
  end.

Definition cursor_tpm2b (c : bytes) : result bytes (bytes * bytes) :=
  '(n, c) ← cursor_u16 c;
  if len c <? n then Err (B "truncated TPM2B")
  else Ok (take (Z.to_nat n) c, drop (Z.to_nat n) c).

Definition response_ok (resp : bytes) : result bytes () :=
  tpm_response_ok resp.

(** [resp.get(10..)] *)
Definition response_body (resp : bytes) : result bytes bytes :=
  if len resp <? 10 then Err (B "no body") else Ok (drop 10 resp).

Definition parse_sign (resp : bytes) : result bytes bytes :=
  _ ← response_ok resp;
  c ← response_body resp;
  '(_, c) ← cursor_u32 c;
  '(sig_alg, c) ← cursor_u16 c;
  if negb (sig_alg =? TPM_ALG_RSASSA) then Err (B "unexpected signature alg 0x" ++ hex4 sig_alg)
  else
    '(_, c) ← cursor_u16 c;
    '(sig, _) ← cursor_tpm2b c;
    Ok sig.

Definition verify_rsa2048_signing_key (resp : bytes) : result bytes () :=
  _ ← response_ok resp;
  outer ← response_body resp;
  '(c, _) ← cursor_tpm2b outer;
  '(obj_type, c) ← cursor_u16 c;
  if negb (obj_type =? TPM_ALG_RSA) then Err (B "key is not RSA (type 0x" ++ hex4 obj_type ++ B ")")
  else
    '(_, c) ← cursor_u16 c;
    '(_, c) ← cursor_u32 c;
    '(_, c) ← cursor_tpm2b c;
    '(sym_alg, c) ← cursor_u16 c;
    if negb (sym_alg =? TPM_ALG_NULL) then Err (B "key symmetric alg 0x" ++ hex4 sym_alg ++ B " != NULL (not an unrestricted signing key)")
    else
      '(scheme, c) ← cursor_u16 c;
      c ← (if negb (scheme =? TPM_ALG_NULL) then '(_, c) ← cursor_u16 c; Ok c else Ok c);
      '(key_bits, _) ← cursor_u16 c;
      if negb (key_bits =? 2048) then Err (B "key is RSA-" ++ show_u64 key_bits ++ B ", expected RSA-2048")
      else Ok ().

(** ** Agent messages: [agent_protocol.rs] *)

Definition MAX_MESSAGE : Z := 8 * 1024.
Definition MAX_ERROR_LEN : Z := 1024.

(** [str::is_char_boundary] *)
Definition is_char_boundary (s : bytes) (i : nat) : bool :=
  match i with
  | O => true
  | _ => match s !! i with
         | Some b => negb (cont b)
         | None => bool_decide (i = length s)
         end
  end.

(** The [while] loop that steps back to a boundary. *)
Fixpoint floor_boundary (s : bytes) (i : nat) : nat :=
  if is_char_boundary s i then i
  else match i with O => O | S j => floor_boundary s j end.

Definition AgentResponse_error (s : bytes) : AgentResponse :=
  if MAX_ERROR_LEN <? len s
  then Resp_Error (take (floor_boundary s (Z.to_nat MAX_ERROR_LEN)) s)
  else Resp_Error s.

(** [encode]: [json] is what serde_json produced for the message. *)
Definition encode_message (json : result bytes bytes) : result bytes bytes :=
  b ← map_err (λ e, B "encode: " ++ e) json;
  if MAX_MESSAGE <? len b then Err (B "message " ++ show_u64 (len b) ++ B " bytes exceeds " ++ show_u64 MAX_MESSAGE)
  else Ok b.

(** ** The agent: [agent.rs] *)

(** [decode] *)
Definition decode_message {A} (json : result bytes A) : result bytes A :=
  map_err (λ e, B "decode: " ++ e) json.

Definition agent_handle (key : RsaKey) (datagram : bytes) : AgentResponse :=
  match decode_message (request_of_json datagram) with
  | Err e => AgentResponse_error e
  | Ok Req_Ping => Resp_Pong
  | Ok (Req_SignJwt claims) =>
      match sign_rs256 key claims with
      | Ok jwt => Resp_Jwt jwt
      | Err e => AgentResponse_error (B "sign: " ++ JwtError_display e)
      end
  end.

(** The result of a [send] of one datagram: the bytes the kernel took, or the
    error text. *)
Inductive SendRes := Send_n (n : Z) | Send_error (e : bytes).

(** What one [recv] of the agent's socket gives, and how the [send] of its
    reply goes. *)
Inductive AgentTurn :=
| Turn_recv (datagram : bytes) (sent : SendRes)
| Turn_eintr
| Turn_error (e : bytes).

(** [send] *)
Definition send_datagram (b : bytes) (r : SendRes) : result bytes () :=
  match r with
  | Send_error e => Err (B "send: " ++ e)
  | Send_n n => if negb (n =? len b) then Err (B "short send: " ++ show_u64 n ++ B " of " ++ show_u64 (len b))
                else Ok ()
  end.

(** [serve_loop] over what the socket delivers: the replies handed to [send],
    and how the loop ended ([None]: still serving).  The buffer keeps the first
    [MAX_MESSAGE] bytes of a datagram; an empty one is the peer's EOF. *)
Fixpoint serve_loop (key : RsaKey) (events : list AgentTurn) : list bytes * option (result bytes ()) :=
  match events with
  | [] => ([], None)
  | Turn_eintr :: events' => serve_loop key events'
  | Turn_error e :: _ => ([], Some (Err (B "recv: " ++ e)))
  | Turn_recv datagram sent :: events' =>
      let buf := take (Z.to_nat MAX_MESSAGE) datagram in
      if decide (buf = []) then ([], Some (Ok ()))
      else
        let reply := agent_handle key buf in
        match encode_message (response_json reply) with
        | Err e => ([], Some (Err e))
        | Ok b =>
            match send_datagram b sent with
            | Err e => ([b], Some (Err e))
            | Ok _ => let '(out, r) := serve_loop key events' in (b :: out, r)
            end
        end
  end.

(** [parse_args] *)
Fixpoint agent_args_loop (args : list bytes) (key_path : option bytes) : result bytes (option bytes) :=
  match args with
  | [] => Ok key_path
  | arg :: args' =>
      if decide (arg = B "--key-file") then
        match args' with
        | [] => Err (B "--key-file needs a value")
        | v :: args'' => agent_args_loop args'' (Some v)
        end
      else Err (B "unexpected agent arg: " ++ arg)
  end.

Definition agent_parse_args (args : list bytes) : result bytes bytes :=
  key_path ← agent_args_loop args None;
  ok_or (B "--key-file required") key_path.

(** ** The daemon side: an actor thread that owns the device or the socket

    [io] is one transaction; the actor exits after the first error, and every
    later job finds a closed channel. *)
Record Actor := MkActor { alive : bool }.

Definition actor_call (io : bytes → result JwtBackendError bytes) (a : Actor) (job : bytes) :
    Actor * result JwtBackendError bytes :=
  if alive a then
    let r := io job in
    (MkActor (is_ok r), r)
  else (a, Err JB_BackendDead).

(** *** The TPM device *)

Definition TPM_IO_BUF : Z := 4096.

(** A [write] that is not the last one: a partial count, an [EINTR] or an
    error. *)
Inductive WriteRes := Write_n (n : Z) | Write_eintr | Write_error (e : bytes).

(** [write_all] over the device's answers; when they are used up the device
    takes the rest in one [write]. *)
Fixpoint write_all (ws : list WriteRes) (b : bytes) : result JwtBackendError () :=
  if decide (b = []) then Ok ()
  else match ws with
       | [] => Ok ()
       | Write_eintr :: ws' => write_all ws' b
       | Write_error e :: _ => Err (JB_Io (B "tpm write: " ++ e))
       | Write_n n :: ws' => write_all ws' (drop (Z.to_nat n) b)
       end.

(** How the device behaves on a command: its [write]s, then its [read]. *)
Record DeviceRun := MkDeviceRun { dr_writes : list WriteRes; dr_read : result bytes bytes }.

Definition tpm_transact (dev : bytes → DeviceRun) (command : bytes) : result JwtBackendError bytes :=
  _ ← write_all (dr_writes (dev command)) command;
  match dr_read (dev command) with
  | Err e => Err (JB_Io (B "tpm read: " ++ e))
  | Ok data => let buf := take (Z.to_nat TPM_IO_BUF) data in
               if decide (buf = []) then Err JB_BackendDead else Ok buf
  end.

Definition TpmBackend_sign (dev : bytes → DeviceRun) (handle : Z) (a : Actor)
    (claims : JwtClaims) : Actor * result JwtBackendError bytes :=
  match map_err (λ e, JB_Backend (JwtError_display e)) (signing_input claims) with
  | Err e => (a, Err e)
  | Ok input =>
      let digest := sha256 input in
      match map_err (λ e, JB_Backend (B "build sign: " ++ e)) (sign_command handle digest) with
      | Err e => (a, Err e)
      | Ok command =>
          let '(a, response) := actor_call (tpm_transact dev) a command in
          (a, response ← response;
              signature ← map_err (λ e, JB_Backend (B "sign: " ++ e)) (parse_sign response);
              Ok (assemble_jwt input signature))
      end
  end.

Definition TpmBackend_self_check (dev : bytes → DeviceRun) (handle : Z) (a : Actor) :
    Actor * result JwtBackendError () :=
  match map_err (λ e, JB_Backend (B "build read_public: " ++ e)) (read_public_command handle) with
  | Err e => (a, Err e)
  | Ok command =>
      let '(a, response) := actor_call (tpm_transact dev) a command in
      (a, response ← response;
          map_err (λ e, JB_Backend (B "read_public: " ++ e)) (verify_rsa2048_signing_key response))
  end.

(** [TpmSpawn::open]: the device opened before the sandbox closes, by the result
    of [open]. *)
Definition TpmSpawn_open (device_path : bytes) (persistent_handle : Z) (opened : result bytes Z) : result JwtBackendError (Z * Z) :=
  fd ← map_err (λ e, JB_Construct (B "open " ++ device_path ++ B ": " ++ e)) opened;
  Ok (fd, persistent_handle).

(** *** The agent's socket *)

(** How the socket behaves on a request: the [send], the [recv]s that are
    interrupted, and what the last one gives. *)
Record SocketRun := MkSocketRun { sr_send : SendRes; sr_eintr : nat; sr_recv : result bytes bytes }.

(** [send] and [recv] of [agent_backend.rs]: one datagram each, an interrupted
    [recv] is repeated. *)
Definition backend_send (request : bytes) (r : SendRes) : result JwtBackendError () := map_err JB_Io (send_datagram request r).

Fixpoint backend_recv (eintr : nat) (r : result bytes bytes) : result JwtBackendError bytes :=
  match eintr with
  | S eintr => backend_recv eintr r
  | O => match r with
         | Err e => Err (JB_Io (B "recv: " ++ e))
         | Ok data => Ok (take (Z.to_nat MAX_MESSAGE) data)
         end
  end.

Definition agent_round_trip (sock : bytes → SocketRun) (request : bytes) : result JwtBackendError bytes :=
  _ ← backend_send request (sr_send (sock request));
  buf ← backend_recv (sr_eintr (sock request)) (sr_recv (sock request));
  if decide (buf = []) then Err JB_BackendDead else Ok buf.

Definition AgentBackend_round_trip (sock : bytes → SocketRun) (a : Actor) (req : AgentRequest) :
    Actor * result JwtBackendError AgentResponse :=
  match map_err JB_Protocol (encode_message (request_json req)) with
  | Err e => (a, Err e)
  | Ok b =>
      let '(a, response_bytes) := actor_call (agent_round_trip sock) a b in
      (a, r ← response_bytes; map_err JB_Protocol (decode_message (response_of_json r)))
  end.

Definition AgentBackend_sign (sock : bytes → SocketRun) (a : Actor) (claims : JwtClaims) :
    Actor * result JwtBackendError bytes :=
  let '(a, r) := AgentBackend_round_trip sock a (Req_SignJwt claims) in
  (a, r ← r;
      match r with
      | Resp_Jwt jwt => Ok jwt
      | Resp_Error msg => Err (JB_Rejected msg)
      | Resp_Pong => Err (JB_Protocol (B "expected Jwt, got Pong"))
      end).

Definition AgentBackend_self_check (sock : bytes → SocketRun) (a : Actor) :
    Actor * result JwtBackendError () :=
  let '(a, r) := AgentBackend_round_trip sock a Req_Ping in
  (a, r ← r;
      match r with
      | Resp_Pong => Ok ()
      | Resp_Error msg => Err (JB_Rejected msg)
      | Resp_Jwt _ => Err (JB_Protocol (B "expected Pong, got Jwt"))
      end).

(** ** Lemmas *)

Lemma cursor_u16_Ok c n c' :
  cursor_u16 c = Ok (n, c') ↔ ∃ a b, c = a :: b :: c' ∧ n = u8 a * 256 + u8 b.
Proof. unfold cursor_u16. destruct c as [|a [|b c]]; naive_solver. Qed.

Lemma cursor_u32_Ok c n c' :
  cursor_u32 c = Ok (n, c') ↔
  ∃ a b d e, c = a :: b :: d :: e :: c' ∧ n = ((u8 a * 256 + u8 b) * 256 + u8 d) * 256 + u8 e.
Proof. unfold cursor_u32. destruct c as [|a [|b [|d [|e c]]]]; naive_solver. Qed.

Lemma cursor_tpm2b_Ok c s c' :
  cursor_tpm2b c = Ok (s, c') ↔ ∃ a b, c = a :: b :: s ++ c' ∧ len s = u8 a * 256 + u8 b.
Proof.
  unfold cursor_tpm2b. split.
  - intros H. inv_ok. match goal with H : cursor_u16 _ = _ |- _ => apply cursor_u16_Ok in H as (a & b & -> & ->) end.
    destruct (_ <? _) eqn:E; [done|]. injection H as <- <-. exists a, b. rewrite take_drop. split; [done|].
    pose proof (u8_range a). pose proof (u8_range b). rewrite len_take. lia.
  - intros (a & b & -> & Hl). cbn [cursor_u16 mbind result_bind]. rewrite <-Hl.
    destruct (_ <? _) eqn:E; [rewrite len_app in E; pose proof (len_nonneg c'); lia|].
    by rewrite len_to_nat, take_app_length, drop_app_length.
Qed.

(** Dropping whole characters in front keeps the boundaries behind them. *)
Lemma boundary_drop w l i :
  is_char_boundary l (w + S i) = true → is_char_boundary (drop w l) (S i) = true.
Proof.
  replace (w + S i)%nat with (S (w + i)) by lia. cbn. rewrite lookup_drop.
  replace (w + S i)%nat with (S (w + i)) by lia.
  destruct (l !! S (w + i)); [done|]. rewrite !bool_decide_eq_true, length_drop. lia.
Qed.

Lemma boundary_not_cont l i b : l !! S i = Some b → is_char_boundary l (S i) = true → cont b = false.
Proof. intros H. cbn. rewrite H. by destruct (cont b). Qed.

(** A prefix of a valid string that ends on a character boundary is valid. *)
Lemma utf8_prefix l i off :
  is_ok (utf8_chars off l) = true → is_char_boundary l i = true → (i <= length l)%nat →
  is_ok (utf8_chars off (take i l)) = true.
Proof.
  revert i off. induction l as [l IH] using list_len_ind. intros i off Hok Hb Hi.
  destruct i as [|i]; [done|]. destruct l as [|b0 l]; [done|]. cbn [take].
  assert (∀ w rest j off', (length rest < length (b0 :: l))%nat → rest = drop w (b0 :: l) → S i = (w + j)%nat →
    is_ok (utf8_chars off' rest) = true → is_ok (utf8_chars off' (take j rest)) = true) as Hrec.
  { intros w rest j off' Hlt -> Hj Hr. apply IH; [done|done| |rewrite length_drop; lia].
    destruct j as [|j]; [done|]. apply boundary_drop. by rewrite <-Hj. }
  assert (∀ (r : result Z (list (Z * Z))) (f : list (Z * Z) → list (Z * Z)),
    is_ok (r ≫= (λ cs, mret (f cs))) = is_ok r) as Hbind by (by intros []).
  cbn [utf8_chars] in *.
  destruct (u8 b0 <? 128).
  { rewrite Hbind in *. by apply (Hrec 1%nat l i (off + 1)); [cbn; lia|done|lia|]. }
  destruct (in_range 194 223 b0).
  { destruct l as [|b1 l]; [done|]. destruct (cont b1) eqn:C1; [|done]. rewrite Hbind in Hok.
    destruct i as [|i]; [exfalso; pose proof (boundary_not_cont (b0 :: b1 :: l) 0 b1 eq_refl Hb); congruence|].
    cbn [take]. rewrite C1, Hbind. by apply (Hrec 2%nat l i (off + 2)); [cbn; lia|done|lia|]. }
  destruct (in_range 224 239 b0).
  { destruct l as [|b1 [|b2 l]]; [done|done|]. destruct (second3 b0 b1 && cont b2) eqn:C; [|done].
    apply andb_true_iff in C as [C1 C2]. assert (cont b1 = true) as C1'.
    { unfold second3 in C1. unfold cont, in_range in *. repeat case_decide; lia. }
    rewrite Hbind in Hok.
    destruct i as [|[|i]].
    - pose proof (boundary_not_cont (b0 :: b1 :: b2 :: l) 0 b1 eq_refl Hb). congruence.
    - pose proof (boundary_not_cont (b0 :: b1 :: b2 :: l) 1 b2 eq_refl Hb). congruence.
    - cbn [take]. rewrite C1, C2. cbn [andb]. rewrite Hbind. by apply (Hrec 3%nat l i (off + 3)); [cbn; lia|done|lia|]. }
  destruct (in_range 240 244 b0); [|done].
  destruct l as [|b1 [|b2 [|b3 l]]]; [done|done|done|]. destruct (second4 b0 b1 && cont b2 && cont b3) eqn:C; [|done].
  apply andb_true_iff in C as [[C1 C2]%andb_true_iff C3]. assert (cont b1 = true) as C1'.
  { unfold second4 in C1. unfold cont, in_range in *. repeat case_decide; lia. }
  rewrite Hbind in Hok.
  destruct i as [|[|[|i]]].
  - pose proof (boundary_not_cont (b0 :: b1 :: b2 :: b3 :: l) 0 b1 eq_refl Hb). congruence.
  - pose proof (boundary_not_cont (b0 :: b1 :: b2 :: b3 :: l) 1 b2 eq_refl Hb). congruence.
  - pose proof (boundary_not_cont (b0 :: b1 :: b2 :: b3 :: l) 2 b3 eq_refl Hb). congruence.
  - cbn [take]. rewrite C1, C2, C3. cbn [andb]. rewrite Hbind. by apply (Hrec 4%nat l i (off + 4)); [cbn; lia|done|lia|].
Qed.

Lemma floor_boundary_spec s i :
  (floor_boundary s i <= i)%nat ∧ is_char_boundary s (floor_boundary s i) = true.
Proof.
  induction i as [|i IH]; [by cbn|]. cbn [floor_boundary].
  destruct (is_char_boundary s (S i)) eqn:E; [done|]. destruct IH. split; [lia|done].
Qed.

(** A valid string starts with a lead byte, and its characters are at most four
    bytes long, so it never has four continuation bytes in a row. *)
Lemma utf8_head_not_cont off b l : is_ok (utf8_chars off (b :: l)) = true → cont b = false.
Proof.
  cbn [utf8_chars]. unfold cont, in_range.
  destruct (u8 b <? 128) eqn:E1; [intros _; lia|].
  destruct ((194 <=? u8 b) && _) eqn:E2; [intros _; lia|].
  destruct ((224 <=? u8 b) && _) eqn:E3; [intros _; lia|].
  destruct ((240 <=? u8 b) && _) eqn:E4; [intros _; lia|done].
Qed.

Lemma utf8_no_four_cont l off j :
  is_ok (utf8_chars off l) = true →
  (∀ k, (k < 4)%nat → ∃ b, l !! (j + k)%nat = Some b ∧ cont b = true) → False.
Proof.
  revert off j. induction l as [l IH] using list_len_ind. intros off j Hok Hc.
  destruct l as [|b0 l]; [destruct (Hc 0%nat ltac:(lia)) as (? & [=] & _)|].
  pose proof (utf8_head_not_cont _ _ _ Hok) as H0.
  assert (∀ (r : result Z (list (Z * Z))) (f : list (Z * Z) → list (Z * Z)),
    is_ok (r ≫= (λ cs, mret (f cs))) = is_ok r) as Hbind by (by intros []).
  assert (∀ w off', (0 < w <= 4)%nat → (w <= length (b0 :: l))%nat →
    is_ok (utf8_chars off' (drop w (b0 :: l))) = true → False) as Hrec.
  { intros w off' Hw Hlen Hr. destruct (decide (w <= j)%nat) as [Hj|Hj].
    - apply (IH (drop w (b0 :: l)) ltac:(rewrite length_drop; lia) off' (j - w)%nat Hr). intros k Hk.
      rewrite lookup_drop. replace (w + (j - w + k))%nat with (j + k)%nat by lia. auto.
    - destruct (decide (j = 0%nat)) as [->|]; [destruct (Hc 0%nat ltac:(lia)) as (? & [= <-] & ?); congruence|].
      destruct (Hc (w - j)%nat ltac:(lia)) as (b & Hb & Hcb). replace (j + (w - j))%nat with w in Hb by lia.
      rewrite (drop_S _ b w Hb) in Hr. apply utf8_head_not_cont in Hr. congruence. }
  cbn [utf8_chars] in Hok. repeat case_match; try done; rewrite Hbind in Hok; subst.
  - by apply (Hrec 1%nat (off + 1)); [lia|cbn; lia|].
  - by apply (Hrec 2%nat (off + 2)); [lia|cbn; lia|].
  - by apply (Hrec 3%nat (off + 3)); [lia|cbn; lia|].
  - by apply (Hrec 4%nat (off + 4)); [lia|cbn; lia|].
Qed.

Lemma floor_boundary_near s i :
  is_ok (utf8_chars 0 s) = true → (i < length s)%nat → (i - 4 < floor_boundary s i)%nat ∨ (i < 4)%nat.
Proof.
  intros Hok Hi. destruct (decide (i < 4)%nat) as [|H4]; [by right|]. left.
  destruct (decide (floor_boundary s i <= i - 4)%nat) as [Hf|]; [exfalso|lia].
  assert (∀ i j, (floor_boundary s i < j <= i)%nat → is_char_boundary s j = false) as Hnb.
  { clear. induction i as [|i IH]; intros j Hj; [lia|]. cbn [floor_boundary] in Hj.
    destruct (is_char_boundary s (S i)) eqn:E; [lia|]. destruct (decide (j = S i)) as [->|]; [done|].
    apply IH. lia. }
  apply (utf8_no_four_cont s 0 (i - 3)%nat Hok). intros k Hk.
  specialize (Hnb i (i - 3 + k)%nat ltac:(lia)). unfold is_char_boundary in Hnb.
  destruct (i - 3 + k)%nat eqn:Ek; [done|].
  destruct (lookup_lt_is_Some_2 s (S n) ltac:(lia)) as [b Hb]. rewrite Hb in Hnb |- *.
  exists b. split; [done|]. by destruct (cont b).
Qed.

(** ** The claims *)

(** [JwtClaims::new] stamps a window around the current second that GitHub
    accepts: [iat] is not after and [exp] not before it, the lifetime never
    exceeds ten minutes and is exactly ten minutes once the clock is a minute
    past the epoch; a clock before the epoch counts as the epoch.  Both stamps
    fit in a [u64] whatever the clock says. *)
Theorem JwtClaims_window now client_id :
  unix_secs now <= u64_max - LIFETIME_SECS →
  let c := JwtClaims_new now client_id in
  iss c = client_id ∧
  0 <= iat c <= unix_secs now ∧ unix_secs now < exp c <= u64_max ∧
  exp c - iat c <= 600 ∧
  (60 <= unix_secs now → iat c = unix_secs now - 60 ∧ exp c - iat c = 600) ∧
  (now < 0 → iat c = 0 ∧ exp c = 540).
Proof.
  intros H. assert (0 <= unix_secs now) as H0.
  { unfold unix_secs. destruct (now <? 0) eqn:E; [done|]. apply Z.div_pos; [lia|done]. }
  assert (now < 0 → unix_secs now = 0) as Hneg.
  { intros Hn. unfold unix_secs. by replace (now <? 0) with true by lia. }
  cbn. unfold saturating_sub, saturating_add_u64, LEEWAY_PAST_SECS, LIFETIME_SECS, u64_max in *.
  split_and!; try done; try lia.
  all: intros Hn; split; lia.
Qed.

(** ** Error messages *)

(** An error response carries at most [MAX_ERROR_LEN] bytes, a prefix of
    the message that is the whole of it when it fits, and a string that was
    UTF-8 stays UTF-8: the cut never lands inside a character. *)
Lemma AgentResponse_error_spec s :
  is_ok (utf8_chars 0 s) = true →
  ∃ t, AgentResponse_error s = Resp_Error t ∧ len t <= MAX_ERROR_LEN ∧
       t `prefix_of` s ∧ is_ok (utf8_chars 0 t) = true ∧
       (len s <= MAX_ERROR_LEN → t = s) ∧
       (MAX_ERROR_LEN < len s → MAX_ERROR_LEN - 4 < len t).
Proof.
  intros Hs. unfold AgentResponse_error. destruct (MAX_ERROR_LEN <? len s) eqn:E.
  - pose proof (floor_boundary_spec s (Z.to_nat MAX_ERROR_LEN)) as [Hle Hb].
    pose proof (floor_boundary_near s (Z.to_nat MAX_ERROR_LEN) Hs ltac:(unfold len, MAX_ERROR_LEN in *; lia)) as Hn.
    eexists. split_and!; [done| | | |lia|].
    + rewrite len_take. unfold MAX_ERROR_LEN in *. lia.
    + apply prefix_take.
    + apply utf8_prefix; [done|done|]. unfold len, MAX_ERROR_LEN in *. lia.
    + intros _. rewrite len_take. unfold MAX_ERROR_LEN in *. lia.
  - exists s. split_and!; [done|lia|done|done|done|lia].
Qed.

(** ** The two backends *)

(** What serde_json and base64 document: decoding inverts encoding, no JSON
    text is empty, and the URL-safe alphabet has no dot. *)
Class SignLaws := {
  b64url_no_dot : ∀ b, (x2e ∉ b64url b);
  request_json_inv : ∀ r j, request_json r = Ok j → j ≠ [] ∧ request_of_json j = Ok r;
  response_json_inv : ∀ r j, response_json r = Ok j → j ≠ [] ∧ response_of_json j = Ok r;
}.
Context {SL : SignLaws}.

(** A [TPM2_Sign] response: header, parameter size, algorithms, signature,
    authorisation area. *)
Definition sign_response (hdr psize hash sig auth : bytes) : bytes :=
  hdr ++ psize ++ [x00; x14] ++ hash ++ [as_u8 (len sig / 256); as_u8 (len sig)] ++ sig ++ auth.

Lemma parse_sign_response hdr psize hash sig auth :
  length hdr = 10%nat → length psize = 4%nat → length hash = 2%nat → len sig < 65536 →
  tpm_response_ok (sign_response hdr psize hash sig auth) = Ok () →
  parse_sign (sign_response hdr psize hash sig auth) = Ok sig.
Proof.
  intros H1 H2 H3 H4 Hrc. unfold parse_sign, response_ok. rewrite Hrc. cbn [mbind result_bind].
  unfold sign_response, response_body. rewrite len_app.
  replace (len hdr) with 10 by (unfold len; lia).
  destruct (_ <? 10) eqn:E; [pose proof (len_nonneg (psize ++ [x00; x14] ++ hash ++ [as_u8 (len sig / 256); as_u8 (len sig)] ++ sig ++ auth)); lia|].
  cbn [mbind result_bind]. rewrite (drop_app_length' hdr) by lia.
  destruct psize as [|p1 [|p2 [|p3 [|p4 [|]]]]]; try done. destruct hash as [|h1 [|h2 [|]]]; try done.
  cbn -[cursor_tpm2b Z.div]. pose proof (len_nonneg sig).
  assert (cursor_tpm2b (as_u8 (len sig / 256) :: as_u8 (len sig) :: sig ++ auth) = Ok (sig, auth)) as ->; [|done].
  apply cursor_tpm2b_Ok. eexists _, _. split; [done|].
  pose proof (Z.div_mod (len sig) 256 ltac:(lia)). pose proof (Z.mod_pos_bound (len sig) 256 ltac:(lia)).
  replace (as_u8 (len sig)) with (as_u8 (len sig mod 256)) by (unfold as_u8; by rewrite Z.mod_mod by lia).
  rewrite !u8_as_u8 by lia. lia.
Qed.

(** A [write_all] that meets no error succeeds. *)
Definition write_fails (w : WriteRes) : bool := match w with Write_error _ => true | _ => false end.

Lemma write_all_ok ws b : Forall (λ w, write_fails w = false) ws → write_all ws b = Ok ().
Proof.
  intros H. revert b. induction H as [|w ws Hw _ IH]; intros b; cbn; case_decide; try done.
  by destruct w.
Qed.

(** A device that holds [key] behind [handle]. *)
Definition tpm_holds (key : RsaKey) (handle : Z) (dev : bytes → DeviceRun) : Prop :=
  ∀ digest command, sign_command handle digest = Ok command →
    Forall (λ w, write_fails w = false) (dr_writes (dev command)) ∧
    ∃ hdr psize hash auth,
      let resp := sign_response hdr psize hash (rsa_sign_digest key digest) auth in
      length hdr = 10%nat ∧ length psize = 4%nat ∧ length hash = 2%nat ∧
      len (rsa_sign_digest key digest) < 65536 ∧ len resp <= TPM_IO_BUF ∧
      tpm_response_ok resp = Ok () ∧ dr_read (dev command) = Ok resp.

(** The turn of the agent's loop in which [request] arrives, after [eintr]
    interrupted [recv]s: on the socket pair of kind [SEQPACKET] a datagram is
    taken whole, so the [send] of the reply takes as many bytes as it has. *)
Definition agent_turn (key : RsaKey) (eintr : nat) (request : bytes) : list AgentTurn :=
  replicate eintr Turn_eintr ++
  [Turn_recv request
     (Send_n (match encode_message (response_json (agent_handle key (take (Z.to_nat MAX_MESSAGE) request))) with
              | Ok reply => len reply
              | Err _ => 0
              end))].

(** The daemon's end of the pair, with the agent's own [serve_loop] at the other
    end: the reply arrives when the loop has sent it and goes on serving; a loop
    that has ended closes its end, which reads as an empty datagram.  [eintr]
    and [eintr'] interruptions meet the two [recv]s. *)
Definition agent_socket (key : RsaKey) (eintr eintr' : nat) (request : bytes) : SocketRun :=
  MkSocketRun (Send_n (len request)) eintr'
    (match serve_loop key (agent_turn key eintr request) with
     | (reply :: _, None) => Ok reply
     | _ => Ok []
     end).

Lemma encode_message_Ok j b : encode_message j = Ok b → j = Ok b ∧ len b <= MAX_MESSAGE.
Proof. unfold encode_message. intros H. inv_ok. destruct (_ <? _) eqn:E; inv_ok. split; [done|lia]. Qed.

(** The agent answers a request and serves on. *)
Lemma agent_turn_serves key eintr request reply events :
  request ≠ [] → len request <= MAX_MESSAGE →
  encode_message (response_json (agent_handle key request)) = Ok reply →
  serve_loop key (agent_turn key eintr request ++ events) = (reply :: (serve_loop key events).1, (serve_loop key events).2).
Proof.
  intros Hne Hlen He. unfold agent_turn. rewrite <-(assoc_L (++)). induction eintr as [|n IH]; [|exact IH].
  cbn -[encode_message agent_handle send_datagram]. rewrite take_ge by (unfold len in Hlen; lia). rewrite decide_False by done.
  rewrite He. unfold send_datagram. rewrite Z.eqb_refl. cbn [negb]. by destruct (serve_loop key events).
Qed.

Lemma agent_socket_recv key eintr eintr' request reply :
  request ≠ [] → len request <= MAX_MESSAGE →
  encode_message (response_json (agent_handle key request)) = Ok reply →
  sr_recv (agent_socket key eintr eintr' request) = Ok reply.
Proof.
  intros Hne Hlen He. unfold agent_socket. cbn [sr_recv]. rewrite <-(app_nil_r (agent_turn key eintr request)).
  by rewrite (agent_turn_serves _ _ _ reply).
Qed.

(** However often it is interrupted, [recv] gives what the last call gives. *)
Lemma backend_recv_eintr eintr r : backend_recv eintr r = backend_recv 0 r.
Proof. induction eintr as [|eintr IH]; [done|exact IH]. Qed.

Lemma agent_round_trip_ok key eintr eintr' request reply :
  request ≠ [] → len request <= MAX_MESSAGE → reply ≠ [] →
  encode_message (response_json (agent_handle key request)) = Ok reply →
  agent_round_trip (agent_socket key eintr eintr') request = Ok reply.
Proof.
  intros Hne Hlen Hr He. unfold agent_round_trip, backend_send. cbn [sr_send sr_eintr agent_socket send_datagram].
  rewrite Z.eqb_refl. cbn [negb map_err mbind result_bind].
  rewrite backend_recv_eintr, (agent_socket_recv _ _ _ _ reply) by done. apply encode_message_Ok in He as [_ He]. cbn [backend_recv mbind result_bind].
  rewrite take_ge by (unfold len in He; lia). by rewrite decide_False.
Qed.

Lemma tpm_transact_ok key handle dev digest command :
  tpm_holds key handle dev → sign_command handle digest = Ok command →
  ∃ resp, tpm_transact dev command = Ok resp ∧ parse_sign resp = Ok (rsa_sign_digest key digest).
Proof.
  intros Hd Hc. destruct (Hd _ _ Hc) as (Hw & hdr & psize & hash & auth & H1 & H2 & H3 & H4 & H5 & H6 & H7).
  eexists. split; [|by apply parse_sign_response].
  unfold tpm_transact. rewrite write_all_ok by done. cbn [mbind result_bind]. rewrite H7.
  rewrite take_ge by (unfold len in H5; lia). rewrite decide_False; [done|].
  intros He. apply (f_equal length) in He. unfold sign_response in He. rewrite !length_app in He. cbn in He. lia.
Qed.

(** C29: the two backends implement the same signer.  When the TPM holds the
    key the agent was started with, the command and the datagrams can be
    encoded and the claims serialise, [TpmBackend::sign] and
    [AgentBackend::sign] (the latter talking to the agent's own serve loop over
    a socket pair that takes datagrams whole, however often either [recv] is
    interrupted) both return the JWT that [JwtSigningKey::sign_rs256] gives and
    leave their actor running; the agent has sent exactly that reply and goes on
    to serve whatever comes next; and the JWT is [header.payload.signature] with
    the signature over the SHA-256 of [header.payload]. *)
Theorem backends_agree key handle dev eintr eintr' claims jwt cmd payload req resp :
  tpm_holds key handle dev →
  claims_json claims = Ok payload →
  sign_command handle (sha256 (HEADER_B64 ++ [x2e] ++ b64url payload)) = Ok cmd →
  sign_rs256 key claims = Ok jwt →
  encode_message (request_json (Req_SignJwt claims)) = Ok req →
  encode_message (response_json (Resp_Jwt jwt)) = Ok resp →
  TpmBackend_sign dev handle (MkActor true) claims = (MkActor true, Ok jwt) ∧
  AgentBackend_sign (agent_socket key eintr eintr') (MkActor true) claims = (MkActor true, Ok jwt) ∧
  (∀ events, serve_loop key (agent_turn key eintr req ++ events) = (resp :: (serve_loop key events).1, (serve_loop key events).2)) ∧
  split_on x2e jwt =
    [HEADER_B64; b64url payload;
     b64url (rsa_sign_digest key (sha256 (HEADER_B64 ++ [x2e] ++ b64url payload)))].
Proof.
  intros Hd Hp Hc Hs Hreq Hresp.
  assert (signing_input claims = Ok (HEADER_B64 ++ [x2e] ++ b64url payload)) as Hi.
  { unfold signing_input. by rewrite Hp. }
  pose proof Hs as Hs'. unfold sign_rs256 in Hs'. rewrite Hi in Hs'. cbn [mbind result_bind] in Hs'.
  assert (∀ x y, @Ok JwtError bytes x = Ok y → x = y) as Hinj by (by intros ?? [=]). apply Hinj in Hs' as Hj.
  pose proof (encode_message_Ok _ _ Hreq) as [Hrj Hrl]. apply request_json_inv in Hrj as [Hne Hdec].
  assert (agent_handle key req = Resp_Jwt jwt) as Hh.
  { unfold agent_handle. rewrite Hdec. cbn. by rewrite Hs. }
  split_and!.
  - unfold TpmBackend_sign. rewrite Hi. cbn [map_err]. rewrite Hc. cbn [map_err].
    destruct (tpm_transact_ok _ _ _ _ _ Hd Hc) as (r & Hr & Hpr). unfold actor_call. cbn [alive].
    rewrite Hr. cbn [mbind result_bind is_ok]. rewrite Hpr. cbn. by rewrite <-Hj.
  - pose proof (encode_message_Ok _ _ Hresp) as [Hpj _]. apply response_json_inv in Hpj as [Hne' Hdec'].
    unfold AgentBackend_sign, AgentBackend_round_trip. rewrite Hreq. cbn [map_err]. unfold actor_call. cbn [alive].
    rewrite (agent_round_trip_ok _ _ _ _ resp); [|done..|by rewrite Hh].
    cbn [is_ok mbind result_bind]. by rewrite Hdec'.
  - intros events. apply agent_turn_serves; [done..|by rewrite Hh].
  - rewrite <-Hj. unfold assemble_jwt. rewrite <-(assoc_L (++) HEADER_B64). cbn [app].
    rewrite split_on_app by (apply (bool_decide_unpack _); by vm_compute).
    rewrite split_on_app by apply b64url_no_dot. by rewrite split_on_no_sep by apply b64url_no_dot.
Qed.

(** ** Fail-stop actors *)

(** The actor over a sequence of jobs. *)
Fixpoint actor_run (io : bytes → result JwtBackendError bytes) (a : Actor) (jobs : list bytes) :
    list (result JwtBackendError bytes) :=
  match jobs with
  | [] => []
  | j :: jobs' => let '(a, r) := actor_call io a j in r :: actor_run io a jobs'
  end.

Lemma actor_run_dead io jobs : actor_run io (MkActor false) jobs = replicate (length jobs) (Err JB_BackendDead).
Proof. induction jobs as [|j jobs IH]; cbn; [done|]. by rewrite IH. Qed.

(** Jobs are answered by the device up to and including its first error; the
    device sees nothing after it, and every later job gets [BackendDead]. *)
Lemma actor_fail_stop io jobs1 job jobs2 e :
  Forall (λ j, is_ok (io j) = true) jobs1 → io job = Err e →
  actor_run io (MkActor true) (jobs1 ++ job :: jobs2) =
    (io <$> jobs1) ++ Err e :: replicate (length jobs2) (Err JB_BackendDead).
Proof.
  intros Hok He. induction Hok as [|j jobs Hj _ IH]; cbn.
  - rewrite He. cbn. by rewrite actor_run_dead.
  - rewrite Hj. cbn. f_equal. exact IH.
Qed.

End jws.


(** ** A concrete environment

    Text encodings that satisfy the laws: every message is written as the bit
    string of its code, base64 as hexadecimal, and the signature is the key
    byte followed by the digest. *)

Fixpoint bits_of (p : positive) : bytes :=
  match p with xH => [] | xO p => x30 :: bits_of p | xI p => x31 :: bits_of p end.

Fixpoint of_bits (l : bytes) : positive :=
  match l with [] => xH | b :: l => if decide (b = x30) then xO (of_bits l) else xI (of_bits l) end.

Lemma of_bits_of p : of_bits (bits_of p) = p.
Proof. induction p as [p IH|p IH|]; cbn; by rewrite ?IH. Qed.

#[export] Instance JwtClaims_eq_dec : EqDecision JwtClaims.
Proof. solve_decision. Defined.
#[export] Instance JwtClaims_countable : Countable JwtClaims.
Proof.
  refine (inj_countable' (λ c, (iss c, iat c, exp c)) (λ '(i, a, e), MkJwtClaims i a e) _). by intros [].
Defined.
#[export] Instance AgentRequest_eq_dec : EqDecision AgentRequest.
Proof. solve_decision. Defined.
#[export] Instance AgentRequest_countable : Countable AgentRequest.
Proof.
  refine (inj_countable' (λ r, match r with Req_SignJwt c => Some c | Req_Ping => None end)
    (λ o, match o with Some c => Req_SignJwt c | None => Req_Ping end) _). by intros [].
Defined.
#[export] Instance AgentResponse_eq_dec : EqDecision AgentResponse.
Proof. solve_decision. Defined.
#[export] Instance AgentResponse_countable : Countable AgentResponse.
Proof.
  refine (inj_countable'
    (λ r, match r with Resp_Jwt j => inl j | Resp_Pong => inr None | Resp_Error m => inr (Some m) end)
    (λ o, match o with inl j => Resp_Jwt j | inr None => Resp_Pong | inr (Some m) => Resp_Error m end) _). by intros [].
Defined.

Definition text_of {A} `{Countable A} (a : A) : bytes := x7b :: bits_of (encode a).
Definition of_text {A} `{Countable A} (t : bytes) : result bytes A :=
  match t with x7b :: l => ok_or (B "expected value") (decode (of_bits l)) | _ => Err (B "expected value") end.

Lemma of_text_of {A} `{Countable A} (a : A) : of_text (text_of a) = Ok a.
Proof. unfold of_text, text_of. by rewrite of_bits_of, decode_encode. Qed.

Definition hex_byte (b : byte) : bytes := [hex_nibble (u8 b / 16); hex_nibble (u8 b mod 16)].

Definition sign_model : SignEnv := {|
  SerdeError := False;
  RsaKey := byte;
  claims_json c := Ok (iss c);
  b64url b := b ≫= hex_byte;
  sha256 b := take 4 (reverse b);
  rsa_sign_digest k d := k :: d;
  from_pkcs8_pem pem := head pem;
  from_pkcs1_pem _ := None;
  tpm_response_ok r := if decide (take 4 (drop 6 r) = [x00; x00; x00; x00]) then Ok () else Err (B "TPM returned an error");
  tpm2b_digest d := if len d <=? 64 then Ok d else Err (B "CapacityExceeded");
  tpm_marshal_command c _ _ := Ok (match c with TpmReadPublicCommand h => [as_u8 h] | TpmSignCommand h d _ _ => as_u8 h :: d end);
  request_json r := Ok (text_of r);
  request_of_json := of_text;
  response_json r := Ok (text_of r);
  response_of_json := of_text;
|}.

Lemma hex_byte_no_dot b : x2e ∉ hex_byte b.
Proof. apply (bool_decide_unpack _). destruct b; by vm_compute. Qed.

Lemma sign_model_laws : @SignLaws sign_model.
Proof.
  split; cbn.
  - intros b. rewrite list_elem_of_bind. intros (c & Hc & _). by apply (hex_byte_no_dot c).
  - intros r j [= <-]. split; [done|apply of_text_of].
  - intros r j [= <-]. split; [done|apply of_text_of].
Qed.

Definition demo_claims : JwtClaims := JwtClaims_new (from_secs 1700000000) (B "Iv1").

(** A device that answers every signing command with the key's signature; it
    takes the command in three writes. *)
Definition demo_tpm (key : byte) (command : bytes) : DeviceRun :=
  MkDeviceRun [Write_n 1; Write_eintr]
    (Ok (@sign_response (replicate 10 x00) [x00; x00; x00; x08] [x00; x0b] (key :: drop 1 command) [])).

Lemma demo_tpm_holds key handle : @tpm_holds sign_model key handle (demo_tpm key).
Proof.
  intros digest command. unfold sign_command, marshal. cbn [tpm2b_digest tpm_marshal_command sign_model].
  destruct (len digest <=? 64) eqn:E; cbn; intros [= <-]. split; [by repeat constructor|].
  exists (replicate 10 x00), [x00; x00; x00; x08], [x00; x0b], []. cbn [rsa_sign_digest sign_model].
  split_and!; [done..| | |by vm_compute|done].
  - rewrite len_cons. lia.
  - unfold sign_response, TPM_IO_BUF. rewrite !len_app, len_cons. change (len (replicate 10 x00)) with 10.
    unfold len in *. cbn [length]. lia.
Qed.

Lemma JwtClaims_window_witness :
  iat demo_claims = 1699999940 ∧ exp demo_claims = 1700000540 ∧
  0 <= iat demo_claims <= unix_secs (from_secs 1700000000).
Proof.
  split_and!; [done|done|apply (JwtClaims_window (from_secs 1700000000) (B "Iv1")); by vm_compute..].
Defined.

Lemma AgentResponse_error_witness :
  is_ok (utf8_chars 0 (replicate 1023 x61 ++ [xc3; xa9; x62])) = true ∧
  ∃ t, @AgentResponse_error (replicate 1023 x61 ++ [xc3; xa9; x62]) = Resp_Error t ∧ len t <= MAX_ERROR_LEN.
Proof.
  split; [by vm_compute|].
  destruct (AgentResponse_error_spec (replicate 1023 x61 ++ [xc3; xa9; x62])) as (t & H & Hl & _); [by vm_compute|].
  exists t. split; [exact H|exact Hl].
Defined.

Lemma backends_agree_witness :
  (@TpmBackend_sign sign_model (demo_tpm x07) 9 (MkActor true) demo_claims).2 =
  (@AgentBackend_sign sign_model (@agent_socket sign_model x07 1 2) (MkActor true) demo_claims).2.
Proof.
  pose proof (@backends_agree sign_model sign_model_laws x07 9 (demo_tpm x07) 1 2 demo_claims) as H.
  edestruct H as (H1 & H2 & _); [apply demo_tpm_holds|by vm_compute..|].
  by rewrite H1, H2.
Defined.

(** The readiness probe does not look at the key's signing scheme: a key bound
    to RSAPSS (0x0016), with which [TPM2_Sign] under RSASSA cannot succeed,
    passes it. *)
Lemma verify_accepts_rsapss :
  @verify_rsa2048_signing_key sign_model
    (replicate 10 x00 ++
     [x00; x16; x00; x01; x00; x0b; x00; x04; x00; x72; x00; x00; x00; x10; x00; x16; x00; x0b; x08; x00;
      x00; x00; x00; x00]) = Ok ().
Proof. by vm_compute. Qed.
