(* ===== verification/AgentWire.v ===== *)
(** * The agent protocol on the wire: the serde derives of
    [providers/agent_protocol.rs] and [providers/jwt_backend.rs]

    The claims, requests and responses as JSON datagrams, unpadded base64url
    (RFC 4648), and the bound of [MAX_MESSAGE] bytes on what the daemon and the
    agent send each other.  [sign_serde] puts them in place of the parameters of
    an environment [SignEnv] and discharges its laws. *)

From S2P Require Import Prelude Identity Config Json Serde ConfigWire Signing.

(** ** base64url *)

Definition alphabet : bytes := B "ABCDEFGHIJKLMNOPQRSTUVWXYZabcdefghijklmnopqrstuvwxyz0123456789-_".
Definition sextet (n : Z) : byte := nth (Z.to_nat n) alphabet x41.

(** [URL_SAFE_NO_PAD.encode] *)
Fixpoint base64url (l : bytes) : bytes :=
  match l with
  | a :: b :: c :: t =>
      sextet (u8 a / 4) :: sextet (u8 a mod 4 * 16 + u8 b / 16) :: sextet (u8 b mod 16 * 4 + u8 c / 64) :: sextet (u8 c mod 64) :: base64url t
  | [a; b] => [sextet (u8 a / 4); sextet (u8 a mod 4 * 16 + u8 b / 16); sextet (u8 b mod 16 * 4)]
  | [a] => [sextet (u8 a / 4); sextet (u8 a mod 4 * 16)]
  | [] => []
  end.

(** ** Messages *)

Definition JwtClaims_ser (c : JwtClaims) : Value := V_Obj [(B "iss", V_Str (iss c)); (B "iat", V_Int (iat c)); (B "exp", V_Int (exp c))].

Definition claims_codec : Codec JwtClaims := MkCodec JwtClaims_ser
  (λ v, os ← visit_struct false [required (B "iss"); required (B "iat"); required (B "exp")] v;
        match os with
        | [i; a; e] =>
            iss ← de_req string_codec i; iat ← de_req u64_codec a; exp ← de_req u64_codec e; Ok (MkJwtClaims iss iat exp)
        | _ => refuse
        end)
  (λ c, from_utf8 (iss c) = Ok (iss c) ∧ 0 <= iat c <= u64_max ∧ 0 <= exp c <= u64_max).

(** Externally tagged enums: a unit variant is its name, the others an object
    with the name of the variant as its only key. *)
Definition AgentRequest_ser (r : AgentRequest) : Value :=
  match r with
  | Req_SignJwt claims => V_Obj [(B "SignJwt", V_Obj [(B "claims", JwtClaims_ser claims)])]
  | Req_Ping => V_Str (B "Ping")
  end.

Definition AgentRequest_de (v : Value) : result JsonFault AgentRequest :=
  match v with
  | V_Obj [(k, x)] =>
      if decide (k = B "SignJwt") then
        os ← visit_struct false [required (B "claims")] x;
        match os with [o] => claims ← de_req claims_codec o; Ok (Req_SignJwt claims) | _ => refuse end
      else if decide (k = B "Ping") then match x with V_Null => Ok Req_Ping | _ => refuse end
      else refuse
  | V_Str s => if decide (s = B "Ping") then Ok Req_Ping else refuse
  | _ => refuse
  end.

Definition AgentResponse_ser (r : AgentResponse) : Value :=
  match r with
  | Resp_Jwt jwt => V_Obj [(B "Jwt", V_Str jwt)]
  | Resp_Pong => V_Str (B "Pong")
  | Resp_Error msg => V_Obj [(B "Error", V_Str msg)]
  end.

Definition AgentResponse_de (v : Value) : result JsonFault AgentResponse :=
  match v with
  | V_Obj [(k, x)] =>
      if decide (k = B "Jwt") then s ← de string_codec x; Ok (Resp_Jwt s)
      else if decide (k = B "Error") then s ← de string_codec x; Ok (Resp_Error s)
      else if decide (k = B "Pong") then match x with V_Null => Ok Resp_Pong | _ => refuse end
      else refuse
  | V_Str s => if decide (s = B "Pong") then Ok Resp_Pong else refuse
  | _ => refuse
  end.

Definition request_typed (r : AgentRequest) : Prop := match r with Req_SignJwt c => typed claims_codec c | Req_Ping => True end.
Definition response_typed (r : AgentResponse) : Prop :=
  match r with Resp_Jwt s | Resp_Error s => from_utf8 s = Ok s | Resp_Pong => True end.

#[export] Instance claims_typed_dec c : Decision (typed claims_codec c).
Proof. cbn. apply _. Defined.
#[export] Instance request_typed_dec r : Decision (request_typed r).
Proof. destruct r; apply _. Defined.
#[export] Instance response_typed_dec r : Decision (response_typed r).
Proof. destruct r; apply _. Defined.

(** A value outside the Rust type has no text. *)
Definition text_if (P : Prop) `{!Decision P} (v : Value) : result JsonFault bytes :=
  if decide P then Ok (json_compact v) else Err Json_Data.

(** [env] with the program's own message formats; [show] words the errors. *)
Definition sign_serde (env : SignEnv) (show : JsonFault → bytes) : SignEnv := {|
  SerdeError := JsonFault;
  RsaKey := @RsaKey env;
  claims_json c := text_if (typed claims_codec c) (JwtClaims_ser c);
  b64url := base64url;
  sha256 := @sha256 env;
  rsa_sign_digest := @rsa_sign_digest env;
  from_pkcs8_pem := @from_pkcs8_pem env;
  from_pkcs1_pem := @from_pkcs1_pem env;
  tpm_response_ok := @tpm_response_ok env;
  tpm2b_digest := @tpm2b_digest env;
  tpm_marshal_command := @tpm_marshal_command env;
  request_json r := map_err show (text_if (request_typed r) (AgentRequest_ser r));
  request_of_json t := map_err show (from_json AgentRequest_de t);
  response_json r := map_err show (text_if (response_typed r) (AgentResponse_ser r));
  response_of_json t := map_err show (from_json AgentResponse_de t);
|}.

(** Conversion unfolds the environment before it tries to parse. *)
#[local] Strategy 1000 [map_err from_json json_parse].

(** ** Reading back *)

Lemma sextet_alphabet n : sextet n ∈ alphabet.
Proof.
  unfold sextet. apply list_elem_of_In. destruct (nth_in_or_default (Z.to_nat n) alphabet x41) as [H | ->]; [done|].
  apply list_elem_of_In. by vm_compute; left.
Qed.

Lemma base64url_alphabet l : Forall (λ b, b ∈ alphabet) (base64url l).
Proof.
  induction l as [l IH] using list_len_ind. destruct l as [|a [|b [|c l]]]; cbn [base64url];
    repeat (constructor; [apply sextet_alphabet|]); try constructor.
  apply IH. cbn. lia.
Qed.

Lemma base64url_no_dot l : x2e ∉ base64url l.
Proof.
  intros Hin. pose proof (base64url_alphabet l) as Ha. rewrite Forall_forall in Ha. apply Ha in Hin.
  apply (bool_decide_pack _) in Hin. by vm_compute in Hin.
Qed.

Lemma base64url_len l : 3 * len (base64url l) <= 4 * len l + 2.
Proof.
  induction l as [l IH] using list_len_ind. destruct l as [|a [|b [|c l]]]; cbn [base64url]; autorewrite with len_simpl; try lia.
  specialize (IH l ltac:(cbn; lia)). lia.
Qed.

Lemma visit_claims a b c :
  visit_struct false [required (B "iss"); required (B "iat"); required (B "exp")] (V_Obj [(B "iss", a); (B "iat", b); (B "exp", c)]) =
  Ok [Some a; Some b; Some c].
Proof. by vm_compute. Qed.

Lemma claims_laws : CodecLaws 1 claims_codec.
Proof.
  assert (CodecLaws 0 u64_codec) as Hu by (by apply u_laws). split.
  - intros c (_ & Ha & He). cbn [ser claims_codec JwtClaims_ser printable forallb snd]. unfold i64_min. lia.
  - intros c (Hi & Ha & He). cbn [de ser claims_codec]. unfold JwtClaims_ser. rewrite visit_claims. cbn [mbind result_bind de_req].
    rewrite (de_ser _ _ string_laws (iss c) Hi : de string_codec (V_Str _) = _). cbn [mbind result_bind].
    rewrite (de_ser _ _ Hu (iat c) Ha : de u64_codec (V_Int _) = _). cbn [mbind result_bind].
    rewrite (de_ser _ _ Hu (exp c) He : de u64_codec (V_Int _) = _). by destruct c.
  - intros v c H. cbn [de claims_codec] in H. apply bind_Ok in H as (os & _ & H). destruct os as [|i [|a [|e []]]]; try done.
    apply bind_Ok in H as (i' & Hi & H). apply bind_Ok in H as (a' & Ha & H). apply bind_Ok in H as (e' & He & [= <-]).
    destruct i, a, e; try done. cbn [typed claims_codec iss iat exp].
    apply (de_typed _ _ string_laws) in Hi. apply (de_typed _ _ Hu) in Ha, He. done.
Qed.

Lemma visit_claims_field a : visit_struct false [required (B "claims")] (V_Obj [(B "claims", a)]) = Ok [Some a].
Proof. by vm_compute. Qed.

Lemma AgentRequest_de_ser r : request_typed r → AgentRequest_de (AgentRequest_ser r) = Ok r.
Proof.
  destruct r as [c|]; [|done]. intros Hc. cbn [AgentRequest_ser AgentRequest_de]. rewrite decide_True by done.
  rewrite visit_claims_field. cbn [mbind result_bind de_req]. by rewrite (de_ser _ _ claims_laws c Hc : de claims_codec (JwtClaims_ser c) = _).
Qed.

Lemma AgentResponse_de_ser r : response_typed r → AgentResponse_de (AgentResponse_ser r) = Ok r.
Proof.
  destruct r as [s| |s]; intros Hs; [|done|]; cbn [AgentResponse_ser AgentResponse_de];
    repeat (rewrite decide_False by done); rewrite decide_True by done;
    by rewrite (de_ser _ _ string_laws s Hs : de string_codec (V_Str _) = _).
Qed.

Lemma AgentRequest_printable r : request_typed r → printable 3 (AgentRequest_ser r) = true.
Proof.
  destruct r as [c|]; [|done]. intros Hc. cbn [AgentRequest_ser printable forallb snd].
  by rewrite (ser_printable _ _ claims_laws c Hc : printable 1 (JwtClaims_ser c) = _).
Qed.

Lemma sign_serde_laws env show : @SignLaws (sign_serde env show).
Proof.
  split; cbn [b64url request_json request_of_json response_json response_of_json sign_serde].
  - apply base64url_no_dot.
  - intros r j Hj%map_err_Ok. unfold text_if in Hj. case_decide as Hr; [|done]. injection Hj as <-.
    pose proof (AgentRequest_printable r Hr) as Hp. split; [by apply (json_compact_nonempty 3); [|lia]|].
    by rewrite (from_json_compact 3), AgentRequest_de_ser by (done || lia).
  - intros r j Hj%map_err_Ok. unfold text_if in Hj. case_decide as Hr; [|done]. injection Hj as <-.
    assert (printable 1 (AgentResponse_ser r) = true) as Hp by (by destruct r). split; [by apply (json_compact_nonempty 1); [|lia]|].
    by rewrite (from_json_compact 1), AgentResponse_de_ser by (done || lia).
Qed.

(** ** Every message fits its datagram *)

Lemma len_quoted s : len (quoted s) = len (escape s) + 2.
Proof. unfold quoted. autorewrite with len_simpl. lia. Qed.

Lemma dec_digits_len fuel n acc : len (dec_digits fuel n acc) <= Z.of_nat fuel + len acc.
Proof.
  revert n acc. induction fuel as [|fuel IH]; intros n acc; cbn [dec_digits]; [lia|].
  case_match; autorewrite with len_simpl; [lia|]. specialize (IH (n / 10) (as_u8 (48 + n mod 10) :: acc)). autorewrite with len_simpl in IH. lia.
Qed.

Lemma len_show_i64 n : 0 <= n → len (show_i64 n) <= 20.
Proof.
  intros Hn. unfold show_i64. replace (n <? 0) with false by lia.
  pose proof (dec_digits_len 20 n []) as H. rewrite len_nil in H. unfold show_u64. lia.
Qed.

(** An object with one member, and one more around it. *)
Lemma len_tagged k v : len (json_compact (V_Obj [(k, v)])) = len (escape k) + len (render (λ _, []) [x3a] 1 v) + 5.
Proof.
  unfold json_compact. cbn [render map container join fst snd]. unfold member. autorewrite with len_simpl. rewrite len_quoted. lia.
Qed.

Lemma render_compact d d' v : render (λ _, []) [x3a] d v = render (λ _, []) [x3a] d' v.
Proof.
  revert d d'. induction v as [| | | | |vs IH|ms IH] using Value_nested; intros d d'; try done; cbn [render]; unfold container.
  - assert (map (render (λ _, []) [x3a] (S d)) vs = map (render (λ _, []) [x3a] (S d')) vs) as ->; [|done].
    induction IH as [|v vs Hv _ IH']; [done|]. cbn [map]. by rewrite (Hv (S d) (S d')), IH'.
  - assert (map (λ kv, member [x3a] (fst kv) (render (λ _, []) [x3a] (S d) (snd kv))) ms =
            map (λ kv, member [x3a] (fst kv) (render (λ _, []) [x3a] (S d') (snd kv))) ms) as ->; [|done].
    induction IH as [|[k v] ms Hv _ IH']; [done|]. cbn [map fst snd] in *. by rewrite (Hv (S d) (S d')), IH'.
Qed.

Lemma claims_len c : typed claims_codec c → len (json_compact (JwtClaims_ser c)) <= 6 * len (iss c) + 64.
Proof.
  intros (_ & Ha & He). unfold json_compact, JwtClaims_ser. cbn [render map container join fst snd]. unfold member.
  autorewrite with len_simpl. rewrite !len_quoted.
  change (len (escape (B "iss"))) with 3. change (len (escape (B "iat"))) with 3. change (len (escape (B "exp"))) with 3.
  pose proof (escape_len (iss c)). pose proof (len_show_i64 (iat c)). pose proof (len_show_i64 (exp c)). lia.
Qed.

Lemma request_len c : typed claims_codec c → len (json_compact (AgentRequest_ser (Req_SignJwt c))) <= 6 * len (iss c) + 87.
Proof.
  intros Hc. cbn [AgentRequest_ser]. rewrite len_tagged. change (len (escape (B "SignJwt"))) with 7.
  rewrite (render_compact 1 0). fold (json_compact (V_Obj [(B "claims", JwtClaims_ser c)])). rewrite len_tagged.
  change (len (escape (B "claims"))) with 6. rewrite (render_compact 1 0). fold (json_compact (JwtClaims_ser c)).
  pose proof (claims_len c Hc). lia.
Qed.

Lemma response_len k s : len (json_compact (V_Obj [(k, V_Str s)])) = len (escape k) + len (escape s) + 7.
Proof. rewrite len_tagged. cbn [render]. rewrite len_quoted. lia. Qed.

Lemma encode_fits (t : bytes) : len t <= MAX_MESSAGE → encode_message (Ok t) = Ok t.
Proof. intros Ht. unfold encode_message. cbn [map_err mbind result_bind]. by replace (MAX_MESSAGE <? len t) with false by lia. Qed.

(** Bytes that JSON writes as they are. *)
Definition plain (b : byte) : bool := bool_decide (escape_byte b = [b]) && (u8 b <? 128).

Lemma plain_alphabet : forallb plain (x2e :: alphabet) = true.
Proof. by vm_compute. Qed.

Lemma escape_plain s : Forall (λ b, plain b = true) s → escape s = s.
Proof.
  unfold escape. induction 1 as [|b s Hb _ IH]; [done|]. cbn [mbind list_bind].
  apply andb_true_iff in Hb as [Hb%bool_decide_eq_true _]. rewrite Hb. cbn [app]. f_equal. exact IH.
Qed.

Lemma base64url_plain l : Forall (λ b, plain b = true) (base64url l).
Proof.
  eapply Forall_impl; [apply base64url_alphabet|]. intros b Hb. pose proof plain_alphabet as Hp. rewrite forallb_forall in Hp.
  apply Hp, list_elem_of_In. by apply elem_of_cons; right.
Qed.

Lemma plain_utf8 s : Forall (λ b, plain b = true) s → from_utf8 s = Ok s.
Proof.
  intros Hs. apply from_utf8_ascii. eapply Forall_impl; [exact Hs|]. intros b [_ Hb]%andb_true_iff. lia.
Qed.

Section fits.
Context (env : SignEnv) (show : JsonFault → bytes).
#[local] Instance wire : SignEnv := sign_serde env show.

(** A signed token: its bytes need no escape, and its length. *)
Lemma sign_rs256_plain key c jwt :
  typed claims_codec c → sign_rs256 key c = Ok jwt →
  ∃ sig, sig = rsa_sign_digest key (sha256 (HEADER_B64 ++ [x2e] ++ base64url (json_compact (JwtClaims_ser c)))) ∧
  Forall (λ b, plain b = true) jwt ∧ 3 * len jwt <= 4 * (6 * len (iss c) + 64) + 4 * len sig + 118.
Proof.
  intros Hc. unfold sign_rs256, signing_input. cbn [claims_json wire sign_serde]. unfold text_if. rewrite decide_True by done.
  cbn [map_err mbind result_bind b64url wire sign_serde].
  set (input := HEADER_B64 ++ [x2e] ++ base64url (json_compact (JwtClaims_ser c))).
  set (sig := rsa_sign_digest key (sha256 input)). intros Hj.
  assert (jwt = input ++ [x2e] ++ base64url sig) as -> by (by inversion Hj).
  exists sig. split; [done|]. unfold input.
  assert (Forall (λ b, plain b = true) HEADER_B64) by (by apply Forall_forallb; vm_compute).
  split.
  - rewrite !Forall_app. split_and!; try apply base64url_plain; try done; by apply Forall_forallb.
  - autorewrite with len_simpl. change (len HEADER_B64) with 36.
    pose proof (base64url_len (json_compact (JwtClaims_ser c))). pose proof (claims_len c Hc).
    pose proof (base64url_len sig). lia.
Qed.

Lemma error_fits s : utf8 s →
  ∃ b, encode_message (response_json (AgentResponse_error s)) = Ok b ∧ len b <= MAX_MESSAGE ∧
       response_of_json b = Ok (AgentResponse_error s).
Proof.
  intros Hs. destruct (AgentResponse_error_spec s) as (t & -> & Ht & _ & Hu & _).
  { apply utf8_from_utf8 in Hs. unfold from_utf8, char_indices in Hs. by destruct (utf8_chars 0 s). }
  assert (from_utf8 t = Ok t) as Hok by (unfold from_utf8, char_indices; by destruct (utf8_chars 0 t)).
  assert (response_json (Resp_Error t) = Ok (json_compact (AgentResponse_ser (Resp_Error t)))) as Hj.
  { cbn [response_json wire sign_serde]. unfold text_if. by rewrite decide_True. }
  rewrite Hj. assert (len (json_compact (AgentResponse_ser (Resp_Error t))) <= MAX_MESSAGE) as Hl.
  { cbn [AgentResponse_ser]. rewrite response_len. change (len (escape (B "Error"))) with 5.
    pose proof (escape_len t). unfold MAX_MESSAGE, MAX_ERROR_LEN in *. lia. }
  eexists. split; [by apply encode_fits|]. split; [done|]. by apply (@response_json_inv _ (sign_serde_laws env show)).
Qed.

(** A message of the right type and size is sent, and read as what it is. *)
Lemma response_fits r t :
  response_typed r → json_compact (AgentResponse_ser r) = t → len t <= MAX_MESSAGE →
  ∃ b, encode_message (response_json r) = Ok b ∧ len b <= MAX_MESSAGE ∧ response_of_json b = Ok r.
Proof.
  intros Hr <- Hl. assert (response_json r = Ok (json_compact (AgentResponse_ser r))) as Hj.
  { cbn [response_json wire sign_serde]. unfold text_if. by rewrite decide_True. }
  rewrite Hj. eexists. split; [by apply encode_fits|]. split; [done|]. by apply (@response_json_inv _ (sign_serde_laws env show)).
Qed.

Lemma request_fits r :
  request_typed r → len (json_compact (AgentRequest_ser r)) <= MAX_MESSAGE →
  ∃ b, encode_message (request_json r) = Ok b ∧ len b <= MAX_MESSAGE ∧ request_of_json b = Ok r.
Proof.
  intros Hr Hl. assert (request_json r = Ok (json_compact (AgentRequest_ser r))) as Hj.
  { cbn [request_json wire sign_serde]. unfold text_if. by rewrite decide_True. }
  rewrite Hj. eexists. split; [by apply encode_fits|]. split; [done|]. by apply (@request_json_inv _ (sign_serde_laws env show)).
Qed.

Lemma jwt_fits key c jwt :
  (∀ m, len (rsa_sign_digest key (sha256 m)) <= 512) → typed claims_codec c → len (iss c) <= 512 → sign_rs256 key c = Ok jwt →
  response_typed (Resp_Jwt jwt) ∧ len (json_compact (AgentResponse_ser (Resp_Jwt jwt))) <= MAX_MESSAGE.
Proof.
  intros Hk Hc Hi Hs. destruct (sign_rs256_plain key c jwt Hc Hs) as (sig & Hsig & Hp & Hl).
  pose proof (Hk (HEADER_B64 ++ [x2e] ++ base64url (json_compact (JwtClaims_ser c)))) as Hlen. rewrite <-Hsig in Hlen.
  split; [by apply plain_utf8|]. cbn [AgentResponse_ser]. rewrite response_len, (escape_plain jwt Hp).
  change (len (escape (B "Jwt"))) with 3. unfold MAX_MESSAGE. lia.
Qed.

Lemma request_of_json_typed t r : request_of_json t = Ok r → request_typed r.
Proof.
  cbn [request_of_json wire sign_serde]. intros (v & Hv)%map_err_Ok%from_json_Ok. destruct r as [c|]; [|done].
  destruct v as [| | | |s|vs|[|[k x] []]]; cbn in Hv; try done; repeat case_decide; try done.
  - apply bind_Ok in Hv as (os & _ & Hv). destruct os as [|[v|] []]; try done.
    apply bind_Ok in Hv as (c' & Hc & [= <-]). by apply (de_typed _ _ claims_laws) in Hc.
  - by destruct x.
Qed.

Lemma sign_rs256_typed key c : typed claims_codec c → ∃ jwt, sign_rs256 key c = Ok jwt.
Proof.
  intros Hc. unfold sign_rs256, signing_input. cbn [claims_json wire sign_serde]. unfold text_if. rewrite decide_True by done.
  cbn. eauto.
Qed.

Lemma request_of_json_Err t e : request_of_json t = Err e → ∃ f, e = show f.
Proof. intros (f & _ & ->)%map_err_Err. eauto. Qed.

Lemma ping_fits : ∃ b, encode_message (request_json Req_Ping) = Ok b ∧ len b <= MAX_MESSAGE ∧ request_of_json b = Ok Req_Ping.
Proof. apply request_fits; [done|]. by vm_compute. Qed.
Lemma pong_fits : ∃ b, encode_message (response_json Resp_Pong) = Ok b ∧ len b <= MAX_MESSAGE ∧ response_of_json b = Ok Resp_Pong.
Proof. eapply response_fits; [done|done|]. by vm_compute. Qed.

(** C30: Every datagram of the agent protocol fits its buffer.  With an issuer of
    at most 512 bytes and a key that signs at most 512 bytes, the daemon's
    signing request and the agent's reply to any datagram whatever (a token, a
    pong, or an error text of any length, cut and escaped) are encoded without
    error, in at most [MAX_MESSAGE] bytes, and are read by the peer as exactly
    what was sent: no reply is lost to the size check or truncated by the
    receive buffer. *)
Theorem agent_protocol_fits key :
  (∀ m, len (rsa_sign_digest key (sha256 m)) <= 512) → (∀ f, utf8 (show f)) →
  (∀ r, r = Req_Ping ∨ (∃ c, r = Req_SignJwt c ∧ typed claims_codec c ∧ len (iss c) <= 512) →
     ∃ b, encode_message (request_json r) = Ok b ∧ len b <= MAX_MESSAGE ∧ request_of_json b = Ok r) ∧
  (∀ datagram, (∀ c, request_of_json datagram = Ok (Req_SignJwt c) → len (iss c) <= 512) →
     ∃ b, encode_message (response_json (agent_handle key datagram)) = Ok b ∧ len b <= MAX_MESSAGE ∧
          response_of_json b = Ok (agent_handle key datagram)).
Proof.
  intros Hk Hshow. split.
  - intros r [->|(c & -> & Hc & Hi)]; [exact ping_fits|]. apply request_fits; [done|].
    pose proof (request_len c Hc). unfold MAX_MESSAGE. lia.
  - intros datagram Hd. unfold agent_handle, decode_message. destruct (request_of_json datagram) as [[c|]|e] eqn:E; cbn [map_err].
    + pose proof (request_of_json_typed _ _ E : typed claims_codec c) as Hc.
      destruct (sign_rs256_typed key c Hc) as [jwt Hj]. rewrite Hj.
      destruct (jwt_fits key c jwt Hk Hc (Hd c eq_refl) Hj). by eapply response_fits.
    + exact pong_fits.
    + apply error_fits. apply request_of_json_Err in E as [f ->].
      apply utf8_app; [|done]. apply utf8_ascii. by repeat constructor.
Qed.

End fits.

(** The claims the daemon makes are of the type the theorem asks for: whatever
    document the configuration was read from, and whatever the clock says. *)
Lemma configured_claims {CT : ConfigText} v cfg gh now :
  Config_de v = Ok cfg → cfg_github cfg = Some gh → unix_secs now <= u64_max →
  typed claims_codec (JwtClaims_new now (client_id gh)).
Proof.
  intros Hv Hg Hn. pose proof (Config_de_ok v cfg gh Hv Hg) as [Hu _ _].
  assert (0 <= unix_secs now) as H0.
  { unfold unix_secs. destruct (now <? 0) eqn:E; [done|]. apply Z.div_pos; [lia|done]. }
  split; [exact Hu|]. cbn [JwtClaims_new iat exp].
  unfold saturating_sub, saturating_add_u64, LEEWAY_PAST_SECS, LIFETIME_SECS, u64_max in *. lia.
Qed.

(** The bound on the issuer is needed: the configuration does not limit
    [client_id], and the request with a long one is refused before it is sent. *)
Lemma escape_len_ge s : len s <= len (escape s).
Proof.
  unfold escape. induction s as [|b s IH]; [done|]. cbn [mbind list_bind]. autorewrite with len_simpl.
  assert (1 <= len (escape_byte b)) by (destruct b; vm_compute; congruence). lia.
Qed.

Lemma long_issuer_refused env show c :
  typed claims_codec c → MAX_MESSAGE <= len (iss c) →
  is_ok (encode_message (@request_json (sign_serde env show) (Req_SignJwt c))) = false.
Proof.
  intros Hc Hi. cbn [request_json sign_serde]. unfold text_if. rewrite decide_True by done. unfold encode_message.
  cbn [map_err mbind result_bind]. assert (MAX_MESSAGE < len (json_compact (AgentRequest_ser (Req_SignJwt c)))) as Hl.
  { cbn [AgentRequest_ser]. rewrite len_tagged, (render_compact 1 0). fold (json_compact (V_Obj [(B "claims", JwtClaims_ser c)])).
    rewrite len_tagged, (render_compact 1 0). fold (json_compact (JwtClaims_ser c)). unfold json_compact, JwtClaims_ser.
    cbn [render map container join fst snd]. unfold member. autorewrite with len_simpl. rewrite !len_quoted.
    pose proof (escape_len_ge (iss c)). repeat match goal with |- context [len ?x] => lazymatch goal with H : 0 <= len x |- _ => fail | _ => pose proof (len_nonneg x) end end. lia. }
  by replace (MAX_MESSAGE <? _) with true by lia.
Qed.

Definition wire_show (f : JsonFault) : bytes := match f with Json_Syntax => B "syntax" | Json_Data => B "data" end.
Definition wire_model : SignEnv := sign_serde sign_model wire_show.

(** A datagram that is no request is answered with an error that fits, and the
    agent's signature of demonstration claims reaches the daemon. *)
Lemma agent_protocol_fits_witness :
  (∃ b, encode_message (@request_json wire_model (Req_SignJwt demo_claims)) = Ok b ∧ len b <= MAX_MESSAGE ∧
        @request_of_json wire_model b = Ok (Req_SignJwt demo_claims)) ∧
  (∃ b, encode_message (@response_json wire_model (@agent_handle wire_model x2a (B "ping?"))) = Ok b ∧ len b <= MAX_MESSAGE ∧
        @response_of_json wire_model b = Ok (@agent_handle wire_model x2a (B "ping?"))) ∧
  @agent_handle wire_model x2a (B "ping?") = Resp_Error (B "decode: syntax").
Proof.
  destruct (agent_protocol_fits sign_model wire_show x2a) as [Hreq Hresp].
  - intros m. cbn. autorewrite with len_simpl. pose proof (len_nonneg (reverse m)). lia.
  - intros f. apply utf8_ascii. destruct f; by repeat constructor.
  - split; [|split].
    + apply Hreq. right. exists demo_claims. split; [done|]. split; [|by vm_compute]. vm_compute. repeat split; discriminate.
    + apply Hresp. intros c Hc. by vm_compute in Hc.
    + by vm_compute.
Defined.
