(* ===== verification/Actor.v ===== *)
(** * The actor threads of the signing backends: [src/providers/agent_backend.rs], [tpm_backend.rs]

    A backend owns its socket or device through one thread: callers push jobs
    on a channel and wait on a oneshot each; the thread takes the jobs one at a
    time, makes the transaction and answers, leaves its loop after the first
    failed transaction, and at last drops what is still in the channel.  Here
    callers, the thread, cancelled callers and the drop of the backend are
    interleaved.  [Signing] uses the backends through the sequential
    [actor_call]; this file shows that it may. *)

From S2P Require Import Prelude Signing.

(** [Job]: the request and the sender of its oneshot, which is a number. *)
Record Job := MkJob { j_reply : nat; j_request : bytes }.

(** What the waiting side of a oneshot will find: nothing yet, a value, a
    sender that was dropped; or its job was refused by the closed channel. *)
Inductive Oneshot := O_pending | O_sent (r : result JwtBackendError bytes) | O_canceled | O_refused.

(** Where the thread is: in [rx.recv()], in a transaction, past the loop (the
    socket is closed and the child being reaped), gone. *)
Inductive ThreadPc := T_recv | T_io (job : Job) | T_reap | T_done.

Record ActorWorld := MkActorWorld {
  w_queue : list Job;            (* the channel *)
  w_tx : bool;                   (* the backend, which holds the sender, is there *)
  w_pc : ThreadPc;
  w_replies : list Oneshot;      (* by number *)
  w_gone : gset nat;             (* callers that were dropped while waiting *)
  w_seen : list bytes;           (* the requests that reached the device *)
  w_submitted : list bytes;      (* the requests of all callers, in order *)
}.

(** What a caller gets: [reply_rx.await] maps a dropped sender to
    [BackendDead], and so does the refused [send]. *)
Definition caller_result (o : Oneshot) : option (result JwtBackendError bytes) :=
  match o with
  | O_pending => None
  | O_sent r => Some r
  | O_canceled | O_refused => Some (Err JB_BackendDead)
  end.

Section actor.
(** One transaction; the device may depend on what it saw before. *)
Context (io : list bytes → bytes → result JwtBackendError bytes).

(** [start] *)
Definition world_start : ActorWorld := MkActorWorld [] true T_recv [] ∅ [] [].

(** The receiver lives as long as the thread. *)
Definition receiver_gone (pc : ThreadPc) : bool := match pc with T_done => true | _ => false end.

(** A caller creates a oneshot and sends its job: the channel refuses it once
    the receiver is gone. *)
Definition submit (request : bytes) (w : ActorWorld) : ActorWorld :=
  let gone := receiver_gone (w_pc w) in
  MkActorWorld (if gone then w_queue w else w_queue w ++ [MkJob (length (w_replies w)) request]) (w_tx w) (w_pc w)
    (w_replies w ++ [if gone then O_refused else O_pending]) (w_gone w) (w_seen w) (w_submitted w ++ [request]).

(** The jobs left in the channel are dropped, and their oneshots with them. *)
Definition cancel_jobs (jobs : list Job) (replies : list Oneshot) : list Oneshot :=
  foldl (λ rs j, <[j_reply j := O_canceled]> rs) replies jobs.

(** The thread, up to its next blocking point; [None]: it is blocked or gone. *)
Definition thread_step (w : ActorWorld) : option ActorWorld :=
  match w_pc w with
  | T_recv =>
      match w_queue w with
      | job :: queue => Some (MkActorWorld queue (w_tx w) (T_io job) (w_replies w) (w_gone w) (w_seen w) (w_submitted w))
      | [] => if w_tx w then None else Some (MkActorWorld [] false T_reap (w_replies w) (w_gone w) (w_seen w) (w_submitted w))
      end
  | T_io job =>
      let r := io (w_seen w) (j_request job) in
      Some (MkActorWorld (w_queue w) (w_tx w) (if is_ok r then T_recv else T_reap)
              (<[j_reply job := O_sent r]> (w_replies w)) (w_gone w) (w_seen w ++ [j_request job]) (w_submitted w))
  | T_reap => Some (MkActorWorld [] (w_tx w) T_done (cancel_jobs (w_queue w) (w_replies w)) (w_gone w) (w_seen w) (w_submitted w))
  | T_done => None
  end.

(** [Drop]: the sender goes away; the thread is then joined. *)
Definition drop_backend (w : ActorWorld) : ActorWorld :=
  MkActorWorld (w_queue w) false (w_pc w) (w_replies w) (w_gone w) (w_seen w) (w_submitted w).

Definition cancel (id : nat) (w : ActorWorld) : ActorWorld :=
  MkActorWorld (w_queue w) (w_tx w) (w_pc w) (w_replies w) ({[id]} ∪ w_gone w) (w_seen w) (w_submitted w).

(** A caller borrows the backend while it waits, so the backend is dropped
    only when every caller has its result or is gone. *)
Definition idle (w : ActorWorld) : Prop := ∀ id, w_replies w !! id = Some O_pending → id ∈ w_gone w.

Inductive actor_step : ActorWorld → ActorWorld → Prop :=
| Step_submit request w : w_tx w = true → actor_step w (submit request w)
| Step_thread w w' : thread_step w = Some w' → actor_step w w'
| Step_cancel id w : actor_step w (cancel id w)
| Step_drop w : w_tx w = true → idle w → actor_step w (drop_backend w).

Definition actor_reachable (w : ActorWorld) : Prop := rtc actor_step world_start w.

(** The thread alone, for up to [n] steps. *)
Fixpoint thread_run (n : nat) (w : ActorWorld) : ActorWorld :=
  match n with
  | O => w
  | S n => match thread_step w with Some w' => thread_run n w' | None => w end
  end.

(** ** The sequential, fail-stop reference

    Requests answered in order by the device until it fails once. *)
Fixpoint answers (seen : list bytes) (up : bool) (requests : list bytes) : list (result JwtBackendError bytes) :=
  match requests with
  | [] => []
  | r :: rs =>
      if up then let a := io seen r in a :: answers (seen ++ [r]) (is_ok a) rs
      else Err JB_BackendDead :: answers seen false rs
  end.

Definition none_failed (rs : list (result JwtBackendError bytes)) : bool := forallb is_ok rs.

Lemma answers_down seen rs : answers seen false rs = replicate (length rs) (Err JB_BackendDead).
Proof. induction rs as [|r rs IH]; cbn; [done|by rewrite IH]. Qed.

Lemma answers_length seen up rs : length (answers seen up rs) = length rs.
Proof. revert seen up. induction rs as [|r rs IH]; intros seen [|]; cbn; [done..| |]; by rewrite IH. Qed.

Lemma answers_app seen rs1 rs2 :
  answers seen true (rs1 ++ rs2) = answers seen true rs1 ++ answers (seen ++ rs1) (none_failed (answers seen true rs1)) rs2.
Proof.
  revert seen. induction rs1 as [|r rs1 IH]; intros seen; [cbn; by rewrite app_nil_r|].
  cbn [app answers none_failed forallb]. destruct (is_ok (io seen r)) eqn:E; cbn [app andb].
  - rewrite IH. by rewrite <-(assoc_L (++)).
  - rewrite !answers_down, length_app, replicate_add. done.
Qed.

(** With a device that does not look back, this is [actor_run] of [Signing]. *)
Lemma answers_actor_run (io' : bytes → result JwtBackendError bytes) seen up rs :
  (∀ s r, io s r = io' r) → answers seen up rs = actor_run io' (MkActor up) rs.
Proof.
  intros Hio. revert seen up. induction rs as [|r rs IH]; intros seen up; [done|]. cbn [answers actor_run].
  unfold actor_call. destruct up; cbn; rewrite ?Hio; by erewrite IH.
Qed.

(** ** The invariant *)

(** The job in the thread's hands. *)
Definition in_hand (pc : ThreadPc) : list Job := match pc with T_io job => [job] | _ => [] end.

Definition waiting (w : ActorWorld) : list Job := in_hand (w_pc w) ++ w_queue w.

Definition lost (o : Oneshot) : Prop := o = O_canceled ∨ o = O_refused.

(** The thread leaves its loop only after a failure, or when the backend is
    gone and the channel empty. *)
Definition thread_ok (w : ActorWorld) (dead : list Oneshot) : Prop :=
  let up := none_failed (answers [] true (w_seen w)) in
  match w_pc w with
  | T_recv | T_io _ => up = true ∧ dead = []
  | T_reap => dead = [] ∧ (up = false ∨ (w_tx w = false ∧ w_queue w = []))
  | T_done => w_queue w = [] ∧ (up = false ∨ (w_tx w = false ∧ dead = []))
  end.

(** The oneshots in order: answered as the reference says, pending, lost. *)
Definition actor_inv (w : ActorWorld) : Prop := ∃ dead rest,
  w_replies w = (O_sent <$> answers [] true (w_seen w)) ++ replicate (length (waiting w)) O_pending ++ dead ∧
  w_submitted w = w_seen w ++ (j_request <$> waiting w) ++ rest ∧
  length rest = length dead ∧ Forall lost dead ∧
  j_reply <$> waiting w = seq (length (w_seen w)) (length (waiting w)) ∧
  thread_ok w dead.

Lemma actor_inv_start : actor_inv world_start.
Proof. by exists [], []. Qed.

Lemma actor_inv_submit request w : w_tx w = true → actor_inv w → actor_inv (submit request w).
Proof.
  intros Htx (dead & rest & Hr & Hs & Hl & Hd & Hids & Hpc). unfold submit.
  destruct (receiver_gone (w_pc w)) eqn:E.
  - exists (dead ++ [O_refused]), (rest ++ [request]). unfold waiting, thread_ok in *. cbn in *. destruct (w_pc w); try done.
    destruct Hpc as [Hq Hor]. rewrite Hr, Hs, <-!(assoc_L (++)), !length_app, Hl. split_and!; [done..| |done|done|].
    + apply Forall_app. split; [done|]. constructor; [by right|done].
    + left. destruct Hor as [?|[? _]]; [done|congruence].
  - assert (dead = []) as -> by (unfold thread_ok in Hpc; by destruct (w_pc w), Hpc).
    destruct rest; [|done]. rewrite app_nil_r in Hr, Hs.
    assert (length (w_replies w) = (length (w_seen w) + length (waiting w))%nat) as Hlen.
    { by rewrite Hr, length_app, length_fmap, answers_length, length_replicate. }
    exists [], []. unfold waiting, thread_ok in *. cbn [w_pc w_queue w_replies w_submitted w_seen w_tx].
    rewrite Hlen, Hr, Hs, !app_nil_r, !(assoc_L (++) (in_hand _)), !fmap_app, !length_app, !replicate_add, !seq_app, <-!(assoc_L (++)). cbn.
    split_and!; try done; [by rewrite !(assoc_L (++)), <-fmap_app, Hids, length_app, seq_app|destruct (w_pc w); naive_solver congruence].
Qed.

Lemma insert_middle {A} (l1 l2 : list A) i x y : i = length l1 → <[i := x]> (l1 ++ y :: l2) = l1 ++ x :: l2.
Proof. intros ->. rewrite insert_app_r_alt by done. by rewrite Nat.sub_diag. Qed.

(** Dropping the channel cancels exactly the pending oneshots. *)
Lemma cancel_jobs_spec jobs pre post :
  j_reply <$> jobs = seq (length pre) (length jobs) →
  cancel_jobs jobs (pre ++ replicate (length jobs) O_pending ++ post) = pre ++ replicate (length jobs) O_canceled ++ post.
Proof.
  unfold cancel_jobs. revert pre. induction jobs as [|j jobs IH]; intros pre; cbn; [done|]. intros [= Hj Hjs].
  rewrite insert_middle by done. change (O_canceled :: ?l) with ([O_canceled] ++ l). rewrite (assoc_L (++)).
  rewrite IH; [by rewrite <-(assoc_L (++))|]. rewrite length_app, Nat.add_comm. exact Hjs.
Qed.

Lemma actor_inv_io job w w' : w_pc w = T_io job → actor_inv w → thread_step w = Some w' → actor_inv w'.
Proof.
  intros E (dead & rest & Hr & Hs & Hl & Hd & Hids & Hpc). unfold thread_step. rewrite E. intros [= <-].
  unfold waiting, thread_ok in *. rewrite E in *. cbn in *. destruct Hpc as [Hup ->]. destruct rest; [|done].
  injection Hids as Hj Hids. exists [], [].
  unfold waiting, thread_ok. cbn [w_pc w_queue w_replies w_submitted w_seen w_tx]. rewrite answers_app, Hup. cbn [answers app].
  set (r := io (w_seen w) (j_request job)) in *.
  assert (in_hand (if is_ok r then T_recv else T_reap) = []) as -> by (by destruct (is_ok r)).
  assert (none_failed (answers [] true (w_seen w) ++ [r]) = is_ok r) as ->.
  { unfold none_failed in *. rewrite forallb_app, Hup. cbn. by rewrite andb_true_r. }
  rewrite Hr, Hs, insert_middle by (by rewrite length_fmap, answers_length).
  rewrite fmap_app, <-!(assoc_L (++)), (length_app (w_seen w)), Nat.add_comm. cbn [app fmap list_fmap].
  split_and!; [done..|]. destruct (is_ok r); naive_solver.
Qed.

Lemma actor_inv_thread w w' : actor_inv w → thread_step w = Some w' → actor_inv w'.
Proof.
  intros Hinv Hstep. destruct (w_pc w) as [|job| |] eqn:E; [|by eapply actor_inv_io|..]; unfold thread_step in Hstep; rewrite E in Hstep; [| |done].
  - destruct Hinv as (dead & rest & Hr & Hs & Hl & Hd & Hids & Hpc). unfold waiting, thread_ok in *. rewrite E in *.
    destruct (w_queue w) as [|job q]; [destruct (w_tx w); [done|]|]; injection Hstep as <-; exists dead, rest; unfold waiting, thread_ok; cbn in *;
      split_and!; try done; naive_solver.
  - destruct Hinv as (dead & rest & Hr & Hs & Hl & Hd & Hids & Hpc). injection Hstep as <-. unfold waiting, thread_ok in *. rewrite E in *. cbn in *.
    destruct Hpc as [-> Hor]. destruct rest; [|done].
    exists (replicate (length (w_queue w)) O_canceled), (j_request <$> w_queue w). unfold waiting, thread_ok. cbn.
    rewrite Hr, cancel_jobs_spec by (by rewrite length_fmap, answers_length). rewrite app_nil_r.
    split_and!; [done|by rewrite Hs, app_nil_r|by rewrite length_fmap, length_replicate|apply Forall_replicate; by left|done|done|].
    destruct Hor as [?|[? ->]]; auto.
Qed.

Lemma actor_inv_step w1 w2 : actor_step w1 w2 → actor_inv w1 → actor_inv w2.
Proof.
  intros [request w Htx|w w' Ht|id w|w Htx Hidle] Hinv.
  - by apply actor_inv_submit.
  - by eapply actor_inv_thread.
  - exact Hinv.
  - destruct Hinv as (dead & rest & Hr & Hs & Hl & Hd & Hids & Hpc). exists dead, rest.
    split_and!; try done. unfold thread_ok in *. cbn. destruct (w_pc w); naive_solver.
Qed.

Lemma actor_reachable_inv w : actor_reachable w → actor_inv w.
Proof. apply (rtc_ind_r (R:=actor_step) actor_inv); [exact actor_inv_start|]. intros w1 w2 _ Hs Hi. by eapply actor_inv_step. Qed.

(** ** The thread alone *)

Definition thread_work (w : ActorWorld) : nat :=
  match w_pc w with
  | T_recv => 2 * length (w_queue w) + 2
  | T_io _ => 2 * length (w_queue w) + 3
  | T_reap => 1
  | T_done => 0
  end.

Lemma thread_step_work w w' : thread_step w = Some w' → (thread_work w' < thread_work w)%nat.
Proof.
  unfold thread_step, thread_work. destruct (w_pc w) as [|job| |]; [|..|done].
  - destruct (w_queue w) as [|j q]; [destruct (w_tx w); [done|]|]; intros [= <-]; cbn; lia.
  - intros [= <-]. cbn. destruct (is_ok _); lia.
  - intros [= <-]. cbn. lia.
Qed.

Lemma thread_run_inv n w : actor_inv w → actor_inv (thread_run n w).
Proof.
  revert w. induction n as [|n IH]; intros w Hi; cbn; [done|]. destruct (thread_step w) as [w'|] eqn:E; [|done].
  apply IH. by eapply actor_inv_thread.
Qed.

(** It comes to rest. *)
Lemma thread_run_rests n w : (thread_work w <= n)%nat → thread_step (thread_run n w) = None.
Proof.
  revert w. induction n as [|n IH]; intros w Hn; cbn.
  - destruct (thread_step w) as [w'|] eqn:E; [|done]. apply thread_step_work in E. lia.
  - destruct (thread_step w) as [w'|] eqn:E; [|done]. apply IH. apply thread_step_work in E. lia.
Qed.

Lemma thread_run_same n w : w_tx (thread_run n w) = w_tx w ∧ w_submitted (thread_run n w) = w_submitted w.
Proof.
  revert w. induction n as [|n IH]; intros w; cbn; [done|]. destruct (thread_step w) as [w'|] eqn:E; [|done].
  destruct (IH w') as [-> ->]. unfold thread_step in E. destruct (w_pc w); [|by injection E as <-..|done].
  destruct (w_queue w); [destruct (w_tx w) eqn:Et; [done|]|]; by injection E as <-.
Qed.

(** At rest nothing is pending. *)
Lemma rest_answered w : actor_inv w → thread_step w = None → Forall (λ o, o ≠ O_pending) (w_replies w).
Proof.
  intros (dead & rest & Hr & _ & _ & Hd & _ & Hpc) Hrest.
  assert (waiting w = []) as Hw.
  { unfold waiting, thread_step, thread_ok in *. destruct (w_pc w); try done; cbn; [|by destruct Hpc]. by destruct (w_queue w). }
  rewrite Hr, Hw. cbn. apply Forall_app. split.
  - apply Forall_fmap, Forall_true. by intros r.
  - apply (Forall_impl _ _ _ Hd). by intros o [->| ->].
Qed.

(** ** Properties *)

(** The oneshots that are settled, against the reference. *)
Lemma inv_result w id o r :
  actor_inv w → w_replies w !! id = Some o → caller_result o = Some r → answers [] true (w_submitted w) !! id = Some r.
Proof.
  intros (dead & rest & Hr & Hs & Hl & Hd & _ & Hpc) Ho Hres. rewrite Hr in Ho. rewrite Hs, answers_app.
  apply lookup_app_Some in Ho as [Ho|[Hge Ho]].
  - apply list_lookup_fmap_Some in Ho as (r' & -> & Ho). injection Hres as <-. by apply lookup_app_l_Some.
  - rewrite lookup_app_r by (by rewrite length_fmap in Hge). rewrite length_fmap in Ho.
    apply lookup_app_Some in Ho as [Ho|[Hge' Ho]]; [apply lookup_replicate in Ho as [-> _]; done|].
    pose proof (lookup_lt_Some _ _ _ Ho) as Hlt. rewrite length_replicate in *.
    assert (r = Err JB_BackendDead) as ->.
    { pose proof (Forall_lookup_1 _ _ _ _ Hd Ho) as [->| ->]; by injection Hres as <-. }
    assert (none_failed (answers [] true (w_seen w)) = false) as ->.
    { unfold thread_ok in Hpc. destruct (w_pc w); try (by destruct Hpc as [_ ->]); [by destruct Hpc as [-> _]|].
      destruct Hpc as [_ [?|[_ ->]]]; done. }
    rewrite answers_down, length_app, length_fmap, Hl. apply lookup_replicate. split; [done|].
    rewrite answers_length in *. lia.
Qed.

(** C32: however callers, cancellations, the thread and the drop of the backend
    interleave, the backend behaves like the sequential fail-stop device:
    every caller that gets a result gets the one [answers] gives to its
    request when the requests are taken in the order of submission (so never
    that of another caller, cancelled or not), and the device has seen a
    prefix of exactly that sequence. *)
Theorem actor_refines w id o r :
  actor_reachable w → w_replies w !! id = Some o → caller_result o = Some r →
  answers [] true (w_submitted w) !! id = Some r ∧ w_seen w `prefix_of` w_submitted w.
Proof.
  intros Hw Ho Hr. apply actor_reachable_inv in Hw. split; [by eapply inv_result|].
  destruct Hw as (dead & rest & _ & -> & _). by apply prefix_app_r.
Qed.

(** Nobody waits for ever.  From every reachable state, as long as the
    device answers and the child exits, the thread on its own settles every
    oneshot within [2 * queued + 3] steps, each with the result of the
    reference, whatever failed and whoever was cancelled; and when the backend
    has been dropped the thread ends within the same bound, so the join in
    [drop] returns. *)
Theorem actor_answers_all w n :
  actor_reachable w → (2 * length (w_queue w) + 3 <= n)%nat →
  let w' := thread_run n w in
  (caller_result <$> w_replies w') = Some <$> answers [] true (w_submitted w) ∧ (w_tx w = false → w_pc w' = T_done).
Proof.
  intros Hw Hn w'. apply actor_reachable_inv in Hw. destruct (thread_run_same n w) as [Htx Hsub].
  assert (thread_step w' = None) as Hrest by (apply thread_run_rests; unfold thread_work; destruct (w_pc w); lia).
  pose proof (thread_run_inv n w Hw) as Hinv. fold w' in Htx, Hsub, Hinv. pose proof (rest_answered _ Hinv Hrest) as Hall. split.
  - apply list_eq_same_length with (n := length (w_submitted w')); [| |].
    + by rewrite length_fmap, answers_length, Hsub.
    + destruct Hinv as (dead & rest & Hr & Hs & Hl & _). rewrite length_fmap, Hr, Hs, !length_app, !length_fmap, answers_length, length_replicate. lia.
    + intros i x y _ Hx Hy. apply list_lookup_fmap_Some in Hx as (o & -> & Ho). apply list_lookup_fmap_Some in Hy as (r & -> & Hr).
      pose proof (Forall_lookup_1 _ _ _ _ Hall Ho). destruct (caller_result o) as [r'|] eqn:Er; [|by destruct o].
      pose proof (inv_result _ _ _ _ Hinv Ho Er) as Ha. rewrite Hsub in Ha. congruence.
  - intros Hd. rewrite Hd in Htx. unfold thread_step in Hrest. destruct (w_pc w'); try done. rewrite Htx in Hrest. by destruct (w_queue w').
Qed.

End actor.

(** ** The two backends *)

(** [round_trip] on the agent's socket and [transact] on the TPM device. *)
Definition agent_io (sock : list bytes → bytes → SocketRun) (seen : list bytes) (request : bytes) : result JwtBackendError bytes :=
  agent_round_trip (sock seen) request.
Definition tpm_io (dev : list bytes → bytes → DeviceRun) (seen : list bytes) (command : bytes) : result JwtBackendError bytes :=
  tpm_transact (dev seen) command.

(** Against a peer without memory, the callers of a backend see what the
    sequential [actor_call] of [Signing] computes. *)
Lemma agent_sequential sock w id o r :
  actor_reachable (agent_io (λ _, sock)) w → w_replies w !! id = Some o → caller_result o = Some r →
  actor_run (agent_round_trip sock) (MkActor true) (w_submitted w) !! id = Some r.
Proof.
  intros Hw Ho Hr. rewrite <-(answers_actor_run (agent_io (λ _, sock)) _ [] true) by done.
  eapply inv_result; [|done..]. by apply actor_reachable_inv.
Qed.

Lemma tpm_sequential dev w id o r :
  actor_reachable (tpm_io (λ _, dev)) w → w_replies w !! id = Some o → caller_result o = Some r →
  actor_run (tpm_transact dev) (MkActor true) (w_submitted w) !! id = Some r.
Proof.
  intros Hw Ho Hr. rewrite <-(answers_actor_run (tpm_io (λ _, dev)) _ [] true) by done.
  eapply inv_result; [|done..]. by apply actor_reachable_inv.
Qed.

(** ** A run: four callers, the first cancelled, the device dead at the third *)

Definition demo_io (seen : list bytes) (request : bytes) : result JwtBackendError bytes :=
  if (length seen <? 2)%nat then Ok (request ++ request) else Err (JB_Io (B "recv")).

Definition demo_submitted : ActorWorld :=
  cancel 0 (submit (B "d") (submit (B "c") (submit (B "b") (submit (B "a") world_start)))).

Lemma demo_submitted_reachable : actor_reachable demo_io demo_submitted.
Proof.
  unfold actor_reachable, demo_submitted. repeat (eapply rtc_r; [|first [by apply Step_cancel|by apply Step_submit]]). apply rtc_refl.
Qed.

Definition demo_settled : ActorWorld := thread_run demo_io 11 demo_submitted.

Lemma demo_settled_reachable : actor_reachable demo_io demo_settled.
Proof.
  unfold actor_reachable; etrans; [exact demo_submitted_reachable|].
  repeat (eapply rtc_l; [apply Step_thread; vm_compute; reflexivity|]). apply rtc_refl.
Qed.

Lemma actor_refines_witness :
  answers demo_io [] true (w_submitted demo_settled) !! 1%nat = Some (Ok (B "bb")) ∧ w_seen demo_settled `prefix_of` w_submitted demo_settled.
Proof.
  apply (actor_refines demo_io demo_settled 1 (O_sent (Ok (B "bb"))) (Ok (B "bb")));
    [exact demo_settled_reachable|vm_compute; reflexivity|reflexivity].
Defined.

Lemma actor_answers_all_witness :
  (caller_result <$> w_replies (thread_run demo_io 11 demo_submitted)) =
    [Some (Ok (B "aa")); Some (Ok (B "bb")); Some (Err (JB_Io (B "recv"))); Some (Err JB_BackendDead)].
Proof.
  destruct (actor_answers_all demo_io demo_submitted 11) as [H _]; [exact demo_submitted_reachable|vm_compute; lia|].
  rewrite H. vm_compute. reflexivity.
Defined.
