(* ===== verification/Agent.v ===== *)
(** * The signing agent's process: [src/providers/agent.rs], [AgentSpawn::spawn] of
    [src/providers/agent_backend.rs] and the dispatch in [src/main.rs]

    How the daemon starts the agent (arguments, environment, descriptors), how
    the agent locks itself down, its serve loop with the audit line, and its
    end.  The program is the list of its effects; [kernel_run] runs the effects
    against the restrictions that are in force when they happen, with the system
    calls behind each effect a parameter, and [agent_process] is what is left of
    the run. *)

From S2P Require Import Prelude Signing.

(** ** [str::parse::<i32>] *)

Definition i32_max : Z := 2147483647.
Definition i32_min : Z := -2147483648.

(** [ParseIntError], by its text. *)
Inductive IntError := IE_Empty | IE_InvalidDigit | IE_PosOverflow | IE_NegOverflow.

Definition IntError_display (e : IntError) : bytes :=
  match e with
  | IE_Empty => B "cannot parse integer from empty string"
  | IE_InvalidDigit => B "invalid digit found in string"
  | IE_PosOverflow => B "number too large to fit in target type"
  | IE_NegOverflow => B "number too small to fit in target type"
  end.

Fixpoint parse_i32_digits (neg : bool) (acc : Z) (l : bytes) : result IntError Z :=
  match l with
  | [] => Ok acc
  | b :: l =>
      if is_digit b then
        let d := u8 b - 48 in
        let v := if neg then acc * 10 - d else acc * 10 + d in
        if v <? i32_min then Err IE_NegOverflow
        else if i32_max <? v then Err IE_PosOverflow
        else parse_i32_digits neg v l
      else Err IE_InvalidDigit
  end.

Definition parse_i32 (s : bytes) : result IntError Z :=
  match s with
  | [] => Err IE_Empty
  | [b] => if is_digit b then parse_i32_digits false 0 [b] else Err IE_InvalidDigit
  | b :: l =>
      if decide (b = x2b) then parse_i32_digits false 0 l
      else if decide (b = x2d) then parse_i32_digits true 0 l
      else parse_i32_digits false 0 s
  end.

(** ** Starting the agent: [AgentSpawn::spawn] *)

Definition AGENT_FD_ENV : bytes := B "SYMBOLON_AGENT_FD".
Definition LISTEN_VARS : list bytes := [B "LISTEN_PID"; B "LISTEN_FDS"; B "LISTEN_FDNAMES"].

(** The child after [exec]: its arguments (without the program), its
    environment and the descriptors that survived. *)
Record Image := MkImage { im_args : list bytes; im_env : gmap bytes bytes; im_fds : gset Z }.

(** What the operating system does for one [spawn]: [socketpair], the
    [fcntl]s of the forked child, the [exec]. *)
Record SpawnEnv := MkSpawnEnv {
  sp_pair : result bytes (Z * Z);          (* the daemon's end and the agent's *)
  sp_getfd : result bytes ();
  sp_setfd : result bytes ();
  sp_exec : result bytes ();
  sp_environ : gmap bytes bytes;           (* the daemon's environment *)
  sp_inherited : gset Z;                   (* the daemon's descriptors without CLOEXEC *)
}.

(** [seqpacket_pair] *)
Definition seqpacket_pair (env : SpawnEnv) : result JwtBackendError (Z * Z) :=
  map_err (λ e, JB_Construct (B "socketpair: " ++ e)) (sp_pair env).

(** The daemon's end and the child's image.  Both ends are CLOEXEC; the forked
    child clears the flag of its own. *)
Definition AgentSpawn_spawn (env : SpawnEnv) (key_path : bytes) : result JwtBackendError (Z * Image) :=
  '(daemon_sock, child_fd) ← seqpacket_pair env;
  let child_env := foldr delete (<[AGENT_FD_ENV := show_u64 child_fd]> (sp_environ env)) LISTEN_VARS in
  let spawn_error e := JB_Construct (B "spawn sign-agent: " ++ e) in
  _ ← map_err spawn_error (sp_getfd env);
  _ ← map_err spawn_error (sp_setfd env);
  _ ← map_err spawn_error (sp_exec env);
  Ok (daemon_sock, MkImage [B "__sign-agent"; B "--key-file"; key_path] child_env ({[child_fd]} ∪ sp_inherited env)).

(** ** A decimal descriptor is read back *)

Lemma dec_value_nonneg l : Forall (λ b, is_digit b = true) l → 0 <= dec_value l.
Proof.
  intros Hl. unfold dec_value. assert (∀ acc, 0 <= acc → 0 <= foldl (λ acc b, acc * 10 + (u8 b - 48)) acc l) as H; [|by apply H].
  induction Hl as [|b l Hb Hl IH]; intros acc Hacc; cbn; [done|]. apply IH. unfold is_digit, in_range in Hb. lia.
Qed.

Lemma dec_digits_nonempty fuel n acc : fuel ≠ O ∨ acc ≠ [] → dec_digits fuel n acc ≠ [].
Proof.
  revert n acc. induction fuel as [|fuel IH]; intros n acc Ha; cbn [dec_digits]; [naive_solver|].
  destruct (n <? 10); [done|]. apply IH. by right.
Qed.

Lemma parse_i32_digits_ok acc l :
  0 <= acc → Forall (λ b, is_digit b = true) l → acc * 10 ^ len l + dec_value l <= i32_max →
  parse_i32_digits false acc l = Ok (acc * 10 ^ len l + dec_value l).
Proof.
  intros Hacc Hl. revert acc Hacc. induction Hl as [|b l Hb Hl IH]; intros acc Hacc Hmax.
  - cbn. rewrite len_nil. unfold dec_value. cbn. f_equal. lia.
  - assert (0 <= u8 b - 48 <= 9) as Hd by (unfold is_digit, in_range in Hb; lia).
    assert (acc * 10 ^ len (b :: l) + dec_value (b :: l) = (acc * 10 + (u8 b - 48)) * 10 ^ len l + dec_value l) as Hv.
    { unfold dec_value at 1. cbn [foldl]. rewrite foldl_dec, len_cons, Z.pow_add_r by (pose proof (len_nonneg l); lia). lia. }
    rewrite Hv in *. pose proof (len_nonneg l). assert (1 <= 10 ^ len l) by (apply (Z.pow_le_mono_r 10 0); lia).
    assert (0 <= dec_value l) by (by apply dec_value_nonneg).
    cbn [parse_i32_digits]. rewrite Hb. destruct (_ <? i32_min) eqn:E1; [unfold i32_min in E1; lia|].
    destruct (i32_max <? _) eqn:E2; [nia|]. apply IH; [lia|done].
Qed.

Lemma parse_i32_show fd : 0 <= fd <= i32_max → parse_i32 (show_u64 fd) = Ok fd.
Proof.
  intros Hfd. pose proof (show_u64_digits fd) as Hd. assert (dec_value (show_u64 fd) = fd) as Hv by (apply show_u64_value; unfold i32_max, u64_max in *; lia).
  assert (parse_i32_digits false 0 (show_u64 fd) = Ok fd) as Hp by (rewrite parse_i32_digits_ok; [f_equal; lia|lia|done|lia]).
  assert (show_u64 fd ≠ []) as Hne by (apply dec_digits_nonempty; by left).
  destruct (show_u64 fd) as [|b [|c l]]; [done| |]; apply Forall_cons in Hd as [Hb _]; cbn [parse_i32].
  - by rewrite Hb.
  - by destruct b.
Qed.

(** What [spawn] starts. *)
Lemma AgentSpawn_spawn_Ok env key_path sock im :
  AgentSpawn_spawn env key_path = Ok (sock, im) →
  ∃ child_fd, sp_pair env = Ok (sock, child_fd) ∧ im_args im = [B "__sign-agent"; B "--key-file"; key_path] ∧
    im_env im !! AGENT_FD_ENV = Some (show_u64 child_fd) ∧ Forall (λ v, im_env im !! v = None) LISTEN_VARS ∧
    (∀ v, v ≠ AGENT_FD_ENV → v ∉ LISTEN_VARS → im_env im !! v = sp_environ env !! v) ∧
    im_fds im = {[child_fd]} ∪ sp_inherited env.
Proof.
  unfold AgentSpawn_spawn, seqpacket_pair. intros H. inv_ok. eexists. split_and!; [done..| | | |done]; cbn.
  - rewrite !lookup_delete_ne by (by vm_compute). by rewrite lookup_insert_eq.
  - repeat constructor; apply eq_None_not_Some; intros [v Hv]; repeat (apply lookup_delete_Some in Hv as [? Hv]); done.
  - intros v Hv Hl. unfold LISTEN_VARS in Hl. rewrite !elem_of_cons in Hl.
    rewrite !lookup_delete_ne, lookup_insert_ne by (intros <-; tauto). done.
Qed.

(** ** The agent's effects *)

Section agent.
Context {SE : SignEnv}.

Inductive AgentEffect :=
| A_read_key (path : bytes)
| A_mlockall
| A_undumpable (done : bool)
| A_pdeathsig (done : bool)
| A_landlock (enforced : bool)
| A_seccomp
| A_recv
| A_audit (claims : JwtClaims)
| A_send (datagram : bytes)
| A_close                                 (* [Drop] of the socket's [OwnedFd] *)
| A_stderr (line : bytes).

(** What the system answers: errors by their texts. *)
Record AgentEnv := MkAgentEnv {
  ag_key_file : result bytes bytes;        (* std::fs::read *)
  ag_mlockall : option bytes;
  ag_undumpable : option bytes;
  ag_pdeathsig : option bytes;
  ag_ruleset : result bytes bool;          (* the chain of Landlock calls; was it enforced? *)
  ag_seccomp : result bytes ();            (* target, filter, compilation, installation *)
  ag_turns : list AgentTurn;               (* the socket *)
}.

(** A program with its effects, that may fail. *)
Definition A (T : Type) : Type := list AgentEffect * result bytes T.
Definition a_ret {T} (t : T) : A T := ([], Ok t).
Definition a_of {T} (r : result bytes T) : A T := ([], r).
Definition a_do (e : AgentEffect) : A () := ([e], Ok ()).
Definition a_bind {T U} (m : A T) (k : T → A U) : A U :=
  match m with
  | (tr, Ok t) => let '(tr2, r) := k t in (tr ++ tr2, r)
  | (tr, Err e) => (tr, Err e)
  end.
Local Notation "'let*' x ':=' m 'in' k" := (a_bind m (λ x, k)) (at level 10, x name, m at level 100, k at level 200).

Definition take_socket_fd (var : option bytes) : result bytes Z :=
  raw ← ok_or (AGENT_FD_ENV ++ B " not set") var;
  fd ← map_err (λ e, AGENT_FD_ENV ++ B " not an fd: " ++ IntError_display e) (parse_i32 raw);
  if fd <? 0 then Err (AGENT_FD_ENV ++ B " is negative") else Ok fd.

Definition load_key (env : AgentEnv) (key_path : bytes) : A RsaKey :=
  let* _ := a_do (A_read_key key_path) in
  let* pem := a_of (map_err (λ e, B "read key " ++ key_path ++ B ": " ++ e) (ag_key_file env)) in
  a_of (map_err (λ e, B "parse key " ++ key_path ++ B ": " ++ JwtError_display e) (JwtSigningKey_from_pem pem)).

Definition lock_memory (env : AgentEnv) : A () :=
  let* _ := a_do A_mlockall in
  match ag_mlockall env with
  | None => a_ret ()
  | Some e => a_do (A_stderr (B "symbolon-sign-agent: mlockall failed (" ++ e ++ B "); continuing"))
  end.

Definition set_undumpable (env : AgentEnv) : A () :=
  match ag_undumpable env with
  | None => a_do (A_undumpable true)
  | Some e => let* _ := a_do (A_undumpable false) in a_of (Err (B "PR_SET_DUMPABLE failed: " ++ e))
  end.

Definition set_parent_death_signal (env : AgentEnv) : A () :=
  match ag_pdeathsig env with
  | None => a_do (A_pdeathsig true)
  | Some e => let* _ := a_do (A_pdeathsig false) in a_of (Err (B "PR_SET_PDEATHSIG failed: " ++ e))
  end.

(** The error names the call of the chain that failed ([fs: ], [net: ], ...).
    Whether the kernel enforced the ruleset is not looked at. *)
Definition apply_landlock (env : AgentEnv) : A () :=
  match ag_ruleset env with
  | Ok enforced => a_do (A_landlock enforced)
  | Err e => let* _ := a_do (A_landlock false) in a_of (Err (B "landlock " ++ e))
  end.

(** A filter that could not be installed restricts nothing. *)
Definition apply_seccomp (env : AgentEnv) : A () :=
  match ag_seccomp env with
  | Ok _ => a_do A_seccomp
  | Err e => a_of (Err (B "seccomp " ++ e))
  end.

Definition lock_down (env : AgentEnv) (key_path : bytes) : A RsaKey :=
  let* signer := load_key env key_path in
  let* _ := lock_memory env in
  let* _ := set_undumpable env in
  let* _ := set_parent_death_signal env in
  let* _ := apply_landlock env in
  let* _ := apply_seccomp env in
  a_ret signer.

(** [handle] with its audit line. *)
Definition handle_audited (datagram : bytes) : list AgentEffect :=
  match decode_message (request_of_json datagram) with
  | Ok (Req_SignJwt claims) => [A_audit claims]
  | _ => []
  end.

(** [serve_loop] with its effects; [None]: still serving. *)
Fixpoint serve (key : RsaKey) (events : list AgentTurn) : list AgentEffect * option (result bytes ()) :=
  match events with
  | [] => ([A_recv], None)
  | Turn_eintr :: events' => let '(tr, r) := serve key events' in (A_recv :: tr, r)
  | Turn_error e :: _ => ([A_recv], Some (Err (B "recv: " ++ e)))
  | Turn_recv datagram sent :: events' =>
      let buf := take (Z.to_nat MAX_MESSAGE) datagram in
      if decide (buf = []) then ([A_recv], Some (Ok ()))
      else
        let before := A_recv :: handle_audited buf in
        match encode_message (response_json (agent_handle key buf)) with
        | Err e => (before, Some (Err e))
        | Ok b =>
            match send_datagram b sent with
            | Err e => (before ++ [A_send b], Some (Err e))
            | Ok _ => let '(tr, r) := serve key events' in (before ++ A_send b :: tr, r)
            end
        end
  end.

(** [run]: the effects and the exit code.  The socket is dropped when
    [run_inner] returns, on success and on failure, before [run] looks at the
    result. *)
Definition agent_run (env : AgentEnv) (var : option bytes) (key_path : bytes) : list AgentEffect * option Z :=
  let complain e := A_stderr (B "symbolon-sign-agent: " ++ e) in
  match take_socket_fd var with
  | Err e => ([complain e], Some 1)
  | Ok _ =>
      match lock_down env key_path with
      | (tr, Err e) => (tr ++ [A_close; complain e], Some 1)
      | (tr, Ok signer) =>
          let '(tr2, r) := serve signer (ag_turns env) in
          match r with
          | None => (tr ++ tr2, None)
          | Some (Ok _) => (tr ++ tr2 ++ [A_close], Some 0)
          | Some (Err e) => (tr ++ tr2 ++ [A_close; complain e], Some 1)
          end
      end
  end.

(** [main] of the hidden subcommand, [None] for every other command line. *)
Definition agent_main (env : AgentEnv) (im : Image) : option (list AgentEffect * option Z) :=
  match im_args im with
  | cmd :: args =>
      if decide (cmd = B "__sign-agent") then
        Some (match agent_parse_args args with
              | Ok key_path => agent_run env (im_env im !! AGENT_FD_ENV) key_path
              | Err e => ([A_stderr (B "symbolon __sign-agent: " ++ e)], Some 2)
              end)
      else None
  | [] => None
  end.

(** ** The kernel's side *)

(** The allowlist, and calls outside it. *)
Inductive Syscall :=
| SYS_recvfrom | SYS_sendto | SYS_write | SYS_mmap | SYS_munmap | SYS_mremap | SYS_brk | SYS_madvise
| SYS_getrandom | SYS_clock_gettime | SYS_futex | SYS_sched_yield | SYS_exit | SYS_exit_group
| SYS_openat | SYS_read | SYS_close | SYS_mlockall | SYS_prctl | SYS_landlock | SYS_seccomp
| SYS_socket | SYS_connect | SYS_execve | SYS_io_uring_setup | SYS_ptrace.

#[local] Instance Syscall_eq_dec : EqDecision Syscall.
Proof. solve_decision. Defined.

(** The allowlist in the groups of its comments. *)
Definition SOCKET_CALLS : list Syscall := [SYS_recvfrom; SYS_sendto].
Definition STDERR_CALLS : list Syscall := [SYS_write].
Definition ALLOCATOR_CALLS : list Syscall := [SYS_mmap; SYS_munmap; SYS_mremap; SYS_brk; SYS_madvise].
Definition RNG_CALLS : list Syscall := [SYS_getrandom].
Definition CLOCK_CALLS : list Syscall := [SYS_clock_gettime].
Definition SYNC_CALLS : list Syscall := [SYS_futex; SYS_sched_yield].
Definition EXIT_CALLS : list Syscall := [SYS_exit; SYS_exit_group].

Definition ALLOWED_SYSCALLS : list Syscall :=
  SOCKET_CALLS ++ STDERR_CALLS ++ ALLOCATOR_CALLS ++ RNG_CALLS ++ CLOCK_CALLS ++ SYNC_CALLS ++ EXIT_CALLS.

(** The calls an effect is made of are those of the C library and the crates. *)
Class SyscallsOf := syscalls : AgentEffect → list Syscall.

(** What they document: [recv] and [send] lower to [recvfrom] and [sendto];
    writing a line takes [write] and what the allocator and the locks of the
    standard library need; so does decoding a request, signing and encoding,
    which also draw the blinding randomness; dropping an [OwnedFd] is
    [close]; and installing a filter opens no file. *)
Class SyscallLaws `{!SyscallsOf} : Prop := {
  sys_recv : syscalls A_recv = [SYS_recvfrom];
  sys_send b : syscalls (A_send b) = [SYS_sendto];
  sys_close : syscalls A_close = [SYS_close];
  sys_stderr l : Forall (λ c, c ∈ STDERR_CALLS ++ ALLOCATOR_CALLS ++ SYNC_CALLS) (syscalls (A_stderr l));
  sys_audit claims :
    Forall (λ c, c ∈ STDERR_CALLS ++ ALLOCATOR_CALLS ++ RNG_CALLS ++ CLOCK_CALLS ++ SYNC_CALLS) (syscalls (A_audit claims));
  sys_seccomp : SYS_openat ∉ syscalls A_seccomp;
}.
Context {SO : SyscallsOf}.

Record Kernel := MkKernel {
  k_undumpable : bool;
  k_pdeathsig : bool;
  k_landlock : bool;                       (* no file can be opened any more *)
  k_filter : option (list Syscall);        (* seccomp: what is not listed kills *)
}.

Definition permitted (k : Kernel) (c : Syscall) : bool :=
  match k_filter k with None => true | Some allowed => bool_decide (c ∈ allowed) end &&
  negb (k_landlock k && bool_decide (c = SYS_openat)).

Definition in_force (e : AgentEffect) (k : Kernel) : Kernel :=
  match e with
  | A_undumpable done => MkKernel (k_undumpable k || done) (k_pdeathsig k) (k_landlock k) (k_filter k)
  | A_pdeathsig done => MkKernel (k_undumpable k) (k_pdeathsig k || done) (k_landlock k) (k_filter k)
  | A_landlock enforced => MkKernel (k_undumpable k) (k_pdeathsig k) (k_landlock k || enforced) (k_filter k)
  | A_seccomp => MkKernel (k_undumpable k) (k_pdeathsig k) (k_landlock k) (Some ALLOWED_SYSCALLS)
  | _ => k
  end.

(** [None]: a call was denied; one that the filter denies kills the process. *)
Fixpoint kernel_run (k : Kernel) (tr : list AgentEffect) : option Kernel :=
  match tr with
  | [] => Some k
  | e :: tr => if forallb (permitted k) (syscalls e) then kernel_run (in_force e k) tr else None
  end.

(** The effects that take place: those before the first that is stopped. *)
Fixpoint kernel_done (k : Kernel) (tr : list AgentEffect) : list AgentEffect :=
  match tr with
  | [] => []
  | e :: tr => if forallb (permitted k) (syscalls e) then e :: kernel_done (in_force e k) tr else []
  end.

Definition k_start : Kernel := MkKernel false false false None.
Definition k_locked (enforced : bool) : Kernel := MkKernel true true enforced (Some ALLOWED_SYSCALLS).

(** How the process ends: with its exit code, killed by SIGSYS, or not yet. *)
Inductive AgentEnd := Agent_exit (code : Z) | Agent_killed | Agent_serving.

Definition agent_process (env : AgentEnv) (var : option bytes) (key_path : bytes) : list AgentEffect * AgentEnd :=
  let '(tr, code) := agent_run env var key_path in
  (kernel_done k_start tr,
   match kernel_run k_start tr, code with
   | None, _ => Agent_killed
   | Some _, Some code => Agent_exit code
   | Some _, None => Agent_serving
   end).

(** What the serve loop does with one datagram or interruption.  A signature
    leaves the process only right after the line that says what was signed. *)
Inductive served_turn (key : RsaKey) : list AgentEffect → Prop :=
| TO_recv : served_turn key [A_recv]
| TO_signed claims jwt b :
    sign_rs256 key claims = Ok jwt → encode_message (response_json (Resp_Jwt jwt)) = Ok b →
    served_turn key [A_recv; A_audit claims; A_send b]
| TO_refused claims msg b :
    encode_message (response_json (Resp_Error msg)) = Ok b → served_turn key [A_recv; A_audit claims; A_send b]
| TO_pong b : encode_message (response_json Resp_Pong) = Ok b → served_turn key [A_recv; A_send b]
| TO_error msg b : encode_message (response_json (Resp_Error msg)) = Ok b → served_turn key [A_recv; A_send b]
| TO_unanswered claims : served_turn key [A_recv; A_audit claims].

Lemma kernel_run_app k tr1 tr2 : kernel_run k (tr1 ++ tr2) = (k1 ← kernel_run k tr1; kernel_run k1 tr2).
Proof. revert k. induction tr1 as [|e tr1 IH]; intros k; cbn; [done|]. by destruct (forallb _ _). Qed.

Lemma kernel_done_all k tr k' : kernel_run k tr = Some k' → kernel_done k tr = tr.
Proof. revert k. induction tr as [|e tr IH]; intros k; cbn; [done|]. destruct (forallb _ _); [|done]. intros H. by rewrite IH. Qed.

Lemma kernel_done_app k tr1 tr2 k1 : kernel_run k tr1 = Some k1 → kernel_done k (tr1 ++ tr2) = tr1 ++ kernel_done k1 tr2.
Proof.
  revert k. induction tr1 as [|e tr1 IH]; intros k; cbn; [by intros [= <-]|]. destruct (forallb _ _); [|done]. intros H. by rewrite (IH _ H).
Qed.

(** Without a filter and without Landlock everything is permitted; without a
    filter, everything that opens no file. *)
Lemma unrestricted k l : k_filter k = None → k_landlock k = false ∨ (SYS_openat ∉ l) → forallb (permitted k) l = true.
Proof.
  intros Hf Hl. apply forallb_forall. intros c Hc%list_elem_of_In. unfold permitted. rewrite Hf. cbn.
  destruct Hl as [->|Hl]; [done|]. rewrite bool_decide_false by (by intros ->). by rewrite andb_false_r.
Qed.

(** Under the lockdown, what is on the allowlist. *)
Lemma on_allowlist enforced l : Forall (λ c, c ∈ ALLOWED_SYSCALLS) l → forallb (permitted (k_locked enforced)) l = true.
Proof.
  intros Hl. apply forallb_forall. intros c Hc%list_elem_of_In. rewrite Forall_forall in Hl. apply Hl in Hc. unfold permitted. cbn [k_filter k_locked k_landlock].
  rewrite bool_decide_true by done. rewrite (bool_decide_false (c = SYS_openat)); [by rewrite andb_false_r|].
  intros ->. revert Hc. by apply (bool_decide_unpack _).
Qed.

Context {SL : SyscallLaws}.

Lemma calls_incl (l g g' : list Syscall) : g ⊆ g' → Forall (λ c, c ∈ g) l → Forall (λ c, c ∈ g') l.
Proof. intros Hg Hl. eapply Forall_impl; [exact Hl|]. intros c. apply Hg. Qed.

Lemma audit_allowed enforced claims : forallb (permitted (k_locked enforced)) (syscalls (A_audit claims)) = true.
Proof. apply on_allowlist. eapply calls_incl, sys_audit. apply (bool_decide_unpack _). reflexivity. Qed.

Lemma recv_allowed enforced : forallb (permitted (k_locked enforced)) (syscalls A_recv) = true.
Proof. apply on_allowlist. rewrite sys_recv. by apply (bool_decide_unpack _). Qed.

Lemma send_allowed enforced b : forallb (permitted (k_locked enforced)) (syscalls (A_send b)) = true.
Proof. apply on_allowlist. rewrite sys_send. by apply (bool_decide_unpack _). Qed.

(** Closing the socket is not on the allowlist. *)
Lemma close_denied enforced tr : kernel_run (k_locked enforced) (A_close :: tr) = None ∧ kernel_done (k_locked enforced) (A_close :: tr) = [].
Proof. cbn. by rewrite sys_close. Qed.

Lemma stderr_opens_nothing l : SYS_openat ∉ syscalls (A_stderr l).
Proof.
  intros Hin. pose proof (sys_stderr l) as Hl. rewrite Forall_forall in Hl. apply Hl in Hin. revert Hin. by apply (bool_decide_unpack _).
Qed.

Lemma close_opens_nothing : SYS_openat ∉ syscalls A_close.
Proof. rewrite sys_close. by apply (bool_decide_unpack _). Qed.

Lemma served_turn_locked key enforced tr : served_turn key tr → kernel_run (k_locked enforced) tr = Some (k_locked enforced).
Proof. intros []; cbn; rewrite ?recv_allowed, ?audit_allowed, ?send_allowed; by destruct enforced. Qed.

Lemma turns_locked key enforced turns :
  Forall (served_turn key) turns → kernel_run (k_locked enforced) (concat turns) = Some (k_locked enforced).
Proof.
  induction 1 as [|t ts Ht _ IH]; cbn; [done|]. rewrite kernel_run_app. by rewrite (served_turn_locked _ _ _ Ht).
Qed.

(** The effects of one answered datagram. *)
Lemma answered_turn key buf b :
  encode_message (response_json (agent_handle key buf)) = Ok b → served_turn key (A_recv :: handle_audited buf ++ [A_send b]).
Proof.
  unfold agent_handle, handle_audited. destruct (decode_message (request_of_json buf)) as [[claims|]|e].
  - destruct (sign_rs256 key claims) as [jwt|e] eqn:E; [by apply TO_signed|].
    unfold AgentResponse_error. destruct (_ <? _); apply TO_refused.
  - apply TO_pong.
  - unfold AgentResponse_error. destruct (_ <? _); apply TO_error.
Qed.

Lemma serve_turns key events : ∃ turns, (serve key events).1 = concat turns ∧ Forall (served_turn key) turns.
Proof.
  induction events as [|ev events (turns & Ht & Hok)]; cbn [serve]; [by exists [[A_recv]]; repeat constructor|].
  destruct ev as [datagram sent| |e].
  - case_decide as Hb; [by exists [[A_recv]]; repeat constructor|]. set (buf := take _ datagram) in *.
    destruct (encode_message _) as [b|e] eqn:Ee.
    + destruct (send_datagram b sent) as [[]|e].
      * destruct (serve key events) as [tr r]. cbn in *. subst tr. exists ((A_recv :: handle_audited buf ++ [A_send b]) :: turns).
        split; [cbn; by rewrite <-(assoc_L (++))|]. constructor; [by apply answered_turn|done].
      * exists [A_recv :: handle_audited buf ++ [A_send b]]. split; [cbn; by rewrite app_nil_r|]. constructor; [by apply answered_turn|done].
    + exists [A_recv :: handle_audited buf]. split; [cbn; by rewrite app_nil_r|]. constructor; [|done].
      unfold handle_audited. destruct (decode_message _) as [[claims|]|]; [apply TO_unanswered|apply TO_recv..].
  - destruct (serve key events) as [tr r]. cbn in *. subst tr. exists ([A_recv] :: turns). split; [done|]. by constructor; [apply TO_recv|].
  - by exists [[A_recv]]; repeat constructor.
Qed.

Lemma serve_recv key events : A_recv ∈ (serve key events).1.
Proof.
  destruct events as [|[datagram sent| |e] events]; cbn [serve]; [set_solver| |destruct (serve key events); set_solver|set_solver].
  case_decide; [set_solver|]. destruct (encode_message _) as [b|]; [|set_solver].
  destruct (send_datagram b sent); [destruct (serve key events)|]; set_solver.
Qed.

(** The lockdown: its effects in order, and the kernel after it. *)
Definition mlock_warning (env : AgentEnv) : list AgentEffect :=
  match ag_mlockall env with
  | None => []
  | Some e => [A_stderr (B "symbolon-sign-agent: mlockall failed (" ++ e ++ B "); continuing")]
  end.

Definition locking (env : AgentEnv) (path : bytes) (enforced : bool) : list AgentEffect :=
  A_read_key path :: A_mlockall :: mlock_warning env ++ [A_undumpable true; A_pdeathsig true; A_landlock enforced; A_seccomp].

Lemma locking_run env path enforced : kernel_run k_start (locking env path enforced) = Some (k_locked enforced).
Proof.
  unfold locking, mlock_warning. destruct (ag_mlockall env); cbn; rewrite !unrestricted by auto; cbn;
    rewrite unrestricted by (try right; done || apply sys_seccomp); by destruct enforced.
Qed.

Lemma lock_down_Ok env path tr key :
  lock_down env path = (tr, Ok key) →
  ∃ pem enforced, ag_key_file env = Ok pem ∧ JwtSigningKey_from_pem pem = Ok key ∧ tr = locking env path enforced.
Proof.
  unfold lock_down, load_key, lock_memory, set_undumpable, set_parent_death_signal, apply_landlock, apply_seccomp, locking, mlock_warning.
  destruct (ag_key_file env) as [pem|]; [|done]. cbn. destruct (JwtSigningKey_from_pem pem) as [key'|] eqn:Ek; [|done]. cbn.
  destruct (ag_mlockall env), (ag_undumpable env), (ag_pdeathsig env), (ag_ruleset env) as [enforced|], (ag_seccomp env) as [[]|]; try done;
    cbn; intros [= <- <-]; exists pem, enforced; done.
Qed.

(** A lockdown that fails has not served anything, and nothing stopped it. *)
Lemma lock_down_Err env path tr e :
  lock_down env path = (tr, Err e) → (A_recv ∉ tr) ∧ ∃ k, kernel_run k_start tr = Some k ∧ k_filter k = None.
Proof.
  unfold lock_down, load_key, lock_memory, set_undumpable, set_parent_death_signal, apply_landlock, apply_seccomp.
  destruct (ag_key_file env) as [pem|]; cbn; [destruct (JwtSigningKey_from_pem pem) as [key'|]; cbn|].
  - destruct (ag_mlockall env), (ag_undumpable env), (ag_pdeathsig env), (ag_ruleset env) as [enforced|], (ag_seccomp env) as [[]|]; try done;
      cbn; intros [= <- <-]; (split; [set_solver|]); cbn; rewrite !unrestricted by auto; eexists; (split; [reflexivity|done]).
  - intros [= <- <-]. split; [set_solver|]. cbn. rewrite unrestricted by auto. by eexists.
  - intros [= <- <-]. split; [set_solver|]. cbn. rewrite unrestricted by auto. by eexists.
Qed.

(** What comes after the serve loop: nothing yet, or the end of [run_inner] and
    perhaps a complaint. *)
Definition leaving (tr : list AgentEffect) : Prop := tr = [] ∨ tr = [A_close] ∨ ∃ line, tr = [A_close; A_stderr line].

(** The two ways [run] goes: it served, locked down; or it failed before. *)
Lemma agent_run_served env var path fd tr key :
  take_socket_fd var = Ok fd → lock_down env path = (tr, Ok key) →
  ∃ turns rest, (agent_run env var path).1 = tr ++ concat turns ++ rest ∧ Forall (served_turn key) turns ∧ leaving rest ∧
    A_recv ∈ concat turns ∧ ((agent_run env var path).2 = None ↔ rest = []).
Proof.
  intros Hfd Hl. unfold agent_run. rewrite Hfd, Hl. destruct (serve_turns key (ag_turns env)) as (turns & Ht & Hok).
  pose proof (serve_recv key (ag_turns env)) as Hrecv. rewrite Ht in Hrecv. destruct (serve key (ag_turns env)) as [tr2 r]. cbn in Ht. subst tr2.
  exists turns. destruct r as [[[]|e]|]; cbn [fst snd].
  - exists [A_close]. split_and!; try done. right. by left.
  - eexists. split; [done|]. split_and!; try done. right. right. by eexists.
  - exists []. rewrite app_nil_r. split_and!; try done. by left.
Qed.

Lemma last_words k line : k_filter k = None → kernel_run k [A_close; A_stderr line] = Some k ∧ kernel_run k [A_stderr line] = Some k.
Proof.
  intros Hf. cbn. rewrite (unrestricted k (syscalls A_close)), (unrestricted k (syscalls (A_stderr line))); [done|done| |done|].
  - right. apply stderr_opens_nothing.
  - right. apply close_opens_nothing.
Qed.

Lemma agent_run_failed env var path :
  (∀ fd tr key, take_socket_fd var = Ok fd → lock_down env path ≠ (tr, Ok key)) →
  (A_recv ∉ (agent_run env var path).1) ∧ (agent_run env var path).2 = Some 1 ∧
  is_Some (kernel_run k_start (agent_run env var path).1).
Proof.
  intros Hno. unfold agent_run. destruct (take_socket_fd var) as [fd|e].
  2:{ cbn [fst snd]. destruct (last_words k_start (B "symbolon-sign-agent: " ++ e)) as [_ ->]; [done|]. split_and!; [set_solver|done|by eexists]. }
  destruct (lock_down env path) as [tr [key|e]] eqn:El; [by destruct (Hno fd tr key)|].
  destruct (lock_down_Err _ _ _ _ El) as (Hn & k & Hk & Hf). cbn [fst snd]. rewrite kernel_run_app, Hk. cbn [mbind option_bind].
  destruct (last_words k (B "symbolon-sign-agent: " ++ e) Hf) as [-> _]. split_and!; [set_solver|done|by eexists].
Qed.

(** The datagrams sent, and the end, are those of [serve_loop] in [Signing],
    against which the daemon's backend was compared. *)
Definition sent_of (e : AgentEffect) : list bytes := match e with A_send b => [b] | _ => [] end.

Lemma handle_audited_silent buf : (handle_audited buf) ≫= sent_of = [].
Proof. unfold handle_audited. by destruct (decode_message _) as [[]|]. Qed.

Lemma serve_sends key events : ((serve key events).1 ≫= sent_of, (serve key events).2) = serve_loop key events.
Proof.
  induction events as [|ev events IH]; [done|]. cbn [serve serve_loop]. destruct ev as [datagram sent| |e]; [| |done].
  - case_decide; [done|]. destruct (encode_message _) as [b|]; [|cbn; by rewrite handle_audited_silent].
    destruct (send_datagram b sent); rewrite <-?IH; [destruct (serve key events)|]; cbn [fst snd].
    all: rewrite bind_app; cbn; rewrite ?bind_app, handle_audited_silent; done.
  - rewrite <-IH. by destruct (serve key events).
Qed.

(** What [spawn] starts is the agent, with the key file of the configuration
    and its own end of the socket pair, and without the daemon's. *)
Lemma agent_started env sp key_path sock child_fd im :
  AgentSpawn_spawn sp key_path = Ok (sock, im) → sp_pair sp = Ok (sock, child_fd) → 0 <= child_fd <= i32_max →
  agent_main env im = Some (agent_run env (Some (show_u64 child_fd)) key_path) ∧
  take_socket_fd (Some (show_u64 child_fd)) = Ok child_fd ∧ child_fd ∈ im_fds im ∧
  (sock ≠ child_fd → sock ∉ sp_inherited sp → sock ∉ im_fds im).
Proof.
  intros Hs Hp Hfd. apply AgentSpawn_spawn_Ok in Hs as (fd & Hp' & Ha & He & _ & _ & Hf). rewrite Hp in Hp'. injection Hp' as <-.
  unfold agent_main. rewrite Ha, He, Hf, decide_True by done. split_and!; [done| |set_solver|set_solver].
  unfold take_socket_fd. cbn [ok_or mbind result_bind]. rewrite parse_i32_show by done. cbn.
  destruct (child_fd <? 0) eqn:E; [lia|done].
Qed.

(** ** Property *)

(** C31: the agent serves only when it is locked down.  Whatever the system
    answers: if it takes so much as one datagram, it has before that, in this
    order and successfully, read the key (once), tried to lock its memory, made
    itself undumpable, tied itself to its parent, gone through Landlock and
    installed the seccomp filter, under which opening files, sockets,
    connections, programs, rings and other processes kills it; from then on it
    only receives and answers, and a signature is sent only right after the
    audit line with the very claims it signs; none of these effects is stopped
    by the restrictions in force.  The one that is, is the end of [run_inner]:
    closing the socket is not on the allowlist, so an agent that has served
    never exits, with 0 or 1, but is killed, and a line about its error is never
    written.  An agent that could not lock itself down serves nothing, is not
    stopped by anything and exits with 1. *)
Theorem agent_lockdown env var path :
  let tr := (agent_run env var path).1 in
  (A_recv ∈ tr →
     ∃ pem key enforced turns rest, ag_key_file env = Ok pem ∧ JwtSigningKey_from_pem pem = Ok key ∧
       tr = locking env path enforced ++ concat turns ++ rest ∧ Forall (served_turn key) turns ∧ leaving rest ∧
       kernel_run k_start (locking env path enforced) = Some (k_locked enforced) ∧
       agent_process env var path =
         (locking env path enforced ++ concat turns, if decide (rest = []) then Agent_serving else Agent_killed) ∧
       Forall (λ c, permitted (k_locked enforced) c = false)
         [SYS_openat; SYS_read; SYS_close; SYS_socket; SYS_connect; SYS_execve; SYS_io_uring_setup; SYS_ptrace; SYS_prctl]) ∧
  (A_recv ∉ tr → agent_process env var path = (tr, Agent_exit 1)).
Proof.
  intros tr. subst tr.
  assert ((∀ fd tr key, take_socket_fd var = Ok fd → lock_down env path ≠ (tr, Ok key)) →
    (A_recv ∉ (agent_run env var path).1) ∧ agent_process env var path = ((agent_run env var path).1, Agent_exit 1)) as Hfailed.
  { intros Hno. destruct (agent_run_failed env var path Hno) as (Hn & Hx & [k Hk]). split; [done|]. unfold agent_process.
    destruct (agent_run env var path) as [tr code]. cbn [fst snd] in *. subst code. by rewrite (kernel_done_all _ _ _ Hk), Hk. }
  destruct (take_socket_fd var) as [fd|e] eqn:Hfd; [|destruct Hfailed; [done|tauto]].
  destruct (lock_down env path) as [tr [key|e]] eqn:El; [clear Hfailed|destruct Hfailed; [done|tauto]].
  destruct (agent_run_served _ _ _ _ _ _ Hfd El) as (turns & rest & Htr & Hok & Hrest & Hrecv & Hend).
  destruct (lock_down_Ok _ _ _ _ El) as (pem & enforced & Hf & Hp & ->). rewrite Htr.
  split; [intros _|set_solver]. exists pem, key, enforced, turns, rest. pose proof (locking_run env path enforced) as Hlock.
  do 6 (split; [done|]). split; [|destruct enforced; repeat constructor].
  unfold agent_process. destruct (agent_run env var path) as [tr code]. cbn [fst snd] in Htr, Hend. subst tr.
  rewrite kernel_run_app, Hlock, (kernel_done_app _ _ _ _ Hlock). cbn [mbind option_bind].
  rewrite kernel_run_app, (turns_locked _ _ _ Hok), (kernel_done_app _ _ _ _ (turns_locked _ enforced _ Hok)). cbn [mbind option_bind].
  destruct Hrest as [->|Hrest].
  - destruct Hend as [_ ->]; [|done]. cbn. by rewrite app_nil_r.
  - assert (∃ tl, rest = A_close :: tl) as [tl ->] by (destruct Hrest as [->|[line ->]]; eauto).
    destruct (close_denied enforced tl) as [-> ->]. by rewrite app_nil_r.
Qed.

End agent.

(** ** A run: one signature, then the daemon closes the socket *)

Definition demo_agent : AgentEnv :=
  MkAgentEnv (Ok [x4b]) (Some (B "EPERM")) None None (Ok true) (Ok ())
    [Turn_eintr; Turn_recv (text_of (Req_SignJwt demo_claims)) (Send_n (len (text_of (Resp_Jwt (B "")))));
     Turn_recv [] (Send_n 0)].

(** The calls of a C library and an allocator that uses them all. *)
Definition demo_syscalls : @SyscallsOf := λ e,
  match e with
  | A_read_key _ => [SYS_openat; SYS_read; SYS_close]
  | A_mlockall => [SYS_mlockall]
  | A_undumpable _ | A_pdeathsig _ => [SYS_prctl]
  | A_landlock _ => [SYS_prctl; SYS_landlock]
  | A_seccomp => [SYS_prctl; SYS_seccomp]
  | A_recv => [SYS_recvfrom]
  | A_audit _ => [SYS_write; SYS_mmap; SYS_munmap; SYS_brk; SYS_getrandom; SYS_futex]
  | A_send _ => [SYS_sendto]
  | A_close => [SYS_close]
  | A_stderr _ => [SYS_write]
  end.

Lemma demo_syscall_laws : @SyscallLaws demo_syscalls.
Proof. split; try done; intros; first [repeat constructor; set_solver|by apply (bool_decide_unpack _)]. Qed.

(** One interrupted [recv] and one signature with its audit line; the [send]
    reports a short datagram, and the agent is killed on its way out, before the
    line that would say so.  An agent without a descriptor says why it exits. *)
Example demo_agent_run :
  let '(tr, x) := @agent_process sign_model demo_syscalls demo_agent (Some (B "7")) (B "/etc/symbolon/app.pem") in
  let '(tr', x') := @agent_process sign_model demo_syscalls demo_agent (Some (B "-7")) (B "/etc/symbolon/app.pem") in
  x = Agent_killed ∧ length tr = 11%nat ∧ length (@agent_run sign_model demo_agent (Some (B "7")) (B "/etc/symbolon/app.pem")).1 = 13%nat ∧
  x' = Agent_exit 1 ∧ length tr' = 1%nat.
Proof. vm_compute. split_and!; reflexivity. Qed.

(** The theorem at these runs. *)
Lemma agent_lockdown_witness :
  (@agent_process sign_model demo_syscalls demo_agent (Some (B "7")) (B "/etc/symbolon/app.pem")).2 = Agent_killed ∧
  (@agent_process sign_model demo_syscalls demo_agent (Some (B "-7")) (B "/etc/symbolon/app.pem")).2 = Agent_exit 1.
Proof.
  split.
  - destruct (@agent_lockdown sign_model demo_syscalls demo_syscall_laws demo_agent (Some (B "7")) (B "/etc/symbolon/app.pem")) as [H _].
    destruct H as (pem & key & enforced & turns & rest & _ & _ & _ & _ & _ & _ & Hp & _).
    + apply (list_elem_of_lookup_2 _ 7). vm_compute. reflexivity.
    + rewrite Hp. cbn [snd]. case_decide as Hr; [|reflexivity]. subst rest. exfalso.
      apply (f_equal snd) in Hp. revert Hp. vm_compute. discriminate.
  - destruct (@agent_lockdown sign_model demo_syscalls demo_syscall_laws demo_agent (Some (B "-7")) (B "/etc/symbolon/app.pem")) as [_ H].
    rewrite H; [reflexivity|]. vm_compute. intros Hin. by repeat (inversion Hin as [|? ? ? Hin']; subst; clear Hin; rename Hin' into Hin).
Defined.
