(* ===== verification/Github.v ===== *)
(** * The GitHub provider: [src/providers/github.rs], [src/providers/mod.rs]

    [mint] and [selfcheck] as programs over the provider's state: the clock and
    the outbound calls are numbered, and what happens to each is given by the
    class [GithubEnv] (the signer's answer, the race of response, timeout and
    shutdown, the bytes GitHub sends).  Every [run_call] leaves a record of the
    endpoint and of the request handed to the HTTP client, so the theorems
    speak about what goes over the wire.  HTTP, JSON and date parsing are
    external code and parameters of that class.

    A mint runs here from its start to its end; [Mints] cuts it at its awaits
    and interleaves any number of them. *)

From S2P Require Import Prelude GitCredential TtlCache Singleflight Config Signing.

(** ** Errors *)

Inductive GithubError {HttpErr : Type} :=
| G_JwtSign (e : JwtBackendError)
| G_Http (e : HttpErr)
| G_ParseResponse (context detail : bytes)
| G_MalformedPath (p : bytes)
| G_Unauthorized (body : bytes)
| G_Forbidden (body : bytes)
| G_RepoNotFound
| G_RateLimited (retry_after : option Z)
| G_OtherStatus (status : Z)
| G_ClientIdMismatch (configured reported : bytes)
| G_Timeout (d : Z)
| G_Cancelled.
Arguments GithubError : clear implicits.

Inductive ProviderError {HttpErr : Type} :=
| PE_Transport (e : HttpErr)
| PE_Unauthorized (body : bytes)
| PE_Forbidden (body : bytes)
| PE_RepoNotFound
| PE_RateLimited (retry_after : option Z)
| PE_UnexpectedStatus (status : Z)
| PE_MalformedPath (p : bytes)
| PE_MalformedResponse (context detail : bytes)
| PE_Timeout (elapsed : Z)
| PE_Cancelled
| PE_Internal (e : GithubError HttpErr).
Arguments ProviderError : clear implicits.

(** [From<GithubError> for ProviderError] *)
Definition ProviderError_from {H} (e : GithubError H) : ProviderError H :=
  match e with
  | G_Http src => PE_Transport src
  | G_Unauthorized body => PE_Unauthorized body
  | G_Forbidden body => PE_Forbidden body
  | G_RepoNotFound => PE_RepoNotFound
  | G_RateLimited ra => PE_RateLimited ra
  | G_OtherStatus s => PE_UnexpectedStatus s
  | G_MalformedPath p => PE_MalformedPath p
  | G_ParseResponse c d => PE_MalformedResponse c d
  | G_Timeout d => PE_Timeout d
  | G_Cancelled => PE_Cancelled
  | (G_JwtSign _ | G_ClientIdMismatch _ _) as other => PE_Internal other
  end.

(** ** HTTP *)

Inductive Method := GET | POST | DELETE.

Record HttpRequest := MkHttpRequest {
  rq_method : Method;
  rq_url : bytes;
  rq_headers : list (bytes * bytes);
  rq_body : bytes;
}.

(** Header values as the HTTP client hands them over; [rs_body] fails when the
    connection breaks while the body is read. *)
Record HttpResponse {HttpErr : Type} := MkHttpResponse {
  rs_status : Z;
  rs_headers : bytes → option bytes;
  rs_body : result HttpErr bytes;
}.
Arguments HttpResponse : clear implicits.

(** How the race in [run_call] ends.  Shutdown and timeout may win before the
    request is handed to the network ([sent = false]) or after; a transport
    error and a response come after. *)
Inductive CallFate {HttpErr : Type} :=
| Fate_cancelled (sent : bool)
| Fate_timeout (sent : bool)
| Fate_http_error (e : HttpErr)
| Fate_response (r : HttpResponse HttpErr).
Arguments CallFate : clear implicits.

Class GithubEnv := {
  HttpError : Type;
  (** call [n]: what the signer answers, how the race ends, the request id *)
  ge_sign : nat → JwtClaims → result JwtBackendError bytes;
  ge_fate : nat → CallFate HttpError;
  ge_out_req_id : nat → bytes;
  (** the [n]-th reading of the clock *)
  ge_clock : nat → Z;
  (** [Client::get] and friends on the URL, [RequestBuilder::header] on the value *)
  url_error : bytes → option HttpError;
  header_error : bytes → option HttpError;
  (** [Url::parse] and [host_str]; [Client::builder().build()] *)
  url_host : bytes → option bytes;
  client_build : result HttpError ();
  (** [HeaderValue::to_str] *)
  header_to_str : bytes → option bytes;
  (** serde_json on the response bodies *)
  envelope_of_json : bytes → option (option bytes);
  app_of_json : bytes → option bytes;
  repo_of_json : bytes → option Z;
  mint_of_json : bytes → option (bytes * bytes);
  (** [OffsetDateTime::parse] under RFC 3339 and RFC 2822, as Unix seconds *)
  rfc3339_unix : bytes → option Z;
  rfc2822_unix : bytes → option Z;
}.

(** ** Paths *)

Record RepoPath := MkRepoPath { owner : bytes; repo : bytes }.
#[export] Instance RepoPath_eq_dec : EqDecision RepoPath.
Proof. solve_decision. Defined.

Definition is_valid_byte (b : byte) : bool :=
  is_ascii_alphanumeric b || bool_decide (b ∈ [x2d; x5f; x2e]).

Definition RepoPath_parse {H} (p : bytes) : result (GithubError H) RepoPath :=
  match split_once x2f p with
  | None => Err (G_MalformedPath p)
  | Some (o, r) =>
      if bool_decide (o = []) || bool_decide (r = []) || negb (forallb is_valid_byte o) || negb (forallb is_valid_byte r)
      then Err (G_MalformedPath p)
      else Ok (MkRepoPath o r)
  end.

(** ** The provider *)

Record GitHubProvider := MkGitHubProvider {
  gp_host : bytes;
  gp_api_base : bytes;
  gp_client_id : bytes;
  gp_installation_id : Z;
  gp_user_agent : bytes;
  gp_selfcheck_timeout : Z;
  gp_request_timeout : Z;
  (** the host the redirect policy allows *)
  gp_redirect_host : bytes;
}.

Record MintOutcome := MkMintOutcome {
  mo_response : Response;
  mo_out_req_id : bytes;
  mo_provider_req_id : option bytes;
}.

Record SelfcheckOutcome := MkSelfcheckOutcome {
  so_out_req_id : bytes;
  so_provider_req_id : option bytes;
  so_clock_skew_sec : Z;
  so_details : list (bytes * bytes);
}.

(** One [run_call]: its endpoint and the request it handed to the network. *)
Record CallRecord := MkCallRecord { cr_endpoint : bytes; cr_sent : option HttpRequest }.

(** The mutable state: the two caches, the call records and the positions in
    the clock and call sequences. *)
Record GState := MkGState {
  gs_repo_ids : @Store bytes Z _ _;
  gs_tokens : @TtlCache bytes bytes _ _;
  gs_calls : list CallRecord;
  gs_ticks : nat;
}.

Definition gs_with_repo_ids (s : GState) (st : @Store bytes Z _ _) : GState :=
  MkGState st (gs_tokens s) (gs_calls s) (gs_ticks s).
Definition gs_with_tokens (s : GState) (c : @TtlCache bytes bytes _ _) : GState :=
  MkGState (gs_repo_ids s) c (gs_calls s) (gs_ticks s).
Definition gs_record (s : GState) (c : CallRecord) : GState :=
  MkGState (gs_repo_ids s) (gs_tokens s) (gs_calls s ++ [c]) (gs_ticks s).
Definition gs_tick (s : GState) : GState :=
  MkGState (gs_repo_ids s) (gs_tokens s) (gs_calls s) (S (gs_ticks s)).

Definition gs_new : GState := MkGState (MkStore ∅ 0) TtlCache_new [] 0.

(** How an operation ends: with a value, in the panic of an [expect], or
    waiting for another task. *)
Inductive outcome (A : Type) := Ret (a : A) | Panic | Blocked.
Arguments Ret {A} a.
Arguments Panic {A}.
Arguments Blocked {A}.

(** [str]'s [Ord], the tie break of the expiry heap. *)
Fixpoint bytes_leb (x y : bytes) : bool :=
  match x, y with
  | [], _ => true
  | _ :: _, [] => false
  | a :: x', b :: y' => (u8 a <? u8 b) || ((u8 a =? u8 b) && bytes_leb x' y')
  end.

Definition GITHUB_API_VERSION : bytes := B "2026-03-10".
Definition ACCEPT_HEADER : bytes := B "application/vnd.github+json".
Definition REQUEST_TIMEOUT_HEADER : bytes := B "request-timeout".
Definition X_REQUEST_ID_HEADER : bytes := B "x-request-id".
Definition GH_REQUEST_ID_HEADER : bytes := B "x-github-request-id".

Definition metadata_body : bytes :=
  B "{" ++ [x22] ++ B "permissions" ++ [x22] ++ B ":{" ++ [x22] ++ B "metadata" ++ [x22] ++ B ":"
    ++ [x22] ++ B "read" ++ [x22] ++ B "}}".

(** The body of a mint, in three parts around the repository id. *)
Definition mint_body_head : bytes := B "{" ++ [x22] ++ B "repository_ids" ++ [x22] ++ B ":[".
Definition mint_body_tail : bytes :=
  B "]," ++ [x22] ++ B "permissions" ++ [x22] ++ B ":{" ++ [x22] ++ B "contents" ++ [x22] ++ B ":"
    ++ [x22] ++ B "write" ++ [x22] ++ B "," ++ [x22] ++ B "metadata" ++ [x22] ++ B ":" ++ [x22] ++ B "read" ++ [x22] ++ B "}}".
Definition mint_body (repo_id : Z) : bytes := mint_body_head ++ show_u64 repo_id ++ mint_body_tail.

Section github.
Context {GE : GithubEnv}.

Abbreviation GErr := (GithubError HttpError).

(** [with_overrides]: the API base without trailing slashes, and the redirect
    policy pinned to its host. *)
Definition GitHubProvider_with_overrides (cfg : ProviderGithub) (api_base_override : option bytes) :
    result GErr GitHubProvider :=
  let api := trim_end_matches (λ b, bool_decide (b = x2f)) (default (api_base cfg) api_base_override) in
  let bad_base := G_MalformedPath (B "api_base=" ++ api) in
  api_host ← ok_or bad_base (url_host api);
  _ ← map_err G_Http client_build;
  Ok (MkGitHubProvider (gh_host cfg) api (client_id cfg) (installation_id cfg) (user_agent cfg)
        (selfcheck_timeout cfg) (request_timeout cfg) api_host).

(** The redirect policy: follow within the API host, else stop. *)
Definition redirect_follow (p : GitHubProvider) (attempt_host : option bytes) : bool :=
  bool_decide (attempt_host = Some (gp_redirect_host p)).

(** *** Response bodies and headers *)

Definition MAX_CHARS : nat := 200.

Definition message_from_body (body : bytes) : bytes :=
  match envelope_of_json body with
  | Some (Some m) => m
  | _ =>
      let text := match from_utf8 body with Ok t => t | Err _ => B "(non-utf8 body)" end in
      match char_indices text with
      | Ok cs => match cs !! MAX_CHARS with
                 | Some (cut, _) => take (Z.to_nat cut) text ++ B "…"
                 | None => text
                 end
      | Err _ => text
      end
  end.

Definition from_common_status (status : Z) (body : bytes) (retry_after : option Z) : GErr :=
  if status =? 401 then G_Unauthorized (message_from_body body)
  else if status =? 403 then G_Forbidden (message_from_body body)
  else if status =? 429 then G_RateLimited retry_after
  else G_OtherStatus status.

(** [str::parse::<u64>] *)
Definition parse_u64 (s : bytes) : option Z :=
  let digits := match s with x2b :: d => d | _ => s end in
  if bool_decide (digits = []) || negb (forallb is_digit digits) then None
  else let v := dec_value digits in if v <=? u64_max then Some v else None.

Definition read_provider_req_id (r : HttpResponse HttpError) : option bytes :=
  v ← rs_headers r GH_REQUEST_ID_HEADER; header_to_str v.

(** [str::trim] of a header value, whose only white space is blanks and tabs *)
Definition trim_header (s : bytes) : bytes :=
  let ws b := bool_decide (b ∈ [x20; x09]) in trim_end_matches ws (drop_while ws s).

Definition read_retry_after (r : HttpResponse HttpError) : option Z :=
  v ← rs_headers r (B "retry-after");
  s ← header_to_str v;
  n ← parse_u64 (trim_header s);
  Some (from_secs n).

Definition check_app_identity (body expected : bytes) : result GErr () :=
  reported ← ok_or (G_ParseResponse (B "selfcheck") (B "json")) (app_of_json body);
  if negb (beq reported expected) then Err (G_ClientIdMismatch expected reported) else Ok ().

(** [u64::try_from] of the Unix timestamp rejects dates before the epoch. *)
Definition parse_mint_response (body : bytes) : result GErr (bytes * Z) :=
  '(token, expires_at) ← ok_or (G_ParseResponse (B "mint") (B "json")) (mint_of_json body);
  secs ← ok_or (G_ParseResponse (B "mint") (B "bad expires_at"))
           (t ← rfc3339_unix expires_at; if t <? 0 then None else Some t);
  Ok (token, from_secs secs).

(** *** The monad of provider operations *)

Definition G (A : Type) : Type := GState → GState * outcome (result GErr A).

Definition g_ret {A} (a : A) : G A := λ s, (s, Ret (Ok a)).
Definition g_lift {A} (r : result GErr A) : G A := λ s, (s, Ret r).
Definition g_bind {A C} (m : G A) (f : A → G C) : G C := λ s,
  let '(s, o) := m s in
  match o with
  | Ret (Ok a) => f a s
  | Ret (Err e) => (s, Ret (Err e))
  | Panic => (s, Panic)
  | Blocked => (s, Blocked)
  end.

(** [(self.clock)()] *)
Definition clock_now : G Z := λ s, (gs_tick s, Ret (Ok (ge_clock (gs_ticks s)))).

(** [sign_jwt_now] of the call about to be made. *)
Definition sign_jwt_now (p : GitHubProvider) : G bytes :=
  g_bind clock_now (λ now s,
    (s, Ret (map_err G_JwtSign (ge_sign (length (gs_calls s)) (JwtClaims_new now (gp_client_id p)))))).

(** [RequestBuilder::header], [Client::get]/[post]/[delete] *)
Definition add_header (name value : bytes) (req : HttpRequest) : result GErr HttpRequest :=
  match header_error value with
  | Some e => Err (G_Http e)
  | None => Ok (MkHttpRequest (rq_method req) (rq_url req) (rq_headers req ++ [(name, value)]) (rq_body req))
  end.

Definition new_request (m : Method) (url : bytes) : result GErr HttpRequest :=
  match url_error url with
  | Some e => Err (G_Http e)
  | None => Ok (MkHttpRequest m url [] [])
  end.

Definition set_body (b : bytes) (req : HttpRequest) : HttpRequest :=
  MkHttpRequest (rq_method req) (rq_url req) (rq_headers req) b.

Definition apply_standard_headers (p : GitHubProvider) (req : HttpRequest) (bearer : bytes) : result GErr HttpRequest :=
  req ← add_header (B "authorization") (B "Bearer " ++ bearer) req;
  req ← add_header (B "accept") ACCEPT_HEADER req;
  req ← add_header (B "x-github-api-version") GITHUB_API_VERSION req;
  add_header (B "user-agent") (gp_user_agent p) req.

Record CallMeta := MkCallMeta { cm_status : Z; cm_provider_req_id : option bytes }.

(** [run_call].  Building the request comes inside the race: when shutdown or
    the timeout wins before it, nothing is built. *)
Definition run_call {T} (endpoint : bytes) (timeout : Z) (build : G HttpRequest)
    (handle : HttpResponse HttpError → CallMeta → bytes → result GErr T) : G T := λ s,
  let n := length (gs_calls s) in
  let out_req_id := ge_out_req_id n in
  match ge_fate n with
  | Fate_cancelled false => (gs_record s (MkCallRecord endpoint None), Ret (Err G_Cancelled))
  | Fate_timeout false => (gs_record s (MkCallRecord endpoint None), Ret (Err (G_Timeout timeout)))
  | fate =>
      let '(s, o) := build s in
      match o with
      | Panic => (s, Panic)
      | Blocked => (s, Blocked)
      | Ret r =>
          match (req ← r;
                 req ← add_header X_REQUEST_ID_HEADER out_req_id req;
                 add_header REQUEST_TIMEOUT_HEADER (show_u64 (as_secs timeout)) req) with
          | Err e => (gs_record s (MkCallRecord endpoint None), Ret (Err e))
          | Ok req =>
              (gs_record s (MkCallRecord endpoint (Some req)),
               Ret match fate with
                   | Fate_cancelled _ => Err G_Cancelled
                   | Fate_timeout _ => Err (G_Timeout timeout)
                   | Fate_http_error e => Err (G_Http e)
                   | Fate_response r =>
                       handle r (MkCallMeta (rs_status r) (read_provider_req_id r)) out_req_id
                   end)
          end
      end
  end.

(** *** Endpoints *)

Definition selfcheck_url (p : GitHubProvider) : bytes := gp_api_base p ++ B "/app".
Definition access_tokens_url (p : GitHubProvider) : bytes :=
  gp_api_base p ++ B "/app/installations/" ++ show_u64 (gp_installation_id p) ++ B "/access_tokens".
Definition repo_url (p : GitHubProvider) (o r : bytes) : bytes := gp_api_base p ++ B "/repos/" ++ o ++ B "/" ++ r.
Definition installation_token_url (p : GitHubProvider) : bytes := gp_api_base p ++ B "/installation/token".

Definition selfcheck_build (p : GitHubProvider) : G HttpRequest :=
  g_bind (sign_jwt_now p) (λ jwt,
  g_lift (req ← new_request GET (selfcheck_url p); apply_standard_headers p req jwt)).

(** [now_utc] is the wall clock read while the response is handled. *)
Definition selfcheck_handle (p : GitHubProvider) (now_utc : Z) (r : HttpResponse HttpError) (meta : CallMeta)
    (out_req_id : bytes) : result GErr SelfcheckOutcome :=
  let clock_skew_sec :=
    default 0 (v ← rs_headers r (B "date"); s ← header_to_str v; t ← rfc2822_unix s; Some (t - as_secs now_utc)) in
  let retry_after := read_retry_after r in
  body ← map_err G_Http (rs_body r);
  if negb (cm_status meta =? 200) then Err (from_common_status (cm_status meta) body retry_after)
  else
    _ ← check_app_identity body (gp_client_id p);
    Ok (MkSelfcheckOutcome out_req_id (cm_provider_req_id meta) clock_skew_sec
          [(B "client_id", gp_client_id p); (B "installation_id", show_u64 (gp_installation_id p));
           (B "api_base", gp_api_base p)]).

Definition selfcheck (p : GitHubProvider) : G SelfcheckOutcome :=
  g_bind clock_now (λ now_utc,
  run_call (B "selfcheck") (gp_selfcheck_timeout p) (selfcheck_build p) (selfcheck_handle p now_utc)).

(** The two halves of each endpoint: the request it builds, and what it makes of
    the response. *)
Definition bearer_build (p : GitHubProvider) (m : Method) (url token : bytes) : G HttpRequest :=
  g_lift (req ← new_request m url; apply_standard_headers p req token).

Definition resolve_handle (resp : HttpResponse HttpError) (meta : CallMeta) (_ : bytes) : result GErr Z :=
  let retry_after := read_retry_after resp in
  body ← map_err G_Http (rs_body resp);
  if cm_status meta =? 200 then ok_or (G_ParseResponse (B "repo") (B "json")) (repo_of_json body)
  else if cm_status meta =? 404 then Err G_RepoNotFound
  else Err (from_common_status (cm_status meta) body retry_after).

Definition resolve_repo_id (p : GitHubProvider) (install_token o r : bytes) : G Z :=
  run_call (B "resolve_repo_id") (gp_request_timeout p) (bearer_build p GET (repo_url p o r) install_token) resolve_handle.

(** The request both mint endpoints build, around their body. *)
Definition mint_build (p : GitHubProvider) (body : bytes) : G HttpRequest :=
  g_bind (sign_jwt_now p) (λ jwt,
  g_lift (req ← new_request POST (access_tokens_url p);
          req ← apply_standard_headers p req jwt;
          req ← add_header (B "content-type") (B "application/json") req;
          Ok (set_body body req))).

Definition metadata_handle (resp : HttpResponse HttpError) (meta : CallMeta) (_ : bytes) : result GErr (bytes * Z) :=
  let retry_after := read_retry_after resp in
  body ← map_err G_Http (rs_body resp);
  if cm_status meta =? 201 then parse_mint_response body
  else Err (from_common_status (cm_status meta) body retry_after).

Definition mint_metadata_token (p : GitHubProvider) : G (bytes * Z) :=
  run_call (B "mint_metadata_token") (gp_request_timeout p) (mint_build p metadata_body) metadata_handle.

Definition token_handle (resp : HttpResponse HttpError) (meta : CallMeta) (out_req_id : bytes) : result GErr MintOutcome :=
  let retry_after := read_retry_after resp in
  body ← map_err G_Http (rs_body resp);
  if cm_status meta =? 201 then
    '(token, expires_at) ← parse_mint_response body;
    response ← map_err (λ _, G_ParseResponse (B "mint") (B "invalid token or expiry from GitHub"))
                 (Response_new (B "x-access-token") token expires_at);
    Ok (MkMintOutcome response out_req_id (cm_provider_req_id meta))
  else if cm_status meta =? 404 then Err G_RepoNotFound
  else Err (from_common_status (cm_status meta) body retry_after).

Definition mint_token (p : GitHubProvider) (repo_id : Z) : G MintOutcome :=
  run_call (B "mint_token") (gp_request_timeout p) (mint_build p (mint_body repo_id)) token_handle.

Definition revoke_handle (resp : HttpResponse HttpError) (meta : CallMeta) (_ : bytes) : result GErr () :=
  if cm_status meta =? 204 then Ok ()
  else
    let retry_after := read_retry_after resp in
    let body := match rs_body resp with Ok b => b | Err _ => [] end in
    Err (from_common_status (cm_status meta) body retry_after).

Definition revoke_install_token (p : GitHubProvider) (token : bytes) : G () :=
  run_call (B "revoke_install_token") (gp_request_timeout p)
    (bearer_build p DELETE (installation_token_url p) token) revoke_handle.

(** [let _ = m.await]: run and ignore the result. *)
Definition g_ignore {A} (m : G A) : G () := λ s,
  let '(s, o) := m s in
  match o with Ret _ => (s, Ret (Ok ())) | Panic => (s, Panic) | Blocked => (s, Blocked) end.

(** [let result = m.await]: the result as a value. *)
Definition g_try {A} (m : G A) : G (result GErr A) := λ s,
  let '(s, o) := m s in
  match o with Ret r => (s, Ret (Ok r)) | Panic => (s, Panic) | Blocked => (s, Blocked) end.

Definition with_metadata_token {T} (p : GitHubProvider) (work : bytes → G T) : G T :=
  g_bind (mint_metadata_token p) (λ '(token, _expires),
  g_bind (g_try (work token)) (λ result,
  g_bind (g_ignore (revoke_install_token p token)) (λ _,
  g_lift result))).

(** [repo_ids.with(&key, resolve)] with no other task on the memo: the guard is
    dropped on success (committed) and on failure. *)
Definition repo_ids_with (key : bytes) (resolve : G Z) : G Z := λ s,
  let '(st, c) := claim (gs_repo_ids s) key in
  let s := gs_with_repo_ids s st in
  match c with
  | Claim_Hit value => (s, Ret (Ok value))
  | Claim_Wait _ => (s, Blocked)
  | Claim_Resolve ev =>
      let g := InFlightGuard_new key ev in
      let finish s g := gs_with_repo_ids s (sf_store (guard_drop g (MkSfWorld (Er:=GErr) (gs_repo_ids s) ∅))) in
      let '(s, o) := resolve s in
      match o with
      | Ret (Ok value) => (finish s (commit_done g value), Ret (Ok value))
      | Ret (Err e) => (finish s g, Ret (Err e))
      | Panic => (finish s g, Panic)
      | Blocked => (s, Blocked)
      end
  end.

(** [token_cache]'s methods, each reading the clock for its sweep. *)
Definition token_cache_get (key : bytes) : G (option (bytes * Z)) :=
  g_bind clock_now (λ now s,
    let '(r, c) := get_with_expiry now key (gs_tokens s) in (gs_with_tokens s c, Ret (Ok r))).
Definition token_cache_insert (key token : bytes) (expires_at : Z) : G () :=
  g_bind clock_now (λ now s,
    (gs_with_tokens s (TtlCache_insert bytes_leb now key token expires_at (gs_tokens s)), Ret (Ok ()))).

(** [inspect_err]: on [RepoNotFound] drop the key from both caches. *)
Definition forget_if_not_found (key : bytes) (m : G MintOutcome) : G MintOutcome := λ s,
  let '(s, o) := m s in
  match o with
  | Ret (Err G_RepoNotFound) =>
      (gs_with_tokens (gs_with_repo_ids s (sf_invalidate (gs_repo_ids s) key)) (TtlCache_invalidate key (gs_tokens s)), o)
  | _ => (s, o)
  end.

Definition mint_key (rp : RepoPath) : bytes :=
  (to_ascii_lowercase <$> owner rp) ++ B "/" ++ (to_ascii_lowercase <$> repo rp).

(** The cache hit: [expect] panics if the cached token does not validate; the
    outcome carries a fresh request id. *)
Definition mint_cached (token : bytes) (expires_at : Z) : G MintOutcome := λ s,
  match Response_new (B "x-access-token") token expires_at with
  | Ok response => (s, Ret (Ok (MkMintOutcome response (ge_out_req_id (length (gs_calls s))) None)))
  | Err _ => (s, Panic)
  end.

Definition mint_uncached (p : GitHubProvider) (rp : RepoPath) : G MintOutcome :=
  let key := mint_key rp in
  g_bind (repo_ids_with key (with_metadata_token p (λ token, resolve_repo_id p token (owner rp) (repo rp)))) (λ repo_id,
  g_bind (forget_if_not_found key (mint_token p repo_id)) (λ outcome,
  g_bind (token_cache_insert key (password (mo_response outcome)) (password_expiry_utc (mo_response outcome))) (λ _,
  g_ret outcome))).

Definition mint (p : GitHubProvider) (path : bytes) : G MintOutcome :=
  g_bind (g_lift (RepoPath_parse path)) (λ rp,
  g_bind (token_cache_get (mint_key rp)) (λ cached,
  match cached with
  | Some (token, expires_at) => mint_cached token expires_at
  | None => mint_uncached p rp
  end)).

(** [impl Provider]: the same with the daemon's error type. *)
Definition Provider_mint (p : GitHubProvider) (path : bytes) (s : GState) :
    GState * outcome (result (ProviderError HttpError) MintOutcome) :=
  let '(s, o) := mint p path s in
  (s, match o with
      | Ret r => Ret (map_err ProviderError_from r)
      | Panic => Panic
      | Blocked => Blocked
      end).

Definition Provider_selfcheck (p : GitHubProvider) (s : GState) :
    GState * outcome (result (ProviderError HttpError) SelfcheckOutcome) :=
  let '(s, o) := selfcheck p s in
  (s, match o with
      | Ret r => Ret (map_err ProviderError_from r)
      | Panic => Panic
      | Blocked => Blocked
      end).

(** ** What goes over the wire *)

(** A request to a route of the API with the standard headers, the per-call
    headers and a body. *)
Definition api_request (p : GitHubProvider) (m : Method) (route bearer : bytes) (extra : list (bytes * bytes))
    (body out_req_id : bytes) : HttpRequest :=
  MkHttpRequest m (gp_api_base p ++ route)
    ([(B "authorization", B "Bearer " ++ bearer); (B "accept", ACCEPT_HEADER);
      (B "x-github-api-version", GITHUB_API_VERSION); (B "user-agent", gp_user_agent p)] ++ extra ++
     [(X_REQUEST_ID_HEADER, out_req_id); (REQUEST_TIMEOUT_HEADER, show_u64 (as_secs (gp_request_timeout p)))])
    body.

Definition json_type : list (bytes * bytes) := [(B "content-type", B "application/json")].

(** The document GitHub's access token endpoint reads, written from its API:
    the repositories the token is limited to ([None]: all of the installation)
    and the permissions. *)
Definition json_str (s : bytes) : bytes := x22 :: s ++ [x22].
Definition token_request (repository_ids : option (list Z)) (permissions : list (bytes * bytes)) : bytes :=
  B "{" ++
  match repository_ids with
  | Some ids => json_str (B "repository_ids") ++ B ":[" ++ join_with x2c (show_u64 <$> ids) ++ B "],"
  | None => []
  end ++
  json_str (B "permissions") ++ B ":{" ++ join_with x2c ((λ kv, json_str kv.1 ++ x3a :: json_str kv.2) <$> permissions) ++ B "}}".

Lemma mint_body_request id :
  mint_body id = token_request (Some [id]) [(B "contents", B "write"); (B "metadata", B "read")].
Proof. unfold mint_body, token_request. cbn [fmap list_fmap join_with]. rewrite <-!(assoc_L (++)). reflexivity. Qed.

Lemma metadata_body_request : metadata_body = token_request None [(B "metadata", B "read")].
Proof. reflexivity. Qed.

Definition token_route (p : GitHubProvider) : bytes :=
  B "/app/installations/" ++ show_u64 (gp_installation_id p) ++ B "/access_tokens".

(** [jwt] is what the signer gave for the App's claims at call [i]. *)
Definition app_jwt (p : GitHubProvider) (i : nat) (jwt : bytes) : Prop :=
  ∃ now, ge_sign i (JwtClaims_new now (gp_client_id p)) = Ok jwt.

(** The four calls of a mint; [i] is the number of the call. *)
Definition is_metadata_call (p : GitHubProvider) (i : nat) (c : CallRecord) : Prop :=
  cr_endpoint c = B "mint_metadata_token" ∧
  ∀ req, cr_sent c = Some req → ∃ jwt, app_jwt p i jwt ∧
    req = api_request p POST (token_route p) jwt json_type (token_request None [(B "metadata", B "read")]) (ge_out_req_id i).

Definition is_resolve_call (p : GitHubProvider) (rp : RepoPath) (token : bytes) (i : nat) (c : CallRecord) : Prop :=
  cr_endpoint c = B "resolve_repo_id" ∧
  ∀ req, cr_sent c = Some req →
    req = api_request p GET (B "/repos/" ++ owner rp ++ B "/" ++ repo rp) token [] [] (ge_out_req_id i).

Definition is_revoke_call (p : GitHubProvider) (token : bytes) (i : nat) (c : CallRecord) : Prop :=
  cr_endpoint c = B "revoke_install_token" ∧
  ∀ req, cr_sent c = Some req →
    req = api_request p DELETE (B "/installation/token") token [] [] (ge_out_req_id i).

Definition is_mint_call (p : GitHubProvider) (id : Z) (i : nat) (c : CallRecord) : Prop :=
  cr_endpoint c = B "mint_token" ∧
  ∀ req, cr_sent c = Some req → ∃ jwt, app_jwt p i jwt ∧
    req = api_request p POST (token_route p) jwt json_type
      (token_request (Some [id]) [(B "contents", B "write"); (B "metadata", B "read")]) (ge_out_req_id i).

(** GitHub's answer to call [i]. *)
Definition replied (i : nat) (status : Z) (body : bytes) : Prop :=
  ∃ r, ge_fate i = Fate_response r ∧ rs_status r = status ∧ rs_body r = Ok body.

Definition replied_token (i : nat) (token : bytes) (expires_at : Z) : Prop :=
  ∃ body, replied i 201 body ∧ parse_mint_response body = Ok (token, expires_at).

Definition replied_repo (i : nat) (id : Z) : Prop :=
  ∃ body, replied i 200 body ∧ repo_of_json body = Some id.

(** The calls of one mint of [rp], the first of them being call [i]. *)
Inductive mint_trace (p : GitHubProvider) (rp : RepoPath) (i : nat) : list CallRecord → Prop :=
| MT_cached : mint_trace p rp i []
| MT_known id c : is_mint_call p id i c → mint_trace p rp i [c]
| MT_no_token c : is_metadata_call p i c → mint_trace p rp i [c]
| MT_unresolved c1 c2 c3 token e :
    is_metadata_call p i c1 → replied_token i token e →
    is_resolve_call p rp token (i + 1) c2 → is_revoke_call p token (i + 2) c3 →
    mint_trace p rp i [c1; c2; c3]
| MT_resolved c1 c2 c3 c4 token e id :
    is_metadata_call p i c1 → replied_token i token e →
    is_resolve_call p rp token (i + 1) c2 → is_revoke_call p token (i + 2) c3 →
    replied_repo (i + 1) id → is_mint_call p id (i + 3) c4 →
    mint_trace p rp i [c1; c2; c3; c4].

(** ** Lemmas about calls *)

(** A build step that only reads the clock, and what it builds. *)
Definition quiet (build : G HttpRequest) (P : nat → HttpRequest → Prop) : Prop :=
  ∀ s, ∃ n r, build s = (MkGState (gs_repo_ids s) (gs_tokens s) (gs_calls s) n, Ret r) ∧
    ∀ req, r = Ok req → P (length (gs_calls s)) req.

Lemma add_header_Ok name value req req' :
  add_header name value req = Ok req' →
  req' = MkHttpRequest (rq_method req) (rq_url req) (rq_headers req ++ [(name, value)]) (rq_body req).
Proof. unfold add_header. destruct (header_error value); [done|]. by intros [= <-]. Qed.

Lemma new_request_Ok m url req : new_request m url = Ok req → req = MkHttpRequest m url [] [].
Proof. unfold new_request. destruct (url_error url); [done|]. by intros [= <-]. Qed.

Lemma apply_standard_headers_Ok p req bearer req' :
  apply_standard_headers p req bearer = Ok req' →
  req' = MkHttpRequest (rq_method req) (rq_url req)
    (rq_headers req ++ [(B "authorization", B "Bearer " ++ bearer); (B "accept", ACCEPT_HEADER);
      (B "x-github-api-version", GITHUB_API_VERSION); (B "user-agent", gp_user_agent p)]) (rq_body req).
Proof.
  unfold apply_standard_headers. intros H. inv_ok.
  repeat match goal with H : add_header _ _ _ = Ok _ |- _ => apply add_header_Ok in H; subst; cbn end.
  by rewrite <-!(assoc_L (++)).
Qed.

(** The request [req0] became on its way through [run_call]. *)
Definition extended (i : nat) (timeout : Z) (req0 req : HttpRequest) : Prop :=
  req = MkHttpRequest (rq_method req0) (rq_url req0)
    (rq_headers req0 ++ [(X_REQUEST_ID_HEADER, ge_out_req_id i); (REQUEST_TIMEOUT_HEADER, show_u64 (as_secs timeout))])
    (rq_body req0).

Lemma run_call_spec {T} ep timeout build handle P s s' (o : outcome (result GErr T)) :
  quiet build P → run_call ep timeout build handle s = (s', o) →
  let i := length (gs_calls s) in
  ∃ c n r, s' = MkGState (gs_repo_ids s) (gs_tokens s) (gs_calls s ++ [c]) n ∧ o = Ret r ∧
    cr_endpoint c = ep ∧
    (∀ req, cr_sent c = Some req → ∃ req0, P i req0 ∧ extended i timeout req0 req) ∧
    (∀ v, r = Ok v → is_Some (cr_sent c) ∧ ∃ resp, ge_fate i = Fate_response resp ∧
       handle resp (MkCallMeta (rs_status resp) (read_provider_req_id resp)) (ge_out_req_id i) = Ok v).
Proof.
  intros Hq Hrun i. unfold run_call in Hrun. fold i in Hrun.
  assert (∀ x, (gs_record s (MkCallRecord ep None), Ret (Err x)) = (s', o) →
    ∃ c n r, s' = MkGState (gs_repo_ids s) (gs_tokens s) (gs_calls s ++ [c]) n ∧ o = Ret r ∧
    cr_endpoint c = ep ∧
    (∀ req, cr_sent c = Some req → ∃ req0, P i req0 ∧ extended i timeout req0 req) ∧
    (∀ v, r = Ok v → is_Some (cr_sent c) ∧ ∃ resp, ge_fate i = Fate_response resp ∧
       handle resp (MkCallMeta (rs_status resp) (read_provider_req_id resp)) (ge_out_req_id i) = Ok v)) as Hearly.
  { intros x [= <- <-]. by exists (MkCallRecord ep None), (gs_ticks s), (Err x). }
  destruct (Hq s) as (n & r & Hb & HP). fold i in HP. rewrite Hb in Hrun.
  destruct (req ← r; _) as [req|e] eqn:Hreq in Hrun.
  - inv_ok. match goal with H : r = Ok _ |- _ => specialize (HP _ H) end.
    match goal with H : add_header X_REQUEST_ID_HEADER _ _ = _ |- _ => apply add_header_Ok in H; subst end.
    match goal with H : add_header _ _ _ = _ |- _ => apply add_header_Ok in H; subst end. cbn in Hrun.
    destruct (ge_fate i) as [[]|[]|e|resp] eqn:Hf; [|by eapply Hearly| |by eapply Hearly|..].
    all: injection Hrun as <- <-; eexists (MkCallRecord ep (Some _)), n, _; split; [done|]; split; [done|]; split; [done|].
    all: split; [intros req [= <-]; eexists; split; [exact HP|unfold extended; by rewrite <-(assoc_L (++))]|].
    1-3: by intros v [=].
    intros v Hv. split; [by eexists|by exists resp].
  - destruct (ge_fate i) as [[]|[]|e'|resp] eqn:Hf; [|by eapply Hearly| |by eapply Hearly|..].
    all: injection Hrun as <- <-; by eexists (MkCallRecord ep None), n, (Err e).
Qed.

Lemma quiet_bearer p m route bearer :
  quiet (bearer_build p m (gp_api_base p ++ route) bearer)
    (λ i req0, ∀ req, extended i (gp_request_timeout p) req0 req → req = api_request p m route bearer [] [] (ge_out_req_id i)).
Proof.
  intros s. eexists (gs_ticks s), _. split; [by destruct s|]. intros req Hr. inv_ok.
  match goal with H : new_request _ _ = _ |- _ => apply new_request_Ok in H; subst end.
  match goal with H : apply_standard_headers _ _ _ = _ |- _ => apply apply_standard_headers_Ok in H; subst end.
  by intros ? ->.
Qed.

Lemma quiet_mint_build p body :
  quiet (mint_build p body)
    (λ i req0, ∀ req, extended i (gp_request_timeout p) req0 req →
       ∃ jwt, app_jwt p i jwt ∧ req = api_request p POST (token_route p) jwt json_type body (ge_out_req_id i)).
Proof.
  intros s. unfold mint_build, sign_jwt_now, g_bind, clock_now. cbn.
  destruct (ge_sign (length (gs_calls s)) _) as [jwt|e] eqn:Hs; cbn.
  - eexists _, _. split; [done|]. intros req Hr. inv_ok.
    match goal with H : new_request _ _ = _ |- _ => apply new_request_Ok in H; subst end.
    match goal with H : apply_standard_headers _ _ _ = _ |- _ => apply apply_standard_headers_Ok in H; subst end.
    match goal with H : add_header _ _ _ = _ |- _ => apply add_header_Ok in H; subst end.
    intros req ->. exists jwt. split; [by eexists|done].
  - eexists _, _. split; [done|]. done.
Qed.

(** What a response that an endpoint accepts says. *)
Abbreviation meta_of resp := (MkCallMeta (rs_status resp) (read_provider_req_id resp)).

Lemma metadata_handle_Ok i resp x token e :
  ge_fate i = Fate_response resp → metadata_handle resp (meta_of resp) x = Ok (token, e) → replied_token i token e.
Proof.
  intros Hf Hh. unfold metadata_handle in Hh. cbn in Hh. inv_ok.
  destruct (rs_status resp =? 201) eqn:E; [|done]. apply Z.eqb_eq in E. by eexists; split; [eexists|].
Qed.

Lemma resolve_handle_Ok i resp x id :
  ge_fate i = Fate_response resp → resolve_handle resp (meta_of resp) x = Ok id → replied_repo i id.
Proof.
  intros Hf Hh. unfold resolve_handle in Hh. cbn in Hh. inv_ok.
  destruct (rs_status resp =? 200) eqn:E; [|by destruct (rs_status resp =? 404)].
  apply Z.eqb_eq in E. inv_ok. by eexists; split; [eexists|].
Qed.

Lemma token_handle_Ok i resp x out :
  ge_fate i = Fate_response resp → token_handle resp (meta_of resp) x = Ok out →
  replied_token i (password (mo_response out)) (password_expiry_utc (mo_response out)) ∧
  username (mo_response out) = B "x-access-token" ∧
  Response_new (B "x-access-token") (password (mo_response out)) (password_expiry_utc (mo_response out)) = Ok (mo_response out).
Proof.
  intros Hf Hh. unfold token_handle in Hh. cbn in Hh. inv_ok.
  destruct (rs_status resp =? 201) eqn:E; [|by destruct (rs_status resp =? 404)].
  apply Z.eqb_eq in E. inv_ok. cbn.
  match goal with H : Response_new _ _ _ = _ |- _ => pose proof H as Hn; apply Response_new_Ok in H as (-> & _) end.
  cbn in *. split_and!; try done. by eexists; split; [eexists|].
Qed.

(** Expiries are not negative. *)
Lemma replied_token_nonneg i token e : replied_token i token e → 0 <= e.
Proof.
  intros (body & _ & Hp). unfold parse_mint_response in Hp. inv_ok. unfold ok_or in *.
  repeat case_match; try done. inv_ok. unfold from_secs, nanos_per_sec. destruct (rfc3339_unix _) as [t|]; [|done].
  cbn in *. destruct (t <? 0) eqn:E; [done|]. apply Z.ltb_ge in E. simplify_eq. lia.
Qed.

(** The state after one more call. *)
Definition called (s : GState) (c : CallRecord) (n : nat) : GState :=
  MkGState (gs_repo_ids s) (gs_tokens s) (gs_calls s ++ [c]) n.

Lemma mint_metadata_token_spec p s s' o :
  mint_metadata_token p s = (s', o) →
  ∃ c n r, s' = called s c n ∧ o = Ret r ∧ is_metadata_call p (length (gs_calls s)) c ∧
    ∀ token e, r = Ok (token, e) → is_Some (cr_sent c) ∧ replied_token (length (gs_calls s)) token e.
Proof.
  intros H. apply (run_call_spec _ _ _ _ _ _ _ _ (quiet_mint_build p _)) in H as (c & n & r & -> & -> & He & Hs & Hok).
  exists c, n, r. split_and!; [done..| |].
  - split; [done|]. intros req Hreq. destruct (Hs _ Hreq) as (req0 & HP & Hx). by apply HP.
  - intros token e Hr. destruct (Hok _ Hr) as (Hsent & resp & Hf & Hh). split; [done|]. by eapply metadata_handle_Ok.
Qed.

Lemma resolve_repo_id_spec p rp token s s' o :
  resolve_repo_id p token (owner rp) (repo rp) s = (s', o) →
  ∃ c n r, s' = called s c n ∧ o = Ret r ∧ is_resolve_call p rp token (length (gs_calls s)) c ∧
    ∀ id, r = Ok id → is_Some (cr_sent c) ∧ replied_repo (length (gs_calls s)) id.
Proof.
  intros H. apply (run_call_spec _ _ _ _ _ _ _ _ (quiet_bearer p _ _ _)) in H as (c & n & r & -> & -> & He & Hs & Hok).
  exists c, n, r. split_and!; [done..| |].
  - split; [done|]. intros req Hreq. destruct (Hs _ Hreq) as (req0 & HP & Hx). by apply HP.
  - intros id Hr. destruct (Hok _ Hr) as (Hsent & resp & Hf & Hh). split; [done|]. by eapply resolve_handle_Ok.
Qed.

Lemma revoke_install_token_spec p token s s' o :
  revoke_install_token p token s = (s', o) →
  ∃ c n r, s' = called s c n ∧ o = Ret r ∧ is_revoke_call p token (length (gs_calls s)) c.
Proof.
  intros H. apply (run_call_spec _ _ _ _ _ _ _ _ (quiet_bearer p _ _ _)) in H as (c & n & r & -> & -> & He & Hs & _).
  exists c, n, r. split_and!; [done..|]. split; [done|].
  intros req Hreq. destruct (Hs _ Hreq) as (req0 & HP & Hx). by apply HP.
Qed.

Lemma mint_token_spec p id s s' o :
  mint_token p id s = (s', o) →
  let i := length (gs_calls s) in
  ∃ c n r, s' = called s c n ∧ o = Ret r ∧ is_mint_call p id i c ∧
    ∀ out, r = Ok out → is_Some (cr_sent c) ∧
      replied_token i (password (mo_response out)) (password_expiry_utc (mo_response out)) ∧
      username (mo_response out) = B "x-access-token" ∧
      Response_new (B "x-access-token") (password (mo_response out)) (password_expiry_utc (mo_response out)) =
        Ok (mo_response out).
Proof.
  intros H i. apply (run_call_spec _ _ _ _ _ _ _ _ (quiet_mint_build p _)) in H as (c & n & r & -> & -> & He & Hs & Hok).
  exists c, n, r. split_and!; [done..| |].
  - split; [done|]. intros req Hreq. destruct (Hs _ Hreq) as (req0 & HP & Hx). rewrite <-mint_body_request. by apply HP.
  - intros out Hr. destruct (Hok _ Hr) as (Hsent & resp & Hf & Hh). split; [done|]. by eapply token_handle_Ok.
Qed.

(** Resolving a repository: a metadata token, and when there is one the lookup
    and its revocation, in this order. *)
Lemma resolve_with_token_spec p rp s s' o :
  with_metadata_token p (λ token, resolve_repo_id p token (owner rp) (repo rp)) s = (s', o) →
  let i := length (gs_calls s) in
  ∃ new n r, s' = MkGState (gs_repo_ids s) (gs_tokens s) (gs_calls s ++ new) n ∧ o = Ret r ∧
    ((∃ c e, new = [c] ∧ r = Err e ∧ is_metadata_call p i c) ∨
     (∃ c1 c2 c3 token e, new = [c1; c2; c3] ∧ is_metadata_call p i c1 ∧ replied_token i token e ∧
        is_resolve_call p rp token (i + 1) c2 ∧ is_revoke_call p token (i + 2) c3 ∧
        ∀ id, r = Ok id → is_Some (cr_sent c1) ∧ is_Some (cr_sent c2) ∧ replied_repo (i + 1) id)).
Proof.
  intros H i. unfold with_metadata_token, g_bind in H.
  destruct (mint_metadata_token p s) as [s1 o1] eqn:E1.
  apply mint_metadata_token_spec in E1 as (c1 & n1 & r1 & -> & -> & H1 & Hok1).
  destruct r1 as [[token e]|e]; cycle 1.
  { injection H as <- <-. eexists _, _, _. split; [done|]. split; [done|]. left. eauto. }
  unfold g_try, g_ignore in H.
  destruct (resolve_repo_id _ _ _ _ _) as [s2 o2] eqn:E2.
  apply resolve_repo_id_spec in E2 as (c2 & n2 & r2 & -> & -> & H2 & Hok2).
  destruct (revoke_install_token _ _ _) as [s3 o3] eqn:E3.
  apply revoke_install_token_spec in E3 as (c3 & n3 & r3 & -> & -> & H3).
  cbn in H. injection H as <- <-. cbn in H2, H3, Hok2.
  rewrite ?length_app in *. cbn in *. rewrite <-Nat.add_assoc in H3.
  exists [c1; c2; c3], n3, r2. split; [unfold called; cbn; by rewrite <-!(assoc_L (++))|]. split; [done|]. right.
  destruct (Hok1 _ _ eq_refl) as [Hs1 Hr1]. exists c1, c2, c3, token, e. split_and!; [done..|].
  intros id Hid. split; [exact Hs1|by apply Hok2].
Qed.

(** ** The invariant between operations

    No repository is being resolved, the token cache is well formed and every
    cached token passes the validation of [Response::new]. *)
Record ginv (s : GState) : Prop := {
  ginv_memo k e : memo (gs_repo_ids s) !! k = Some e → ∃ id, e = Memo id;
  ginv_ttl : ttl_inv (gs_tokens s);
  ginv_tokens k token e : ttl_entries (gs_tokens s) !! k = Some (token, e) →
    is_ok (Response_new (B "x-access-token") token e) = true;
}.

Lemma ginv_new : ginv gs_new.
Proof. split; cbn; [|apply ttl_new_inv|]; intros *; by rewrite lookup_empty. Qed.

Lemma live_Some {V} now (e : option (V * Z)) v t : live now e = Some (v, t) → e = Some (v, t) ∧ now < t.
Proof.
  unfold live. destruct e as [[v' t']|]; cbn; [|done]. destruct (now <? t') eqn:E; [|done].
  intros [= <- <-]. split; [done|lia].
Qed.

(** What [repo_ids.with] does to the memo. *)
Definition memo_set (s : GState) (key : bytes) (o : option Z) (m : gmap bytes StoreEntry) : Prop :=
  m !! key = Memo <$> o ∧ ∀ k, k ≠ key → m !! k = memo (gs_repo_ids s) !! k.

Lemma repo_ids_with_spec p rp s s' o :
  ginv s →
  repo_ids_with (mint_key rp) (with_metadata_token p (λ token, resolve_repo_id p token (owner rp) (repo rp))) s = (s', o) →
  let i := length (gs_calls s) in
  ∃ new n r, gs_tokens s' = gs_tokens s ∧ gs_calls s' = gs_calls s ++ new ∧ gs_ticks s' = n ∧ o = Ret r ∧
    memo_set s (mint_key rp) (ok r) (memo (gs_repo_ids s')) ∧
    ((∃ id, new = [] ∧ r = Ok id ∧ memo (gs_repo_ids s) !! mint_key rp = Some (Memo id)) ∨
     (∃ c e, new = [c] ∧ r = Err e ∧ is_metadata_call p i c) ∨
     (∃ c1 c2 c3 token e, new = [c1; c2; c3] ∧ is_metadata_call p i c1 ∧ replied_token i token e ∧
        is_resolve_call p rp token (i + 1) c2 ∧ is_revoke_call p token (i + 2) c3 ∧
        ∀ id, r = Ok id → is_Some (cr_sent c1) ∧ is_Some (cr_sent c2) ∧ replied_repo (i + 1) id)).
Proof.
  intros Hinv H i. unfold repo_ids_with, claim in H.
  destruct (memo (gs_repo_ids s) !! mint_key rp) as [[id|ev]|] eqn:Em.
  - injection H as <- <-. exists [], (gs_ticks s), (Ok id). cbn. rewrite app_nil_r.
    split_and!; [done..| |by left; eauto]. split; [by rewrite Em|done].
  - by destruct (ginv_memo _ Hinv _ _ Em).
  - destruct (with_metadata_token _ _ _) as [s1 o1] eqn:E.
    apply resolve_with_token_spec in E as (new & n & r & -> & -> & Hcases). cbn in Hcases.
    exists new, n, r. destruct r as [id|e]; injection H as <- <-; cbn.
    + split_and!; [done..| |by right]. split; [by rewrite lookup_insert_eq|].
      intros k Hk. by rewrite !lookup_insert_ne.
    + split_and!; [done..| |by right]. split; [by rewrite lookup_delete_eq|].
      intros k Hk. by rewrite lookup_delete_ne, lookup_insert_ne.
Qed.

(** The mint endpoint and the caches after it. *)
Lemma mint_tail_spec p key id s s' o :
  ttl_inv (gs_tokens s) → ttl_entries (gs_tokens s) !! key = None →
  g_bind (forget_if_not_found key (mint_token p id)) (λ outcome,
    g_bind (token_cache_insert key (password (mo_response outcome)) (password_expiry_utc (mo_response outcome))) (λ _,
    g_ret outcome)) s = (s', o) →
  let i := length (gs_calls s) in
  ∃ c r, gs_calls s' = gs_calls s ++ [c] ∧ o = Ret r ∧ is_mint_call p id i c ∧ ttl_inv (gs_tokens s') ∧
    match r with
    | Ok out =>
        gs_repo_ids s' = gs_repo_ids s ∧ is_Some (cr_sent c) ∧
        replied_token i (password (mo_response out)) (password_expiry_utc (mo_response out)) ∧
        username (mo_response out) = B "x-access-token" ∧
        Response_new (B "x-access-token") (password (mo_response out)) (password_expiry_utc (mo_response out)) =
          Ok (mo_response out) ∧
        ttl_entries (gs_tokens s') !! key = Some (password (mo_response out), password_expiry_utc (mo_response out)) ∧
        ∀ k x, k ≠ key → ttl_entries (gs_tokens s') !! k = Some x → ttl_entries (gs_tokens s) !! k = Some x
    | Err e =>
        gs_repo_ids s' = match e with G_RepoNotFound => sf_invalidate (gs_repo_ids s) key | _ => gs_repo_ids s end ∧
        ttl_entries (gs_tokens s') = ttl_entries (gs_tokens s)
    end.
Proof.
  intros Hinv Hnone H i. unfold g_bind at 1, forget_if_not_found in H.
  destruct (mint_token p id s) as [s1 o1] eqn:E.
  apply mint_token_spec in E as (c & n & r & -> & -> & Hc & Hok). exists c, r.
  destruct r as [out|e].
  - specialize (Hok _ eq_refl) as (H1 & H2 & H3 & H4).
    pose proof (ttl_op_inv bytes_leb (gs_tokens s)
      (Op_insert (ge_clock n) key (password (mo_response out)) (password_expiry_utc (mo_response out))) Hinv) as Hinv'.
    cbn in H, Hinv'. injection H as <- <-. cbn. split_and!; try done.
    + by rewrite lookup_insert_eq.
    + intros k [v t] Hk. rewrite lookup_insert_ne by done.
      destruct (sweep_spec bytes_leb (ge_clock n) _ Hinv) as (_ & -> & _). intros Hl. by apply live_Some in Hl as [? _].
  - assert (ttl_inv (TtlCache_invalidate key (gs_tokens s))) as Hinv'.
    { apply (ttl_op_inv bytes_leb _ (Op_invalidate key) Hinv). }
    destruct e; injection H as <- <-; cbn; split_and!; try done. by rewrite delete_id.
Qed.

(** The state in which the token cache has been consulted. *)
Definition swept (s : GState) : GState :=
  gs_with_tokens (gs_tick s) (sweep (ge_clock (gs_ticks s)) (gs_tokens s)).

Lemma mint_eq p path s :
  mint p path s =
  match RepoPath_parse path with
  | Err e => (s, Ret (Err e))
  | Ok rp => match ttl_entries (gs_tokens (swept s)) !! mint_key rp with
             | Some (token, e) => mint_cached token e (swept s)
             | None => mint_uncached p rp (swept s)
             end
  end.
Proof.
  unfold mint, g_bind at 1, g_lift. destruct (RepoPath_parse path) as [rp|e]; [|done].
  unfold token_cache_get, g_bind, clock_now. cbn. by destruct (ttl_entries _ !! _) as [[]|].
Qed.

Lemma swept_spec s :
  ginv s → ginv (swept s) ∧ ∀ k, ttl_entries (gs_tokens (swept s)) !! k = live (ge_clock (gs_ticks s)) (ttl_entries (gs_tokens s) !! k).
Proof.
  intros Hinv. destruct (sweep_spec bytes_leb (ge_clock (gs_ticks s)) (gs_tokens s) (ginv_ttl _ Hinv)) as (Hti & Hl & _).
  split; [|done]. split; [apply Hinv|done|]. intros k x e Hx. cbn in Hx. rewrite Hl in Hx.
  apply live_Some in Hx as [Hx _]. by eapply ginv_tokens.
Qed.

(** A live cached token is returned as it was minted, without a call. *)
Lemma mint_hit p path rp s token e :
  ginv s → RepoPath_parse (H:=HttpError) path = Ok rp →
  ttl_entries (gs_tokens s) !! mint_key rp = Some (token, e) → ge_clock (gs_ticks s) < e →
  mint p path s =
    (swept s, Ret (Ok (MkMintOutcome (MkResponse (B "x-access-token") token e) (ge_out_req_id (length (gs_calls s))) None))).
Proof.
  intros Hinv Hp He Hlt. rewrite mint_eq, Hp. destruct (swept_spec s Hinv) as [Hinv' Hl].
  rewrite Hl, He. cbn [live mbind option_bind]. replace (_ <? e) with true by lia.
  pose proof (ginv_tokens _ Hinv _ _ _ He) as Hok. unfold mint_cached.
  destruct (Response_new _ token e) as [resp|] eqn:Er in Hok |- *; [|done]. by apply Response_new_Ok in Er as (-> & _).
Qed.

(** What a mint of [rp] did between [s] and [s'], with the calls [new] and the
    result [r]. *)
Definition mint_did (p : GitHubProvider) (rp : RepoPath) (s s' : GState) (new : list CallRecord) (r : result GErr MintOutcome) : Prop :=
  let i := length (gs_calls s) in
  let key := mint_key rp in
  mint_trace p rp i new ∧
  (∀ out, r = Ok out → username (mo_response out) = B "x-access-token" ∧
     ttl_entries (gs_tokens s') !! key = Some (password (mo_response out), password_expiry_utc (mo_response out)) ∧
     ((new = [] ∧ ttl_entries (gs_tokens s) !! key = Some (password (mo_response out), password_expiry_utc (mo_response out)) ∧
       ge_clock (gs_ticks s) < password_expiry_utc (mo_response out)) ∨
      ∃ pre c id, new = pre ++ [c] ∧ is_mint_call p id (i + length pre) c ∧ is_Some (cr_sent c) ∧
        replied_token (i + length pre) (password (mo_response out)) (password_expiry_utc (mo_response out)) ∧
        memo (gs_repo_ids s') !! key = Some (Memo id))) ∧
  (r = Err G_RepoNotFound → memo (gs_repo_ids s') !! key = None ∧ ttl_entries (gs_tokens s') !! key = None).

(** The memo after [with] keeps the invariant. *)
Lemma ginv_memo_set s s2 key o :
  ginv s → gs_tokens s2 = gs_tokens s → memo_set s key o (memo (gs_repo_ids s2)) → ginv s2.
Proof.
  intros Hinv Ht [Hm Hm']. split; rewrite ?Ht; [|apply Hinv..]. intros k x Hx. destruct (decide (k = key)) as [->|Hk].
  - rewrite Hm in Hx. destruct o; cbn in Hx; naive_solver.
  - rewrite Hm' in Hx by done. by eapply ginv_memo.
Qed.

(** The mint endpoint keeps it too. *)
Lemma mint_tail_ginv p key id s s' o :
  ginv s → ttl_entries (gs_tokens s) !! key = None →
  g_bind (forget_if_not_found key (mint_token p id)) (λ outcome,
    g_bind (token_cache_insert key (password (mo_response outcome)) (password_expiry_utc (mo_response outcome))) (λ _,
    g_ret outcome)) s = (s', o) → ginv s'.
Proof.
  intros Hinv Hnone H. apply mint_tail_spec in H as (c & r & Hc' & -> & Hmc & Hti' & Hr); [|apply Hinv|done].
  destruct r as [out|e].
  - destruct Hr as (Hri & _ & _ & _ & Hnew & Hins & Hoth). split; [rewrite Hri; apply Hinv|done|].
    intros k x ex Hx. destruct (decide (k = key)) as [->|Hk].
    + rewrite Hins in Hx. injection Hx as <- <-. by rewrite Hnew.
    + apply Hoth in Hx; [|done]. by eapply ginv_tokens.
  - destruct Hr as (Hri & Hte). split; [|done|rewrite Hte; apply Hinv].
    intros k x. rewrite Hri. pose proof (ginv_memo _ Hinv k x).
    destruct e; try done. cbn. intros [_ ?]%lookup_delete_Some. auto.
Qed.

Lemma mint_uncached_cases p rp s s' o :
  ginv s → ttl_entries (gs_tokens s) !! mint_key rp = None → mint_uncached p rp s = (s', o) →
  ∃ r new, o = Ret r ∧ gs_calls s' = gs_calls s ++ new ∧ ginv s' ∧ mint_did p rp s s' new r.
Proof.
  intros Hinv Hnone H. unfold mint_uncached in H. unfold g_bind at 1 in H.
  destruct (repo_ids_with _ _ s) as [s2 o2] eqn:E2.
  apply (repo_ids_with_spec p rp) in E2 as (new & n & r & Ht & Hc & Hn & -> & Hms & Hcases); [|done].
  pose proof (ginv_memo_set _ _ _ _ Hinv Ht Hms) as Hinv2. destruct Hms as [Hm _].
  destruct r as [id|e]; cycle 1.
  { injection H as <- <-. exists (Err e), new. split_and!; [done..|]. split; [|split; [done|]].
    - destruct Hcases as [(? & _ & [=] & _)|[(c & ? & -> & _ & ?)|(c1 & c2 & c3 & tk' & ex & -> & ? & ? & ? & ? & _)]].
      + by apply MT_no_token.
      + by eapply MT_unresolved.
    - intros _. by rewrite Hm, Ht. }
  rewrite <-Ht in Hnone. pose proof (mint_tail_ginv _ _ _ _ _ _ Hinv2 Hnone H) as Hinv3.
  apply mint_tail_spec in H as (c & r & Hc' & -> & Hmc & Hti' & Hr); [|apply Hinv2|done].
  exists r, (new ++ [c]). rewrite Hc', Hc, (assoc_L (++)). rewrite Hc, length_app in Hmc, Hr.
  split_and!; [done..|]. split; [|split].
  - destruct Hcases as [(? & -> & _ & _)|[(? & ? & _ & [=] & _)|(c1 & c2 & c3 & tk' & ex & -> & ? & ? & ? & ? & Hid)]].
    + rewrite Nat.add_0_r in Hmc. by eapply MT_known.
    + by eapply MT_resolved; [..|by apply Hid|].
  - intros out ->. destruct Hr as (Hri & Hsent & Hrep & Hu & Hnew & Hins & Hoth). split_and!; [done..|]. right.
    exists new, c, id. rewrite Hri. by rewrite Hm.
  - intros ->. destruct Hr as (Hri & Hte). rewrite Hri, Hte. cbn. by rewrite lookup_delete_eq.
Qed.

(** Everything a mint does, on every branch. *)
Lemma mint_cases p path s s' o :
  ginv s → mint p path s = (s', o) →
  ∃ r new, o = Ret r ∧ gs_calls s' = gs_calls s ++ new ∧ ginv s' ∧
    match RepoPath_parse path with
    | Err e => r = Err e ∧ new = [] ∧ s' = s
    | Ok rp => mint_did p rp s s' new r
    end.
Proof.
  intros Hinv H. destruct (RepoPath_parse path) as [rp|e] eqn:Ep; cycle 1.
  { rewrite mint_eq, Ep in H. injection H as <- <-. exists (Err e), []. by rewrite app_nil_r. }
  destruct (swept_spec s Hinv) as [Hinv1 Hl].
  destruct (live (ge_clock (gs_ticks s)) (ttl_entries (gs_tokens s) !! mint_key rp)) as [[token e]|] eqn:Ek.
  - pose proof (live_Some _ _ _ _ Ek) as [Hk Hlt]. rewrite (mint_hit _ _ _ _ _ _ Hinv Ep Hk Hlt) in H.
    injection H as <- <-. eexists _, []. rewrite app_nil_r. split_and!; [done..|]. split; [by constructor|]. split; [|done].
    intros out [= <-]. rewrite Hl, Ek. cbn. naive_solver.
  - rewrite mint_eq, Ep, Hl, Ek in H. apply mint_uncached_cases in H as (r & new & -> & Hc & Hi & Ht & Hok & Hnf); [|done|by rewrite Hl].
    exists r, new. split_and!; [done..|]. split; [done|]. split; [|done]. intros out Ho.
    destruct (Hok out Ho) as (? & ? & Hor). split_and!; [done..|]. destruct Hor as [(_ & Hbad & _)|?]; [|by right].
    rewrite Hl, Ek in Hbad. done.
Qed.

(** ** Where ids and tokens come from *)

(** GitHub issued [token] in answer to the [i]th call, a request for a
    metadata-only token. *)
Definition metadata_issued (p : GitHubProvider) (calls : list CallRecord) (i : nat) (token : bytes) : Prop :=
  ∃ c e, calls !! i = Some c ∧ is_metadata_call p i c ∧ is_Some (cr_sent c) ∧ replied_token i token e.

(** GitHub reported [id] when the provider looked up a repository of key [k]
    under a metadata-only token it had been issued before, and whose revocation
    the provider has attempted since. *)
Definition id_provenance (p : GitHubProvider) (calls : list CallRecord) (k : bytes) (id : Z) : Prop :=
  ∃ i j l c d rp token, (i < j < l)%nat ∧ metadata_issued p calls i token ∧
    calls !! j = Some c ∧ mint_key rp = k ∧ is_resolve_call p rp token j c ∧ is_Some (cr_sent c) ∧ replied_repo j id ∧
    calls !! l = Some d ∧ is_revoke_call p token l d.

(** GitHub issued [token] in answer to a mint request for an id of key [k]. *)
Definition token_provenance (p : GitHubProvider) (calls : list CallRecord) (k token : bytes) (e : Z) : Prop :=
  ∃ j c id, id_provenance p calls k id ∧ calls !! j = Some c ∧ is_mint_call p id j c ∧ is_Some (cr_sent c) ∧
    replied_token j token e.

Lemma metadata_issued_app p calls new i token : metadata_issued p calls i token → metadata_issued p (calls ++ new) i token.
Proof. intros (c & e & H & ?). exists c, e. by rewrite (lookup_app_l_Some _ _ _ _ H). Qed.

Lemma id_provenance_app p calls new k id : id_provenance p calls k id → id_provenance p (calls ++ new) k id.
Proof.
  intros (i & j & l & c & d & rp & t & Hlt & Hi & Hj & H1 & H2 & H3 & H4 & Hl & H5). exists i, j, l, c, d, rp, t.
  rewrite (lookup_app_l_Some _ _ _ _ Hj), (lookup_app_l_Some _ _ _ _ Hl). split; [done|]. split; [by apply metadata_issued_app|].
  by split_and!.
Qed.

Lemma token_provenance_app p calls new k t e : token_provenance p calls k t e → token_provenance p (calls ++ new) k t e.
Proof.
  intros (j & c & id & Hid & H & ?). exists j, c, id. rewrite (lookup_app_l_Some _ _ _ _ H).
  split; [by apply id_provenance_app|done].
Qed.

Definition gprov (p : GitHubProvider) (s : GState) : Prop :=
  (∀ k id, memo (gs_repo_ids s) !! k = Some (Memo id) → id_provenance p (gs_calls s) k id) ∧
  (∀ k t e, ttl_entries (gs_tokens s) !! k = Some (t, e) → token_provenance p (gs_calls s) k t e).

Lemma gprov_new p : gprov p gs_new.
Proof. split; intros *; cbn; by rewrite lookup_empty. Qed.

Lemma repo_ids_with_prov p rp s s' r :
  ginv s → gprov p s →
  repo_ids_with (mint_key rp) (with_metadata_token p (λ token, resolve_repo_id p token (owner rp) (repo rp))) s = (s', Ret r) →
  gprov p s' ∧ ∀ id, r = Ok id → id_provenance p (gs_calls s') (mint_key rp) id.
Proof.
  intros Hinv [Hid Htok] H. apply repo_ids_with_spec in H as (new & n & r' & Ht & Hc & _ & [= <-] & [Hm Hm'] & Hcases); [|done].
  assert (∀ id, r = Ok id → id_provenance p (gs_calls s') (mint_key rp) id) as Hr.
  { intros id ->. rewrite Hc.
    destruct Hcases as [(? & -> & [= <-] & Hmem)|[(? & ? & _ & [=] & _)|(c1 & c2 & c3 & tk & e & -> & Hmc & Hmr & Hres & Hrev & Hrep)]].
    - apply id_provenance_app. by apply Hid.
    - destruct (Hrep id eq_refl) as (Hsent1 & Hsent & Hrep'). set (i := length (gs_calls s)) in *.
      assert (∀ j c, [c1; c2; c3] !! j = Some c → (gs_calls s ++ [c1; c2; c3]) !! (i + j)%nat = Some c) as Hat.
      { intros j c Hj. rewrite lookup_app_r by lia. by replace (i + j - length (gs_calls s))%nat with j by lia. }
      exists i, (i + 1)%nat, (i + 2)%nat, c2, c3, rp, tk. split; [lia|]. split; [|by split_and!; try done; apply Hat].
      exists c1, e. split_and!; [|done..]. rewrite <-(Nat.add_0_r i). by apply Hat. }
  split; [|done]. split.
  - intros k id Hk. destruct (decide (k = mint_key rp)) as [->|Hne].
    + apply Hr. rewrite Hm in Hk. destruct r; cbn in Hk; congruence.
    + rewrite Hm' in Hk by done. rewrite Hc. apply id_provenance_app. by apply Hid.
  - intros k t e. rewrite Ht, Hc. intros Hk. apply token_provenance_app. by apply Htok.
Qed.

Lemma mint_tail_prov p key id s s' o :
  ttl_inv (gs_tokens s) → ttl_entries (gs_tokens s) !! key = None → gprov p s → id_provenance p (gs_calls s) key id →
  g_bind (forget_if_not_found key (mint_token p id)) (λ outcome,
    g_bind (token_cache_insert key (password (mo_response outcome)) (password_expiry_utc (mo_response outcome))) (λ _,
    g_ret outcome)) s = (s', o) → gprov p s'.
Proof.
  intros Hti Hnone [Hid Htok] Hkey H. apply mint_tail_spec in H as (c & r & Hc & _ & Hmc & _ & Hr); [|done..].
  split.
  - intros k id' Hk. rewrite Hc. apply id_provenance_app, Hid. destruct r as [out|e].
    + by destruct Hr as [<- _].
    + destruct Hr as [Hri _]. rewrite Hri in Hk. destruct e; try done. cbn in Hk. by apply lookup_delete_Some in Hk as [_ ?].
  - intros k t e Hk. rewrite Hc. destruct r as [out|er].
    + destruct Hr as (_ & Hsent & Hrep & _ & _ & Hins & Hoth). destruct (decide (k = key)) as [->|Hne].
      * rewrite Hins in Hk. injection Hk as <- <-. exists (length (gs_calls s)), c, id.
        split; [by apply id_provenance_app|]. by rewrite list_lookup_middle.
      * apply token_provenance_app, Htok. by apply Hoth.
    + destruct Hr as [_ Hte]. rewrite Hte in Hk. by apply token_provenance_app, Htok.
Qed.

Lemma mint_prov p path s s' o : ginv s → gprov p s → mint p path s = (s', o) → gprov p s'.
Proof.
  intros Hinv Hprov H. rewrite mint_eq in H. destruct (RepoPath_parse path) as [rp|e]; [|by injection H as <- <-].
  destruct (swept_spec s Hinv) as [Hinv1 Hl].
  assert (gprov p (swept s)) as Hprov1.
  { destruct Hprov as [Hid Htok]. split; [done|]. intros k t e. rewrite Hl. intros Hk. apply live_Some in Hk as [? _]. auto. }
  destruct (ttl_entries (gs_tokens (swept s)) !! mint_key rp) as [[t e]|] eqn:Ek.
  { unfold mint_cached in H. destruct (Response_new _ _ _); by injection H as <- <-. }
  unfold mint_uncached in H. unfold g_bind at 1 in H. destruct (repo_ids_with _ _ _) as [s2 o2] eqn:E2.
  pose proof (repo_ids_with_spec _ _ _ _ _ Hinv1 E2) as (new & n & r & Ht & _ & _ & -> & Hms & _).
  apply repo_ids_with_prov in E2 as [Hprov2 Hr]; [|done..].
  destruct r as [id|e]; [|by injection H as <- <-].
  eapply mint_tail_prov; [..|exact H]; [|by rewrite Ht|done|by apply Hr].
  rewrite Ht. apply Hinv1.
Qed.

(** A self-check always returns and touches neither cache. *)
Lemma selfcheck_spec p s s' o :
  selfcheck p s = (s', o) →
  ∃ c n r, s' = called s c n ∧ o = Ret r ∧ cr_endpoint c = B "selfcheck".
Proof.
  unfold selfcheck, g_bind at 1, clock_now. intros H.
  assert (quiet (selfcheck_build p) (λ _ _, True)) as Hq.
  { intros t. unfold selfcheck_build, sign_jwt_now, g_bind, clock_now. cbn.
    destruct (ge_sign (length (gs_calls t)) _) as [jwt|e]; cbn; by eexists _, _. }
  apply (run_call_spec _ _ _ _ _ _ _ _ Hq) in H as (c & n & r & -> & -> & He & _). by exists c, n, r.
Qed.

Lemma selfcheck_inv p s s' o : selfcheck p s = (s', o) → ginv s → gprov p s → ginv s' ∧ gprov p s' ∧ ∃ r, o = Ret r.
Proof.
  intros (c & n & r & -> & -> & _)%selfcheck_spec [H1 H2 H3] [Hid Htok]. split; [by split|]. split; [|by eexists].
  split; cbn; intros; [by apply id_provenance_app, Hid|by apply token_provenance_app, Htok].
Qed.

(** ** A provider's life: a sequence of operations from start-up *)

Inductive GOp := Op_mint (path : bytes) | Op_selfcheck.

Definition run_op (p : GitHubProvider) (s : GState) (op : GOp) : GState :=
  match op with Op_mint path => (mint p path s).1 | Op_selfcheck => (selfcheck p s).1 end.

Definition life (p : GitHubProvider) (ops : list GOp) : GState := foldl (run_op p) gs_new ops.

Lemma life_inv p ops : ginv (life p ops) ∧ gprov p (life p ops).
Proof.
  unfold life. assert (ginv gs_new ∧ gprov p gs_new) as H by (split; [apply ginv_new|apply gprov_new]).
  revert H. generalize gs_new. induction ops as [|op ops IH]; intros s [Hi Hp]; [done|].
  cbn [foldl]. apply IH. destruct op as [path|]; cbn [run_op].
  - destruct (mint p path s) as [s' o] eqn:E. cbn [fst]. split; [|by eapply mint_prov].
    by destruct (mint_cases _ _ _ _ _ Hi E) as (r & new & _ & _ & Hi' & _).
  - destruct (selfcheck p s) as [s' o] eqn:E. cbn [fst]. by destruct (selfcheck_inv _ _ _ _ E Hi Hp) as (? & ? & _).
Qed.

(** C10: a token is scoped to the repository that was asked for.  After any
    sequence of mints and self-checks, a mint that succeeds returns [x-access-token] and a
    token that GitHub issued in answer to a recorded request naming exactly
    one repository id with [contents: write] and [metadata: read], and that id
    is the one GitHub reported when the provider looked up a repository whose
    owner and name equal the requested ones up to ASCII case, under a
    metadata-only token that GitHub had issued in answer to an earlier call and
    whose revocation was attempted in a later one (its outcome is ignored).  A
    cached token is returned only before its expiry and without any call. *)
Theorem mint_scoped p before path s' out :
  let s := life p before in
  mint p path s = (s', Ret (Ok out)) →
  ∃ rp new, RepoPath_parse (H:=HttpError) path = Ok rp ∧
    gs_calls s' = gs_calls s ++ new ∧ mint_trace p rp (length (gs_calls s)) new ∧
    username (mo_response out) = B "x-access-token" ∧
    token_provenance p (gs_calls s') (mint_key rp) (password (mo_response out)) (password_expiry_utc (mo_response out)) ∧
    (new = [] → ge_clock (gs_ticks s) < password_expiry_utc (mo_response out)).
Proof.
  intros s H. destruct (life_inv p before) as [Hinv Hprov]. fold s in Hinv, Hprov.
  pose proof (mint_prov _ _ _ _ _ Hinv Hprov H) as [_ Htok].
  destruct (mint_cases _ _ _ _ _ Hinv H) as (r & new & [= <-] & Hc & _ & Hd).
  destruct (RepoPath_parse path) as [rp|e]; [|by destruct Hd].
  destruct Hd as (Htr & Hok & _). destruct (Hok out eq_refl) as (Hu & Hcache & Hor).
  exists rp, new. split_and!; [done..|by apply Htok|].
  intros ->. destruct Hor as [(_ & _ & ?)|(pre & c & id & He & _)]; [done|]. by destruct pre.
Qed.

(** From start-up on, whatever GitHub, the signer, the clock and the
    shutdown do, a mint returns (it neither hits the [expect] on the cached
    token nor is left waiting on the memo), makes at most four calls, in the
    order metadata token, lookup, revocation of the metadata token, mint, and
    none at all for a malformed path, which is the error it then returns. *)
Theorem mint_total p before path :
  let s := life p before in
  let '(s', o) := mint p path s in
  ∃ r new, o = Ret r ∧ gs_calls s' = gs_calls s ++ new ∧
    match RepoPath_parse path with
    | Err e => r = Err e ∧ new = []
    | Ok rp => mint_trace p rp (length (gs_calls s)) new
    end.
Proof.
  intros s. destruct (life_inv p before) as [Hinv _]. destruct (mint p path s) as [s' o] eqn:E.
  destruct (mint_cases _ _ _ _ _ Hinv E) as (r & new & -> & Hc & _ & Hd). exists r, new.
  destruct (RepoPath_parse path); [by destruct Hd|naive_solver].
Qed.

(** After a mint that ended in [RepoNotFound], on the lookup or on the mint
    itself, neither the repository id nor a token is cached for that
    repository, so the next mint starts over. *)
Theorem mint_not_found_forgets p before path s' rp :
  let s := life p before in
  mint p path s = (s', Ret (Err G_RepoNotFound)) → RepoPath_parse (H:=HttpError) path = Ok rp →
  memo (gs_repo_ids s') !! mint_key rp = None ∧ ttl_entries (gs_tokens s') !! mint_key rp = None.
Proof.
  intros s H Hp. destruct (life_inv p before) as [Hinv _].
  destruct (mint_cases _ _ _ _ _ Hinv H) as (r & new & [= <-] & _ & _ & Hd). rewrite Hp in Hd. by apply Hd.
Qed.

(** A second mint of the same repository, spelled in any ASCII case, before
    the token expires makes no call and returns the same user, token and
    expiry; from the expiry on the cached token is not used. *)
Theorem mint_twice p before path1 path2 s1 out1 rp1 rp2 :
  mint p path1 (life p before) = (s1, Ret (Ok out1)) →
  RepoPath_parse (H:=HttpError) path1 = Ok rp1 → RepoPath_parse (H:=HttpError) path2 = Ok rp2 →
  mint_key rp1 = mint_key rp2 →
  let '(s2, o2) := mint p path2 s1 in
  if ge_clock (gs_ticks s1) <? password_expiry_utc (mo_response out1)
  then ∃ out2, o2 = Ret (Ok out2) ∧ mo_response out2 = mo_response out1 ∧ gs_calls s2 = gs_calls s1
  else ∀ out2, o2 = Ret (Ok out2) → gs_calls s2 ≠ gs_calls s1.
Proof.
  intros H1 Hp1 Hp2 Hk. destruct (life_inv p before) as [Hinv _].
  destruct (mint_cases _ _ _ _ _ Hinv H1) as (r & new & [= <-] & _ & Hinv1 & Hd).
  rewrite Hp1 in Hd. destruct Hd as (_ & Hok & _). destruct (Hok _ eq_refl) as (Hu & Hc & _). rewrite Hk in Hc.
  destruct (_ <? _) eqn:E.
  - rewrite (mint_hit _ _ _ _ _ _ Hinv1 Hp2 Hc) by lia. eexists. split; [done|]. split; [|done]. cbn.
    destruct (mo_response out1); cbn in *. by rewrite Hu.
  - destruct (mint p path2 s1) as [s2 o2] eqn:H2. intros out2 ->.
    destruct (mint_cases _ _ _ _ _ Hinv1 H2) as (r & new2 & [= <-] & Hc2 & _ & Hd2).
    rewrite Hp2 in Hd2. destruct Hd2 as (_ & Hok2 & _). destruct (Hok2 _ eq_refl) as (_ & _ & [(_ & Hs & Hlt)|(pre & c & id & -> & _)]).
    + rewrite Hc in Hs. injection Hs as _ Heq. lia.
    + rewrite Hc2. intros Heq. apply (f_equal length) in Heq. rewrite !length_app in Heq. cbn in Heq. lia.
Qed.

(** A path is accepted exactly when it is two non-empty segments of
    [A-Za-z0-9._-] around one slash, which are then the owner and the
    repository; anything else is [MalformedPath] with the path itself. *)
Lemma RepoPath_parse_spec p o r :
  (RepoPath_parse (H:=HttpError) p = Ok (MkRepoPath o r) ↔
   p = o ++ B "/" ++ r ∧ o ≠ [] ∧ r ≠ [] ∧
   Forall (λ b, is_ascii_alphanumeric b = true ∨ b = x2d ∨ b = x5f ∨ b = x2e) (o ++ r)) ∧
  (is_ok (RepoPath_parse (H:=HttpError) p) = false → RepoPath_parse (H:=HttpError) p = Err (G_MalformedPath p)).
Proof.
  assert (∀ l, forallb is_valid_byte l = true ↔
    Forall (λ b, is_ascii_alphanumeric b = true ∨ b = x2d ∨ b = x5f ∨ b = x2e) l) as Hv.
  { induction l as [|b l IH]; cbn; [by split|]. rewrite andb_true_iff, IH, Forall_cons. unfold is_valid_byte.
    rewrite orb_true_iff, bool_decide_eq_true, !elem_of_cons, elem_of_nil. naive_solver. }
  change (B "/") with [x2f]. cbn [app]. rewrite Forall_app, <-!Hv. unfold RepoPath_parse. split.
  - split.
    + destruct (split_once x2f p) as [[o' r']|] eqn:E; [|done]. apply split_once_Some in E as [-> _].
      destruct (_ || _) eqn:Hbad; [done|]. intros [= <- <-].
      apply orb_false_iff in Hbad as [[[H1 H2]%orb_false_iff H3]%orb_false_iff H4].
      apply bool_decide_eq_false in H1, H2. apply negb_false_iff in H3, H4. done.
    + intros (-> & Ho & Hr & Hvo & Hvr).
      assert (split_once x2f (o ++ x2f :: r) = Some (o, r)) as ->.
      { apply split_once_Some. split; [done|]. intros Hin. apply Hv in Hvo. rewrite Forall_forall in Hvo.
        specialize (Hvo _ Hin). naive_solver. }
      by rewrite !bool_decide_eq_false_2, Hvo, Hvr by done.
  - destruct (split_once x2f p) as [[o' r']|]; [|done]. by destruct (_ || _).
Qed.

(** The character set lets dot segments through: [..] is a valid owner, and the
    lookup URL built from it is one an HTTP client normalises to another
    path. *)
Lemma RepoPath_parse_dot_segments p :
  RepoPath_parse (H:=HttpError) (B "../app") = Ok (MkRepoPath (B "..") (B "app")) ∧
  repo_url p (B "..") (B "app") = gp_api_base p ++ B "/repos/../app".
Proof. by vm_compute. Qed.

End github.

(** ** A concrete environment *)

(** GitHub's answers to the first calls of a provider's life: a metadata token,
    the repository, the revocation, the mint, then not found. *)
Definition demo_reply (status : Z) (body : bytes) : CallFate () :=
  Fate_response (MkHttpResponse _ status (λ _, None) (Ok body)).

Definition demo_fates : list (CallFate ()) :=
  [demo_reply 201 (B "meta"); demo_reply 200 (B "repo"); Fate_timeout true; demo_reply 201 (B "tok");
   demo_reply 201 (B "meta"); demo_reply 404 (B "none"); demo_reply 204 []].

Definition github_model : GithubEnv := {|
  HttpError := ();
  ge_sign _ c := Ok (iss c);
  ge_fate n := default (Fate_cancelled false) (demo_fates !! n);
  ge_out_req_id n := show_u64 (Z.of_nat n);
  ge_clock n := from_secs (1700000000 + Z.of_nat n);
  url_error _ := None;
  header_error _ := None;
  url_host u := Some u;
  client_build := Ok ();
  header_to_str v := Some v;
  envelope_of_json _ := None;
  app_of_json b := Some b;
  repo_of_json b := if beq b (B "repo") then Some 42 else None;
  mint_of_json b := Some (b, B "later");
  rfc3339_unix _ := Some 1700003600;
  rfc2822_unix _ := None;
|}.

Definition demo_provider : GitHubProvider :=
  MkGitHubProvider (B "github.com") (B "https://api.github.com") (B "Iv1") 7 (B "symbolon") (from_secs 10) (from_secs 10)
    (B "api.github.com").

(** The first mint of [Octo/Hello] in that environment. *)
Definition demo_mint : GState * outcome (result (GithubError ()) MintOutcome) :=
  @mint github_model demo_provider (B "Octo/Hello") gs_new.
Definition demo_out : MintOutcome :=
  match demo_mint.2 with Ret (Ok o) => o | _ => MkMintOutcome (MkResponse [] [] 0) [] None end.

Lemma mint_scoped_witness :
  demo_mint = (demo_mint.1, Ret (Ok demo_out)) ∧ password (mo_response demo_out) = B "tok" ∧
  @token_provenance github_model demo_provider (gs_calls demo_mint.1) (B "octo/hello") (B "tok") (from_secs 1700003600).
Proof.
  split; [by vm_compute|]. split; [by vm_compute|].
  destruct (@mint_scoped github_model demo_provider [] (B "Octo/Hello") demo_mint.1 demo_out)
    as (rp & new & Hp & _ & _ & _ & Ht & _); [by vm_compute|].
  vm_compute in Hp. injection Hp as <-. exact Ht.
Defined.

Lemma mint_not_found_forgets_witness :
  (@mint github_model demo_provider (B "Octo/Gone") (@life github_model demo_provider [Op_mint (B "Octo/Hello")])).2 = Ret (Err G_RepoNotFound) ∧
  memo (gs_repo_ids (@mint github_model demo_provider (B "Octo/Gone") (@life github_model demo_provider [Op_mint (B "Octo/Hello")])).1) !! B "octo/gone" = None.
Proof.
  split; [by vm_compute|].
  apply (@mint_not_found_forgets github_model demo_provider [Op_mint (B "Octo/Hello")] (B "Octo/Gone") _ (MkRepoPath (B "Octo") (B "Gone")));
    by vm_compute.
Defined.

Lemma mint_twice_witness :
  ∃ out2, (@mint github_model demo_provider (B "OCTO/hello") demo_mint.1).2 = Ret (Ok out2) ∧
    mo_response out2 = mo_response demo_out.
Proof.
  pose proof (@mint_twice github_model demo_provider [] (B "Octo/Hello") (B "OCTO/hello") demo_mint.1 demo_out
    (MkRepoPath (B "Octo") (B "Hello")) (MkRepoPath (B "OCTO") (B "hello"))
    ltac:(by vm_compute) ltac:(by vm_compute) ltac:(by vm_compute) ltac:(by vm_compute)) as H.
  destruct (@mint github_model demo_provider (B "OCTO/hello") demo_mint.1) as [s2 o2].
  assert ((@ge_clock github_model (gs_ticks demo_mint.1) <? password_expiry_utc (mo_response demo_out)) = true) as Hlt
    by (by vm_compute).
  rewrite Hlt in H.
  destruct H as (out2 & -> & Hr & _). exists out2. split; [reflexivity|exact Hr].
Defined.

Lemma RepoPath_parse_spec_witness :
  RepoPath_parse (H:=()) (B "octo/a/b") = Err (G_MalformedPath (B "octo/a/b")).
Proof. by apply (@RepoPath_parse_spec github_model (B "octo/a/b") [] []). Defined.
