(* ===== verification/GithubWire.v ===== *)
(** * GitHub's documents: the serde derives of [providers/github.rs]

    The answers the provider reads ([Resp] of a mint, [Resp] of a repository,
    [App]) as derived structs over JSON, and the body of a mint as the document
    GitHub reads.  [github_serde] puts the readers in place of the parameters of
    an environment [GithubEnv]; the error envelope borrows its message from the
    input, and stays a parameter. *)

From S2P Require Import Prelude Json Serde Github.

(** ** The answers *)

(** [struct Resp { token, expires_at }] of [parse_mint_response] *)
Definition mint_Resp_de (v : Value) : result JsonFault (bytes * bytes) :=
  os ← visit_struct false [required (B "token"); required (B "expires_at")] v;
  match os with
  | [t; e] => token ← de_req string_codec t; expires_at ← de_req string_codec e; Ok (token, expires_at)
  | _ => refuse
  end.

(** [struct Resp { id: RepoId }] of [resolve_repo_id], transparent [u64] *)
Definition repo_Resp_de (v : Value) : result JsonFault Z :=
  os ← visit_struct false [required (B "id")] v;
  match os with [o] => de_req u64_codec o | _ => refuse end.

(** [struct App { client_id }] of [check_app_identity] *)
Definition App_de (v : Value) : result JsonFault bytes :=
  os ← visit_struct false [required (B "client_id")] v;
  match os with [o] => de_req string_codec o | _ => refuse end.

Definition ok_of {E A} (r : result E A) : option A := match r with Ok a => Some a | Err _ => None end.

Definition github_serde (env : GithubEnv) : GithubEnv := {|
  HttpError := @HttpError env;
  ge_sign := @ge_sign env;
  ge_fate := @ge_fate env;
  ge_out_req_id := @ge_out_req_id env;
  ge_clock := @ge_clock env;
  url_error := @url_error env;
  header_error := @header_error env;
  url_host := @url_host env;
  client_build := @client_build env;
  header_to_str := @header_to_str env;
  envelope_of_json := @envelope_of_json env;
  app_of_json b := ok_of (from_json App_de b);
  repo_of_json b := ok_of (from_json repo_Resp_de b);
  mint_of_json b := ok_of (from_json mint_Resp_de b);
  rfc3339_unix := @rfc3339_unix env;
  rfc2822_unix := @rfc2822_unix env;
|}.

(** Conversion unfolds the environment before it tries to parse. *)
#[local] Strategy 1000 [ok_of from_json json_parse].

(** ** The body of a mint *)

Definition permissions (ps : list (bytes * bytes)) : Value := V_Obj (prod_map id V_Str <$> ps).

Definition mint_document (repo_id : Z) : Value :=
  V_Obj [(B "repository_ids", V_Arr [V_Int repo_id]);
         (B "permissions", permissions [(B "contents", B "write"); (B "metadata", B "read")])].
Definition metadata_document : Value := V_Obj [(B "permissions", permissions [(B "metadata", B "read")])].

Lemma mint_body_text repo_id : 0 <= repo_id → mint_body repo_id = json_compact (mint_document repo_id).
Proof.
  intros Hr. unfold mint_document, json_compact. cbn [render map container join fst snd permissions fmap list_fmap prod_map id].
  unfold show_i64. replace (repo_id <? 0) with false by lia.
  unfold mint_body, mint_body_head, member. cbn [app]. rewrite <-!(assoc_L (++)). cbn [app]. rewrite <-!(assoc_L (++)). reflexivity.
Qed.

(** What GitHub reads from the body of a mint: one repository, the one whose id
    GitHub itself reported, and write access to its contents only; from the
    body of the metadata token: no repository and read access only.  An id the
    provider read is always a [u64], so the body is always this document. *)
Lemma mint_body_document env body repo_id :
  @repo_of_json (github_serde env) body = Some repo_id →
  json_parse (mint_body repo_id) = Some (mint_document repo_id) ∧ json_parse metadata_body = Some metadata_document.
Proof.
  intros H. assert (0 <= repo_id <= u64_max) as Hr.
  { cbn [repo_of_json github_serde] in H. destruct (from_json repo_Resp_de body) as [n|] eqn:E; [|done]. injection H as ->.
    apply from_json_Ok in E as (v & Hv). unfold repo_Resp_de in Hv. apply bind_Ok in Hv as (os & _ & Hv).
    destruct os as [|[o|] []]; try done. by apply (de_typed _ _ (u_laws u64_max (Z.le_refl _))) in Hv. }
  split; [|by vm_compute]. rewrite mint_body_text by lia. apply json_parse_compact.
  cbn. unfold i64_min. lia.
Qed.
