(* ===== verification/Mints.v ===== *)
(** * Concurrent mints: [GitHubProvider::mint] between its awaits

    Connections are served at the same time, so several mints share the token
    cache and the repository-id memo.  Here a mint is a task that is suspended
    wherever [mint] awaits: on the event of a resolve in flight, or on one of
    its calls to GitHub.  Tasks start, go on and are dropped (the timeout of
    their connection) in any order; between two awaits a task runs alone.

    A call is split where it awaits the network: [call_begin] numbers it, builds
    the request (its signature included) and hands it over, [call_end] handles
    what came back, whenever that is.  The caches are not touched inside a call,
    so the awaits of the signer and of the response body add no interleaving of
    theirs; a call that is cut off in one of them is a task dropped, or a fate of
    the call. *)

From S2P Require Import Prelude GitCredential TtlCache Singleflight Config Signing Github.

Section mints.
Context {GE : GithubEnv} (p : GitHubProvider).

Abbreviation GErr := (GithubError HttpError).

(** ** The two halves of [run_call] *)

(** A call under way: its number, and the error it has ended with already. *)
Definition CallPending : Type := outcome (nat * option GErr).

Definition call_begin (endpoint : bytes) (timeout : Z) (build : G HttpRequest) (s : GState) : GState * CallPending :=
  let n := length (gs_calls s) in
  match ge_fate n with
  | Fate_cancelled false => (gs_record s (MkCallRecord endpoint None), Ret (n, Some G_Cancelled))
  | Fate_timeout false => (gs_record s (MkCallRecord endpoint None), Ret (n, Some (G_Timeout timeout)))
  | _ =>
      let '(s, o) := build s in
      match o with
      | Panic => (s, Panic)
      | Blocked => (s, Blocked)
      | Ret r =>
          match (req ← r;
                 req ← add_header X_REQUEST_ID_HEADER (ge_out_req_id n) req;
                 add_header REQUEST_TIMEOUT_HEADER (show_u64 (as_secs timeout)) req) with
          | Err e => (gs_record s (MkCallRecord endpoint None), Ret (n, Some e))
          | Ok req => (gs_record s (MkCallRecord endpoint (Some req)), Ret (n, None))
          end
      end
  end.

Definition call_end {T} (timeout : Z) (handle : HttpResponse HttpError → CallMeta → bytes → result GErr T) (c : CallPending) :
    outcome (result GErr T) :=
  match c with
  | Panic => Panic
  | Blocked => Blocked
  | Ret (_, Some e) => Ret (Err e)
  | Ret (n, None) =>
      Ret match ge_fate n with
          | Fate_cancelled _ => Err G_Cancelled
          | Fate_timeout _ => Err (G_Timeout timeout)
          | Fate_http_error e => Err (G_Http e)
          | Fate_response r => handle r (MkCallMeta (rs_status r) (read_provider_req_id r)) (ge_out_req_id n)
          end
  end.

Abbreviation timeout := (gp_request_timeout p).
Definition metadata_begin : GState → GState * CallPending :=
  call_begin (B "mint_metadata_token") timeout (mint_build p metadata_body).
Definition resolve_begin (rp : RepoPath) (token : bytes) : GState → GState * CallPending :=
  call_begin (B "resolve_repo_id") timeout (bearer_build p GET (repo_url p (owner rp) (repo rp)) token).
Definition revoke_begin (token : bytes) : GState → GState * CallPending :=
  call_begin (B "revoke_install_token") timeout (bearer_build p DELETE (installation_token_url p) token).
Definition token_begin (id : Z) : GState → GState * CallPending :=
  call_begin (B "mint_token") timeout (mint_build p (mint_body id)).

(** ** Tasks *)

Abbreviation Guard := (@InFlightGuard bytes Z).

(** Where a mint is suspended, or how it ended. *)
Inductive Mint :=
| M_wait (rp : RepoPath) (ev : nat)                                             (* [ev.listen().await] *)
| M_woken (rp : RepoPath)
| M_metadata (rp : RepoPath) (g : Guard) (c : CallPending)                          (* the calls *)
| M_resolve (rp : RepoPath) (g : Guard) (token : bytes) (c : CallPending)
| M_revoke (rp : RepoPath) (g : Guard) (token : bytes) (result_ : result GErr Z) (c : CallPending)
| M_token (rp : RepoPath) (id : Z) (c : CallPending)
| M_done (rp : RepoPath) (r : result GErr MintOutcome)
| M_malformed (path : bytes) (e : GErr)
| M_panicked
| M_dropped.

(** The provider's state and the tasks. *)
Record Mints := MkMints { ms_state : GState; ms_tasks : gmap nat Mint }.

Definition m_set (t : nat) (x : Mint) (w : Mints) : Mints := MkMints (ms_state w) (<[t := x]> (ms_tasks w)).

(** Begin a call and wait for it. *)
Definition m_call (t : nat) (begin : GState → GState * CallPending) (at_ : CallPending → Mint) (w : Mints) : Mints :=
  let '(s, c) := begin (ms_state w) in MkMints s (<[t := at_ c]> (ms_tasks w)).

(** [event.notify(usize::MAX)] *)
Definition m_wake (ev : nat) (x : Mint) : Mint :=
  match x with
  | M_wait rp e => if decide (e = ev) then M_woken rp else x
  | _ => x
  end.

(** [Drop for InFlightGuard] *)
Definition m_drop_guard (g : Guard) (w : Mints) : Mints :=
  let s := ms_state w in
  MkMints (gs_with_repo_ids s (sf_store (guard_drop g (MkSfWorld (Er:=GErr) (gs_repo_ids s) ∅))))
          (m_wake (g_event g) <$> ms_tasks w).

(** [repo_ids.with] from the top of its loop, and on a hit [mint_token]. *)
Definition m_with (t : nat) (rp : RepoPath) (w : Mints) : Mints :=
  let '(st, c) := claim (gs_repo_ids (ms_state w)) (mint_key rp) in
  let w := MkMints (gs_with_repo_ids (ms_state w) st) (ms_tasks w) in
  match c with
  | Claim_Hit id => m_call t (token_begin id) (M_token rp id) w
  | Claim_Wait ev => m_set t (M_wait rp ev) w
  | Claim_Resolve ev => m_call t metadata_begin (M_metadata rp (InFlightGuard_new (mint_key rp) ev)) w
  end.

(** [mint] to its first suspension. *)
Definition m_start (t : nat) (path : bytes) (w : Mints) : Mints :=
  match RepoPath_parse path with
  | Err e => m_set t (M_malformed path e) w
  | Ok rp =>
      let '(s, o) := token_cache_get (mint_key rp) (ms_state w) in
      let w := MkMints s (ms_tasks w) in
      match o with
      | Ret (Ok (Some (token, expires_at))) =>
          match mint_cached token expires_at s with
          | (_, Ret r) => m_set t (M_done rp r) w
          | _ => m_set t M_panicked w
          end
      | Ret (Ok None) => m_with t rp w
      | Ret (Err e) => m_set t (M_done rp (Err e)) w
      | _ => m_set t M_panicked w
      end
  end.

(** The resolve has returned: the guard is committed or not and dropped, and
    the mint goes on or fails. *)
Definition m_resolved (t : nat) (rp : RepoPath) (g : Guard) (r : result GErr Z) (w : Mints) : Mints :=
  match r with
  | Ok id => m_call t (token_begin id) (M_token rp id) (m_drop_guard (commit_done g id) w)
  | Err e => m_set t (M_done rp (Err e)) (m_drop_guard g w)
  end.

(** [mint_token] has returned: the caches, and the end of the mint. *)
Definition m_minted (t : nat) (rp : RepoPath) (r : result GErr MintOutcome) (w : Mints) : Mints :=
  let s := ms_state w in
  let s' := match r with
            | Ok out => fst (token_cache_insert (mint_key rp) (password (mo_response out)) (password_expiry_utc (mo_response out)) s)
            | Err G_RepoNotFound =>
                gs_with_tokens (gs_with_repo_ids s (sf_invalidate (gs_repo_ids s) (mint_key rp)))
                               (TtlCache_invalidate (mint_key rp) (gs_tokens s))
            | Err _ => s
            end in
  m_set t (M_done rp r) (MkMints s' (ms_tasks w)).

(** What a task does with the end of its call; [None]: it does not return. *)
Definition after {T} (o : outcome (result GErr T)) (k : result GErr T → Mints) (panicked : Mints) : option Mints :=
  match o with Ret r => Some (k r) | Panic => Some panicked | Blocked => None end.

(** The call a task waits for ends. *)
Definition m_answer (t : nat) (x : Mint) (w : Mints) : option Mints :=
  let unwind g := m_set t M_panicked (m_drop_guard g w) in
  match x with
  | M_metadata rp g c =>
      after (call_end timeout metadata_handle c) (λ r,
        match r with
        | Ok (token, _) => m_call t (resolve_begin rp token) (M_resolve rp g token) w
        | Err e => m_resolved t rp g (Err e) w
        end) (unwind g)
  | M_resolve rp g token c =>
      after (call_end timeout resolve_handle c) (λ r, m_call t (revoke_begin token) (M_revoke rp g token r) w) (unwind g)
  | M_revoke rp g token r c => after (call_end timeout revoke_handle c) (λ _, m_resolved t rp g r w) (unwind g)
  | M_token rp id c => after (call_end timeout token_handle c) (λ r, m_minted t rp r w) (m_set t M_panicked w)
  | _ => None
  end.

(** The future of a mint is dropped. *)
Definition m_drop (t : nat) (x : Mint) (w : Mints) : option Mints :=
  match x with
  | M_wait _ _ | M_woken _ | M_token _ _ _ => Some (m_set t M_dropped w)
  | M_metadata _ g _ | M_resolve _ g _ _ | M_revoke _ g _ _ _ => Some (m_set t M_dropped (m_drop_guard g w))
  | _ => None
  end.

Inductive MAction :=
| A_mint (t : nat) (path : bytes)
| A_run (t : nat)
| A_answer (t : nat)
| A_drop (t : nat).

#[export] Instance MAction_eq_dec : EqDecision MAction.
Proof. solve_decision. Defined.

Definition m_step (a : MAction) (w : Mints) : option Mints :=
  match a with
  | A_mint t path => match ms_tasks w !! t with None => Some (m_start t path w) | Some _ => None end
  | A_run t => match ms_tasks w !! t with Some (M_woken rp) => Some (m_with t rp w) | _ => None end
  | A_answer t => x ← ms_tasks w !! t; m_answer t x w
  | A_drop t => x ← ms_tasks w !! t; m_drop t x w
  end.

(** A sequence of actions, each of them enabled. *)
Fixpoint m_run (acts : list MAction) (w : Mints) : option Mints :=
  match acts with
  | [] => Some w
  | a :: acts => w ← m_step a w; m_run acts w
  end.

Definition m_init : Mints := MkMints gs_new ∅.

(** ** The halves of a call *)

Lemma run_call_split {T} ep t build (handle : HttpResponse HttpError → CallMeta → bytes → result GErr T) s :
  run_call ep t build handle s = let '(s', c) := call_begin ep t build s in (s', call_end t handle c).
Proof.
  unfold run_call, call_begin, call_end. destruct (ge_fate _) as [[]|[]|e|r] eqn:E; try done.
  all: destruct (build s) as [s' []]; try done; destruct (req ← _; _); cbn; by rewrite ?E.
Qed.

(** A call that has begun: the record it left, what it sent, and its number. *)
Definition began (s s' : GState) (c : CallPending) (Q : nat → CallRecord → Prop) : Prop :=
  ∃ rec m early, s' = called s rec m ∧ c = Ret (length (gs_calls s), early) ∧ Q (length (gs_calls s)) rec ∧
    (early = None → is_Some (cr_sent rec)).

Lemma call_begin_spec ep t build P s s' c :
  quiet build P → call_begin ep t build s = (s', c) →
  began s s' c (λ i rec, cr_endpoint rec = ep ∧ ∀ req, cr_sent rec = Some req → ∃ req0, P i req0 ∧ extended i t req0 req).
Proof.
  intros Hq H. unfold call_begin in H. destruct (Hq s) as (m & r & Hb & HP). rewrite Hb in H.
  assert (∀ x, (gs_record s (MkCallRecord ep None), Ret (length (gs_calls s), Some x)) = (s', c) →
    began s s' c (λ i rec, cr_endpoint rec = ep ∧ ∀ req, cr_sent rec = Some req → ∃ req0, P i req0 ∧ extended i t req0 req)) as Hearly.
  { intros x [= <- <-]. by exists (MkCallRecord ep None), (gs_ticks s), (Some x). }
  assert (match (req ← r;
                 req ← add_header X_REQUEST_ID_HEADER (ge_out_req_id (length (gs_calls s))) req;
                 add_header REQUEST_TIMEOUT_HEADER (show_u64 (as_secs t)) req) with
          | Err e => (gs_record (MkGState (gs_repo_ids s) (gs_tokens s) (gs_calls s) m) (MkCallRecord ep None), Ret (length (gs_calls s), Some e))
          | Ok req => (gs_record (MkGState (gs_repo_ids s) (gs_tokens s) (gs_calls s) m) (MkCallRecord ep (Some req)), Ret (length (gs_calls s), None))
          end = (s', c) →
    began s s' c (λ i rec, cr_endpoint rec = ep ∧ ∀ req, cr_sent rec = Some req → ∃ req0, P i req0 ∧ extended i t req0 req)) as Hsent.
  { destruct (req ← r; _) as [req|e] eqn:Hreq; intros [= <- <-]; cycle 1.
    { by exists (MkCallRecord ep None), m, (Some e). }
    exists (MkCallRecord ep (Some req)), m, None. split_and!; [done..| |by eexists].
    intros req' [= <-]. inv_ok. match goal with H : r = Ok _ |- _ => specialize (HP _ H) end.
    repeat match goal with H : add_header _ _ _ = _ |- _ => apply add_header_Ok in H; subst end.
    eexists. split; [exact HP|]. unfold extended. cbn. by rewrite <-(assoc_L (++)). }
  destruct (ge_fate _) as [[]|[]|e|resp]; first [exact (Hsent H)|by eapply Hearly].
Qed.

(** The four calls of a mint. *)
Lemma began_impl s s' c (Q Q' : nat → CallRecord → Prop) :
  began s s' c Q → (∀ i rec, Q i rec → Q' i rec) → began s s' c Q'.
Proof. intros (rec & m & early & H1 & H2 & H3 & H4) HQ. exists rec, m, early. auto. Qed.

Lemma metadata_begin_spec s s' c : metadata_begin s = (s', c) → began s s' c (is_metadata_call p).
Proof.
  intros H. eapply began_impl; [by eapply call_begin_spec, H; apply quiet_mint_build|].
  intros i rec [He Hs]. split; [done|]. intros req Hr. destruct (Hs _ Hr) as (req0 & HP & Hx). by apply HP.
Qed.

Lemma token_begin_spec id s s' c : token_begin id s = (s', c) → began s s' c (is_mint_call p id).
Proof.
  intros H. eapply began_impl; [by eapply call_begin_spec, H; apply quiet_mint_build|].
  intros i rec [He Hs]. split; [done|]. intros req Hr. destruct (Hs _ Hr) as (req0 & HP & Hx).
  rewrite <-mint_body_request. by apply HP.
Qed.

Lemma resolve_begin_spec rp token s s' c : resolve_begin rp token s = (s', c) → began s s' c (is_resolve_call p rp token).
Proof.
  intros H. eapply began_impl; [by eapply call_begin_spec, H; apply quiet_bearer|].
  intros i rec [He Hs]. split; [done|]. intros req Hr. destruct (Hs _ Hr) as (req0 & HP & Hx). by apply HP.
Qed.

Lemma revoke_begin_spec token s s' c : revoke_begin token s = (s', c) → began s s' c (is_revoke_call p token).
Proof.
  intros H. eapply began_impl; [by eapply call_begin_spec, H; apply quiet_bearer|].
  intros i rec [He Hs]. split; [done|]. intros req Hr. destruct (Hs _ Hr) as (req0 & HP & Hx). by apply HP.
Qed.

(** What a successful end says of GitHub's answer. *)
Lemma call_end_Ok {T} t (handle : HttpResponse HttpError → CallMeta → bytes → result GErr T) n early v :
  call_end t handle (Ret (n, early)) = Ret (Ok v) →
  early = None ∧ ∃ resp, ge_fate n = Fate_response resp ∧
    handle resp (MkCallMeta (rs_status resp) (read_provider_req_id resp)) (ge_out_req_id n) = Ok v.
Proof.
  cbn. destruct early; [done|]. intros H. split; [done|].
  destruct (ge_fate n) as [| | |resp]; try done. exists resp. split; [done|]. by injection H.
Qed.

Lemma metadata_end_Ok n early token e :
  call_end timeout metadata_handle (Ret (n, early)) = Ret (Ok (token, e)) → early = None ∧ replied_token n token e.
Proof.
  intros (-> & resp & Hf & Hh)%call_end_Ok. split; [done|]. by eapply metadata_handle_Ok.
Qed.

Lemma resolve_end_Ok n early id :
  call_end timeout resolve_handle (Ret (n, early)) = Ret (Ok id) → early = None ∧ replied_repo n id.
Proof.
  intros (-> & resp & Hf & Hh)%call_end_Ok. split; [done|]. by eapply resolve_handle_Ok.
Qed.

Lemma token_end_Ok n early out :
  call_end timeout token_handle (Ret (n, early)) = Ret (Ok out) →
  early = None ∧ replied_token n (password (mo_response out)) (password_expiry_utc (mo_response out)) ∧
  username (mo_response out) = B "x-access-token" ∧
  Response_new (B "x-access-token") (password (mo_response out)) (password_expiry_utc (mo_response out)) = Ok (mo_response out).
Proof.
  intros (-> & resp & Hf & Hh)%call_end_Ok. split; [done|]. by eapply token_handle_Ok.
Qed.

(** ** The memo under concurrent mints

    The tasks as [Singleflight] sees them. *)
Abbreviation SfTask := (@Task bytes Z GErr).

Definition sf_of (x : Mint) : SfTask :=
  match x with
  | M_wait rp ev => T_Waiting (mint_key rp) ev
  | M_woken rp => T_Woken (mint_key rp)
  | M_metadata _ g _ | M_resolve _ g _ _ | M_revoke _ g _ _ _ => T_Resolving g
  | _ => T_Cancelled
  end.

Definition sf_view (w : Mints) : SfWorld := MkSfWorld (gs_repo_ids (ms_state w)) (sf_of <$> ms_tasks w).

Lemma sf_view_set t x w : sf_view (m_set t x w) = set_task t (sf_of x) (sf_view w).
Proof. unfold sf_view, set_task. cbn. by rewrite fmap_insert. Qed.

Lemma sf_of_wake ev x : sf_of (m_wake ev x) = wake ev (sf_of x).
Proof. destruct x; cbn; try done. by case_decide. Qed.

Lemma sf_view_drop g w : sf_view (m_drop_guard g w) = guard_drop g (sf_view w).
Proof.
  unfold sf_view, m_drop_guard, guard_drop, release_done, release_failed, notify. cbn.
  rewrite <-!map_fmap_compose. assert (∀ m : gmap nat Mint, (sf_of ∘ m_wake (g_event g)) <$> m = (wake (g_event g) ∘ sf_of) <$> m) as Hw.
  { intros m. apply map_fmap_ext. intros i x _. apply sf_of_wake. }
  rewrite Hw. by destruct (g_result g).
Qed.

(** A call touches the records and the clock only. *)
Lemma m_call_state t begin at_ w (Q : nat → CallRecord → Prop) :
  (∀ s s' c, begin s = (s', c) → began s s' c Q) →
  ∃ rec m early, let n := length (gs_calls (ms_state w)) in
    m_call t begin at_ w = m_set t (at_ (Ret (n, early))) (MkMints (called (ms_state w) rec m) (ms_tasks w)) ∧ Q n rec ∧
    (early = None → is_Some (cr_sent rec)).
Proof.
  intros Hb. unfold m_call. destruct (begin (ms_state w)) as [s c] eqn:E.
  apply Hb in E as (rec & m & early & -> & -> & HQ & He). by exists rec, m, early.
Qed.

(** A task that does not hold a guard comes to the loop of [with]. *)
Lemma with_view t rp w :
  sf_inv (sf_view w) → (∀ g, sf_tasks (sf_view w) !! t ≠ Some (T_Resolving g)) → sf_inv (sf_view (m_with t rp w)).
Proof.
  intros Hi Ht. pose proof (sf_inv_with_loop t (mint_key rp) _ Hi Ht) as Hl.
  unfold with_loop in Hl. change (sf_store (sf_view w)) with (gs_repo_ids (ms_state w)) in Hl. unfold m_with.
  destruct (claim _ _) as [st c] eqn:Ec. destruct c as [id|ev|ev].
  - edestruct m_call_state as (rec & m & early & -> & _); [apply token_begin_spec|].
    rewrite sf_view_set. apply (sf_inv_set t T_Cancelled) in Hl; [|cbn; rewrite lookup_insert_eq; naive_solver|done].
    unfold set_task in Hl |- *. cbn in Hl |- *. by rewrite insert_insert_eq in Hl.
  - by rewrite sf_view_set.
  - edestruct m_call_state as (rec & m & early & -> & _); [apply metadata_begin_spec|].
    by rewrite sf_view_set.
Qed.

(** A task that holds [g] goes on to its next call with it. *)
Lemma call_view t begin at_ w g (Q : nat → CallRecord → Prop) :
  (∀ s s' c, begin s = (s', c) → began s s' c Q) → (∀ c, sf_of (at_ c) = T_Resolving g) →
  sf_tasks (sf_view w) !! t = Some (T_Resolving g) → sf_view (m_call t begin at_ w) = sf_view w.
Proof.
  intros Hb Hat Ht. destruct (m_call_state t begin at_ w Q Hb) as (rec & m & early & -> & _).
  rewrite sf_view_set, Hat. unfold set_task, sf_view in *. cbn in *. by rewrite insert_id.
Qed.

(** A task that holds [g] gives it back, with the value [r] or without. *)
Lemma drop_view t g x r w :
  sf_inv (sf_view w) → sf_tasks (sf_view w) !! t = Some (T_Resolving g) → sf_of x = T_Cancelled →
  sf_inv (sf_view (m_set t x (m_drop_guard (MkGuard (g_key g) (g_event g) r) w))).
Proof. intros Hi Ht Hx. rewrite sf_view_set, sf_view_drop, Hx. by apply sf_inv_drop. Qed.

Lemma guard_none t g w :
  sf_inv (sf_view w) → sf_tasks (sf_view w) !! t = Some (T_Resolving g) → g = MkGuard (g_key g) (g_event g) None.
Proof. intros Hi Ht. by destruct (inv_guard _ Hi _ _ Ht). Qed.

Lemma resolved_view t rp g r w :
  sf_inv (sf_view w) → sf_tasks (sf_view w) !! t = Some (T_Resolving g) → sf_inv (sf_view (m_resolved t rp g r w)).
Proof.
  intros Hi Ht. destruct r as [id|e]; cbn [m_resolved].
  - edestruct m_call_state as (rec & m & early & -> & _); [apply token_begin_spec|].
    pose proof (drop_view t g (M_token rp id (Ret (0%nat, None))) (Some id) w Hi Ht eq_refl) as H.
    rewrite sf_view_set in H |- *. exact H.
  - rewrite (guard_none _ _ _ Hi Ht). cbn. by apply drop_view.
Qed.

Lemma minted_view t rp r w :
  sf_inv (sf_view w) → (∀ g, sf_tasks (sf_view w) !! t ≠ Some (T_Resolving g)) → sf_inv (sf_view (m_minted t rp r w)).
Proof.
  intros Hi Ht. unfold m_minted. rewrite sf_view_set. apply sf_inv_set; [|done..].
  assert (sf_inv (sf_step (sf_view w) (A_invalidate (mint_key rp)))) as Hinv by (by apply sf_inv_step).
  destruct r as [out|[]]; try exact Hi. exact Hinv.
Qed.

(** ** What is known of a task *)

(** A call of the record is under way. *)
Definition pending (calls : list CallRecord) (c : CallPending) (Q : nat → CallRecord → Prop) : Prop :=
  ∃ n early rec, c = Ret (n, early) ∧ calls !! n = Some rec ∧ Q n rec ∧ (early = None → is_Some (cr_sent rec)).

(** The lookup of a repository, after the call that got its token. *)
Definition is_lookup (calls : list CallRecord) (rp : RepoPath) (token : bytes) (n : nat) (rec : CallRecord) : Prop :=
  is_resolve_call p rp token n rec ∧ ∃ i, (i < n)%nat ∧ metadata_issued p calls i token.

Definition task_ok (calls : list CallRecord) (x : Mint) : Prop :=
  match x with
  | M_metadata rp g c => g_key g = mint_key rp ∧ pending calls c (is_metadata_call p)
  | M_resolve rp g token c => g_key g = mint_key rp ∧ pending calls c (is_lookup calls rp token)
  | M_revoke rp g token r c =>
      g_key g = mint_key rp ∧ (∀ id, r = Ok id → id_provenance p calls (mint_key rp) id) ∧ pending calls c (is_revoke_call p token)
  | M_token rp id c => id_provenance p calls (mint_key rp) id ∧ pending calls c (is_mint_call p id)
  | M_done rp r => ∀ out, r = Ok out →
      username (mo_response out) = B "x-access-token" ∧
      token_provenance p calls (mint_key rp) (password (mo_response out)) (password_expiry_utc (mo_response out))
  | M_panicked => False
  | _ => True
  end.

Lemma pending_app calls new c Q : pending calls c Q → pending (calls ++ new) c Q.
Proof. intros (n & early & rec & ? & Hn & ?). exists n, early, rec. by rewrite (lookup_app_l_Some _ _ _ _ Hn). Qed.

Lemma pending_impl calls c (Q Q' : nat → CallRecord → Prop) : (∀ n rec, Q n rec → Q' n rec) → pending calls c Q → pending calls c Q'.
Proof. intros HQ (n & early & rec & ? & ? & ? & ?). exists n, early, rec. auto. Qed.

Lemma is_lookup_app calls new rp token n rec : is_lookup calls rp token n rec → is_lookup (calls ++ new) rp token n rec.
Proof. intros (? & i & ? & ?). split; [done|]. exists i. split; [done|]. by apply metadata_issued_app. Qed.

Lemma task_ok_app calls new x : task_ok calls x → task_ok (calls ++ new) x.
Proof.
  destruct x; cbn; try done; intros H; destruct_and?; split_and?; eauto using pending_app, pending_impl, is_lookup_app, id_provenance_app.
  intros out ->. destruct (H out eq_refl). split; [done|]. by apply token_provenance_app.
Qed.

Lemma task_ok_wake calls ev x : task_ok calls x → task_ok calls (m_wake ev x).
Proof. destruct x; cbn; try done. by case_decide. Qed.

(** The caches hold what GitHub said, and the tasks are as they should be. *)
Definition caches_ok (s : GState) : Prop :=
  ttl_inv (gs_tokens s) ∧
  (∀ k token e, ttl_entries (gs_tokens s) !! k = Some (token, e) → is_ok (Response_new (B "x-access-token") token e) = true) ∧
  gprov p s.

Definition good (w : Mints) : Prop :=
  caches_ok (ms_state w) ∧ map_Forall (λ _, task_ok (gs_calls (ms_state w))) (ms_tasks w).

Lemma good_set t x w : good w → task_ok (gs_calls (ms_state w)) x → good (m_set t x w).
Proof. intros [Hc Ht] Hx. split; [done|]. by apply map_Forall_insert_2. Qed.

Lemma caches_called s rec m : caches_ok s → caches_ok (called s rec m).
Proof.
  intros (Ht & Hv & Hi & Htok). split; [done|]. split; [done|]. split; cbn.
  - intros k id Hk. by apply id_provenance_app, Hi.
  - intros k t e Hk. by apply token_provenance_app, Htok.
Qed.

Lemma good_repo_ids st w :
  good w → (∀ k id, memo st !! k = Some (Memo id) → id_provenance p (gs_calls (ms_state w)) k id) →
  good (MkMints (gs_with_repo_ids (ms_state w) st) (ms_tasks w)).
Proof. intros [(Ht & Hv & Hi & Htok) Hts] Hst. split; [|done]. split; [done|]. by split. Qed.

(** A call made after [calls]. *)
Definition after_calls (calls : list CallRecord) (Q : nat → CallRecord → Prop) (n : nat) (rec : CallRecord) : Prop :=
  (length calls <= n)%nat ∧ Q n rec.

Lemma pending_after calls calls' c Q : pending calls c (after_calls calls' Q) → pending calls c Q.
Proof. apply pending_impl. by intros n rec [_ ?]. Qed.

Lemma good_call t begin at_ w (Q : nat → CallRecord → Prop) :
  (∀ s s' c, begin s = (s', c) → began s s' c Q) → good w →
  (∀ new c, pending (gs_calls (ms_state w) ++ new) c (after_calls (gs_calls (ms_state w)) Q) → task_ok (gs_calls (ms_state w) ++ new) (at_ c)) →
  good (m_call t begin at_ w).
Proof.
  intros Hb [Hc Ht] Hat. destruct (m_call_state t begin at_ w Q Hb) as (rec & m & early & -> & HQ & He).
  apply good_set.
  - split; [by apply caches_called|]. intros t' x Hx. cbn. apply task_ok_app. by eapply Ht.
  - cbn. apply Hat. eexists _, _, rec. split; [done|]. split; [by apply list_lookup_middle|]. by split; [split|].
Qed.

Lemma good_drop g w :
  good w → (∀ id, g_result g = Some id → id_provenance p (gs_calls (ms_state w)) (g_key g) id) → good (m_drop_guard g w).
Proof.
  intros Hg Hr. pose proof Hg as [(Ht & Hv & Hi & Htok) Hts]. 
  apply (good_repo_ids _ (MkMints (ms_state w) (m_wake (g_event g) <$> ms_tasks w))).
  - split; [done|]. apply map_Forall_fmap. intros t x Hx. apply task_ok_wake. by eapply Hts.
  - intros k id. unfold guard_drop. destruct (g_result g) as [v|]; cbn.
    + rewrite lookup_insert_Some. intros [[<- [= <-]]|[_ ?]]; [by apply Hr|by apply Hi].
    + intros [_ ?]%lookup_delete_Some. by apply Hi.
Qed.

(** ** The steps keep it *)

Lemma good_with t rp w : good w → good (m_with t rp w).
Proof.
  intros Hg. pose proof Hg as [(_ & _ & Hi & _) _]. unfold m_with, claim.
  destruct (memo (gs_repo_ids (ms_state w)) !! mint_key rp) as [[id|ev]|] eqn:Em.
  - eapply good_call; [apply token_begin_spec|by apply good_repo_ids|]. intros new c Hc.
    split; [by apply id_provenance_app, Hi|by eapply pending_after].
  - apply good_set; [by apply good_repo_ids|done].
  - eapply good_call; [apply metadata_begin_spec|apply good_repo_ids; [done|]|intros new c Hc; split; [done|by eapply pending_after]].
    intros k id. cbn. rewrite lookup_insert_Some. intros [[_ [=]]|[_ ?]]. by apply Hi.
Qed.

Lemma good_resolved t rp g r w :
  good w → g_key g = mint_key rp → g_result g = None →
  (∀ id, r = Ok id → id_provenance p (gs_calls (ms_state w)) (mint_key rp) id) → good (m_resolved t rp g r w).
Proof.
  intros Hg Hk Hn Hr. destruct r as [id|e]; cbn [m_resolved].
  - eapply good_call; [apply token_begin_spec| |].
    + apply good_drop; [done|]. intros id' [= <-]. cbn. rewrite Hk. by apply Hr.
    + intros new c Hc. split; [by apply id_provenance_app, Hr|by eapply pending_after].
  - apply good_set; [|done]. apply good_drop; [done|]. by rewrite Hn.
Qed.

Lemma good_minted t rp n early rec id r w :
  good w → id_provenance p (gs_calls (ms_state w)) (mint_key rp) id →
  gs_calls (ms_state w) !! n = Some rec → is_mint_call p id n rec → (early = None → is_Some (cr_sent rec)) →
  call_end timeout token_handle (Ret (n, early)) = Ret r → good (m_minted t rp r w).
Proof.
  intros [(Ht & Hv & Hi & Htok) Hts] Hid Hn Hrec Hsent Hr. unfold m_minted. destruct r as [out|e].
  - apply token_end_Ok in Hr as (He & Hrep & Hu & Hnew). set (s := ms_state w) in *.
    assert (token_provenance p (gs_calls s) (mint_key rp) (password (mo_response out)) (password_expiry_utc (mo_response out))) as Hp.
    { exists n, rec, id. split_and!; auto. }
    pose proof (ttl_op_inv bytes_leb (gs_tokens s)
      (Op_insert (ge_clock (gs_ticks s)) (mint_key rp) (password (mo_response out)) (password_expiry_utc (mo_response out))) Ht) as Hti.
    assert (∀ k x, ttl_entries (TtlCache_insert bytes_leb (ge_clock (gs_ticks s)) (mint_key rp) (password (mo_response out))
        (password_expiry_utc (mo_response out)) (gs_tokens s)) !! k = Some x →
      (k = mint_key rp ∧ x = (password (mo_response out), password_expiry_utc (mo_response out))) ∨
      ttl_entries (gs_tokens s) !! k = Some x) as Hins.
    { intros k [v e] Hk. cbn in Hk. rewrite lookup_insert_Some in Hk. destruct Hk as [[<- <-]|[_ Hk]]; [by left|right].
      destruct (sweep_spec bytes_leb (ge_clock (gs_ticks s)) _ Ht) as (_ & Hl & _). rewrite Hl in Hk. by apply live_Some in Hk as [? _]. }
    apply good_set; [split; [|done]|]; [split_and!|].
    + exact Hti.
    + intros k token e [[-> [= -> ->]]|Hk]%Hins; [by rewrite Hnew|by eapply Hv].
    + split; [done|]. intros k token e [[-> [= -> ->]]|Hk]%Hins; [done|by apply Htok].
    + intros out' [= <-]. by split.
  - assert (good w) as Hg by (split; [by split_and!|done]).
    destruct e; try (by apply good_set). apply good_set; [|done]. split; [|done]. split_and!.
    + apply (ttl_op_inv bytes_leb _ (Op_invalidate (mint_key rp)) Ht).
    + intros k token e. cbn. intros [_ Hk]%lookup_delete_Some. by eapply Hv.
    + split; cbn; [intros k i [_ Hk]%lookup_delete_Some; by apply Hi|intros k token e [_ Hk]%lookup_delete_Some; by apply Htok].
Qed.

Lemma good_start t path w : good w → good (m_start t path w).
Proof.
  intros Hg. unfold m_start. destruct (RepoPath_parse path) as [rp|e]; [|by apply good_set].
  unfold token_cache_get, g_bind, clock_now. cbn. set (s := ms_state w) in *.
  assert (good (MkMints (swept s) (ms_tasks w))) as Hg'.
  { destruct Hg as [(Ht & Hv & Hi & Htok) Hts]. split; [|done].
    destruct (sweep_spec bytes_leb (ge_clock (gs_ticks s)) _ Ht) as (Hti & Hl & _). split_and!; [exact Hti| |].
    - intros k token e. cbn. rewrite Hl. intros [Hk _]%live_Some. by eapply Hv.
    - split; [done|]. intros k token e. cbn. rewrite Hl. intros [Hk _]%live_Some. by apply Htok. }
  destruct (ttl_entries _ !! mint_key rp) as [[token e]|] eqn:Ek; [|by apply good_with].
  pose proof Hg' as [(_ & Hv & _ & Htok) _]. pose proof (Hv _ _ _ Ek) as Hok. unfold mint_cached.
  destruct (Response_new _ token e) as [resp|] eqn:Er in Hok |- *; [|done]. apply Response_new_Ok in Er as (-> & _).
  apply (good_set t _ (MkMints (swept s) (ms_tasks w))); [done|]. intros out [= <-]. split; [done|]. by apply Htok.
Qed.

Definition minv (w : Mints) : Prop := sf_inv (sf_view w) ∧ good w.

Lemma minv_init : minv m_init.
Proof.
  split; [exact sf_inv_init|]. split; [|by apply map_Forall_empty].
  destruct (gprov_new p) as [? ?]. split_and!; [apply ttl_new_inv| |by split]. intros *; cbn; by rewrite lookup_empty.
Qed.

Lemma view_task t x w : ms_tasks w !! t = Some x → sf_tasks (sf_view w) !! t = Some (sf_of x).
Proof. intros Hx. cbn. by rewrite lookup_fmap, Hx. Qed.

Lemma view_free t w : ms_tasks w !! t = None → ∀ g, sf_tasks (sf_view w) !! t ≠ Some (T_Resolving g).
Proof. intros Hx g. cbn. by rewrite lookup_fmap, Hx. Qed.

Lemma ended_Ret {T} t (handle : HttpResponse HttpError → CallMeta → bytes → result GErr T) n early :
  ∃ r, call_end t handle (Ret (n, early)) = Ret r.
Proof. destruct early; eauto. Qed.

Lemma call_end_Ret {T} t (handle : HttpResponse HttpError → CallMeta → bytes → result GErr T) calls c Q :
  pending calls c Q → ∃ r, call_end t handle c = Ret r.
Proof. intros (n & early & rec & -> & _). apply ended_Ret. Qed.

(** A step of a task that holds a guard, to its next call or to the end of
    the resolve. *)
Lemma minv_call t begin at_ w g (Q : nat → CallRecord → Prop) :
  minv w → sf_tasks (sf_view w) !! t = Some (T_Resolving g) →
  (∀ s s' c, begin s = (s', c) → began s s' c Q) → (∀ c, sf_of (at_ c) = T_Resolving g) →
  (∀ new c, pending (gs_calls (ms_state w) ++ new) c (after_calls (gs_calls (ms_state w)) Q) → task_ok (gs_calls (ms_state w) ++ new) (at_ c)) →
  minv (m_call t begin at_ w).
Proof. intros [Hi Hg] Ht Hb Hat Hok. split; [by erewrite call_view|by eapply good_call]. Qed.

Lemma minv_resolved t rp g r w :
  minv w → sf_tasks (sf_view w) !! t = Some (T_Resolving g) → g_key g = mint_key rp →
  (∀ id, r = Ok id → id_provenance p (gs_calls (ms_state w)) (mint_key rp) id) → minv (m_resolved t rp g r w).
Proof.
  intros [Hi Hg] Ht Hk Hr. split; [by apply resolved_view|]. apply good_resolved; auto. by rewrite (guard_none _ _ _ Hi Ht).
Qed.

Lemma minv_answer t x w w' : minv w → ms_tasks w !! t = Some x → m_answer t x w = Some w' → minv w'.
Proof.
  intros Hm Hx Ha. pose proof (view_task _ _ _ Hx) as Hv. pose proof Hm as [Hi [Hc Hts]]. pose proof (Hts _ _ Hx) as Hok.
  destruct x as [| |rp g c|rp g token c|rp g token r c|rp id c| | | |]; cbn [m_answer] in Ha; cbn [task_ok] in Hok; try done.
  - destruct Hok as [Hk Hp]. destruct (call_end_Ret timeout metadata_handle _ _ _ Hp) as [r Hr]. rewrite Hr in Ha.
    cbn [after] in Ha. apply (inj Some) in Ha as <-. destruct r as [[token e]|e]; [|by apply minv_resolved].
    destruct Hp as (i & early & rec & -> & Hn & Hrec & Hsent). apply metadata_end_Ok in Hr as [He Hrep].
    eapply minv_call; [done..|apply resolve_begin_spec|done|]. intros new c' Hc'. split; [done|]. eapply pending_impl; [|exact Hc'].
    intros n rec' [Hlt Hq]. split; [done|]. exists i. apply lookup_lt_Some in Hn as Hi'. split; [lia|].
    apply metadata_issued_app. exists rec, e. split_and!; auto.
  - destruct Hok as [Hk Hp]. destruct (call_end_Ret timeout resolve_handle _ _ _ Hp) as [r Hr]. rewrite Hr in Ha.
    cbn [after] in Ha. apply (inj Some) in Ha as <-. eapply minv_call; [done..|apply revoke_begin_spec|done|]. intros new c' Hc'.
    split_and!; [done| |by eapply pending_after]. intros id ->. destruct Hp as (n & early & rec & -> & Hn & (Hrec & i & Hi' & Hm') & Hsent).
    apply resolve_end_Ok in Hr as [He Hrep]. destruct Hc' as (l & early' & d & _ & Hl & [Hlt Hrev] & _). apply lookup_lt_Some in Hn as Hn'.
    exists i, n, l, rec, d, rp, token. split; [lia|]. split; [by apply metadata_issued_app|].
    rewrite (lookup_app_l_Some _ _ _ _ Hn). split_and!; auto.
  - destruct Hok as (Hk & Hid & Hp). destruct (call_end_Ret timeout revoke_handle _ _ _ Hp) as [r' Hr]. rewrite Hr in Ha.
    cbn [after] in Ha. apply (inj Some) in Ha as <-. by apply minv_resolved.
  - destruct Hok as [Hid Hp]. destruct (call_end_Ret timeout token_handle _ _ _ Hp) as [r Hr]. rewrite Hr in Ha.
    cbn [after] in Ha. apply (inj Some) in Ha as <-. destruct Hp as (n & early & rec & -> & Hn & Hrec & Hsent). split; [|by eapply good_minted].
    apply minted_view; [done|]. intros g. by rewrite Hv.
Qed.

Lemma minv_drop t x w w' : minv w → ms_tasks w !! t = Some x → m_drop t x w = Some w' → minv w'.
Proof.
  intros [Hi Hg] Hx Hd. pose proof (view_task _ _ _ Hx) as Hv.
  assert (∀ g, sf_of x = T_Resolving g → Some (m_set t M_dropped (m_drop_guard g w)) = Some w' → minv w') as Hguard.
  { intros g Hs [= <-]. rewrite Hs in Hv. pose proof (guard_none _ _ _ Hi Hv) as Hn. split.
    - rewrite Hn. by apply drop_view.
    - apply good_set; [|done]. apply good_drop; [done|]. by rewrite Hn. }
  assert ((∀ g, sf_of x ≠ T_Resolving g) → Some (m_set t M_dropped w) = Some w' → minv w') as Hplain.
  { intros Hs [= <-]. split; [|by apply good_set]. rewrite sf_view_set. apply sf_inv_set; [done| |done]. intros g. rewrite Hv.
    intros [= ?]. by eapply Hs. }
  destruct x; cbn in Hd; try done; first [by eapply Hguard|by apply Hplain].
Qed.

Lemma minv_start t path w : minv w → ms_tasks w !! t = None → minv (m_start t path w).
Proof.
  intros [Hi Hg] Ht. split; [|by apply good_start]. pose proof (view_free _ _ Ht) as Hf.
  assert (∀ x s, (∀ g, sf_of x ≠ T_Resolving g) → (∀ k e, sf_of x ≠ T_Waiting k e) → gs_repo_ids s = gs_repo_ids (ms_state w) →
    sf_inv (sf_view (m_set t x (MkMints s (ms_tasks w))))) as Hset.
  { intros x s Hx Hx' Hs. rewrite sf_view_set. unfold sf_view. cbn. rewrite Hs. apply (sf_inv_set _ _ _ Hi Hf).
    destruct (sf_of x); naive_solver. }
  unfold m_start. destruct (RepoPath_parse path) as [rp|e].
  2:{ apply (Hset (M_malformed path e) (ms_state w)); done. }
  unfold token_cache_get, g_bind, clock_now. cbn. destruct (ttl_entries _ !! _) as [[token e]|].
  - unfold mint_cached. destruct (Response_new _ _ _) as [resp|]; by apply Hset.
  - by apply with_view.
Qed.

Lemma minv_step a w w' : minv w → m_step a w = Some w' → minv w'.
Proof.
  intros Hm Ha. destruct a as [t path|t|t|t]; cbn in Ha.
  - destruct (ms_tasks w !! t) eqn:Ht; [done|]. injection Ha as <-. by apply minv_start.
  - destruct (ms_tasks w !! t) as [x|] eqn:Ht; [|done]. destruct x; try done. injection Ha as <-.
    destruct Hm as [Hi Hg]. split; [|by apply good_with]. apply with_view; [done|]. intros g. by rewrite (view_task _ _ _ Ht).
  - destruct (ms_tasks w !! t) eqn:Ht; [|done]. by eapply minv_answer.
  - destruct (ms_tasks w !! t) eqn:Ht; [|done]. by eapply minv_drop.
Qed.

Lemma minv_run acts w w' : minv w → m_run acts w = Some w' → minv w'.
Proof.
  revert w. induction acts as [|a acts IH]; intros w Hm Hr; [by injection Hr as <-|]. cbn in Hr.
  destruct (m_step a w) as [w1|] eqn:Ha; [|done]. eapply IH; [by eapply minv_step|done].
Qed.

(** ** Every mint comes to an end

    Two counts over the tasks: those that are not done with the memo, and the
    steps they have left until they are, or until they end. *)

Definition before_memo (x : Mint) : nat :=
  match x with M_wait _ _ | M_woken _ | M_metadata _ _ _ | M_resolve _ _ _ _ | M_revoke _ _ _ _ _ => 1 | _ => 0 end.
Definition work (x : Mint) : nat :=
  match x with
  | M_woken _ => 4 | M_metadata _ _ _ => 3 | M_resolve _ _ _ _ => 2 | M_revoke _ _ _ _ _ => 1 | M_token _ _ _ => 1 | _ => 0
  end.

(** For up to [cap] tasks. *)
Definition potential (cap : nat) (m : gmap nat Mint) : nat := total before_memo m * (4 * cap + 1) + total work m.

Lemma potential_le cap m : (potential cap m <= size m * (4 * cap + 5))%nat.
Proof.
  unfold potential. assert (total before_memo m <= 1 * size m)%nat by (apply total_le; intros []; cbn; lia).
  assert (total work m <= 4 * size m)%nat by (apply total_le; intros []; cbn; lia). nia.
Qed.

(** A task does one of its steps. *)
Lemma potential_work cap m t x y :
  m !! t = Some x → before_memo y = before_memo x → (work y < work x)%nat → (potential cap (<[t := y]> m) < potential cap m)%nat.
Proof.
  intros Ht Hb Hw. unfold potential.
  pose proof (total_set before_memo m t x y Ht). pose proof (total_set work m t x y Ht). 
  assert (total before_memo (<[t := y]> m) = total before_memo m) as -> by lia. lia.
Qed.

(** A task is done with the memo, and may wake others. *)
Lemma potential_release cap m h t x y :
  (size m <= cap)%nat → (∀ z, before_memo (h z) = before_memo z) → m !! t = Some x → before_memo x = 1%nat → before_memo y = 0%nat →
  (potential cap (<[t := y]> (h <$> m)) < potential cap m)%nat.
Proof.
  intros Hcap Hh Ht Hx Hy. unfold potential. assert ((h <$> m) !! t = Some (h x)) as Ht' by (by rewrite lookup_fmap, Ht).
  pose proof (total_set before_memo _ t _ y Ht') as Hb. rewrite Hh, total_fmap in Hb by done.
  assert (total work (<[t := y]> (h <$> m)) <= 4 * size m)%nat.
  { etrans; [apply (total_le _ 4); intros []; cbn; lia|]. by rewrite map_size_insert_Some, map_size_fmap by done. }
  nia.
Qed.

Lemma before_memo_wake ev x : before_memo (m_wake ev x) = before_memo x.
Proof. destruct x; cbn; try done. by case_decide. Qed.

Lemma m_call_tasks t begin at_ w : ∃ c, ms_tasks (m_call t begin at_ w) = <[t := at_ c]> (ms_tasks w).
Proof. unfold m_call. destruct (begin (ms_state w)) as [s c]. by exists c. Qed.

Definition new_mint (a : MAction) : bool := match a with A_mint _ _ => true | _ => false end.

Section capped.
Context (cap : nat).

Abbreviation less w' w := (potential cap (ms_tasks w') < potential cap (ms_tasks w))%nat.

Lemma with_potential t rp w : (size (ms_tasks w) <= cap)%nat → ms_tasks w !! t = Some (M_woken rp) → less (m_with t rp w) w.
Proof.
  intros Hcap Ht. unfold m_with. destruct (claim _ _) as [st [id|ev|ev]].
  - destruct (m_call_tasks t (token_begin id) (M_token rp id) (MkMints (gs_with_repo_ids (ms_state w) st) (ms_tasks w))) as [c ->].
    cbn [ms_tasks]. rewrite <-(map_fmap_id (ms_tasks w)) at 1. by eapply potential_release.
  - cbn. eapply potential_work; [done|done|cbn; lia].
  - destruct (m_call_tasks t metadata_begin (M_metadata rp (InFlightGuard_new (mint_key rp) ev))
      (MkMints (gs_with_repo_ids (ms_state w) st) (ms_tasks w))) as [c ->].
    eapply potential_work; [done|done|cbn; lia].
Qed.

Lemma release_potential t x y g w :
  (size (ms_tasks w) <= cap)%nat → ms_tasks w !! t = Some x → before_memo x = 1%nat → before_memo y = 0%nat →
  less (m_set t y (m_drop_guard g w)) w.
Proof. intros Hcap Ht Hx Hy. cbn. eapply potential_release; [done|apply before_memo_wake|done..]. Qed.

Lemma resolved_potential t x rp g r w :
  (size (ms_tasks w) <= cap)%nat → ms_tasks w !! t = Some x → before_memo x = 1%nat → less (m_resolved t rp g r w) w.
Proof.
  intros Hcap Ht Hx. destruct r as [id|e]; cbn [m_resolved]; [|by eapply release_potential].
  destruct (m_call_tasks t (token_begin id) (M_token rp id) (m_drop_guard (commit_done g id) w)) as [c ->].
  eapply potential_release; [done|apply before_memo_wake|done..].
Qed.

Lemma answer_potential t x w w' :
  (size (ms_tasks w) <= cap)%nat → ms_tasks w !! t = Some x → m_answer t x w = Some w' → less w' w.
Proof.
  intros Hcap Hx Ha. destruct x as [| |rp g c|rp g token c|rp g token r c|rp id c| | | |]; cbn [m_answer] in Ha; try done.
  all: destruct (call_end _ _ c) as [r'| |]; cbn [after] in Ha; [|..|done]; apply (inj Some) in Ha as <-;
    try (by eapply release_potential); try (by eapply resolved_potential).
  - destruct r' as [[token e]|e]; [|by eapply resolved_potential].
    destruct (m_call_tasks t (resolve_begin rp token) (M_resolve rp g token) w) as [c' ->].
    eapply potential_work; [done|done|cbn; lia].
  - destruct (m_call_tasks t (revoke_begin token) (M_revoke rp g token r') w) as [c' ->].
    eapply potential_work; [done|done|cbn; lia].
  - eapply potential_work; [done|done|cbn; lia].
  - eapply potential_work; [done|done|cbn; lia].
Qed.

(** Whatever a task does after it has started brings it nearer to its end. *)
Lemma step_potential a w w' : (size (ms_tasks w) <= cap)%nat → new_mint a = false → m_step a w = Some w' → less w' w.
Proof.
  intros Hcap Hs Ha. destruct a as [t path|t|t|t]; cbn in Ha; [done|..];
    (destruct (ms_tasks w !! t) as [x|] eqn:Ht; [|done]); cbn in Ha.
  - destruct x; try done. injection Ha as <-. by apply with_potential.
  - by eapply answer_potential.
  - destruct x; cbn in Ha; try done; injection Ha as <-; try (by eapply release_potential).
    1,2: cbn; rewrite <-(map_fmap_id (ms_tasks w)) at 1; by eapply potential_release.
    eapply potential_work; [done|done|cbn; lia].
Qed.

Lemma start_tasks t path w : ∃ y, ms_tasks (m_start t path w) = <[t := y]> (ms_tasks w).
Proof.
  unfold m_start. destruct (RepoPath_parse path) as [rp|e]; [|by eexists]. unfold token_cache_get, g_bind, clock_now. cbn.
  destruct (ttl_entries _ !! _) as [[token e]|].
  - unfold mint_cached. destruct (Response_new _ _ _); by eexists.
  - unfold m_with. destruct (claim _ _) as [st [id|ev|ev]]; [|by eexists|].
    + edestruct m_call_tasks as [c ->]. by eexists.
    + edestruct m_call_tasks as [c ->]. by eexists.
Qed.

(** A mint that starts brings the steps of one task. *)
Lemma start_potential t path w w' :
  m_step (A_mint t path) w = Some w' →
  (potential cap (ms_tasks w') <= potential cap (ms_tasks w) + 4 * cap + 5)%nat ∧ size (ms_tasks w') = S (size (ms_tasks w)).
Proof.
  cbn. destruct (ms_tasks w !! t) eqn:Ht; [done|]. intros [= <-]. destruct (start_tasks t path w) as [y ->].
  rewrite map_size_insert_None by done. split; [|done]. unfold potential. rewrite !total_new by done. 
  assert (before_memo y <= 1 ∧ work y <= 4)%nat as [? ?] by (destruct y; cbn; lia). nia.
Qed.

End capped.

Definition settled (x : Mint) : bool := match x with M_done _ _ | M_malformed _ _ | M_dropped => true | _ => false end.

(** A task that has not ended can go on, or waits for one that can. *)
Lemma someone_goes_on t x w :
  minv w → ms_tasks w !! t = Some x → settled x = false → ∃ t', is_Some (m_step (A_run t') w) ∨ is_Some (m_step (A_answer t') w).
Proof.
  intros [Hi [_ Hts]].
  assert (∀ t' y, ms_tasks w !! t' = Some y → (∃ g, sf_of y = T_Resolving g) ∨ (∃ rp id c, y = M_token rp id c) →
    is_Some (m_step (A_answer t') w)) as Hcall.
  { intros t' y Hy Hg. pose proof (Hts _ _ Hy) as Hok. cbn. rewrite Hy. cbn.
    destruct y as [| |rp g c|rp g token c|rp g token r c|rp id c| | | |]; try naive_solver; cbn in Hok |- *.
    - destruct (call_end_Ret timeout metadata_handle _ _ _ (proj2 Hok)) as [r' ->]. by eexists.
    - destruct (call_end_Ret timeout resolve_handle _ _ _ (proj2 Hok)) as [r' ->]. by eexists.
    - destruct (call_end_Ret timeout revoke_handle _ _ _ (proj2 (proj2 Hok))) as [r' ->]. by eexists.
    - destruct (call_end_Ret timeout token_handle _ _ _ (proj2 Hok)) as [r' ->]. by eexists. }
  intros Hx Hs. pose proof (Hts _ _ Hx) as Hok. destruct x as [rp ev|rp|rp g c|rp g token c|rp g token r c|rp id c| | | |]; try done.
  2:{ exists t. left. cbn. rewrite Hx. by eexists. }
  2-5: exists t; right; eapply Hcall; [done|naive_solver].
  pose proof (view_task _ _ _ Hx) as Hv. cbn in Hv. destruct (inv_waiting _ Hi _ _ _ Hv) as [t' Hr]. unfold resolves in Hr. cbn in Hr.
  rewrite lookup_fmap in Hr. destruct (ms_tasks w !! t') as [y|] eqn:Hy; [|done]. injection Hr as Hr.
  exists t'. right. eapply Hcall; [done|]. left. by eexists.
Qed.

(** ** Steps and tasks *)

(** A mint of [path] that has not been dropped. *)
Definition for_path (path : bytes) (x : Mint) : Prop :=
  match x with
  | M_wait rp _ | M_woken rp | M_metadata rp _ _ | M_resolve rp _ _ _ | M_revoke rp _ _ _ _ | M_token rp _ _ | M_done rp _ =>
      RepoPath_parse (H:=HttpError) path = Ok rp
  | M_malformed path' _ => path' = path
  | M_panicked | M_dropped => False
  end.

(** From [w] to [w'] task [t] becomes [y], others may be woken, and calls may
    have been made. *)
Definition moves (t : nat) (y : Mint) (w w' : Mints) : Prop :=
  (ms_tasks w' = <[t := y]> (ms_tasks w) ∨ ∃ ev, ms_tasks w' = <[t := y]> (m_wake ev <$> ms_tasks w)) ∧
  ∃ new, gs_calls (ms_state w') = gs_calls (ms_state w) ++ new.

Lemma moves_set t y w : moves t y w (m_set t y w).
Proof. split; [by left|]. exists []. by rewrite app_nil_r. Qed.

Lemma moves_call t begin at_ w s ts (Q : nat → CallRecord → Prop) :
  (∀ s s' c, begin s = (s', c) → began s s' c Q) → gs_calls s = gs_calls (ms_state w) →
  (ts = ms_tasks w ∨ ∃ ev, ts = m_wake ev <$> ms_tasks w) → ∃ c, moves t (at_ c) w (m_call t begin at_ (MkMints s ts)).
Proof.
  intros Hb Hs Hts. destruct (m_call_state t begin at_ (MkMints s ts) Q Hb) as (rec & m & early & -> & _).
  eexists. split; [destruct Hts as [->|[ev ->]]; [by left|right; by exists ev]|]. cbn. rewrite Hs. by eexists.
Qed.

Lemma moves_with t rp w : ∃ y, moves t y w (m_with t rp w) ∧ ∀ path, RepoPath_parse (H:=HttpError) path = Ok rp → for_path path y.
Proof.
  unfold m_with. destruct (claim _ _) as [st [id|ev|ev]].
  - edestruct (moves_call t (token_begin id) (M_token rp id) w) as [c Hc]; [apply token_begin_spec|..|by eexists; split]; [done|by left].
  - exists (M_wait rp ev). split; [|done]. split; [by left|]. exists []. cbn. by rewrite app_nil_r.
  - edestruct (moves_call t metadata_begin (M_metadata rp (InFlightGuard_new (mint_key rp) ev)) w) as [c Hc];
      [apply metadata_begin_spec|..|by eexists; split]; [done|by left].
Qed.

Lemma moves_resolved t rp g r w :
  ∃ y, moves t y w (m_resolved t rp g r w) ∧ ∀ path, RepoPath_parse (H:=HttpError) path = Ok rp → for_path path y.
Proof.
  destruct r as [id|e]; cbn [m_resolved].
  - edestruct (moves_call t (token_begin id) (M_token rp id) w) as [c Hc]; [apply token_begin_spec|..|by eexists; split];
      [done|right; by eexists].
  - exists (M_done rp (Err e)). split; [|done]. split; [right; by eexists|]. exists []. cbn. by rewrite app_nil_r.
Qed.

Lemma moves_answer t x w w' :
  minv w → ms_tasks w !! t = Some x → m_answer t x w = Some w' → ∃ y, moves t y w w' ∧ ∀ path, for_path path x → for_path path y.
Proof.
  intros [_ [_ Hts]] Hx Ha. pose proof (Hts _ _ Hx) as Hok.
  destruct x as [| |rp g c|rp g token c|rp g token r c|rp id c| | | |]; cbn [m_answer] in Ha; cbn [task_ok] in Hok; try done.
  - destruct (call_end_Ret timeout metadata_handle _ _ _ (proj2 Hok)) as [r' Hr]. rewrite Hr in Ha. cbn [after] in Ha.
    apply (inj Some) in Ha as <-. destruct r' as [[token e]|e]; [|apply moves_resolved]. destruct w as [s ts].
    edestruct (moves_call t (resolve_begin rp token) (M_resolve rp g token) (MkMints s ts)) as [c' Hc];
      [apply resolve_begin_spec|..|by eexists; split]; [done|by left].
  - destruct (call_end_Ret timeout resolve_handle _ _ _ (proj2 Hok)) as [r' Hr]. rewrite Hr in Ha. cbn [after] in Ha.
    apply (inj Some) in Ha as <-. destruct w as [s ts].
    edestruct (moves_call t (revoke_begin token) (M_revoke rp g token r') (MkMints s ts)) as [c' Hc];
      [apply revoke_begin_spec|..|by eexists; split]; [done|by left].
  - destruct (call_end_Ret timeout revoke_handle _ _ _ (proj2 (proj2 Hok))) as [r' Hr]. rewrite Hr in Ha. cbn [after] in Ha.
    apply (inj Some) in Ha as <-. apply moves_resolved.
  - destruct (call_end_Ret timeout token_handle _ _ _ (proj2 Hok)) as [r' Hr]. rewrite Hr in Ha. cbn [after] in Ha.
    apply (inj Some) in Ha as <-. exists (M_done rp r'). split; [|done]. split; [by left|]. exists []. rewrite app_nil_r.
    by destruct r' as [|[]].
Qed.

Lemma moves_start t path w : minv w → ∃ y, moves t y w (m_start t path w) ∧ for_path path y.
Proof.
  intros [_ Hg]. unfold m_start. destruct (RepoPath_parse path) as [rp|e] eqn:Ep.
  2:{ eexists. split; [apply moves_set|done]. }
  unfold token_cache_get, g_bind, clock_now. cbn. destruct (ttl_entries _ !! mint_key rp) as [[token e]|] eqn:Ek.
  - unfold mint_cached. destruct (Response_new _ token e) as [resp|] eqn:Er.
    { eexists. split; [split; [by left|exists []; cbn; by rewrite app_nil_r]|done]. }
    exfalso. destruct Hg as [(Ht & Hv & _) _]. destruct (sweep_spec bytes_leb (ge_clock (gs_ticks (ms_state w))) _ Ht) as (_ & Hl & _).
    rewrite Hl in Ek. apply live_Some in Ek as [Ek _]. apply Hv in Ek. by rewrite Er in Ek.
  - match goal with |- context [m_with t rp ?w'] => destruct (moves_with t rp w') as (y & [Hy Hc] & Hp) end.
    exists y. split; [by split|by apply Hp].
Qed.

Lemma moves_drop t x w w' : ms_tasks w !! t = Some x → m_drop t x w = Some w' → moves t M_dropped w w'.
Proof.
  intros Hx Hd. assert (∀ g, moves t M_dropped w (m_set t M_dropped (m_drop_guard g w))) as Hg.
  { intros g. split; [right; by eexists|]. exists []. cbn. by rewrite app_nil_r. }
  destruct x; cbn in Hd; try done; injection Hd as <-; auto using moves_set.
Qed.

(** The task an action is about. *)
Definition of_task (a : MAction) : nat := match a with A_mint t _ | A_run t | A_answer t | A_drop t => t end.

Lemma step_moves a w w' : minv w → m_step a w = Some w' → ∃ y, moves (of_task a) y w w' ∧
  match a with
  | A_mint _ path => for_path path y
  | A_drop _ => y = M_dropped
  | _ => ∀ path x, ms_tasks w !! of_task a = Some x → for_path path x → for_path path y
  end.
Proof.
  intros Hm Ha. destruct a as [t path|t|t|t]; cbn in Ha; (destruct (ms_tasks w !! t) as [x|] eqn:Ht; try done); cbn in Ha.
  - injection Ha as <-. by apply moves_start.
  - destruct x; try done. injection Ha as <-. destruct (moves_with t rp w) as (y & Hy & Hp). exists y. split; [done|].
    intros path x Hx. cbn in Hx. rewrite Ht in Hx. injection Hx as <-. apply Hp.
  - destruct (moves_answer t x w w' Hm Ht Ha) as (y & Hy & Hp). exists y. split; [done|]. intros path x' Hx.
    cbn in Hx. rewrite Ht in Hx. injection Hx as <-. apply Hp.
  - exists M_dropped. split; [|done]. by eapply moves_drop.
Qed.

Lemma step_size a w w' : minv w → new_mint a = false → m_step a w = Some w' → size (ms_tasks w') = size (ms_tasks w).
Proof.
  intros Hm Hs Ha. destruct (step_moves a w w' Hm Ha) as (y & [Hts _] & _).
  assert (is_Some (ms_tasks w !! of_task a)) as [x Hx] by (destruct a; cbn in *; try done; destruct (ms_tasks w !! t); done).
  destruct Hts as [->|[ev ->]]; [by rewrite map_size_insert_Some|].
  by rewrite map_size_insert_Some, map_size_fmap by (by rewrite lookup_fmap, Hx).
Qed.

Lemma run_potential cap acts w w' :
  minv w → (size (ms_tasks w) <= cap)%nat → forallb (λ a, negb (new_mint a)) acts = true → m_run acts w = Some w' →
  (length acts + potential cap (ms_tasks w') <= potential cap (ms_tasks w))%nat.
Proof.
  revert w. induction acts as [|a acts IH]; intros w Hm Hc Ha Hr; [injection Hr as <-; cbn; lia|]. cbn in Ha, Hr |- *.
  apply andb_true_iff in Ha as [Hs Ha]. apply negb_true_iff in Hs. destruct (m_step a w) as [w1|] eqn:E; [|done].
  pose proof (step_potential cap _ _ _ Hc Hs E). pose proof (step_size _ _ _ Hm Hs E).
  assert (length acts + potential cap (ms_tasks w') <= potential cap (ms_tasks w1))%nat; [|lia].
  apply IH; try done; [by eapply minv_step|lia].
Qed.

(** A mint goes on being the mint of its path, whatever others do. *)
Lemma step_for_path a w w' t path x :
  minv w → m_step a w = Some w' → a ≠ A_drop t → ms_tasks w !! t = Some x → for_path path x →
  ∃ y, ms_tasks w' !! t = Some y ∧ for_path path y.
Proof.
  intros Hm Ha Hd Hx Hp. destruct (step_moves a w w' Hm Ha) as (y & [Hts _] & Hy).
  destruct (decide (of_task a = t)) as [<-|Hne].
  - exists y. split; [destruct Hts as [->|[ev ->]]; apply lookup_insert_eq|].
    destruct a as [t p'|t|t|t]; cbn in *; [by rewrite Hx in Ha|by eapply Hy..|done].
  - destruct Hts as [->|[ev ->]].
    + exists x. by rewrite lookup_insert_ne.
    + exists (m_wake ev x). rewrite lookup_insert_ne, lookup_fmap, Hx by done. split; [done|]. destruct x; try done. cbn.
      by case_decide.
Qed.

(** The task of a mint of [path], or what is left of one that was dropped. *)
Definition task_of (path : bytes) (x : Mint) : Prop := for_path path x ∨ x = M_dropped.

Lemma step_task_of a w w' t path x :
  minv w → m_step a w = Some w' → ms_tasks w !! t = Some x → task_of path x → ∃ y, ms_tasks w' !! t = Some y ∧ task_of path y.
Proof.
  intros Hm Ha Hx Hp. destruct (decide (a = A_drop t)) as [->|Hd].
  { destruct (step_moves _ w w' Hm Ha) as (y & [Hts _] & ->). exists M_dropped. split; [|by right].
    destruct Hts as [->|[ev ->]]; apply lookup_insert_eq. }
  destruct Hp as [Hp| ->].
  { destruct (step_for_path a w w' t path x) as (y & Hy & Hyp); [done..|]. exists y. split; [done|by left]. }
  destruct (step_moves a w w' Hm Ha) as (y & [Hts _] & _). exists M_dropped. split; [|by right].
  assert (of_task a ≠ t) as Hne by (intros Heq; by destruct a; cbn in Heq, Ha; subst; rewrite Hx in Ha).
  destruct Hts as [->|[ev ->]]; rewrite lookup_insert_ne by done; [done|]. by rewrite lookup_fmap, Hx.
Qed.

Lemma run_task_of acts w w' t path x :
  minv w → m_run acts w = Some w' → ms_tasks w !! t = Some x → task_of path x → ∃ y, ms_tasks w' !! t = Some y ∧ task_of path y.
Proof.
  revert w x. induction acts as [|a acts IH]; intros w x Hm Hr Hx Hp; cbn in Hr.
  - injection Hr as <-. by exists x.
  - destruct (m_step a w) as [w1|] eqn:Ha; [|done]. destruct (step_task_of a w w1 t path x) as (y & Hy & Hyp); [done..|].
    eapply (IH w1 y); [by eapply minv_step|done..].
Qed.

(** The task that a mint of [path] began as is a mint of [path] ever after. *)
Lemma started_task_of acts w w' t path :
  minv w → m_run acts w = Some w' → A_mint t path ∈ acts → ∃ y, ms_tasks w' !! t = Some y ∧ task_of path y.
Proof.
  revert w. induction acts as [|a acts IH]; intros w Hm Hr Hin; [by apply not_elem_of_nil in Hin|]. cbn in Hr.
  destruct (m_step a w) as [w1|] eqn:Ha; [|done]. assert (minv w1) as Hm1 by by eapply minv_step.
  apply elem_of_cons in Hin as [<-|Hin]; [|by eapply IH].
  destruct (step_moves _ w w1 Hm Ha) as (y & [Hts _] & Hy). cbn in Hts, Hy.
  eapply (run_task_of acts w1 w' t path y); [done..| |by left]. destruct Hts as [->|[ev ->]]; apply lookup_insert_eq.
Qed.

(** ** A mint that is not interleaved

    The task of a mint that runs from its start to its end while the others
    stay suspended computes what [mint] computes. *)

Abbreviation answer_steps k t := (replicate k (A_answer t)).

(** The endpoint after the memo, as [mint] composes it. *)
Abbreviation minting rp id :=
  (g_bind (forget_if_not_found (mint_key rp) (mint_token p id)) (λ outcome,
   g_bind (token_cache_insert (mint_key rp) (password (mo_response outcome)) (password_expiry_utc (mo_response outcome))) (λ _,
   g_ret outcome))).

(** From [w] the task takes at most [kmax] steps, alone, and ends with the state
    and the result of [o]. *)
Definition solo (t : nat) (rp : RepoPath) (kmax : nat) (o : GState * outcome (result GErr MintOutcome)) (w : Mints) : Prop :=
  ∃ k w' r, (k <= kmax)%nat ∧ m_run (answer_steps k t) w = Some w' ∧ o = (ms_state w', Ret r) ∧ ms_tasks w' !! t = Some (M_done rp r).

(** A call in its two halves, none of which fails to return. *)
Lemma call_split {T} ep build (handle : HttpResponse HttpError → CallMeta → bytes → result GErr T) P s :
  quiet build P →
  ∃ s' c r, call_begin ep timeout build s = (s', c) ∧ call_end timeout handle c = Ret r ∧
    run_call ep timeout build handle s = (s', Ret r).
Proof.
  intros Hq. destruct (call_begin ep timeout build s) as [s' c] eqn:E. rewrite run_call_split, E.
  apply (call_begin_spec _ _ _ _ _ _ _ Hq) in E as (rec & m & early & -> & -> & _).
  destruct (ended_Ret timeout handle (length (gs_calls s)) early) as [r Hr]. rewrite Hr.
  eexists _, _, r. split; [reflexivity|]. by rewrite Hr.
Qed.

(** The task begins a call, which then ends. *)
Lemma solo_call t rp kmax o begin at_ s c w w1 :
  begin (ms_state w) = (s, c) → m_answer t (at_ c) (MkMints s (<[t := at_ c]> (ms_tasks w))) = Some w1 →
  solo t rp kmax o w1 → solo t rp (S kmax) o (m_call t begin at_ w).
Proof.
  intros Hb Ha (k & w' & r & Hk & Hr & Ho & Ht). exists (S k), w', r. split; [lia|]. cbn [replicate m_run].
  unfold m_call. rewrite Hb. cbn [m_step ms_tasks]. rewrite lookup_insert_eq. cbn [mbind option_bind]. by rewrite Ha.
Qed.

Lemma solo_le t rp k k' o w : (k <= k')%nat → solo t rp k o w → solo t rp k' o w.
Proof. intros Hk (j & w' & r & Hj & H). exists j, w', r. split; [lia|exact H]. Qed.

Lemma solo_token t rp id w : solo t rp 1 (minting rp id (ms_state w)) (m_call t (token_begin id) (M_token rp id) w).
Proof.
  destruct (call_split (B "mint_token") _ token_handle _ (ms_state w) (quiet_mint_build p (mint_body id))) as (s & c & r & Hb & He & Hm).
  eapply solo_call; [exact Hb|cbn [m_answer]; by rewrite He|].
  fold (mint_token p id) in Hm. unfold g_bind at 1, forget_if_not_found. rewrite Hm.
  eexists 0%nat, _, r. split; [done|]. split; [reflexivity|]. destruct r as [out|[]]; cbn; (split; [done|apply lookup_insert_eq]).
Qed.

(** The state in which the guard has been given back. *)
Definition released (g : Guard) (s : GState) : GState :=
  gs_with_repo_ids s (sf_store (guard_drop g (MkSfWorld (Er:=GErr) (gs_repo_ids s) ∅))).

(** The end of a resolve, and what follows it. *)
Definition resolved_to (rp : RepoPath) (g : Guard) (r : result GErr Z) (s : GState) : GState * outcome (result GErr MintOutcome) :=
  match r with Ok id => minting rp id (released (commit_done g id) s) | Err e => (released g s, Ret (Err e)) end.

Lemma solo_resolved t rp g r w : solo t rp 1 (resolved_to rp g r (ms_state w)) (m_resolved t rp g r w).
Proof.
  destruct r as [id|e]; cbn [m_resolved]; [apply (solo_token t rp id (m_drop_guard (commit_done g id) w))|].
  exists 0%nat, (m_set t (M_done rp (Err e)) (m_drop_guard g w)), (Err e). split_and!; [lia|done|done|apply lookup_insert_eq].
Qed.

(** The lookup and the revocation of its token. *)
Lemma solo_resolve t rp g token w :
  ∃ s2 r2 s3 r3, resolve_repo_id p token (owner rp) (repo rp) (ms_state w) = (s2, Ret r2) ∧
    revoke_install_token p token s2 = (s3, Ret r3) ∧
    solo t rp 3 (resolved_to rp g r2 s3) (m_call t (resolve_begin rp token) (M_resolve rp g token) w).
Proof.
  destruct (call_split (B "resolve_repo_id") _ resolve_handle _ (ms_state w)
    (quiet_bearer p GET (B "/repos/" ++ owner rp ++ B "/" ++ repo rp) token)) as (s2 & c2 & r2 & Hb2 & He2 & Hm2).
  destruct (call_split (B "revoke_install_token") _ revoke_handle _ s2 (quiet_bearer p DELETE (B "/installation/token") token))
    as (s3 & c3 & r3 & Hb3 & He3 & Hm3).
  exists s2, r2, s3, r3. split; [exact Hm2|]. split; [exact Hm3|].
  eapply solo_call; [exact Hb2|cbn [m_answer]; by rewrite He2|].
  eapply (solo_call _ _ 1); [exact Hb3|cbn [m_answer]; by rewrite He3|].
  exact (solo_resolved t rp g r2 (MkMints s3 _)).
Qed.

Lemma solo_with t rp w :
  (∀ ev, memo (gs_repo_ids (ms_state w)) !! mint_key rp ≠ Some (InFlight ev)) →
  solo t rp 4 (mint_uncached p rp (ms_state w)) (m_with t rp w).
Proof.
  intros Hfree. unfold mint_uncached, m_with. unfold g_bind at 1. unfold repo_ids_with, claim.
  destruct (memo (gs_repo_ids (ms_state w)) !! mint_key rp) as [[id|ev]|] eqn:Em; [|by destruct (Hfree ev)|].
  { apply (solo_le _ _ 1); [lia|]. exact (solo_token t rp id (MkMints (gs_with_repo_ids (ms_state w) (gs_repo_ids (ms_state w))) (ms_tasks w))). }
  set (s0 := gs_with_repo_ids (ms_state w) _). set (g := InFlightGuard_new (mint_key rp) _).
  destruct (call_split (B "mint_metadata_token") _ metadata_handle _ s0 (quiet_mint_build p metadata_body)) as (s1 & c1 & r1 & Hb1 & He1 & Hm1).
  unfold with_metadata_token. unfold g_bind at 1. unfold mint_metadata_token. rewrite Hm1. destruct r1 as [[token e1]|e1].
  - set (w1 := MkMints s1 (<[t := M_metadata rp g c1]> (ms_tasks w))).
    destruct (solo_resolve t rp g token w1) as (s2 & r2 & s3 & r3 & Hm2 & Hm3 & Hsolo).
    eapply solo_call; [exact Hb1|cbn [m_answer]; by rewrite He1|].
    unfold g_bind at 1, g_try. change (ms_state w1) with s1 in Hm2. rewrite Hm2. unfold g_bind at 1, g_ignore. rewrite Hm3.
    destruct r2; exact Hsolo.
  - apply (solo_le _ _ 2); [lia|]. eapply solo_call; [exact Hb1|cbn [m_answer]; by rewrite He1|]. exact (solo_resolved t rp g (Err e1) (MkMints s1 _)).
Qed.

Lemma mint_alone t path w :
  ms_tasks w !! t = None →
  (∀ rp ev, RepoPath_parse (H:=HttpError) path = Ok rp → memo (gs_repo_ids (ms_state w)) !! mint_key rp ≠ Some (InFlight ev)) →
  (mint p path (ms_state w)).2 ≠ Panic →
  ∃ k w', (k <= 4)%nat ∧ m_run (A_mint t path :: replicate k (A_answer t)) w = Some w' ∧
    ∃ r, mint p path (ms_state w) = (ms_state w', Ret r) ∧
      ms_tasks w' !! t = Some match RepoPath_parse path with Ok rp => M_done rp r | Err e => M_malformed path e end.
Proof.
  intros Ht Hfree. cbn [m_run m_step]. rewrite Ht. cbn [mbind option_bind]. rewrite mint_eq. unfold m_start.
  destruct (RepoPath_parse path) as [rp|e].
  2:{ intros _. exists 0%nat, (m_set t (M_malformed path e) w). split; [lia|]. split; [done|]. exists (Err e). split; [done|apply lookup_insert_eq]. }
  unfold token_cache_get, g_bind at 1, clock_now. cbn -[mint_cached mint_uncached]. fold (swept (ms_state w)).
  destruct (ttl_entries _ !! mint_key rp) as [[token e]|] eqn:Ek.
  - unfold mint_cached. destruct (Response_new _ _ _) as [resp|]; [|by intros []]. intros _.
    eexists 0%nat, _. split; [lia|]. split; [done|]. eexists. split; [done|apply lookup_insert_eq].
  - intros _. destruct (solo_with t rp (MkMints (swept (ms_state w)) (ms_tasks w))) as (k & w' & r & Hk & Hrun & Hm & Hd); [by eauto|].
    exists k, w'. split; [done|]. split; [done|]. by exists r.
Qed.

(** The sequential mint does not panic on the caches of interleaved ones. *)
Lemma mint_no_panic path w :
  minv w → (∀ rp ev, RepoPath_parse (H:=HttpError) path = Ok rp → memo (gs_repo_ids (ms_state w)) !! mint_key rp ≠ Some (InFlight ev)) →
  (mint p path (ms_state w)).2 ≠ Panic.
Proof.
  intros [_ [(Ht & Hv & _) _]] Hfree. rewrite mint_eq. destruct (RepoPath_parse path) as [rp|e]; [|done].
  destruct (ttl_entries (gs_tokens (swept (ms_state w))) !! mint_key rp) as [[token e]|] eqn:Ek.
  - cbn in Ek. destruct (sweep_spec bytes_leb (ge_clock (gs_ticks (ms_state w))) _ Ht) as (_ & Hl & _). rewrite Hl in Ek.
    apply live_Some in Ek as [Ek _]. apply Hv in Ek. unfold mint_cached. destruct (Response_new _ _ _); [done|done].
  - destruct (solo_with 0 rp (MkMints (swept (ms_state w)) ∅)) as (k & w' & r & _ & _ & Hm & _); [by eauto|]. cbn [ms_state] in Hm. by rewrite Hm.
Qed.

(** C13: A mint that is not interrupted is [mint].  From any state that
    interleaved mints can reach, with the other mints suspended anywhere but none
    of them looking up the same repository: the task of a mint that is scheduled
    alone from its start needs at most four answers, and leaves exactly the
    caches, the calls and the result that the sequential [mint] computes, which
    does not panic. *)
Theorem mint_uninterrupted acts t path w :
  m_run acts m_init = Some w → ms_tasks w !! t = None →
  (∀ rp ev, RepoPath_parse (H:=HttpError) path = Ok rp → memo (gs_repo_ids (ms_state w)) !! mint_key rp ≠ Some (InFlight ev)) →
  ∃ k w', (k <= 4)%nat ∧ m_run (A_mint t path :: replicate k (A_answer t)) w = Some w' ∧
    ∃ r, mint p path (ms_state w) = (ms_state w', Ret r) ∧
      ms_tasks w' !! t = Some match RepoPath_parse path with Ok rp => M_done rp r | Err e => M_malformed path e end.
Proof.
  intros Hr Ht Hfree. apply mint_alone; [done..|]. apply mint_no_panic; [by eapply minv_run, Hr; apply minv_init|done].
Qed.

(** C8: Concurrent mints, each in its own place.  However any number of mints of
    any repositories interleave at their awaits, wait for each other's lookups,
    find tokens the others cached, drop what others have looked up, fail and are
    cut off: the task that began as a mint of [path] does not panic, is the mint
    of [path] until it ends or is dropped, and when it succeeds hands out a token
    GitHub issued in answer to a recorded request for exactly one repository id,
    which GitHub had reported for the owner and name that [path] names (up to
    ASCII case). *)
Theorem mints_scoped acts w t path :
  m_run acts m_init = Some w → A_mint t path ∈ acts →
  ∃ x, ms_tasks w !! t = Some x ∧ x ≠ M_panicked ∧ (for_path path x ∨ x = M_dropped) ∧
    ∀ rp out, x = M_done rp (Ok out) →
      RepoPath_parse (H:=HttpError) path = Ok rp ∧ username (mo_response out) = B "x-access-token" ∧
      token_provenance p (gs_calls (ms_state w)) (mint_key rp) (password (mo_response out)) (password_expiry_utc (mo_response out)).
Proof.
  intros Hr Hin. destruct (started_task_of _ _ _ _ _ minv_init Hr Hin) as (x & Hx & Hp).
  destruct (minv_run _ _ _ minv_init Hr) as [_ [_ Hts]]. exists x. split_and!; [done| |done|].
  - intros ->. by apply Hts in Hx.
  - intros rp out ->. apply Hts in Hx. destruct Hp as [Hp|]; [|done]. split; [exact Hp|]. by apply Hx.
Qed.

(** C11: Concurrent mints all end.  From any state that interleaved mints can
    reach, with [n] tasks, at most [4 n^2 + 5 n] steps are left unless new mints
    start, whatever is scheduled, answered or dropped; and as long as a mint has
    not ended some mint can take a step: nobody waits for an event that no one
    will notify, not after a failed or dropped lookup and not after an
    invalidation that removed the marker of a lookup in flight. *)
Theorem mints_settle acts w :
  m_run acts m_init = Some w →
  (∀ more w', forallb (λ a, negb (new_mint a)) more = true → m_run more w = Some w' →
     (length more <= 4 * size (ms_tasks w) * size (ms_tasks w) + 5 * size (ms_tasks w))%nat) ∧
  ((∀ t, m_step (A_run t) w = None ∧ m_step (A_answer t) w = None) → ∀ t x, ms_tasks w !! t = Some x → settled x = true).
Proof.
  intros Hr. pose proof (minv_run _ _ _ minv_init Hr) as Hm. split.
  - intros more w' Hs Hmore. pose proof (run_potential _ _ _ _ Hm (le_n _) Hs Hmore).
    pose proof (potential_le (size (ms_tasks w)) (ms_tasks w)). nia.
  - intros Hstuck t x Hx. destruct (settled x) eqn:Es; [done|].
    destruct (someone_goes_on _ _ _ Hm Hx Es) as (t' & [[w' Hw]|[w' Hw]]); destruct (Hstuck t'); congruence.
Qed.

End mints.

(** ** Witnesses

    Two mints of one repository: the second waits for the lookup of the first,
    and each gets a token of its own. *)

Definition two_begin : list MAction := [A_mint 0 (B "Octo/Hello"); A_mint 1 (B "octo/hello")].
Definition two_go_on : list MAction := [A_answer 0; A_answer 0; A_answer 0; A_run 1; A_answer 1; A_answer 0].

Abbreviation demo_run := (@m_run github_model demo_provider).
Definition ran (acts : list MAction) (w : @Mints github_model) : bool := match demo_run acts w with Some _ => true | None => false end.
Lemma ran_true acts w : ran acts w = true → demo_run acts w = Some (default w (demo_run acts w)).
Proof. unfold ran. by destruct (demo_run acts w). Qed.

Definition two_waiting : @Mints github_model := default m_init (demo_run two_begin m_init).
Definition two_done : @Mints github_model := default m_init (demo_run (two_begin ++ two_go_on) m_init).

Lemma two_begin_ran : ran two_begin m_init = true.
Proof. vm_compute. reflexivity. Qed.
Lemma two_go_on_ran : ran two_go_on two_waiting = true.
Proof. vm_compute. reflexivity. Qed.
Lemma two_done_ran : ran (two_begin ++ two_go_on) m_init = true.
Proof. vm_compute. reflexivity. Qed.

(** The token that task [t] ended with. *)
Definition ends_with (w : @Mints github_model) (t : nat) (rp : RepoPath) (token : bytes) : bool :=
  match ms_tasks w !! t with
  | Some (M_done rp' (Ok out)) => bool_decide (rp' = rp) && beq (password (mo_response out)) token
  | _ => false
  end.
Lemma ends_with_true w t rp token :
  ends_with w t rp token = true → ∃ out, ms_tasks w !! t = Some (M_done rp (Ok out)) ∧ password (mo_response out) = token.
Proof.
  unfold ends_with. destruct (ms_tasks w !! t) as [[| | | | | |rp' [out|]| | |]|]; try done.
  intros [->%bool_decide_eq_true Ht]%andb_true_iff. apply bool_decide_eq_true in Ht. by exists out.
Qed.
Lemma both_minted :
  ends_with two_done 0 (MkRepoPath (B "Octo") (B "Hello")) (B "tok") &&
  ends_with two_done 1 (MkRepoPath (B "octo") (B "hello")) (B "meta") = true.
Proof. vm_compute. reflexivity. Qed.

Lemma mints_scoped_witness :
  ∃ rp e, RepoPath_parse (H:=()) (B "octo/hello") = Ok rp ∧
    @token_provenance github_model demo_provider (gs_calls (ms_state two_done)) (mint_key rp) (B "meta") e.
Proof.
  pose proof both_minted as [_ H]%andb_true_iff. destruct (ends_with_true _ _ _ _ H) as (out & Hd & <-).
  destruct (@mints_scoped github_model demo_provider (two_begin ++ two_go_on) two_done 1 (B "octo/hello") (ran_true _ _ two_done_ran))
    as (x & Hx & _ & _ & Hs); [right; left|].
  rewrite Hd in Hx. apply (inj Some) in Hx as <-. destruct (Hs _ _ eq_refl) as (Hp & _ & Ht). eexists _, _. split; [exact Hp|exact Ht].
Defined.

Lemma mints_settle_witness : (length two_go_on <= 4 * size (ms_tasks two_waiting) * size (ms_tasks two_waiting) + 5 * size (ms_tasks two_waiting))%nat.
Proof.
  destruct (@mints_settle github_model demo_provider two_begin two_waiting (ran_true _ _ two_begin_ran)) as [H _].
  exact (H two_go_on _ eq_refl (ran_true _ _ two_go_on_ran)).
Defined.

Lemma mint_uninterrupted_witness :
  ∃ k w', (k <= 4)%nat ∧ demo_run (A_mint 0 (B "Octo/Hello") :: replicate k (A_answer 0)) m_init = Some w'.
Proof.
  destruct (@mint_uninterrupted github_model demo_provider [] 0 (B "Octo/Hello") m_init) as (k & w' & Hk & Hr & _).
  - reflexivity.
  - reflexivity.
  - intros rp ev _. cbn. by rewrite lookup_empty.
  - exists k, w'. split; [exact Hk|exact Hr].
Defined.
