(* ===== verification/Events.v ===== *)
(** * Log events: [src/events.rs]

    The closed catalogue of event names and a log line as the list of its
    fields.  Numbers are rendered in decimal; [Debug] and [Display] texts of
    external types are parameters where they occur. *)

From S2P Require Import Prelude.

Inductive EventKind :=
| Ev_Accept | Ev_AdminRequest | Ev_CacheInvalidated | Ev_DrainIncomplete | Ev_Enroll | Ev_HandshakeFailed
| Ev_IdentityInvalid | Ev_IdentityUnknown | Ev_Mint | Ev_MintDenied | Ev_Mlock | Ev_MlockRequiredFailed
| Ev_Prepare | Ev_ProviderCall | Ev_ProviderCallDone | Ev_ProviderError | Ev_Ready | Ev_ReadyPidfileWriteFailed
| Ev_Revoke | Ev_RunFailed | Ev_SandboxApplied | Ev_SandboxPathSkipped | Ev_Selfcheck | Ev_Shutdown
| Ev_SignalRegistrationFailed | Ev_Startup | Ev_TokenCacheHit.

#[export] Instance EventKind_eq_dec : EqDecision EventKind.
Proof. solve_decision. Defined.

(** [strum::Display], snake case. *)
Definition EventKind_display (k : EventKind) : bytes :=
  match k with
  | Ev_Accept => B "accept"
  | Ev_AdminRequest => B "admin_request"
  | Ev_CacheInvalidated => B "cache_invalidated"
  | Ev_DrainIncomplete => B "drain_incomplete"
  | Ev_Enroll => B "enroll"
  | Ev_HandshakeFailed => B "handshake_failed"
  | Ev_IdentityInvalid => B "identity_invalid"
  | Ev_IdentityUnknown => B "identity_unknown"
  | Ev_Mint => B "mint"
  | Ev_MintDenied => B "mint_denied"
  | Ev_Mlock => B "mlock"
  | Ev_MlockRequiredFailed => B "mlock_required_failed"
  | Ev_Prepare => B "prepare"
  | Ev_ProviderCall => B "provider_call"
  | Ev_ProviderCallDone => B "provider_call_done"
  | Ev_ProviderError => B "provider_error"
  | Ev_Ready => B "ready"
  | Ev_ReadyPidfileWriteFailed => B "ready_pidfile_write_failed"
  | Ev_Revoke => B "revoke"
  | Ev_RunFailed => B "run_failed"
  | Ev_SandboxApplied => B "sandbox_applied"
  | Ev_SandboxPathSkipped => B "sandbox_path_skipped"
  | Ev_Selfcheck => B "selfcheck"
  | Ev_Shutdown => B "shutdown"
  | Ev_SignalRegistrationFailed => B "signal_registration_failed"
  | Ev_Startup => B "startup"
  | Ev_TokenCacheHit => B "token_cache_hit"
  end.

Inductive Severity := Sev_info | Sev_warn | Sev_error.

Record Event := MkEvent { ev_level : Severity; ev_kind : EventKind; ev_fields : list (bytes * bytes) }.

Definition log_info (k : EventKind) (fields : list (bytes * bytes)) : Event := MkEvent Sev_info k fields.
Definition log_warn (k : EventKind) (fields : list (bytes * bytes)) : Event := MkEvent Sev_warn k fields.

(** Distinct events never share a name. *)
Lemma EventKind_display_inj k1 k2 : EventKind_display k1 = EventKind_display k2 → k1 = k2.
Proof. destruct k1, k2; vm_compute; (reflexivity || discriminate). Qed.
