(* ===== verification/Connection.v ===== *)
(** * One client connection: [handle_connection] of [src/daemon.rs]

    The loop that drives a [Responder] over a socket, looks the client up,
    mints through a provider and logs.  The socket is a queue of segments as
    they arrive; the write results, the random generator, the clocks and the
    providers are given per connection ([ConnEnv]).  A connection keeps what it
    wrote, what it logged and the mints it asked for, so the theorems speak
    about those. *)

From S2P Require Import Prelude Identity Psk GitCredential Transport RateLimit AtomicFs State Github Events.

Definition WIRE_READ_BUDGET : Z := 8 * 1024.
Definition UNKNOWN_IDENTITY_LOG_BURST : Z := 10.
Definition UNKNOWN_IDENTITY_LOG_REFILL : Z := from_secs 6.
Definition UNKNOWN_IDENTITY_LOG_BURST_TOLERANCE : Z :=
  UNKNOWN_IDENTITY_LOG_REFILL * (UNKNOWN_IDENTITY_LOG_BURST - 1).
Definition PER_CONNECTION_TIMEOUT : Z := from_secs 5.

(** ** Reading *)

(** What the socket holds: segments in the order they arrive, or a read error.
    The end of the list is the peer's EOF; an empty segment does not occur. *)
Inductive Arrival := Segment (b : byte) (bs : bytes) | ReadFault.

(** Bytes that arrive together. *)
Definition segment (bs : bytes) : list Arrival := match bs with [] => [] | b :: bs => [Segment b bs] end.

(** One [stream.read] into a buffer of the given capacity: [None] on EOF and
    errors, else what was read; the rest of a longer segment stays queued. *)
Definition stream_read (cap : Z) (wire : list Arrival) : option bytes * list Arrival :=
  match wire with
  | [] => (None, [])
  | ReadFault :: wire' => (None, wire')
  | Segment b bs :: wire' =>
      match drop (Z.to_nat cap) (b :: bs) with
      | [] => (Some (b :: bs), wire')
      | c :: cs => (Some (take (Z.to_nat cap) (b :: bs)), Segment c cs :: wire')
      end
  end.

(** [read_exact_n].  The buffer keeps the capacity [n] it was made with on
    every iteration.  Every successful read brings at least one byte, so [n]
    iterations are enough. *)
Fixpoint read_loop (fuel : nat) (n : Z) (out : bytes) (wire : list Arrival) : option bytes * list Arrival :=
  if n <=? len out then (Some out, wire)
  else match fuel with
       | O => (None, wire)
       | S fuel' =>
           match stream_read n wire with
           | (None, wire') => (None, wire')
           | (Some chunk, wire') => read_loop fuel' n (out ++ chunk) wire'
           end
       end.

Definition read_exact_n (n : Z) (wire : list Arrival) : option bytes * list Arrival :=
  read_loop (Z.to_nat n) n [] wire.

(** The bytes on the wire up to the first fault. *)
Fixpoint arriving (wire : list Arrival) : bytes :=
  match wire with
  | Segment b bs :: wire' => b :: bs ++ arriving wire'
  | _ => []
  end.

Lemma stream_read_Some cap wire chunk wire' :
  0 < cap → stream_read cap wire = (Some chunk, wire') →
  arriving wire = chunk ++ arriving wire' ∧ 1 <= len chunk <= cap.
Proof.
  intros Hc. destruct wire as [|[b bs|] wire]; cbn [stream_read]; [done| |done].
  destruct (drop (Z.to_nat cap) (b :: bs)) as [|c cs] eqn:E.
  - intros [= <- <-]. split; [done|]. apply (f_equal length) in E.
    rewrite length_drop in E. cbn [length] in E. unfold len. cbn [length]. lia.
  - intros [= <- <-]. split.
    + cbn [arriving]. change (b :: bs ++ arriving wire) with ((b :: bs) ++ arriving wire).
      rewrite <-(take_drop (Z.to_nat cap) (b :: bs)) at 1. by rewrite E, <-(assoc_L (++)).
    + rewrite len_take, len_cons. pose proof (len_nonneg bs). lia.
Qed.

Lemma read_loop_Some fuel n out wire r wire' :
  0 < n → len out < 2 * n → read_loop fuel n out wire = (Some r, wire') →
  n <= len r < 2 * n ∧ out ++ arriving wire = r ++ arriving wire'.
Proof.
  intros Hn. revert out wire. induction fuel as [|fuel IH]; intros out wire Ho; cbn [read_loop];
    destruct (n <=? len out) eqn:E; try done; try (intros [= <- <-]; split; [lia|done]).
  destruct (stream_read n wire) as [[chunk|] w1] eqn:Er; [|done].
  apply stream_read_Some in Er as [-> Hl]; [|done]. intros H. apply IH in H as [? ?].
  - by rewrite (assoc_L (++)).
  - rewrite len_app. lia.
Qed.

(** Enough fuel: with [n] iterations left to bring [n - len out] bytes, the
    result does not depend on the fuel. *)
Lemma read_loop_fuel f1 f2 n out wire :
  n <= len out + Z.of_nat f1 → n <= len out + Z.of_nat f2 →
  read_loop f1 n out wire = read_loop f2 n out wire.
Proof.
  revert f2 out wire. induction f1 as [|f1 IH]; intros f2 out wire H1 H2.
  - destruct f2; cbn [read_loop]; by replace (n <=? len out) with true by lia.
  - destruct f2 as [|f2]; cbn [read_loop]; destruct (n <=? len out) eqn:E; [done|lia|done|].
    destruct (stream_read n wire) as [[chunk|] w1] eqn:Er; [|done].
    apply stream_read_Some in Er as [_ Hl]; [|pose proof (len_nonneg out); lia].
    apply IH; rewrite len_app; lia.
Qed.

(** The first bytes of a segment, when they are exactly what is asked for. *)
Lemma read_exact_n_segment a b wire : read_exact_n (len a) (segment (a ++ b) ++ wire) = (Some a, segment b ++ wire).
Proof.
  unfold read_exact_n. destruct a as [|x a]; [done|]. rewrite len_to_nat. cbn [length read_loop app segment].
  replace (len (x :: a) <=? len []) with false by (rewrite len_cons, len_nil; pose proof (len_nonneg a); lia).
  cbn [stream_read]. rewrite len_to_nat. change (x :: a ++ b) with ((x :: a) ++ b). rewrite drop_app_length, take_app_length.
  destruct b as [|y b]; cbn [app segment].
  - rewrite app_nil_r. destruct (length a); cbn [read_loop]; by rewrite Z.leb_refl.
  - destruct (length a); cbn [read_loop]; by rewrite Z.leb_refl.
Qed.

(** ** Logging *)

(** [Display] of error values whose text comes from other crates. *)
Class LogText {NZ : Noise} (H : Type) := {
  show_session_error : SessionError → bytes;
  show_credential_error : GitCredentialError → bytes;
  show_provider_error : ProviderError H → bytes;
}.

Section connection.
Context {NZ : Noise} {H St : Type} {LT : LogText H}.

Definition log_session_failure (peer : bytes) (phase : Phase) (client_name : option bytes) (err : SessionError) : Event :=
  let client_str := default [] client_name in
  let invalid reason := log_warn Ev_IdentityInvalid [(B "peer", peer); (B "reason", reason)] in
  let failed reason := log_warn Ev_HandshakeFailed [(B "client", client_str); (B "reason", reason)] in
  match err with
  | S_TlvBadMagic _ => invalid (B "bad_magic")
  | S_TlvBadVersion _ => invalid (B "bad_version")
  | S_TlvBadIdentityLen _ => invalid (B "bad_identity_len")
  | S_TlvInvalidCharset _ _ => invalid (B "invalid_charset")
  | S_TlvTrailingBytes _ => invalid (B "trailing_bytes")
  | S_TlvIncomplete _ => invalid (B "truncated")
  | S_HandshakeRead _ => failed (B "handshake_read_failed")
  | S_HandshakeWrite _ => failed (B "handshake_write_failed")
  | S_IntoTransport _ => failed (B "handshake_into_transport_failed")
  | S_TransportRead _ =>
      log_warn Ev_MintDenied [(B "client", client_str); (B "reason", B "transport_read"); (B "detail", B "decrypt_failed")]
  | S_TransportWrite _ => log_warn Ev_ProviderError [(B "reason", B "response_write"); (B "client", client_str)]
  | S_FrameTooBig got =>
      match phase with
      | Phase_Transport =>
          log_warn Ev_MintDenied [(B "client", client_str); (B "reason", B "transport_read");
                                  (B "detail", B "frame_too_big"); (B "got", show_u64 got)]
      | _ => log_warn Ev_HandshakeFailed [(B "client", client_str); (B "reason", B "frame_too_big"); (B "got", show_u64 got)]
      end
  | S_RecvLen _ _ | S_WrongState _ _ =>
      log_warn Ev_HandshakeFailed [(B "client", client_str); (B "reason", B "internal"); (B "error", show_session_error err)]
  end.

Definition log_phase_eof (peer : bytes) (phase : Phase) (client_name : option bytes) : Event :=
  let client_str := default [] client_name in
  match phase with
  | Phase_Msg1 => log_warn Ev_HandshakeFailed [(B "peer", peer); (B "reason", B "eof_before_msg1")]
  | Phase_Handshake => log_warn Ev_HandshakeFailed [(B "client", client_str); (B "reason", B "eof_during_handshake")]
  | Phase_Transport =>
      log_warn Ev_MintDenied [(B "client", client_str); (B "reason", B "transport_read"); (B "detail", B "eof")]
  | Phase_AwaitingPsk | Phase_Done =>
      log_warn Ev_HandshakeFailed [(B "client", client_str); (B "reason", B "eof_unexpected_phase")]
  end.

Definition log_mint_error (client_name host path : bytes) (provider_ms : Z) (err : ProviderError H) : Event :=
  let denied reason status extra tail :=
    log_warn Ev_MintDenied ([(B "reason", reason)] ++ status ++ extra ++
      [(B "provider", host); (B "client", client_name); (B "repo", path); (B "provider_ms", show_u64 provider_ms)] ++ tail) in
  match err with
  | PE_RepoNotFound => denied (B "repo_not_accessible") [(B "provider_status", show_u64 404)] [] []
  | PE_Unauthorized body => denied (B "provider_4xx") [(B "provider_status", show_u64 401)] [] [(B "error", body)]
  | PE_Forbidden body => denied (B "provider_4xx") [(B "provider_status", show_u64 403)] [] [(B "error", body)]
  | PE_RateLimited retry_after =>
      denied (B "provider_4xx") [(B "provider_status", show_u64 429)]
        [(B "retry_after_sec", show_u64 (default 0 (as_secs <$> retry_after)))] []
  | PE_MalformedPath _ => denied (B "malformed_request") [] [] []
  | PE_UnexpectedStatus status =>
      log_warn Ev_ProviderError [(B "status", show_u64 status); (B "provider", host); (B "repo", path);
                                 (B "provider_ms", show_u64 provider_ms)]
  | _ => log_warn Ev_ProviderError [(B "provider", host); (B "repo", path); (B "provider_ms", show_u64 provider_ms);
                                    (B "error", show_provider_error err)]
  end.

(** ** The connection *)

(** [trait Provider]: the state is the provider's own. *)
Record Provider := MkProvider {
  pr_host : bytes;
  pr_mint : bytes → St → St * outcome (result (ProviderError H) MintOutcome);
  pr_selfcheck : St → St * outcome (result (ProviderError H) SelfcheckOutcome);
}.

Record ConnEnv := MkConnEnv {
  ce_peer : bytes;                       (* Debug of the peer address *)
  ce_seed : Z;                           (* randomness of the handshake *)
  ce_broker_key : BrokerPrivateKey;
  ce_mem : Mem;                          (* the tables when the PSK is looked up *)
  ce_random : result bytes Psk;          (* Psk::random() *)
  ce_instant : Z;                        (* Instant of the rate limiter *)
  ce_provider_ms : Z;
  ce_wall : Z;                           (* SystemTime::now() at the end *)
  ce_providers : list Provider;          (* providers.values() *)
}.

Record MintRecord := MkMintRecord {
  mr_host : bytes;
  mr_path : bytes;
  mr_response : Response;
  mr_out_req_id : bytes;
  mr_provider_req_id : option bytes;
  mr_provider_ms : Z;
}.

Record Conn := MkConn {
  c_sess : RState;
  c_client : option bytes;               (* client_name *)
  c_record : option MintRecord;          (* mint_record *)
  c_wire : list Arrival;                 (* what is still to be read *)
  c_writes : list (option bytes);        (* the coming writes: None or the error text *)
  c_bucket : TokenBucket;                (* unknown_identity_events *)
  c_providers : St;                      (* the providers' state *)
  c_out : list bytes;                    (* the writes that succeeded *)
  c_log : list Event;
  c_mints : list (bytes * bytes);        (* host and path of the mints asked for *)
}.

Definition c_set_sess (s : RState) (c : Conn) : Conn :=
  MkConn s (c_client c) (c_record c) (c_wire c) (c_writes c) (c_bucket c) (c_providers c) (c_out c) (c_log c) (c_mints c).
Definition c_set_wire (w : list Arrival) (c : Conn) : Conn :=
  MkConn (c_sess c) (c_client c) (c_record c) w (c_writes c) (c_bucket c) (c_providers c) (c_out c) (c_log c) (c_mints c).
Definition c_emit (e : Event) (c : Conn) : Conn :=
  MkConn (c_sess c) (c_client c) (c_record c) (c_wire c) (c_writes c) (c_bucket c) (c_providers c) (c_out c) (c_log c ++ [e]) (c_mints c).
Definition c_set_client (n : bytes) (c : Conn) : Conn :=
  MkConn (c_sess c) (Some n) (c_record c) (c_wire c) (c_writes c) (c_bucket c) (c_providers c) (c_out c) (c_log c) (c_mints c).
Definition c_set_bucket (b : TokenBucket) (c : Conn) : Conn :=
  MkConn (c_sess c) (c_client c) (c_record c) (c_wire c) (c_writes c) b (c_providers c) (c_out c) (c_log c) (c_mints c).
Definition c_wrote (o : bytes) (ws : list (option bytes)) (c : Conn) : Conn :=
  MkConn (c_sess c) (c_client c) (c_record c) (c_wire c) ws (c_bucket c) (c_providers c) (c_out c ++ [o]) (c_log c) (c_mints c).
Definition c_minted (h p : bytes) (s : St) (c : Conn) : Conn :=
  MkConn (c_sess c) (c_client c) (c_record c) (c_wire c) (c_writes c) (c_bucket c) s (c_out c) (c_log c) (c_mints c ++ [(h, p)]).
Definition c_set_record (r : MintRecord) (c : Conn) : Conn :=
  MkConn (c_sess c) (c_client c) (Some r) (c_wire c) (c_writes c) (c_bucket c) (c_providers c) (c_out c) (c_log c) (c_mints c).

(** The end of a loop iteration. *)
Inductive Verdict := Continue | Return | Panicked | Waiting.

(** [if let Err(e) = sess.f(..) { log_session_failure(..); return; }] with the
    phase after the call. *)
Definition sess_call (env : ConnEnv) (r : RState * result SessionError ()) (c : Conn) : Conn * Verdict :=
  let '(s, res) := r in
  let c := c_set_sess s c in
  match res with
  | Ok _ => (c, Continue)
  | Err e => (c_emit (log_session_failure (ce_peer env) (RState_phase s) (c_client c) e) c, Return)
  end.

(** [Step::ReadExact]: the phase logged is the one before the read. *)
Definition arm_read (env : ConnEnv) (n : Z) (c : Conn) : Conn * Verdict :=
  let phase := RState_phase (c_sess c) in
  match read_exact_n n (c_wire c) with
  | (None, wire) => (c_emit (log_phase_eof (ce_peer env) phase (c_client c)) (c_set_wire wire c), Return)
  | (Some bs, wire) =>
      let c := c_set_wire wire c in
      let '(s, r) := Responder_recv (c_sess c) bs in
      let c := c_set_sess s c in
      match r with
      | Ok _ => (c, Continue)
      | Err e => (c_emit (log_session_failure (ce_peer env) phase (c_client c) e) c, Return)
      end
  end.

(** The PSK of [Step::NeedPsk]: the enrolled one, or a random substitute. *)
Definition choose_psk (env : ConnEnv) (identity : Identity) (c : Conn) : Conn * result bytes Psk :=
  match PskStore_lookup (m_psks (ce_mem env)) identity, m_clients (ce_mem env) !! identity with
  | Some psk, Some _ =>
      (c_set_client (as_str identity)
         (c_emit (log_info Ev_Accept [(B "psk_identity", as_str identity); (B "peer", ce_peer env)]) c), Ok psk)
  | Some _, None =>
      (c_emit (log_warn Ev_MintDenied [(B "reason", B "client_metadata_missing"); (B "psk_identity", as_str identity)]) c,
       ce_random env)
  | None, _ =>
      let '(b, r) := try_acquire (c_bucket c) (ce_instant env) in
      let c := c_set_bucket b c in
      (match r with
       | Some n => c_emit (log_warn Ev_IdentityUnknown [(B "psk_identity", as_str identity); (B "peer", ce_peer env);
                                                        (B "suppressed", show_u64 n)]) c
       | None => c
       end, ce_random env)
  end.

Definition arm_need_psk (env : ConnEnv) (identity : Identity) (c : Conn) : Conn * Verdict :=
  let '(c, psk) := choose_psk env identity c in
  match psk with
  | Err e => (c_emit (log_warn Ev_HandshakeFailed [(B "peer", ce_peer env); (B "reason", B "rng_unavailable"); (B "error", e)]) c, Return)
  | Ok p => sess_call env (Responder_set_psk (c_sess c) p) c
  end.

(** [Step::Write]; when the list of write results is used up, writes succeed. *)
Definition arm_write (env : ConnEnv) (out : bytes) (c : Conn) : Conn * Verdict :=
  match head (c_writes c) with
  | Some (Some e) =>
      (c_emit (log_warn Ev_HandshakeFailed [(B "client", default [] (c_client c)); (B "reason", B "handshake_write_io"); (B "error", e)]) c, Return)
  | _ => sess_call env (Responder_wrote (c_sess c)) (c_wrote out (tail (c_writes c)) c)
  end.

(** The tail of [Step::Request], after the provider answered. *)
Definition answer_request (env : ConnEnv) (request : Request) (out : MintOutcome) (c : Conn) : Conn * Verdict :=
  match Response_encode (mo_response out) (client_supports_authtype request) [] with
  | None => (c, Panicked)
  | Some response_bytes =>
      let '(c, v) := sess_call env (Responder_set_response (c_sess c) response_bytes) c in
      match v with
      | Continue => (c_set_record (MkMintRecord (host request) (path request) (mo_response out) (mo_out_req_id out)
                                     (mo_provider_req_id out) (ce_provider_ms env)) c, Continue)
      | _ => (c, v)
      end
  end.

Definition mint_for (env : ConnEnv) (client_str : bytes) (request : Request) (provider : Provider) (c : Conn) : Conn * Verdict :=
  let '(st, o) := pr_mint provider (path request) (c_providers c) in
  let c := c_minted (host request) (path request) st c in
  match o with
  | Panic => (c, Panicked)
  | Blocked => (c, Waiting)
  | Ret (Err e) =>
      let c := match e with
               | PE_RepoNotFound => c_emit (log_info Ev_CacheInvalidated [(B "provider", host request); (B "repo", path request); (B "cause", B "404")]) c
               | _ => c
               end in
      (c_emit (log_mint_error client_str (host request) (path request) (ce_provider_ms env) e) c, Return)
  | Ret (Ok out) => answer_request env request out c
  end.

(** [Step::Request] *)
Definition arm_request (env : ConnEnv) (request_bytes : bytes) (c : Conn) : Conn * Verdict :=
  let deny fields := (c_emit (log_warn Ev_MintDenied fields) c, Return) in
  match c_client c with
  | None => deny [(B "reason", B "client_unknown"); (B "peer", ce_peer env); (B "detail", B "request_from_unauthorized_session")]
  | Some client_str =>
      if WIRE_READ_BUDGET <? len request_bytes then
        deny [(B "reason", B "malformed_request"); (B "client", client_str); (B "detail", B "request_exceeds_cap")]
      else match Request_parse request_bytes with
           | Err e => deny [(B "reason", B "malformed_request"); (B "client", client_str); (B "error", show_credential_error e)]
           | Ok request =>
               match list_find (λ p, pr_host p = host request) (ce_providers env) with
               | None => deny [(B "reason", B "unknown_host"); (B "host", host request); (B "client", client_str)]
               | Some (_, provider) => mint_for env client_str request provider c
               end
           end
  end.

(** [Step::Done] *)
Definition arm_done (env : ConnEnv) (c : Conn) : Conn * Verdict :=
  match c_client c, c_record c with
  | Some client_str, Some rec =>
      match password_expiry_unix_secs (mr_response rec) with
      | None => (c, Panicked)
      | Some expires_at_secs =>
          let now_secs := if ce_wall env <? 0 then expires_at_secs else as_secs (ce_wall env) in
          let ttl_sec := saturating_sub expires_at_secs now_secs in
          (c_emit (log_info Ev_Mint
             [(B "out_req_id", mr_out_req_id rec); (B "provider_req_id", default [] (mr_provider_req_id rec));
              (B "provider", mr_host rec); (B "client", client_str); (B "repo", mr_path rec);
              (B "ttl_sec", show_u64 ttl_sec); (B "expires_at_unix", show_u64 expires_at_secs);
              (B "provider_ms", show_u64 (mr_provider_ms rec))]) c, Return)
      end
  | _, _ => (c, Return)
  end.

(** One iteration of the loop. *)
Definition conn_turn (env : ConnEnv) (c : Conn) : Conn * Verdict :=
  let phase_at_entry := RState_phase (c_sess c) in
  let '(s, r) := Responder_step (c_sess c) in
  let c := c_set_sess s c in
  match r with
  | Err e => (c_emit (log_session_failure (ce_peer env) phase_at_entry (c_client c) e) c, Return)
  | Ok (Step_ReadExact n) => arm_read env n c
  | Ok (Step_NeedPsk id) => arm_need_psk env id c
  | Ok (Step_Write out) => arm_write env out c
  | Ok (Step_Request request_bytes) => arm_request env request_bytes c
  | Ok Step_Done => arm_done env c
  end.

(** The loop, [None] when the fuel is used up. *)
Fixpoint conn_loop (fuel : nat) (env : ConnEnv) (c : Conn) : Conn * option Verdict :=
  match fuel with
  | O => (c, None)
  | S fuel' =>
      match conn_turn env c with
      | (c', Continue) => conn_loop fuel' env c'
      | (c', v) => (c', Some v)
      end
  end.

Definition CONN_FUEL : nat := 9.

Definition handle_connection (env : ConnEnv) (wire : list Arrival) (writes : list (option bytes)) (bucket : TokenBucket) (st : St) :
    Conn * option Verdict :=
  let start s := MkConn s None None wire writes bucket st [] [] [] in
  match Responder_new (ce_seed env) (ce_broker_key env) with
  | Err e =>
      (c_emit (log_warn Ev_HandshakeFailed [(B "peer", ce_peer env); (B "reason", B "responder_init"); (B "error", show_session_error e)])
         (start R_Failed), Some Return)
  | Ok s => conn_loop CONN_FUEL env (start s)
  end.

(** ** What a provider promises

    From a state satisfying [I] a mint or a self-check returns and keeps [I],
    and a credential a mint returns expires after the epoch and satisfies [Q]
    for the path asked for. *)
Class ProviderLaws (I : St → Prop) (Q : bytes → Response → St → Prop) (pr : Provider) : Prop := {
  mint_returns st path st' o : I st → pr_mint pr path st = (st', o) →
    I st' ∧ ∃ r, o = Ret r ∧
      ∀ out, r = Ok out → 0 <= password_expiry_utc (mo_response out) ∧ Q path (mo_response out) st';
  selfcheck_returns st st' o : I st → pr_selfcheck pr st = (st', o) → I st' ∧ ∃ r, o = Ret r;
}.

Section spec.
Context (I : St → Prop) (Q : bytes → Response → St → Prop).

(** ** What a connection has done so far

    The invariant at the head of the loop, by the state of the session: the
    bytes consumed are exactly the frames of the protocol, the handshake state
    is the one these frames give, the PSK is the one the tables select, and
    nothing has been minted before a request was read. *)

(** The PSK in use and the client name that goes with it. *)
Definition chosen (env : ConnEnv) (id : Identity) (psk : Psk) (client : option bytes) : Prop :=
  (client = Some (as_str id) ∧ auth (ce_mem env) !! id = Some psk) ∨
  (client = None ∧ auth (ce_mem env) !! id = None ∧ ce_random env = Ok psk).

(** [f1] is the frame of a message 1 that decrypts to exactly the TLV of [id]. *)
Definition reads_msg1 (hs0 : HandshakeState) (id : Identity) (f1 : bytes) (hs1 : HandshakeState) : Prop :=
  Identity_ok id ∧ ∃ m1, frame m1 = Ok f1 ∧ hs_read_message hs0 m1 = Ok (hs1, encode_identity_tlv id).

(** [out] is the frame of message 2 under [psk]. *)
Definition writes_msg2 (hs1 : HandshakeState) (psk : Psk) (out : bytes) (hs3 : HandshakeState) : Prop :=
  ∃ hs2 m2, hs_set_psk hs1 PSK_SLOT (psk_bytes psk) = Ok hs2 ∧ hs_write_message hs2 [] = Ok (hs3, m2) ∧ frame m2 = Ok out.

Definition opens_channel (hs0 : HandshakeState) (id : Identity) (psk : Psk) (f1 out : bytes) (ts : TransportState) : Prop :=
  ∃ hs1 hs3, reads_msg1 hs0 id f1 hs1 ∧ writes_msg2 hs1 psk out hs3 ∧ into_transport_mode hs3 = Ok ts.

(** [f2] is the frame of a transport message that decrypts to [plain], leaving
    the channel in [ts1]. *)
Definition reads_request (hs0 : HandshakeState) (id : Identity) (psk : Psk) (f1 out f2 : bytes) (ts1 : TransportState)
    (plain : bytes) : Prop :=
  ∃ ts m, opens_channel hs0 id psk f1 out ts ∧ frame m = Ok f2 ∧ ts_read_message ts m = Ok (ts1, plain).

Definition consumed (wire0 : list Arrival) (fs : bytes) (c : Conn) : Prop := arriving wire0 = fs ++ arriving (c_wire c).

(** The events that end a connection.  The others tell who connected
    ([accept], [identity_unknown], and [mint_denied] for a client without
    metadata, after which the handshake goes on with a random PSK) and that the
    provider dropped a cached repository. *)
Definition closing (e : Event) : bool :=
  match ev_kind e with
  | Ev_Accept | Ev_IdentityUnknown | Ev_CacheInvalidated => false
  | Ev_MintDenied => bool_decide (head (ev_fields e) ≠ Some (B "reason", B "client_metadata_missing"))
  | _ => true
  end.

Definition no_closing_event (c : Conn) : Prop := Forall (λ e, closing e = false) (c_log c).

(** A warning that ends a connection. *)
Definition is_warning (e : Event) : Prop := ev_level e = Sev_warn ∧ ev_kind e ≠ Ev_Mint ∧ closing e = true.

Definition quiet_so_far (c : Conn) (out : list bytes) : Prop :=
  c_out c = out ∧ c_mints c = [] ∧ c_record c = None ∧ no_closing_event c.

(** An authorised client sent [request] in its own session, in which [out1] was
    answered: the bytes that arrived start with the two frames of the protocol,
    and the request names the host of a configured provider. *)
Definition requested (env : ConnEnv) (hs0 : HandshakeState) (wire0 : list Arrival) (client : option bytes) (out1 : bytes)
    (id : Identity) (ts1 : TransportState) (request : Request) : Prop :=
  ∃ psk f1 f2 rest plain,
    auth (ce_mem env) !! id = Some psk ∧ client = Some (as_str id) ∧
    arriving wire0 = f1 ++ f2 ++ rest ∧ reads_request hs0 id psk f1 out1 f2 ts1 plain ∧
    len plain <= WIRE_READ_BUDGET ∧ Request_parse plain = Ok request ∧
    Exists (λ pr, pr_host pr = host request) (ce_providers env).

(** A mint that is in order. *)
Definition mint_ok (env : ConnEnv) (hs0 : HandshakeState) (wire0 : list Arrival) (c : Conn) (h p : bytes) : Prop :=
  ∃ out1 id ts1 request, requested env hs0 wire0 (c_client c) out1 id ts1 request ∧ host request = h ∧ path request = p.

(** [out2] is the frame of the encrypted credential the provider returned for
    that request. *)
Definition minted_ok (env : ConnEnv) (hs0 : HandshakeState) (wire0 : list Arrival) (c : Conn) (out1 out2 : bytes) : Prop :=
  ∃ id ts1 request rec b ts2 m2, requested env hs0 wire0 (c_client c) out1 id ts1 request ∧
    c_mints c = [(host request, path request)] ∧
    c_record c = Some rec ∧ mr_host rec = host request ∧ mr_path rec = path request ∧
    0 <= password_expiry_utc (mr_response rec) ∧ Q (path request) (mr_response rec) (c_providers c) ∧
    Response_encode (mr_response rec) (client_supports_authtype request) [] = Some b ∧
    ts_write_message ts1 b = Ok (ts2, m2) ∧ frame m2 = Ok out2.

Definition cinv (env : ConnEnv) (hs0 : HandshakeState) (wire0 : list Arrival) (c : Conn) : Prop :=
  match c_sess c with
  | R_WantHsLen hs => hs = hs0 ∧ c_client c = None ∧ quiet_so_far c [] ∧ consumed wire0 [] c
  | R_WantHsBody hs n =>
      hs = hs0 ∧ c_client c = None ∧ quiet_so_far c [] ∧ ∃ hi lo, n = from_be_u16 hi lo ∧ consumed wire0 [hi; lo] c
  | R_NeedPsk hs id => c_client c = None ∧ quiet_so_far c [] ∧ ∃ f1, reads_msg1 hs0 id f1 hs ∧ consumed wire0 f1 c
  | R_WriteHs hs out =>
      quiet_so_far c [] ∧ ∃ id psk hs1 f1, chosen env id psk (c_client c) ∧ reads_msg1 hs0 id f1 hs1 ∧
        writes_msg2 hs1 psk out hs ∧ consumed wire0 f1 c
  | R_WantReqLen ts =>
      ∃ id psk out f1, quiet_so_far c [out] ∧ chosen env id psk (c_client c) ∧ opens_channel hs0 id psk f1 out ts ∧
        consumed wire0 f1 c
  | R_WantReqBody ts n =>
      ∃ id psk out f1 hi lo, quiet_so_far c [out] ∧ chosen env id psk (c_client c) ∧ opens_channel hs0 id psk f1 out ts ∧
        n = from_be_u16 hi lo ∧ consumed wire0 (f1 ++ [hi; lo]) c
  | R_HaveRequest ts1 plain =>
      ∃ id psk out f1 f2, quiet_so_far c [out] ∧ chosen env id psk (c_client c) ∧
        reads_request hs0 id psk f1 out f2 ts1 plain ∧ consumed wire0 (f1 ++ f2) c
  | R_WriteResp out2 => ∃ out1, c_out c = [out1] ∧ minted_ok env hs0 wire0 c out1 out2 ∧ no_closing_event c
  | R_Done => ∃ out1 out2, c_out c = [out1; out2] ∧ minted_ok env hs0 wire0 c out1 out2 ∧ no_closing_event c
  | _ => False
  end.

(** How a connection that ended can look, its last event being its only closing
    one: either the answer was written, after a mint in order, and the last
    event says so; or the last event is a warning, there was at most one mint,
    in order, and at most one write. *)
Definition cpost (env : ConnEnv) (hs0 : HandshakeState) (wire0 : list Arrival) (c : Conn) : Prop :=
  ∃ before e, c_log c = before ++ [e] ∧ Forall (λ e, closing e = false) before ∧
    (c_mints c = [] ∨ ∃ h p, c_mints c = [(h, p)] ∧ mint_ok env hs0 wire0 c h p) ∧
    ((ev_kind e = Ev_Mint ∧ ∃ out1 out2, c_out c = [out1; out2] ∧ minted_ok env hs0 wire0 c out1 out2) ∨
     (is_warning e ∧ (length (c_out c) <= 1)%nat)).

(** The position of a loop-head state. *)
Definition turn_pos (s : RState) : nat :=
  match s with
  | R_WantHsLen _ => 0
  | R_WantHsBody _ _ => 1
  | R_NeedPsk _ _ => 2
  | R_WriteHs _ _ => 3
  | R_WantReqLen _ => 4
  | R_WantReqBody _ _ => 5
  | R_HaveRequest _ _ => 6
  | R_WriteResp _ => 7
  | _ => 8
  end.

(** ** Lemmas *)

Lemma or_failed_Ok r s' : or_failed r = (s', Ok ()) → r = Ok s'.
Proof. destruct r; cbn; congruence. Qed.

(** What a successful [recv] says, state by state. *)
Lemma recv_len_Ok hs bs s' :
  Responder_recv (R_WantHsLen hs) bs = (s', Ok ()) →
  ∃ hi lo, bs = [hi; lo] ∧ s' = R_WantHsBody hs (from_be_u16 hi lo).
Proof.
  intros Hr%or_failed_Ok. inv_ok. rewrite read_frame_length_Ok in *. unfold lift in *. inv_ok.
  match goal with H : recv_chunk _ = _ |- _ => apply recv_chunk_Ok in H as -> end. eauto.
Qed.

Lemma recv_req_len_Ok ts bs s' :
  Responder_recv (R_WantReqLen ts) bs = (s', Ok ()) →
  ∃ hi lo, bs = [hi; lo] ∧ s' = R_WantReqBody ts (from_be_u16 hi lo).
Proof.
  intros Hr%or_failed_Ok. inv_ok. rewrite read_frame_length_Ok in *. unfold lift in *. inv_ok.
  match goal with H : recv_chunk _ = _ |- _ => apply recv_chunk_Ok in H as -> end. eauto.
Qed.

Lemma recv_msg1_Ok hs0 hi lo bs s' :
  Responder_recv (R_WantHsBody hs0 (from_be_u16 hi lo)) bs = (s', Ok ()) →
  ∃ hs1 id, s' = R_NeedPsk hs1 id ∧ reads_msg1 hs0 id ([hi; lo] ++ bs) hs1.
Proof.
  intros Hr. pose proof (r_hist_msg1 hs0 [] bs _ s' Hr) as Hh. apply or_failed_Ok in Hr. inv_ok.
  case_match; inv_ok. match goal with H : check_recv_len _ _ = _ |- _ => apply check_recv_len_Ok in H as Hlen end.
  cbn in Hh. destruct Hh as (Hid & m1 & Hin & Hm). apply list_elem_of_singleton in Hin as [= ->].
  eexists _, _. split; [done|]. split; [done|]. exists bs. split; [by apply frame_of|].
  unfold lift, handshake_read in *. inv_ok. done.
Qed.

Lemma recv_request_Ok ts hi lo bs s' :
  Responder_recv (R_WantReqBody ts (from_be_u16 hi lo)) bs = (s', Ok ()) →
  ∃ ts' plain, s' = R_HaveRequest ts' plain ∧ frame bs = Ok ([hi; lo] ++ bs) ∧ ts_read_message ts bs = Ok (ts', plain).
Proof.
  intros Hr%or_failed_Ok. inv_ok.
  match goal with H : check_recv_len _ _ = _ |- _ => apply check_recv_len_Ok in H as Hlen end.
  unfold lift, transport_read in *. inv_ok. eexists _, _. split; [done|]. split; [by apply frame_of|done].
Qed.

Lemma set_psk_Ok hs1 psk s' :
  Responder_set_psk (R_AwaitingPsk hs1) psk = (s', Ok ()) → ∃ hs3 out, s' = R_WriteHs hs3 out ∧ writes_msg2 hs1 psk out hs3.
Proof.
  intros Hr%or_failed_Ok. unfold lift, handshake_write in *. inv_ok. eexists _, _. split; [done|].
  eexists _, _. done.
Qed.

(** [sess_call] either continues in the new state or ends with a warning that
    is not a mint. *)
Lemma log_session_failure_warn peer ph cl e : is_warning (log_session_failure peer ph cl e).
Proof. destruct e; cbn; try done. by destruct ph. Qed.

Lemma log_phase_eof_warn peer ph cl : is_warning (log_phase_eof peer ph cl).
Proof. by destruct ph. Qed.

Lemma log_mint_error_warn cl h p ms e : is_warning (log_mint_error cl h p ms e).
Proof. by destruct e. Qed.

(** Ending with a warning before any mint. *)
Lemma cpost_warn env hs0 wire0 c e out :
  quiet_so_far c out → (length out <= 1)%nat → is_warning e → cpost env hs0 wire0 (c_emit e c).
Proof.
  intros (Ho & Hm & _ & Hl) Hn He. exists (c_log c), e. cbn. rewrite Hm, Ho. split_and!; auto.
Qed.

Lemma read_exact_n_Some n wire bs wire' :
  0 <= n → read_exact_n n wire = (Some bs, wire') → arriving wire = bs ++ arriving wire'.
Proof.
  intros Hn Hr. destruct (decide (n = 0)) as [->|]; [by injection Hr as <- <-|].
  apply read_loop_Some in Hr as [_ Hr]; [done|lia|rewrite len_nil; lia].
Qed.

Lemma sess_call_cases env r c c' v :
  sess_call env r c = (c', v) →
  (v = Return ∧ ∃ e s, c' = c_emit e (c_set_sess s c) ∧ is_warning e) ∨
  (v = Continue ∧ ∃ s, r = (s, Ok ()) ∧ c' = c_set_sess s c).
Proof.
  unfold sess_call. destruct r as [s [[]|e]]; intros [= <- <-]; [by right; eauto|].
  left. split; [done|]. eexists _, s. split; [done|apply log_session_failure_warn].
Qed.

Lemma arm_read_cases env n c c' v :
  0 <= n → arm_read env n c = (c', v) →
  (v = Return ∧ ∃ e s w, c' = c_emit e (c_set_sess s (c_set_wire w c)) ∧ is_warning e) ∨
  (v = Continue ∧ ∃ bs s w, arriving (c_wire c) = bs ++ arriving w ∧ Responder_recv (c_sess c) bs = (s, Ok ()) ∧
     c' = c_set_sess s (c_set_wire w c)).
Proof.
  intros Hn. unfold arm_read. destruct (read_exact_n n (c_wire c)) as [[bs|] w] eqn:Er.
  - cbn. destruct (Responder_recv (c_sess c) bs) as [s [[]|e]] eqn:E; intros [= <- <-].
    + right. split; [done|]. exists bs, s, w. split_and!; [by eapply read_exact_n_Some|done..].
    + left. split; [done|]. eexists _, s, w. split; [done|apply log_session_failure_warn].
  - intros [= <- <-]. left. split; [done|]. eexists _, (c_sess c), w. split; [done|apply log_phase_eof_warn].
Qed.

Lemma consumed_more wire0 fs c bs w s :
  consumed wire0 fs c → arriving (c_wire c) = bs ++ arriving w → consumed wire0 (fs ++ bs) (c_set_sess s (c_set_wire w c)).
Proof. intros H1 H2. unfold consumed in *. cbn. by rewrite H1, H2, (assoc_L (++)). Qed.

Section turns.
Context (env : ConnEnv) (hs0 : HandshakeState) (wire0 : list Arrival).
Context (Hpr : Forall (ProviderLaws I Q) (ce_providers env)).

(** What one turn owes: it keeps the invariant and moves on, or it ends well. *)
Definition turn_ok (c c' : Conn) (v : Verdict) : Prop :=
  I (c_providers c') ∧
  match v with
  | Continue => cinv env hs0 wire0 c' ∧ turn_pos (c_sess c') = S (turn_pos (c_sess c))
  | Return => cpost env hs0 wire0 c'
  | Panicked | Waiting => False
  end.

(** The four reading states. *)
Lemma turn_read n c c' v :
  I (c_providers c) → 0 <= n → (∃ out, quiet_so_far c out ∧ (length out <= 1)%nat) →
  (∀ bs s w, arriving (c_wire c) = bs ++ arriving w → Responder_recv (c_sess c) bs = (s, Ok ()) →
     cinv env hs0 wire0 (c_set_sess s (c_set_wire w c)) ∧ turn_pos s = S (turn_pos (c_sess c))) →
  arm_read env n c = (c', v) → turn_ok c c' v.
Proof.
  intros HI Hn (out & Hq & Ho) Hstep Ht.
  apply arm_read_cases in Ht as [(-> & e & s & w & -> & He)|(-> & bs & s & w & Hw & Hr & ->)]; [|split; [done|]|done].
  - split; [done|]. by eapply cpost_warn.
  - by apply Hstep with bs.
Qed.

Lemma turn_hs_len hs c c' v :
  c_sess c = R_WantHsLen hs → I (c_providers c) → cinv env hs0 wire0 c → conn_turn env c = (c', v) → turn_ok c c' v.
Proof.
  intros Hs HI Hc Ht. destruct c; cbn in Hs; subst. cbn in Hc. destruct Hc as (-> & Hcl & Hq & Hw).
  unfold conn_turn in Ht. cbn [c_sess RState_phase Responder_step c_set_sess] in Ht.
  eapply turn_read in Ht; [done|done|lia|by exists []; eauto|]. intros bs s w Har Hr. cbn in Hr.
  apply recv_len_Ok in Hr as (hi & lo & -> & ->). split; [|done]. cbn. split_and!; [done..|].
  exists hi, lo. split; [done|]. by apply (consumed_more _ _ _ _ _ (R_WantHsBody hs0 (from_be_u16 hi lo)) Hw Har).
Qed.

Lemma turn_hs_body hs n c c' v :
  c_sess c = R_WantHsBody hs n → I (c_providers c) → cinv env hs0 wire0 c → conn_turn env c = (c', v) → turn_ok c c' v.
Proof.
  intros Hs HI Hc Ht. destruct c; cbn in Hs; subst. cbn in Hc. destruct Hc as (-> & Hcl & Hq & hi & lo & -> & Hw).
  unfold conn_turn in Ht. cbn [c_sess RState_phase Responder_step c_set_sess] in Ht.
  eapply turn_read in Ht; [done|done|apply from_be_u16_bound|by exists []; eauto|]. intros bs s w Har Hr.
  apply recv_msg1_Ok in Hr as (hs1 & id & -> & Hm). split; [|done]. cbn. split_and!; [done..|].
  eexists. split; [done|]. by apply (consumed_more _ _ _ _ _ (R_NeedPsk hs1 id) Hw Har).
Qed.

Lemma turn_req_len ts c c' v :
  c_sess c = R_WantReqLen ts → I (c_providers c) → cinv env hs0 wire0 c → conn_turn env c = (c', v) → turn_ok c c' v.
Proof.
  intros Hs HI Hc Ht. destruct c; cbn in Hs; subst. cbn in Hc. destruct Hc as (id & psk & out & f1 & Hq & Hch & Ho & Hw).
  unfold conn_turn in Ht. cbn [c_sess RState_phase Responder_step c_set_sess] in Ht.
  eapply turn_read in Ht; [done|done|lia|by exists [out]; eauto|]. intros bs s w Har Hr. cbn in Hr.
  apply recv_req_len_Ok in Hr as (hi & lo & -> & ->). split; [|done]. cbn.
  exists id, psk, out, f1, hi, lo. split_and!; [done..|].
  by apply (consumed_more _ _ _ _ _ (R_WantReqBody ts (from_be_u16 hi lo)) Hw Har).
Qed.

Lemma turn_req_body ts n c c' v :
  c_sess c = R_WantReqBody ts n → I (c_providers c) → cinv env hs0 wire0 c → conn_turn env c = (c', v) → turn_ok c c' v.
Proof.
  intros Hs HI Hc Ht. destruct c; cbn in Hs; subst. cbn in Hc.
  destruct Hc as (id & psk & out & f1 & hi & lo & Hq & Hch & Ho & -> & Hw).
  unfold conn_turn in Ht. cbn [c_sess RState_phase Responder_step c_set_sess] in Ht.
  eapply turn_read in Ht; [done|done|apply from_be_u16_bound|by exists [out]; eauto|]. intros bs s w Har Hr.
  apply recv_request_Ok in Hr as (ts' & plain & -> & Hf & Hp). split; [|done]. cbn.
  exists id, psk, out, f1, ([hi; lo] ++ bs). split_and!; [done|done| |].
  - by exists ts, bs.
  - pose proof (consumed_more _ _ _ _ _ (R_HaveRequest ts' plain) Hw Har) as Hm. by rewrite <-(assoc_L (++)) in Hm.
Qed.

Lemma choose_psk_cases id c c' r :
  choose_psk env id c = (c', r) → c_client c = None → no_closing_event c →
  c_sess c' = c_sess c ∧ c_wire c' = c_wire c ∧ c_providers c' = c_providers c ∧ c_out c' = c_out c ∧
  c_mints c' = c_mints c ∧ c_record c' = c_record c ∧ no_closing_event c' ∧
  ∀ psk, r = Ok psk → chosen env id psk (c_client c').
Proof.
  unfold choose_psk, PskStore_lookup. intros Hc Hcl Hl.
  assert (∀ e, closing e = false → no_closing_event (c_emit e c)) as Hemit.
  { intros e He. unfold no_closing_event. cbn. apply Forall_app. by repeat constructor. }
  destruct (entries (m_psks (ce_mem env)) !! id) as [psk|] eqn:Ep.
  - destruct (m_clients (ce_mem env) !! id) as [cl|] eqn:Em; injection Hc as <- <-; cbn.
    + split_and!; [done..|by apply Hemit|]. intros psk' [= <-]. left. split; [done|]. apply auth_lookup. by rewrite Em.
    + split_and!; [done..|by apply Hemit|]. intros psk' Hr. right. split_and!; [done| |done].
      apply eq_None_not_Some. intros [p Ha]. apply auth_lookup in Ha as [_ [? Ha]]. congruence.
  - destruct (try_acquire _ _) as [b [n|]]; injection Hc as <- <-; cbn.
    all: split_and!; [done..|by try apply Hemit|]; intros psk' Hr; right; split_and!; [done| |done];
      apply eq_None_not_Some; intros [p Ha]; apply auth_lookup in Ha as [Ha _]; congruence.
Qed.

Lemma turn_need_psk hs id c c' v :
  c_sess c = R_NeedPsk hs id → I (c_providers c) → cinv env hs0 wire0 c → conn_turn env c = (c', v) → turn_ok c c' v.
Proof.
  intros Hs HI Hc Ht. unfold conn_turn in Ht. rewrite Hs in Ht. cbn [Responder_step] in Ht.
  unfold cinv in Hc. rewrite Hs in Hc. destruct Hc as (Hcl & (Ho & Hm & Hr & Hl) & f1 & Hm1 & Hw).
  unfold arm_need_psk in Ht.
  destruct (choose_psk env id (c_set_sess (R_AwaitingPsk hs) c)) as [c1 r] eqn:Ec.
  apply choose_psk_cases in Ec as (E1 & E2 & E3 & E4 & E5 & E6 & E7 & E8); [|done..]. cbn in E1, E2, E3, E4, E5, E6.
  assert (quiet_so_far c1 []) as Hq by (split_and!; congruence || done).
  destruct r as [psk|e].
  - rewrite E1 in Ht. apply sess_call_cases in Ht as [(-> & e & s & -> & He)|(-> & s & Hr2 & ->)].
    + split; [cbn; by rewrite E3|]. by eapply (cpost_warn _ _ _ (c_set_sess s c1)); [exact Hq|cbn; lia|].
    + apply set_psk_Ok in Hr2 as (hs3 & out & -> & Hm2). split; [cbn; by rewrite E3|]. split; [|by rewrite Hs].
      cbn. split; [done|]. exists id, psk, hs, f1. split_and!; [by apply E8|done..|]. unfold consumed in *. cbn. by rewrite E2.
  - injection Ht as <- <-. split; [cbn; by rewrite E3|]. by eapply cpost_warn; [exact Hq|cbn; lia|].
Qed.

Lemma wrote_hs_Ok hs s' :
  Responder_wrote (R_WroteHsPending hs) = (s', Ok ()) → ∃ ts, s' = R_WantReqLen ts ∧ into_transport_mode hs = Ok ts.
Proof. intros Hr%or_failed_Ok. unfold lift, into_transport in *. inv_ok. eauto. Qed.

(** Both writing states. *)
Lemma arm_write_cases out c c' v :
  arm_write env out c = (c', v) →
  (v = Return ∧ ∃ e s ws outs, c' = c_emit e (MkConn s (c_client c) (c_record c) (c_wire c) ws (c_bucket c) (c_providers c)
        outs (c_log c) (c_mints c)) ∧ is_warning e ∧
        (outs = c_out c ∨ outs = c_out c ++ [out] ∧ is_ok (Responder_wrote (c_sess c)).2 = false)) ∨
  (v = Continue ∧ ∃ s ws, Responder_wrote (c_sess c) = (s, Ok ()) ∧ c' = c_set_sess s (c_wrote out ws c)).
Proof.
  unfold arm_write. intros Ht.
  assert (sess_call env (Responder_wrote (c_sess c)) (c_wrote out (tail (c_writes c)) c) = (c', v) →
   (v = Return ∧ ∃ e s ws outs, c' = c_emit e (MkConn s (c_client c) (c_record c) (c_wire c) ws (c_bucket c) (c_providers c)
        outs (c_log c) (c_mints c)) ∧ is_warning e ∧
        (outs = c_out c ∨ outs = c_out c ++ [out] ∧ is_ok (Responder_wrote (c_sess c)).2 = false)) ∨
   (v = Continue ∧ ∃ s ws, Responder_wrote (c_sess c) = (s, Ok ()) ∧ c' = c_set_sess s (c_wrote out ws c))) as Hgo.
  { intros Hs. unfold sess_call in Hs. destruct (Responder_wrote (c_sess c)) as [s [[]|e]] eqn:E; injection Hs as <- <-.
    - right. eauto.
    - left. split; [done|]. eexists _, s, _, _. split; [reflexivity|]. split; [apply log_session_failure_warn|by right]. }
  destruct (head (c_writes c)) as [[e|]|]; [|by apply Hgo..].
  injection Ht as <- <-. left. split; [done|]. eexists _, (c_sess c), (c_writes c), (c_out c).
  split; [by destruct c|]. split; [done|by left].
Qed.

Lemma turn_write_hs hs out c c' v :
  c_sess c = R_WriteHs hs out → I (c_providers c) → cinv env hs0 wire0 c → conn_turn env c = (c', v) → turn_ok c c' v.
Proof.
  intros Hs HI Hc Ht. destruct c; cbn in Hs; subst. cbn in Hc. destruct Hc as ((Ho & Hm & Hr & Hl) & id & psk & hs1 & f1 & Hch & Hm1 & Hm2 & Hw).
  cbn in Ho, Hm, Hr. subst. unfold conn_turn in Ht. cbn [c_sess RState_phase Responder_step c_set_sess] in Ht.
  apply arm_write_cases in Ht as [(-> & e & s & ws & outs & -> & He & Houts)|(-> & s & ws & Hwr & ->)].
  - split; [done|]. eapply cpost_warn; [|..|exact He]; [by split_and!|]. cbn in Houts. destruct Houts as [->|[-> _]]; cbn; lia.
  - apply wrote_hs_Ok in Hwr as (ts & -> & Hts). split; [done|]. split; [|done]. cbn.
    exists id, psk, out, f1. split_and!; [by split_and!|done| |done]. by exists hs1, hs.
Qed.

Lemma cpost_warn_minted c e h p :
  c_mints c = [(h, p)] → mint_ok env hs0 wire0 c h p → no_closing_event c → (length (c_out c) <= 1)%nat → is_warning e →
  cpost env hs0 wire0 (c_emit e c).
Proof. intros Hm Hok Hl Ho He. exists (c_log c), e. cbn. rewrite Hm. split_and!; eauto 8. Qed.

Lemma no_closing_event_emit c e : no_closing_event c → closing e = false → no_closing_event (c_emit e c).
Proof. intros Hl He. unfold no_closing_event. cbn. apply Forall_app. by repeat constructor. Qed.

Lemma Response_encode_Some r b o : 0 <= password_expiry_utc r → is_Some (Response_encode r b o).
Proof.
  intros He. unfold Response_encode, password_expiry_unix_secs. replace (_ <? 0) with false by lia.
  cbn. by eexists.
Qed.

Lemma set_response_Ok ts b s' :
  Responder_set_response (R_AwaitingResponse ts) b = (s', Ok ()) →
  ∃ ts' m out, s' = R_WriteResp out ∧ ts_write_message ts b = Ok (ts', m) ∧ frame m = Ok out.
Proof. intros Hr%or_failed_Ok. unfold lift, transport_write in *. inv_ok. by do 3 eexists. Qed.

Lemma requested_mint_ok c out1 id ts1 request :
  requested env hs0 wire0 (c_client c) out1 id ts1 request → mint_ok env hs0 wire0 c (host request) (path request).
Proof. intros Hr. by exists out1, id, ts1, request. Qed.

(** After the provider has answered. *)
Lemma answer_request_ok id ts request out1 outcome c c' v :
  c_sess c = R_AwaitingResponse ts → I (c_providers c) → c_out c = [out1] → no_closing_event c →
  c_mints c = [(host request, path request)] → requested env hs0 wire0 (c_client c) out1 id ts request →
  0 <= password_expiry_utc (mo_response outcome) → Q (path request) (mo_response outcome) (c_providers c) →
  answer_request env request outcome c = (c', v) →
  I (c_providers c') ∧ match v with
                       | Continue => cinv env hs0 wire0 c' ∧ turn_pos (c_sess c') = 7%nat
                       | Return => cpost env hs0 wire0 c'
                       | _ => False
                       end.
Proof.
  intros Hs HI Ho Hl Hm Hok Hexp HQ Ht. unfold answer_request in Ht.
  destruct (Response_encode_Some (mo_response outcome) (client_supports_authtype request) [] Hexp) as [b Hb]. rewrite Hb in Ht.
  rewrite Hs in Ht. destruct (sess_call env _ c) as [c1 v1] eqn:Es.
  apply sess_call_cases in Es as [(-> & e & s & -> & He)|(-> & s & Hr & ->)]; injection Ht as <- <-.
  - split; [done|]. eapply cpost_warn_minted; [exact Hm|exact (requested_mint_ok _ _ _ _ _ Hok)|done|cbn; by rewrite Ho|done].
  - apply set_response_Ok in Hr as (ts' & m & out & -> & Hw & Hf). split; [done|]. split; [|done]. cbn.
    exists out1. split_and!; [done| |done]. eexists id, ts, request, _, b, ts', m. split_and!; try done.
Qed.

Lemma mint_for_ok id ts client request provider out1 c c' v :
  c_sess c = R_AwaitingResponse ts → I (c_providers c) → c_out c = [out1] → no_closing_event c → c_mints c = [] →
  requested env hs0 wire0 (c_client c) out1 id ts request → ProviderLaws I Q provider →
  mint_for env client request provider c = (c', v) →
  I (c_providers c') ∧ match v with
                       | Continue => cinv env hs0 wire0 c' ∧ turn_pos (c_sess c') = 7%nat
                       | Return => cpost env hs0 wire0 c'
                       | _ => False
                       end.
Proof.
  intros Hs HI Ho Hl Hm Hok Hlaw Ht. unfold mint_for in Ht.
  destruct (pr_mint provider (path request) (c_providers c)) as [st o] eqn:Ep.
  destruct (mint_returns _ _ _ _ HI Ep) as (HI' & r & -> & Hr). set (c1 := c_minted _ _ st c) in Ht.
  assert (c_mints c1 = [(host request, path request)]) as Hm1 by (unfold c1; cbn; by rewrite Hm).
  destruct r as [outcome|e].
  - destruct (Hr _ eq_refl) as [??]. by eapply answer_request_ok; [..|exact Ht].
  - injection Ht as <- <-. split; [by destruct e|].
    eapply cpost_warn_minted; [| | | |apply log_mint_error_warn].
    + by destruct e.
    + destruct e; exact (requested_mint_ok c1 _ _ _ _ Hok).
    + destruct e; try done. by apply no_closing_event_emit.
    + destruct e; cbn; by rewrite Ho.
Qed.

Lemma turn_request ts plain c c' v :
  c_sess c = R_HaveRequest ts plain → I (c_providers c) → cinv env hs0 wire0 c → conn_turn env c = (c', v) → turn_ok c c' v.
Proof.
  intros Hs HI Hc Ht. unfold turn_ok. rewrite Hs. unfold conn_turn in Ht. rewrite Hs in Ht. cbn [Responder_step] in Ht.
  unfold cinv in Hc. rewrite Hs in Hc. destruct Hc as (id & psk & out1 & f1 & f2 & Hq & Hch & Hreq & Hw).
  pose proof Hq as (Ho & Hm & Hr & Hl).
  assert (∀ fields, closing (log_warn Ev_MintDenied fields) = true → (c_emit (log_warn Ev_MintDenied fields) (c_set_sess (R_AwaitingResponse ts) c), Return) = (c', v) →
    I (c_providers c') ∧ match v with
                         | Continue => cinv env hs0 wire0 c' ∧ turn_pos (c_sess c') = 7%nat
                         | Return => cpost env hs0 wire0 c'
                         | _ => False
                         end) as Hdeny.
  { intros fields Hcl [= <- <-]. split; [done|]. by eapply (cpost_warn _ _ _ (c_set_sess (R_AwaitingResponse ts) c) _ [out1]). }
  unfold arm_request in Ht. cbn [c_client c_set_sess] in Ht.
  destruct (c_client c) as [client|] eqn:Ecl; [|by eapply Hdeny; [|exact Ht]].
  destruct (WIRE_READ_BUDGET <? len plain) eqn:Elen; [by eapply Hdeny; [|exact Ht]|].
  destruct (Request_parse plain) as [request|e] eqn:Ereq; [|by eapply Hdeny; [|exact Ht]].
  destruct (list_find _ (ce_providers env)) as [[i provider]|] eqn:Ef; [|by eapply Hdeny; [|exact Ht]].
  apply list_find_Some in Ef as (Hi & Hhost & _). apply list_elem_of_lookup_2 in Hi.
  eapply mint_for_ok; [..|exact Ht]; try done.
  - destruct Hch as [[[= ->] Ha]|[? _]]; [|done].
    exists psk, f1, f2, (arriving (c_wire c)), plain. split_and!; try done.
    + unfold consumed in Hw. by rewrite Hw, (assoc_L (++)).
    + lia.
    + apply Exists_exists. eauto.
  - rewrite Forall_forall in Hpr. by apply Hpr.
Qed.

Lemma turn_write_resp out c c' v :
  c_sess c = R_WriteResp out → I (c_providers c) → cinv env hs0 wire0 c → conn_turn env c = (c', v) → turn_ok c c' v.
Proof.
  intros Hs HI Hc Ht. destruct c; cbn in Hs; subst. cbn in Hc.
  destruct Hc as (out1 & Ho & Hmint & Hl). pose proof Hmint as (id & ts1 & request & rec & _ & _ & _ & Hok & Hm & Hr & _).
  cbn in Ho, Hm, Hr. subst. unfold conn_turn in Ht. cbn [c_sess RState_phase Responder_step c_set_sess] in Ht.
  apply arm_write_cases in Ht as [(-> & e & s & ws & outs & -> & He & Houts)|(-> & s & ws & Hwr & ->)].
  - split; [done|]. eapply cpost_warn_minted; [done|exact (requested_mint_ok _ _ _ _ _ Hok)|done| |done]. cbn in Houts.
    destruct Houts as [->|[_ [=]]]. done.
  - cbn in Hwr. injection Hwr as <-. split; [done|]. split; [|done]. cbn. by exists out1, out.
Qed.

Lemma turn_done c c' v :
  c_sess c = R_Done → I (c_providers c) → cinv env hs0 wire0 c → conn_turn env c = (c', v) → turn_ok c c' v.
Proof.
  intros Hs HI Hc Ht. destruct c; cbn in Hs; subst. cbn in Hc.
  destruct Hc as (out1 & out2 & Ho & Hmint & Hl).
  pose proof Hmint as (id & ts1 & request & rec & _ & _ & _ & Hok & Hm & Hr & _ & _ & Hexp & _).
  pose proof Hok as (_ & _ & _ & _ & _ & _ & Hcl & _). cbn in Ho, Hm, Hr, Hcl. subst.
  unfold conn_turn in Ht. cbn [c_sess RState_phase Responder_step c_set_sess] in Ht.
  unfold arm_done in Ht. cbn [c_client c_record c_set_sess c_sess c_wire c_writes c_bucket c_providers c_out c_log c_mints] in Ht.
  unfold password_expiry_unix_secs in Ht.
  replace (password_expiry_utc (mr_response rec) <? 0) with false in Ht by lia. cbv beta iota zeta in Ht.
  injection Ht as <- <-. split; [done|]. eexists _, _. cbn. split_and!; [done|done| |].
  - right. eexists _, _. split; [done|]. by exists out1, id, ts1, request.
  - left. split; [done|]. by exists out1, out2.
Qed.

Lemma conn_turn_ok c c' v :
  I (c_providers c) → cinv env hs0 wire0 c → conn_turn env c = (c', v) → turn_ok c c' v.
Proof.
  intros HI Hc Ht. destruct (c_sess c) eqn:E; try (unfold cinv in Hc; rewrite E in Hc; done).
  - by eapply turn_need_psk.
  - by eapply turn_hs_len.
  - by eapply turn_hs_body.
  - by eapply turn_write_hs.
  - by eapply turn_req_len.
  - by eapply turn_req_body.
  - by eapply turn_request.
  - by eapply turn_write_resp.
  - by eapply turn_done.
Qed.

(** The loop ends with fuel for the remaining positions. *)
Lemma conn_loop_ok fuel c c' v :
  (9 <= turn_pos (c_sess c) + fuel)%nat → I (c_providers c) → cinv env hs0 wire0 c → conn_loop fuel env c = (c', v) →
  v = Some Return ∧ I (c_providers c') ∧ cpost env hs0 wire0 c'.
Proof.
  revert c. induction fuel as [|fuel IH]; intros c Hf HI Hc Hl.
  - exfalso. assert (turn_pos (c_sess c) <= 8)%nat by (destruct (c_sess c); cbn; lia). lia.
  - cbn in Hl. destruct (conn_turn env c) as [c1 v1] eqn:Et. apply conn_turn_ok in Et as [HI1 Hv]; [|done..].
    destruct v1; [|by injection Hl as <- <-|done|done]. destruct Hv as [Hc1 Hp]. eapply IH; [|done..|exact Hl]. lia.
Qed.

End turns.

End spec.

(** A connection that reports a mint wrote the credential. *)
Lemma cpost_minted Q env hs0 wire c :
  cpost Q env hs0 wire c → (∃ e, e ∈ c_log c ∧ ev_kind e = Ev_Mint) →
  ∃ out1 out2, c_out c = [out1; out2] ∧ minted_ok Q env hs0 wire c out1 out2.
Proof.
  intros (before & e' & Hl & Hb & _ & Hor) (e & Hin & He). rewrite Hl, elem_of_app, list_elem_of_singleton in Hin.
  destruct Hin as [Hin| ->]; [|by destruct Hor as [[_ ?]|[(_ & ? & _) _]]].
  rewrite Forall_forall in Hb. apply Hb in Hin. unfold closing in Hin. by rewrite He in Hin.
Qed.

Lemma cinv_start Q env hs0 wire writes bucket st :
  cinv Q env hs0 wire (MkConn (R_WantHsLen hs0) None None wire writes bucket st [] [] []).
Proof. cbn. split; [done|]. split; [done|]. split; [|done]. repeat (split; [done|]). constructor. Qed.

(** The invariant holds at the start, so everything above holds of a whole
    connection. *)
Lemma handle_connection_ok I Q env wire writes bucket st c v :
  Forall (ProviderLaws I Q) (ce_providers env) → I st → handle_connection env wire writes bucket st = (c, v) →
  v = Some Return ∧ I (c_providers c) ∧
  ((∃ hs0, responder_hs (ce_seed env) (priv_bytes (ce_broker_key env)) = Ok hs0 ∧ cpost Q env hs0 wire c) ∨
   (∃ e, c_log c = [e] ∧ is_warning e ∧ c_mints c = [] ∧ c_out c = [])).
Proof.
  intros Hpr HI Hh. unfold handle_connection in Hh.
  destruct (Responder_new (ce_seed env) (ce_broker_key env)) as [s|e] eqn:En.
  - apply Responder_new_inv in En as (hs0 & Hhs & ->).
    eapply (conn_loop_ok I Q env hs0 wire Hpr) in Hh as (-> & HI' & Hpost); [|unfold CONN_FUEL; cbn; lia|done|apply cinv_start].
    split_and!; [done..|]. left. by exists hs0.
  - injection Hh as <- <-. split_and!; [done..|]. right. by eexists.
Qed.

(** ** Properties *)

(** C9: nothing is minted for anybody but an authorised client.  Whatever
    arrives on the socket and however the providers answer, a connection asks
    for at most one mint, and if it does then the bytes received are the two
    frames of a handshake and of a request: message 1 carries the identity of a
    client both of whose records exist, the handshake ran under its own PSK,
    and the request decrypted in that channel is well formed, at most 8 KiB,
    and names the host of a configured provider and the path asked for. *)
Theorem connection_authorised I Q env wire writes bucket st c v :
  Forall (ProviderLaws I Q) (ce_providers env) → I st → handle_connection env wire writes bucket st = (c, v) →
  (length (c_mints c) <= 1)%nat ∧
  ∀ h p, (h, p) ∈ c_mints c →
    ∃ hs0, responder_hs (ce_seed env) (priv_bytes (ce_broker_key env)) = Ok hs0 ∧ mint_ok env hs0 wire c h p.
Proof.
  intros Hpr HI Hh. destruct (handle_connection_ok _ _ _ _ _ _ _ _ _ Hpr HI Hh) as (_ & _ & [(hs0 & Hhs & Hpost)|(e & _ & _ & -> & _)]).
  - destruct Hpost as (before & e & _ & _ & Hm & _). destruct Hm as [->|(h & p & -> & Hok)].
    + split; [cbn; lia|]. by intros h p ?%not_elem_of_nil.
    + split; [done|]. intros h' p' Hin. apply list_elem_of_singleton in Hin as [= -> ->]. eauto.
  - split; [cbn; lia|]. by intros h p ?%not_elem_of_nil.
Qed.

(** C16: every connection ends, within nine turns of the loop and without panic,
    having asked for at most one mint and logged exactly one closing event, its
    last, which tells how it ended: either [mint], and then two frames were
    written, the second one being the encryption of the credential the provider
    returned for the request; or a warning, and then at most the handshake
    answer was written. *)
Theorem connection_ends I Q env wire writes bucket st c v :
  Forall (ProviderLaws I Q) (ce_providers env) → I st → handle_connection env wire writes bucket st = (c, v) →
  v = Some Return ∧ I (c_providers c) ∧ (length (c_mints c) <= 1)%nat ∧
  ∃ before e, c_log c = before ++ [e] ∧ Forall (λ e, closing e = false) before ∧ closing e = true ∧
    ((ev_kind e = Ev_Mint ∧ ∃ hs0 out1 out2, responder_hs (ce_seed env) (priv_bytes (ce_broker_key env)) = Ok hs0 ∧
        c_out c = [out1; out2] ∧ minted_ok Q env hs0 wire c out1 out2) ∨
     (ev_level e = Sev_warn ∧ ev_kind e ≠ Ev_Mint ∧ (length (c_out c) <= 1)%nat)).
Proof.
  intros Hpr HI Hh.
  destruct (handle_connection_ok _ _ _ _ _ _ _ _ _ Hpr HI Hh) as (-> & HI' & [(hs0 & Hhs & Hpost)|(e & -> & (He & He' & Hcl) & -> & ->)]).
  - destruct Hpost as (before & e & Hl & Hb & Hm & Hor). split_and!; [done..| |].
    { destruct Hm as [->|(h & p & -> & _)]; cbn; lia. }
    exists before, e. split; [done|]. split; [done|]. destruct Hor as [(He & out1 & out2 & Ho & Hmint)|((He & He' & Hcl) & Ho)].
    + split; [unfold closing; by rewrite He|]. left. split; [done|]. by exists hs0, out1, out2.
    + split; [done|]. by right.
  - split_and!; [done..|cbn; lia|]. exists [], e. split_and!; [done..|]. right. split_and!; [done..|cbn; lia].
Qed.

(** Reading is faithful to the stream: when [read_exact_n] succeeds, what it
    returns is the next bytes of the stream, at least [n] of them, and nothing
    is lost.  It returns exactly [n] when the first read already brings [n]
    bytes; otherwise it may run past [n], to less than [2n]. *)
Lemma read_exact_n_spec n wire bs wire' :
  0 < n → read_exact_n n wire = (Some bs, wire') →
  arriving wire = bs ++ arriving wire' ∧ n <= len bs < 2 * n ∧
  (∀ b seg rest, wire = Segment b seg :: rest → n <= len (b :: seg) → bs = take (Z.to_nat n) (b :: seg)).
Proof.
  intros Hn Hr. pose proof Hr as Hr'. apply read_loop_Some in Hr' as [Hb Heq]; [|done|rewrite len_nil; lia].
  split_and!; [done|lia|lia|]. intros b seg rest -> Hseg. unfold read_exact_n in Hr.
  rewrite (read_loop_fuel _ (S (Z.to_nat n))) in Hr by (rewrite len_nil; lia). cbn [read_loop] in Hr. rewrite len_nil in Hr.
  replace (n <=? 0) with false in Hr by lia. cbn [stream_read] in Hr.
  assert (∀ f x w, n <= len x → read_loop f n ([] ++ x) w = (Some x, w)) as Hstop.
  { intros f x w Hx. destruct f; cbn; by replace (n <=? len x) with true by lia. }
  destruct (drop (Z.to_nat n) (b :: seg)) as [|x xs] eqn:Ed.
  - rewrite Hstop in Hr by done. injection Hr as <- _. rewrite <-(take_drop (Z.to_nat n) (b :: seg)) at 1.
    by rewrite Ed, app_nil_r.
  - rewrite Hstop in Hr by (rewrite len_take; lia). by injection Hr as <- _.
Qed.

(** A short first read makes the second one overshoot: two bytes were asked for
    and three are returned, and the session then drops the connection. *)
Lemma read_exact_n_overreads :
  read_exact_n 2 [Segment x00 []; Segment x10 [x01; x02]] = (Some [x00; x10; x01], [Segment x02 []]).
Proof. by vm_compute. Qed.

(** Whoever asks, the PSK in use is a well-formed one. *)
Lemma choose_psk_Ok env id c psk :
  PskStore_ok (m_psks (ce_mem env)) → ce_random env = Ok psk → Psk_ok psk →
  ∃ c1 psk1, choose_psk env id c = (c1, Ok psk1) ∧ Psk_ok psk1 ∧ c_writes c1 = c_writes c.
Proof.
  intros Hst Hr Hp. unfold choose_psk, PskStore_lookup. rewrite Hr.
  destruct (entries (m_psks (ce_mem env)) !! id) as [p|] eqn:E.
  - apply Hst in E as [_ Hp']. destruct (m_clients (ce_mem env) !! id); eexists _, _; split_and!; done.
  - destruct (try_acquire _ _) as [b [n|]]; eexists _, _; split_and!; done.
Qed.


End connection.
