(* ===== verification/Broker.v ===== *)
(** * The broker: a connection served with the GitHub provider

    [handle_connection] of [Connection] over the provider of [Github]: the
    provider discharges the interface [ProviderLaws], and what the two files
    prove separately composes into the guarantee on the credential that a
    client receives.  Concrete runs of a whole connection are here too. *)

From S2P Require Import Prelude Identity Psk GitCredential Transport RateLimit State Github Events Connection.

Section broker.
Context {NZ : Noise} {GE : GithubEnv} {LT : LogText HttpError}.

(** [impl Provider for GitHubProvider] *)
Definition github_provider (gp : GitHubProvider) : Provider := MkProvider (gp_host gp) (Provider_mint gp) (Provider_selfcheck gp).

(** The states a provider can be in. *)
Definition github_inv (gp : GitHubProvider) (s : GState) : Prop := ginv s ∧ gprov gp s.

(** A credential for [path]: the user GitHub wants and a token whose history
    goes back to a request for one repository of that name. *)
Definition scoped_credential (gp : GitHubProvider) (path : bytes) (r : Response) (s : GState) : Prop :=
  username r = B "x-access-token" ∧
  ∃ rp, RepoPath_parse (H:=HttpError) path = Ok rp ∧
    token_provenance gp (gs_calls s) (mint_key rp) (password r) (password_expiry_utc r).

(** What is known of a credential stays known. *)
Lemma scoped_more gp path r s s' new :
  gs_calls s' = gs_calls s ++ new → scoped_credential gp path r s → scoped_credential gp path r s'.
Proof. intros Hc (Hu & rp & Hp & Ht). split; [done|]. exists rp. split; [done|]. rewrite Hc. by apply token_provenance_app. Qed.

Lemma github_selfcheck_returns gp s s' o :
  github_inv gp s → pr_selfcheck (github_provider gp) s = (s', o) → github_inv gp s' ∧ ∃ r, o = Ret r.
Proof.
  intros [Hi Hp] Hm. cbn in Hm. unfold Provider_selfcheck in Hm. destruct (selfcheck gp s) as [s1 o1] eqn:E.
  destruct (selfcheck_inv _ _ _ _ E Hi Hp) as (Hi1 & Hp1 & r & ->). injection Hm as <- <-. split; [done|by eexists].
Qed.

#[export] Instance github_laws gp : ProviderLaws (github_inv gp) (scoped_credential gp) (github_provider gp).
Proof.
  split; [|apply github_selfcheck_returns].
  intros s path s' o [Hi Hp] Hm. cbn in Hm. unfold Provider_mint in Hm.
  destruct (mint gp path s) as [s1 o1] eqn:E. injection Hm as <- <-.
  pose proof (mint_prov _ _ _ _ _ Hi Hp E) as Hp1. destruct (mint_cases _ _ _ _ _ Hi E) as (r & new & -> & _ & Hi1 & Hd).
  split; [done|]. eexists. split; [done|]. intros out Hr. apply map_err_Ok in Hr as ->.
  destruct (RepoPath_parse path) as [rp|e] eqn:Erp; [|by destruct Hd].
  destruct Hd as (_ & Hok & _). destruct (Hok _ eq_refl) as (Hu & Hc & _). split.
  - apply ginv_tokens in Hc; [|done]. destruct (Response_new _ _ _) as [resp|] eqn:Er in Hc; [|done].
    by apply Response_new_Ok in Er as (_ & ? & _).
  - split; [done|]. exists rp. split; [done|]. by apply Hp1.
Qed.

(** The credential a client receives.  Take a daemon serving GitHub, after
    any sequence of earlier mints and self-checks, and any bytes on a new connection.  The
    connection always ends; and when it reports a mint, the client was
    authorised and asked for the path in its own encrypted session, and the
    second frame sent to it is the encryption, in that session, of a
    git-credential answer whose token GitHub issued for exactly one repository,
    the one of that owner and name up to ASCII case. *)
Theorem broker_credential gp env before wire writes bucket c v :
  ce_providers env = [github_provider gp] →
  handle_connection env wire writes bucket (life gp before) = (c, v) →
  v = Some Return ∧
  ((∃ e, e ∈ c_log c ∧ ev_kind e = Ev_Mint) →
   ∃ hs0 out1 out2, responder_hs (ce_seed env) (priv_bytes (ce_broker_key env)) = Ok hs0 ∧
     c_out c = [out1; out2] ∧ minted_ok (scoped_credential gp) env hs0 wire c out1 out2).
Proof.
  intros Hpr Hh. destruct (handle_connection_ok (github_inv gp) (scoped_credential gp) _ _ _ _ _ _ _
    ltac:(rewrite Hpr; apply Forall_singleton, github_laws) (life_inv gp before) Hh) as (-> & _ & Hcases).
  split; [done|]. intros He. destruct Hcases as [(hs0 & Hhs & Hpost)|(e' & Hl & (_ & Hw & _) & _)].
  - destruct (cpost_minted _ _ _ _ _ Hpost He) as (out1 & out2 & Ho & Hm). by exists hs0, out1, out2.
  - destruct He as (e & Hin & He). rewrite Hl in Hin. apply list_elem_of_singleton in Hin as ->. done.
Qed.

End broker.

(** ** A concrete connection *)

Definition demo_text : @LogText noise_model () := {|
  show_session_error _ := B "session error";
  show_credential_error _ := B "malformed";
  show_provider_error _ := B "provider error";
|}.

Definition demo_tables : Mem :=
  MkMem demo_store {[ demo_id := MkResolvedClient [] 0 None ]}.

Definition demo_env (mem : Mem) : @ConnEnv () GState :=
  MkConnEnv (B "127.0.0.1:4000") 2 demo_key mem (Ok (MkPsk (replicate 32 x55))) 0 12 (from_secs 1700000000)
    [@github_provider github_model demo_provider].

(** Message 1 in one segment; the request in two, cut inside the body. *)
Definition demo_ask : bytes :=
  B "protocol=https" ++ [x0a] ++ B "host=github.com" ++ [x0a] ++ B "path=Octo/Hello.git" ++ [x0a; x0a].
Definition demo_sealed : bytes := demo_ask ++ replicate 16 xaa.
Definition demo_wire : list Arrival :=
  segment (to_be_u16 (len demo_msg1) ++ demo_msg1) ++ segment (to_be_u16 (len demo_sealed) ++ take 20 demo_sealed)
    ++ segment (drop 20 demo_sealed).

Definition conn_bucket : TokenBucket :=
  TokenBucket_new UNKNOWN_IDENTITY_LOG_REFILL UNKNOWN_IDENTITY_LOG_BURST_TOLERANCE 0.

Definition demo_connection (mem : Mem) : @Conn noise_model GState * option Verdict :=
  @handle_connection noise_model () GState demo_text (demo_env mem) demo_wire [] conn_bucket
    (@life github_model demo_provider []).

(** The enrolled client gets the token; a client unknown to the tables gets
    the same first answer and nothing else. *)
Lemma demo_connection_runs :
  ((λ e, EventKind_display (ev_kind e)) <$> c_log (demo_connection demo_tables).1) = [B "accept"; B "mint"] ∧
  c_mints (demo_connection demo_tables).1 = [(B "github.com", B "Octo/Hello")] ∧
  length <$> c_out (demo_connection demo_tables).1 = [50; 87]%nat ∧
  ((λ e, EventKind_display (ev_kind e)) <$> c_log (demo_connection (MkMem PskStore_new ∅)).1) = [B "identity_unknown"; B "mint_denied"] ∧
  length <$> c_out (demo_connection (MkMem PskStore_new ∅)).1 = [50]%nat.
Proof. by vm_compute. Qed.

(** ** Witnesses *)

Definition demo_conn : @Conn noise_model GState := (demo_connection demo_tables).1.

Lemma demo_connection_eq :
  @handle_connection noise_model () GState demo_text (demo_env demo_tables) demo_wire [] conn_bucket
    (@life github_model demo_provider []) = (demo_conn, Some Return).
Proof. by vm_compute. Qed.

Lemma demo_laws :
  Forall (@ProviderLaws () GState (@github_inv github_model demo_provider) (@scoped_credential github_model demo_provider))
    (ce_providers (demo_env demo_tables)).
Proof. apply Forall_singleton, (@github_laws github_model). Qed.

Lemma broker_credential_witness :
  (∃ e, e ∈ c_log demo_conn ∧ ev_kind e = Ev_Mint) ∧
  ∃ hs0 out1 out2, c_out demo_conn = [out1; out2] ∧
    @minted_ok noise_model () GState (@scoped_credential github_model demo_provider) (demo_env demo_tables) hs0 demo_wire
      demo_conn out1 out2.
Proof.
  assert (∃ e, e ∈ c_log demo_conn ∧ ev_kind e = Ev_Mint) as He.
  { eexists. split; [apply list_elem_of_lookup; exists 1%nat; by vm_compute|done]. }
  split; [exact He|].
  destruct (@broker_credential noise_model github_model demo_text demo_provider (demo_env demo_tables) [] demo_wire []
    conn_bucket demo_conn (Some Return)) as [_ H]; [reflexivity|exact demo_connection_eq|].
  destruct (H He) as (hs0 & out1 & out2 & _ & Ho & Hm). exists hs0, out1, out2. split; [exact Ho|exact Hm].
Defined.

Lemma connection_authorised_witness :
  ∃ hs0, @mint_ok noise_model () GState (demo_env demo_tables) hs0 demo_wire demo_conn (B "github.com") (B "Octo/Hello").
Proof.
  destruct (@connection_authorised noise_model () GState demo_text _ _ (demo_env demo_tables) demo_wire [] conn_bucket
    (@life github_model demo_provider []) demo_conn (Some Return) demo_laws (life_inv demo_provider []) demo_connection_eq) as [_ H].
  destruct (H (B "github.com") (B "Octo/Hello")) as (hs0 & _ & Hm); [|exists hs0; exact Hm].
  apply list_elem_of_lookup. exists 0%nat. by vm_compute.
Defined.

Lemma connection_ends_witness :
  ∃ before e, c_log demo_conn = before ++ [e] ∧ Forall (λ e, closing e = false) before ∧ closing e = true.
Proof.
  destruct (@connection_ends noise_model () GState demo_text _ _ (demo_env demo_tables) demo_wire [] conn_bucket
    (@life github_model demo_provider []) demo_conn (Some Return) demo_laws (life_inv demo_provider []) demo_connection_eq) as (_ & _ & _ & before & e & H1 & H2 & H3 & _).
  exists before, e. split; [exact H1|]. split; [exact H2|exact H3].
Defined.

Lemma read_exact_n_witness :
  arriving [Segment x01 []; Segment x02 [x03]] = [x01; x02; x03] ++ arriving [] ∧ 2 <= len [x01; x02; x03] < 2 * 2.
Proof.
  destruct (read_exact_n_spec 2 [Segment x01 []; Segment x02 [x03]] [x01; x02; x03] []) as (H1 & H2 & _);
    [lia|by vm_compute|]. split; [exact H1|exact H2].
Defined.

(** A connection that has just read the identity of a client nobody enrolled. *)
Definition demo_need_psk : @Conn noise_model GState :=
  @MkConn noise_model GState (@R_NeedPsk noise_model demo_hs1 demo_id) None None [] [] conn_bucket gs_new [] [] [].

