(* ===== verification/Client.v ===== *)
(** * The git helper: [src/bin/git_credential_symbolon.rs]

    Arguments, the key file, the connection attempts and the loop that drives
    an [Initiator] over a blocking socket.  The standard streams, the files
    and the network are given per run ([ClientEnv]). *)

From S2P Require Import Prelude Identity Psk AtomicFs Transport.

(** ** [str::trim] *)

(** [char::is_whitespace]: the Unicode property White_Space. *)
Definition is_whitespace (c : Z) : bool :=
  ((9 <=? c) && (c <=? 13)) || (c =? 32) || (c =? 133) || (c =? 160) || (c =? 5760) ||
  ((8192 <=? c) && (c <=? 8202)) || (c =? 8232) || (c =? 8233) || (c =? 8239) || (c =? 8287) || (c =? 12288).

(** The characters of a string with the offsets where they start and end. *)
Fixpoint spans (cs : list (Z * Z)) (total : Z) : list (Z * Z * Z) :=
  match cs with
  | [] => []
  | [(o, c)] => [(o, total, c)]
  | (o, c) :: ((o', _) :: _) as cs' => (o, o', c) :: spans cs' total
  end.

Definition str_trim (s : bytes) : bytes :=
  match char_indices s with
  | Err _ => s
  | Ok cs =>
      let kept := filter (λ x, is_whitespace x.2 = false) (spans cs (len s)) in
      match head kept, last kept with
      | Some (a, _, _), Some (_, e, _) => take (Z.to_nat (e - a)) (drop (Z.to_nat a) s)
      | _, _ => []
      end
  end.

(** ** Errors and input *)

Section client.
Context {NZ : Noise} {HX : HexCodec}.

Inductive ClientError :=
| C_ReadKeyFile (path : bytes) (e : IoError)
| C_BadKeyFile (path detail : bytes)
| C_Resolve (endpoint : bytes) (e : IoError)
| C_Connect (endpoint : bytes) (e : IoError)
| C_SetTimeout (e : IoError)
| C_ReadStdin (e : IoError)
| C_WriteStdout (e : IoError)
| C_WriteHandshake (e : IoError)
| C_ReadHandshake (e : IoError)
| C_Session (e : SessionError)
| C_BadIdentity (raw : bytes) (e : IdentityError).

Record Args := MkArgs { a_endpoint : bytes; a_identity : bytes; a_key_file : bytes; a_action : bytes }.

(** A connected socket: the bytes that will arrive before the peer closes or
    the read timeout strikes, and the results of the coming writes (when they
    are used up, writes succeed). *)
Record Socket := MkSocket { so_in : bytes; so_writes : list (option IoError) }.

Record ClientEnv := MkClientEnv {
  cl_key_file : result IoError bytes;                     (* std::fs::read *)
  cl_stdin : result IoError bytes;
  cl_resolve : result IoError (list (result IoError Socket));  (* to_socket_addrs, one attempt per address *)
  cl_timeouts : result IoError ();                        (* the two set_*_timeout calls *)
  cl_stdout : option (nat * IoError);                     (* the write to stdout: the bytes it got out before it failed *)
  cl_seed : Z;                                            (* randomness of the handshake *)
}.

(** [std::fs::read_to_string]: not UTF-8 is an [InvalidData] error. *)
Definition read_to_string (content : result IoError bytes) : result IoError bytes :=
  b ← content; map_err (λ _, Io_Other) (from_utf8 b).

Definition load_key_file (path : bytes) (content : result IoError bytes) : result ClientError (BrokerPublicKey * Psk) :=
  text ← map_err (C_ReadKeyFile path) (read_to_string content);
  let malformed detail := C_BadKeyFile path detail in
  '(pub_hex, psk_hex) ← ok_or (malformed (B "expected `broker_pub_hex:psk_hex`")) (split_once x3a (str_trim text));
  broker_pub ← map_err (λ _, malformed (B "broker public key half is not 64 hex chars")) (BrokerPublicKey_from_hex pub_hex);
  psk ← map_err (λ _, malformed (B "PSK half is not 64 hex chars")) (Psk_from_hex psk_hex);
  Ok (broker_pub, psk).

(** The first address that answers, else the last error. *)
Fixpoint connect_loop (endpoint : bytes) (attempts : list (result IoError Socket)) (last_err : option IoError) :
    result ClientError Socket :=
  match attempts with
  | [] => Err (C_Connect endpoint (default Io_NotFound last_err))
  | Ok s :: _ => Ok s
  | Err e :: attempts' => connect_loop endpoint attempts' (Some e)
  end.

Definition connect (endpoint : bytes) (addrs : result IoError (list (result IoError Socket))) : result ClientError Socket :=
  addrs ← map_err (C_Resolve endpoint) addrs;
  connect_loop endpoint addrs None.

(** ** The driver *)

(** One iteration: another round, or the end.  [sent] are the writes so far. *)
Inductive DriveStep := Drive_more (i : IState) (so : Socket) (sent : list bytes) | Drive_end (sent : list bytes) (r : result ClientError bytes).

Definition drive_turn (i : IState) (so : Socket) (sent : list bytes) : DriveStep :=
  match Initiator_step i with
  | (_, Err e) => Drive_end sent (Err (C_Session e))
  | (i, Ok (Step_ReadExact n)) =>
      if len (so_in so) <? n then Drive_end sent (Err (C_ReadHandshake Io_Other))
      else
        let so' := MkSocket (drop (Z.to_nat n) (so_in so)) (so_writes so) in
        match Initiator_recv i (take (Z.to_nat n) (so_in so)) with
        | (i, Ok _) => Drive_more i so' sent
        | (_, Err e) => Drive_end sent (Err (C_Session e))
        end
  | (i, Ok (Step_Write out)) =>
      match head (so_writes so) with
      | Some (Some e) => Drive_end sent (Err (C_WriteHandshake e))
      | _ =>
          let so' := MkSocket (so_in so) (tail (so_writes so)) in
          match Initiator_wrote i with
          | (i, Ok _) => Drive_more i so' (sent ++ [out])
          | (_, Err e) => Drive_end (sent ++ [out]) (Err (C_Session e))
          end
      end
  | (i, Ok Step_Done) => Drive_end sent (map_err C_Session (take_response i))
  | (_, Ok (Step_NeedPsk _)) | (_, Ok (Step_Request _)) =>
      Drive_end sent (Err (C_Session (S_WrongState (B "drive") (B "unexpected_initiator_step"))))
  end.

(** The loop, [None] when the fuel is used up. *)
Fixpoint drive (fuel : nat) (i : IState) (so : Socket) (sent : list bytes) : list bytes * option (result ClientError bytes) :=
  match fuel with
  | O => (sent, None)
  | S fuel' =>
      match drive_turn i so sent with
      | Drive_more i so sent => drive fuel' i so sent
      | Drive_end sent r => (sent, Some r)
      end
  end.

Definition DRIVE_FUEL : nat := 7.

(** ** [run] and [main] *)

(** What a run leaves: the frames sent and the bytes written to stdout. *)
Record ClientRun := MkClientRun { cr_sent_frames : list bytes; cr_stdout : bytes; cr_result : option (result ClientError ()) }.

Definition fail (e : ClientError) : ClientRun := MkClientRun [] [] (Some (Err e)).

(** What [run] does before it opens the socket. *)
Definition run_setup (args : Args) (env : ClientEnv) : result ClientError IState :=
  identity ← map_err (C_BadIdentity (a_identity args)) (Identity_parse (a_identity args));
  '(broker_pub, psk) ← load_key_file (a_key_file args) (cl_key_file env);
  request ← map_err C_ReadStdin (cl_stdin env);
  map_err C_Session (Initiator_new (cl_seed env) identity psk broker_pub request).

Definition run_connect (args : Args) (env : ClientEnv) : result ClientError Socket :=
  stream ← connect (a_endpoint args) (cl_resolve env);
  _ ← map_err C_SetTimeout (cl_timeouts env);
  Ok stream.

Definition client_run (args : Args) (env : ClientEnv) : ClientRun :=
  match run_setup args env with
  | Err e => fail e
  | Ok sess =>
      match run_connect args env with
      | Err e => fail e
      | Ok stream =>
          let '(sent, r) := drive DRIVE_FUEL sess stream [] in
          match r with
          | None => MkClientRun sent [] None
          | Some (Err e) => MkClientRun sent [] (Some (Err e))
          | Some (Ok response) =>
              match cl_stdout env with
              | None => MkClientRun sent response (Some (Ok ()))
              | Some (n, e) => MkClientRun sent (take n response) (Some (Err (C_WriteStdout e)))
              end
          end
      end
  end.

(** [main]: the exit code and the output; [None] if the driver does not end. *)
Definition client_main (args : Args) (env : ClientEnv) : option Z * bytes :=
  if decide (a_action args = B "get") then
    let r := client_run args env in
    (match cr_result r with Some (Ok _) => Some 0 | Some (Err _) => Some 1 | None => None end, cr_stdout r)
  else if decide (a_action args = B "capability") then
    let text := B "version 0" ++ [x0a] ++ B "capability authtype" ++ [x0a] in
    match cl_stdout env with
    | None => (Some 0, text)
    | Some (n, _) => (Some 1, take n text)
    end
  else (Some 0, []).

(** ** Lemmas *)

(** [trim] on a visible ASCII line. *)
Fixpoint ascii_spans (off : Z) (l : bytes) : list (Z * Z * Z) :=
  match l with [] => [] | b :: l => (off, off + 1, u8 b) :: ascii_spans (off + 1) l end.

Fixpoint ascii_chars (off : Z) (l : bytes) : list (Z * Z) :=
  match l with [] => [] | b :: l => (off, u8 b) :: ascii_chars (off + 1) l end.

Lemma utf8_chars_ascii_Ok off l : Forall (λ b, u8 b < 128) l → utf8_chars off l = Ok (ascii_chars off l).
Proof.
  intros Hl. revert off. induction Hl as [|b l Hb _ IH]; intros off; cbn [utf8_chars ascii_chars]; [done|].
  replace (u8 b <? 128) with true by lia. by rewrite IH.
Qed.

Lemma spans_ascii off l : spans (ascii_chars off l) (off + len l) = ascii_spans off l.
Proof.
  revert off. induction l as [|b l IH]; intros off; [done|]. cbn [ascii_spans]. rewrite <-IH, len_cons.
  destruct l as [|b' l].
  - done.
  - cbn [ascii_chars spans]. f_equal. replace (off + (len (b' :: l) + 1)) with (off + 1 + len (b' :: l)) by lia. done.
Qed.

Lemma ascii_spans_app off l k : ascii_spans off (l ++ k) = ascii_spans off l ++ ascii_spans (off + len l) k.
Proof.
  revert off. induction l as [|b l IH]; intros off; cbn [app ascii_spans].
  - by rewrite len_nil, Z.add_0_r.
  - rewrite IH, len_cons. do 2 f_equal. f_equal. lia.
Qed.

Definition visible (b : byte) : bool := (33 <=? u8 b) && (u8 b <? 127).

Lemma visible_not_ws b : visible b = true → is_whitespace (u8 b) = false.
Proof. unfold visible, is_whitespace. intros H. lia. Qed.

Lemma filter_visible off l :
  Forall (λ b, visible b = true) l → filter (λ x, is_whitespace x.2 = false) (ascii_spans off l) = ascii_spans off l.
Proof.
  intros Hl. revert off. induction Hl as [|b l Hb _ IH]; intros off; [done|]. cbn [ascii_spans].
  rewrite filter_cons_True; [by rewrite IH|]. by apply visible_not_ws.
Qed.

Lemma str_trim_line l : Forall (λ b, visible b = true) l → str_trim (l ++ [x0a]) = l.
Proof.
  intros Hl. unfold str_trim, char_indices. rewrite utf8_chars_ascii_Ok.
  2:{ apply Forall_app. split; [|by repeat constructor]. eapply Forall_impl; [exact Hl|]. unfold visible. intros b Hb. lia. }
  pose proof (spans_ascii 0 (l ++ [x0a])) as Hs. rewrite Z.add_0_l in Hs. rewrite Hs, ascii_spans_app, filter_app, filter_visible by done.
  cbv zeta. change (filter _ (ascii_spans (0 + len l) [x0a])) with (@nil (Z * Z * Z)). rewrite app_nil_r.
  destruct l as [|b l _] using rev_ind; [done|].
  assert (head (ascii_spans 0 (l ++ [b])) = Some (0, 0 + 1, u8 (default b (head l)))) as ->; [by destruct l|].
  rewrite ascii_spans_app. cbn [ascii_spans]. rewrite last_snoc, Z.sub_0_r.
  replace (Z.to_nat (0 + len l + 1)) with (length (l ++ [b])) by (rewrite length_app; cbn; unfold len; lia).
  by rewrite drop_0, take_app_length.
Qed.

(** *** The driver *)

(** The position of a loop-head state of the initiator. *)
Definition drive_pos (i : IState) : nat :=
  match i with
  | I_WriteHs1 _ _ _ => 0
  | I_WantHs2Len _ _ => 1
  | I_WantHs2Body _ _ _ => 2
  | I_WriteReq _ _ => 3
  | I_WantRespLen _ => 4
  | I_WantRespBody _ _ => 5
  | _ => 6
  end.

Lemma i_or_failed_Ok r i u : i_or_failed r = (i, Ok u) → r = Ok i.
Proof. destruct r; cbn; congruence. Qed.

(** A turn that goes on advances by one position. *)
Lemma drive_turn_more i so sent i' so' sent' :
  drive_turn i so sent = Drive_more i' so' sent' → drive_pos i' = S (drive_pos i).
Proof.
  unfold drive_turn. destruct i; cbn [Initiator_step Initiator_wrote drive_pos]; try done.
  all: repeat case_match; try done; intros [= <- <- <-]; try done.
  all: repeat match goal with H : Initiator_recv _ _ = _ |- _ => cbn [Initiator_recv] in H; apply i_or_failed_Ok in H; inv_ok end; done.
Qed.

Lemma drive_ends fuel i so sent : (6 < fuel + drive_pos i)%nat → ∃ sent' r, drive fuel i so sent = (sent', Some r).
Proof.
  revert i so sent. induction fuel as [|fuel IH]; intros i so sent Hf.
  { destruct i; cbn in Hf; lia. }
  cbn [drive]. destruct (drive_turn i so sent) as [i' so' sent'|sent' r] eqn:E; [|by eauto].
  apply IH. apply drive_turn_more in E. lia.
Qed.

(** What a driver that returns [p] has read and sent, from each state on. *)
Definition reads_reply (ts : TransportState) (stream p : bytes) : Prop :=
  ∃ c2 f4 ts2 rest, frame c2 = Ok f4 ∧ stream = f4 ++ rest ∧ ts_read_message ts c2 = Ok (ts2, p).

Definition exchanges (hs : HandshakeState) (request m2 stream p out : bytes) : Prop :=
  ∃ hs' p2 ts ts1 c1, hs_read_message hs m2 = Ok (hs', p2) ∧ into_transport_mode hs' = Ok ts ∧
    ts_write_message ts request = Ok (ts1, c1) ∧ frame c1 = Ok out ∧ reads_reply ts1 stream p.

Definition reads_msg2 (hs : HandshakeState) (request stream p out : bytes) : Prop :=
  ∃ m2 f2 rest, frame m2 = Ok f2 ∧ stream = f2 ++ rest ∧ exchanges hs request m2 rest p out.

Definition obtains (i : IState) (stream : bytes) (sent : list bytes) (p : bytes) (sent' : list bytes) : Prop :=
  match i with
  | I_WriteHs1 hs msg1 request => ∃ out, reads_msg2 hs request stream p out ∧ sent' = sent ++ [msg1; out]
  | I_WantHs2Len hs request => ∃ out, reads_msg2 hs request stream p out ∧ sent' = sent ++ [out]
  | I_WantHs2Body hs n request =>
      ∃ m2 rest out, len m2 = n ∧ stream = m2 ++ rest ∧ exchanges hs request m2 rest p out ∧ sent' = sent ++ [out]
  | I_WriteReq ts out => reads_reply ts stream p ∧ sent' = sent ++ [out]
  | I_WantRespLen ts => reads_reply ts stream p ∧ sent' = sent
  | I_WantRespBody ts n => ∃ c2 ts2 rest, len c2 = n ∧ stream = c2 ++ rest ∧ ts_read_message ts c2 = Ok (ts2, p) ∧ sent' = sent
  | I_Done q => q = p ∧ sent' = sent
  | _ => False
  end.

Lemma drive_turn_end i so sent sent' p : drive_turn i so sent = Drive_end sent' (Ok p) → i = I_Done p ∧ sent' = sent.
Proof.
  unfold drive_turn. destruct i; cbn [Initiator_step Initiator_wrote take_response map_err]; repeat case_match; try done.
  by intros [= <- <-].
Qed.

Lemma drive_turn_read i n so sent i' so' sent' :
  drive_turn i so sent = Drive_more i' so' sent' → Initiator_step i = (i, Ok (Step_ReadExact n)) →
  ∃ bs, so_in so = bs ++ so_in so' ∧ Initiator_recv i bs = (i', Ok ()) ∧ sent' = sent.
Proof.
  intros Ht Hs. revert Ht. unfold drive_turn. rewrite Hs. destruct (len (so_in so) <? n) eqn:El; [done|].
  destruct (Initiator_recv i _) as [j [[]|]] eqn:Er; [|done]. intros [= <- <- <-].
  exists (take (Z.to_nat n) (so_in so)). cbn. by rewrite take_drop.
Qed.

Lemma drive_turn_write i i1 out so sent i' so' sent' :
  drive_turn i so sent = Drive_more i' so' sent' → Initiator_step i = (i1, Ok (Step_Write out)) →
  so_in so' = so_in so ∧ Initiator_wrote i1 = (i', Ok ()) ∧ sent' = sent ++ [out].
Proof.
  intros Ht Hs. revert Ht. unfold drive_turn. rewrite Hs. destruct (head (so_writes so)) as [[e|]|]; [done| |];
    destruct (Initiator_wrote i1) as [j [[]|]]; try done; by intros [= <- <- <-].
Qed.

Lemma recv_hs2_len_Ok hs q bs i' :
  Initiator_recv (I_WantHs2Len hs q) bs = (i', Ok ()) → ∃ hi lo, bs = [hi; lo] ∧ i' = I_WantHs2Body hs (from_be_u16 hi lo) q.
Proof.
  intros Hr%i_or_failed_Ok. inv_ok. rewrite read_frame_length_Ok in *. unfold lift in *. inv_ok.
  match goal with H : recv_chunk _ = _ |- _ => apply recv_chunk_Ok in H as -> end. eauto.
Qed.

Lemma recv_resp_len_Ok ts bs i' :
  Initiator_recv (I_WantRespLen ts) bs = (i', Ok ()) → ∃ hi lo, bs = [hi; lo] ∧ i' = I_WantRespBody ts (from_be_u16 hi lo).
Proof.
  intros Hr%i_or_failed_Ok. inv_ok. rewrite read_frame_length_Ok in *. unfold lift in *. inv_ok.
  match goal with H : recv_chunk _ = _ |- _ => apply recv_chunk_Ok in H as -> end. eauto.
Qed.

Lemma obtains_turn i so sent i' so' sent' p sent'' :
  drive_turn i so sent = Drive_more i' so' sent' → obtains i' (so_in so') sent' p sent'' → obtains i (so_in so) sent p sent''.
Proof.
  intros Ht. destruct i; try done.
  - edestruct drive_turn_write as (E & Hw & ->); [exact Ht|reflexivity|]. rewrite E. injection Hw as <-. intros (out & Hr & ->). exists out. by rewrite <-(assoc_L (++)).
  - edestruct drive_turn_read as (bs & E & Hr & ->); [exact Ht|reflexivity|]. rewrite E. apply recv_hs2_len_Ok in Hr as (hi & lo & -> & ->).
    intros (m2 & rest & out & Hl & -> & Hx & ->). exists out. split; [|done].
    exists m2, ([hi; lo] ++ m2), rest. split; [by apply frame_of|done].
  - edestruct drive_turn_read as (bs & E & Hr & ->); [exact Ht|reflexivity|]. rewrite E. apply i_or_failed_Ok in Hr. inv_ok.
    match goal with H : check_recv_len _ _ = _ |- _ => apply check_recv_len_Ok in H as Hlen end.
    unfold lift, handshake_read, into_transport, transport_write in *. inv_ok.
    intros [Hr ->]. eexists bs, (so_in so'), _. split_and!; [done..| |done]. eexists _, _, _, _, _. by split_and!.
  - edestruct drive_turn_write as (E & Hw & ->); [exact Ht|reflexivity|]. rewrite E. injection Hw as <-. intros (Hr & ->). done.
  - edestruct drive_turn_read as (bs & E & Hr & ->); [exact Ht|reflexivity|]. rewrite E. apply recv_resp_len_Ok in Hr as (hi & lo & -> & ->).
    intros (c2 & ts2 & rest & Hl & -> & Hx & ->). split; [|done].
    exists c2, ([hi; lo] ++ c2), ts2, rest. split; [by apply frame_of|done].
  - edestruct drive_turn_read as (bs & E & Hr & ->); [exact Ht|reflexivity|]. rewrite E. apply i_or_failed_Ok in Hr. inv_ok.
    match goal with H : check_recv_len _ _ = _ |- _ => apply check_recv_len_Ok in H as Hlen end.
    unfold lift, transport_read in *. inv_ok. intros [-> ->]. by eexists bs, _, (so_in so').
Qed.

Lemma drive_obtains fuel i so sent sent' p :
  drive fuel i so sent = (sent', Some (Ok p)) → obtains i (so_in so) sent p sent'.
Proof.
  revert i so sent. induction fuel as [|fuel IH]; intros i so sent; cbn [drive]; [done|].
  destruct (drive_turn i so sent) as [i' so1 sent1|sent1 r] eqn:E.
  - intros H. eapply obtains_turn; [done|by apply IH].
  - intros [= -> ->]. apply drive_turn_end in E as [-> ->]. done.
Qed.

(** *** The key file *)

Lemma lower_hex_visible b : lower_hex b = true → visible b = true.
Proof. byte_cases b. Qed.

(** What [--key-file] holds when it was written from these keys. *)
Definition key_line (pub : BrokerPublicKey) (psk : Psk) : bytes :=
  BrokerPublicKey_to_string pub ++ [x3a] ++ Psk_lower_hex psk.

Lemma visible_ascii l : Forall (λ b, visible b = true) l → Forall (λ b, u8 b < 128) l.
Proof. intros H. eapply Forall_impl; [exact H|]. unfold visible. intros b Hb. lia. Qed.

Section load.
Context {HXL : HexLaws}.

Lemma key_file_load path pub psk :
  len (pub_bytes pub) = BrokerPrivateKey_LEN → Psk_ok psk →
  load_key_file path (Ok (key_line pub psk ++ [x0a])) = Ok (pub, psk).
Proof.
  intros Hpub Hpsk. assert (Forall (λ b, visible b = true) (key_line pub psk)) as Hv.
  { unfold key_line. repeat (apply Forall_app; split); [|by repeat constructor|];
      (eapply Forall_impl; [apply hex_encode_charset|]); intros; by apply lower_hex_visible. }
  unfold load_key_file, read_to_string. cbn [mbind result_bind].
  rewrite from_utf8_ascii by (apply Forall_app; split; [by apply visible_ascii|by repeat constructor]).
  cbn [map_err mbind result_bind]. rewrite str_trim_line by done.
  assert (split_once x3a (key_line pub psk) = Some (BrokerPublicKey_to_string pub, Psk_lower_hex psk)) as ->.
  { apply split_once_Some. split; [done|]. intros Hin. pose proof (hex_encode_charset (pub_bytes pub)) as Hc.
    rewrite Forall_forall in Hc. apply Hc in Hin. done. }
  cbn [ok_or mbind result_bind]. unfold BrokerPublicKey_from_hex, BrokerPublicKey_to_string.
  rewrite <-Hpub, hex_decode_encode. cbn [fmap result_fmap map_err mbind result_bind].
  rewrite Psk_hex_roundtrip by done. by destruct pub.
Qed.

End load.

(** What a successful [get] went through. *)
Lemma client_get_inv args env out :
  a_action args = B "get" → client_main args env = (Some 0, out) →
  ∃ sess so sent, run_setup args env = Ok sess ∧ run_connect args env = Ok so ∧
    drive DRIVE_FUEL sess so [] = (sent, Some (Ok out)).
Proof.
  intros Ha. unfold client_main. rewrite Ha, decide_True by done. unfold client_run.
  destruct (run_setup args env) as [sess|] eqn:Es; [|done].
  destruct (run_connect args env) as [so|] eqn:Ec; [|done].
  destruct (drive DRIVE_FUEL sess so []) as [sent [[p|]|]] eqn:Ed; [|done..].
  destruct (cl_stdout env) as [[]|]; cbn [cr_result cr_stdout]; [done|]. intros [= <-]. by exists sess, so, sent.
Qed.

Lemma Initiator_new_shape seed id psk pub request i :
  Initiator_new seed id psk pub request = Ok i → ∃ hs msg1, i = I_WriteHs1 hs msg1 request.
Proof. unfold Initiator_new. intros H. inv_ok. eauto. Qed.

(** ** Properties *)

(** The helper always ends.  Whatever the arguments, the files and the
    broker on the other end of the socket do, the process exits with code 0 or
    1; when it fails it prints nothing on stdout (so git reads no half-written
    credential) unless stdout itself failed, and actions other than [get] and
    [capability] succeed silently. *)
Theorem client_main_total args env :
  ∃ code out, client_main args env = (Some code, out) ∧ (code = 0 ∨ code = 1) ∧
    (code = 1 → cl_stdout env = None → out = []) ∧
    (a_action args ≠ B "get" → a_action args ≠ B "capability" → code = 0 ∧ out = []).
Proof.
  unfold client_main. destruct (decide (a_action args = B "get")) as [Hg|Hg].
  - unfold client_run. destruct (run_setup args env) as [sess|]; [|exists 1, []; split_and!; auto; intros; done].
    destruct (run_connect args env) as [so|]; [|exists 1, []; split_and!; auto; intros; done].
    destruct (drive_ends DRIVE_FUEL sess so []) as (sent & r & Ed); [unfold DRIVE_FUEL; lia|]. rewrite Ed.
    destruct r as [p|]; [|exists 1, []; split_and!; auto; intros; done].
    destruct (cl_stdout env) as [[]|]; eexists _, _; (split; [reflexivity|]); split_and!; auto; intros; done.
  - destruct (decide (a_action args = B "capability")) as [Hc|Hc]; [|by exists 0, []; auto].
    destruct (cl_stdout env) as [[]|]; eexists _, _; (split; [reflexivity|]); split_and!; auto; intros; done.
Qed.

(** C25: what the helper prints is what the broker's session decrypts to.  When
    [get] succeeds, its output is the plaintext of a frame read from the
    socket, decrypted in the Noise session keyed with the broker public key and
    the PSK of the key file and opened for the given identity, in which the
    bytes of stdin were sent as the request; and nothing but the two frames of
    that session was sent. *)
Theorem client_response_authentic args env out :
  a_action args = B "get" → client_main args env = (Some 0, out) →
  ∃ id pub psk request hs msg1 so frame2,
    Identity_parse (a_identity args) = Ok id ∧ load_key_file (a_key_file args) (cl_key_file env) = Ok (pub, psk) ∧
    cl_stdin env = Ok request ∧ Initiator_new (cl_seed env) id psk pub request = Ok (I_WriteHs1 hs msg1 request) ∧
    run_connect args env = Ok so ∧ reads_msg2 hs request (so_in so) out frame2 ∧
    cr_sent_frames (client_run args env) = [msg1; frame2].
Proof.
  intros Ha Hm. destruct (client_get_inv _ _ _ Ha Hm) as (sess & so & sent & Hs & Hc & Hd).
  unfold client_run. rewrite Hs, Hc, Hd.
  apply drive_obtains in Hd. unfold run_setup in Hs. inv_ok.
  match goal with H : Initiator_new _ _ _ _ _ = Ok _ |- _ => pose proof (Initiator_new_shape _ _ _ _ _ _ H) as (hs & msg1 & ->) end.
  destruct Hd as (out1 & Hr & ->). eexists _, _, _, _, hs, msg1, so, out1. split_and!; try done.
  by destruct (cl_stdout env) as [[]|].
Qed.


Context {HXL : HexLaws}.

(** The key file round trip.  The line [broker_pub_hex:psk_hex] rendered
    from a broker key and a PSK, with its newline, loads as exactly those keys. *)
Lemma key_file_roundtrip path pub psk :
  len (pub_bytes pub) = BrokerPrivateKey_LEN → Psk_ok psk →
  load_key_file path (Ok (key_line pub psk ++ [x0a])) = Ok (pub, psk).
Proof. apply key_file_load. Qed.

End client.
