(* ===== verification/EndToEnd.v ===== *)
(** * The two programs together

    The git helper of [Client] talking to the daemon's [handle_connection] of
    [Connection], over a wire that delivers each frame in one segment: an
    enrolled client whose request the provider grants gets the answer on its
    stdout, byte for byte, and both programs end. *)

From S2P Require Import Prelude Identity Psk GitCredential Transport RateLimit AtomicFs State Github Events Connection Broker Client.

Section end_to_end.
Context {NZ : Noise} {HX : HexCodec} {H St : Type} {LT : LogText H}.

Lemma conn_loop_S fuel (env : @ConnEnv H St) c c' r :
  conn_turn env c = (c', Continue) → conn_loop fuel env c' = r → conn_loop (S fuel) env c = r.
Proof. intros Ht Hl. cbn [conn_loop]. by rewrite Ht. Qed.

Lemma drive_S fuel i so sent i' so' sent' r :
  drive_turn i so sent = Drive_more i' so' sent' → drive fuel i' so' sent' = r → drive (S fuel) i so sent = r.
Proof. intros Ht Hl. cbn [drive]. by rewrite Ht. Qed.

(** A read that is satisfied by the first bytes queued. *)
Lemma conn_turn_read (env : @ConnEnv H St) s cl rec a b wire ws bu st o l m s' :
  Responder_step s = (s, Ok (Step_ReadExact (len a))) → Responder_recv s a = (s', Ok ()) →
  conn_turn env (MkConn s cl rec (segment (a ++ b) ++ wire) ws bu st o l m)
  = (MkConn s' cl rec (segment b ++ wire) ws bu st o l m, Continue).
Proof.
  intros Hs Hr. unfold conn_turn. cbn [c_sess]. rewrite Hs. unfold arm_read.
  cbn [c_sess c_wire c_set_sess]. rewrite read_exact_n_segment. cbn [c_sess c_set_wire c_set_sess]. by rewrite Hr.
Qed.

Lemma drive_turn_reads i i' a rest ws sent :
  Initiator_step i = (i, Ok (Step_ReadExact (len a))) → Initiator_recv i a = (i', Ok ()) →
  drive_turn i (MkSocket (a ++ rest) ws) sent = Drive_more i' (MkSocket rest ws) sent.
Proof.
  intros Hs Hr. unfold drive_turn. rewrite Hs. cbn [so_in so_writes].
  rewrite len_ltb_app, len_to_nat, take_app_length, drop_app_length. by rewrite Hr.
Qed.

(** The answer of an authorised client's request, granted by its provider. *)
Definition grants (env : @ConnEnv H St) (request : bytes) (st : St) (answer : bytes) : Prop :=
  ∃ req n provider st' out, len request <= WIRE_READ_BUDGET ∧ Request_parse request = Ok req ∧
    list_find (λ p, pr_host p = host req) (ce_providers env) = Some (n, provider) ∧
    pr_mint provider (path req) st = (st', Ret (Ok out)) ∧ 0 <= password_expiry_utc (mo_response out) ∧
    Response_encode (mo_response out) (client_supports_authtype req) [] = Some answer.

(** The messages of one run, given. *)
Section run.
Context (env : @ConnEnv H St) (id : Identity) (psk : Psk) (request answer : bytes) (st : St) (bucket : TokenBucket).
Context (i1 i2 r0 r1 r2 r3 : HandshakeState) (ti ti1 ti2 tr tr1 tr2 : TransportState).
Context (m1 m2 p2 c1 c2 : bytes) (h1 l1 h2 l2 h3 l3 h4 l4 : byte).
Hypothesis Hid : Identity_ok id.
Hypothesis Hauth : auth (ce_mem env) !! id = Some psk.
Hypothesis Hgrant : grants env request st answer.
Hypothesis (L1 : read_frame_length h1 l1 = Ok (len m1)).
Hypothesis (F2 : frame m2 = Ok (h2 :: l2 :: m2)) (L2 : read_frame_length h2 l2 = Ok (len m2)).
Hypothesis (F3 : frame c1 = Ok (h3 :: l3 :: c1)) (L3 : read_frame_length h3 l3 = Ok (len c1)).
Hypothesis (F4 : frame c2 = Ok (h4 :: l4 :: c2)) (L4 : read_frame_length h4 l4 = Ok (len c2)).
Hypothesis Er1 : hs_read_message r0 m1 = Ok (r1, encode_identity_tlv id).
Hypothesis Esp : hs_set_psk r1 PSK_SLOT (psk_bytes psk) = Ok r2.
Hypothesis Ew2 : hs_write_message r2 [] = Ok (r3, m2).
Hypothesis Er2 : hs_read_message i1 m2 = Ok (i2, p2).
Hypothesis (Etr : into_transport_mode r3 = Ok tr) (Eti : into_transport_mode i2 = Ok ti).
Hypothesis (Ec1 : ts_write_message ti request = Ok (ti1, c1)) (Ed1 : ts_read_message tr c1 = Ok (tr1, request)).
Hypothesis Ec2 : ts_write_message tr1 answer = Ok (tr2, c2).
Hypothesis Ed2 : ts_read_message ti1 c2 = Ok (ti2, answer).

Ltac crypto :=
  unfold lift, handshake_read, handshake_write, into_transport, transport_read, transport_write;
  repeat match goal with H : ?l = Ok _ |- context [?l] => progress rewrite H; cbn -[frame] end; done.

Lemma client_drives :
  drive DRIVE_FUEL (I_WriteHs1 i1 (h1 :: l1 :: m1) request) (MkSocket ((h2 :: l2 :: m2) ++ h4 :: l4 :: c2) []) []
  = ([h1 :: l1 :: m1; h3 :: l3 :: c1], Some (Ok answer)).
Proof.
  destruct (recv_len_arms _ _ _ L2) as (_ & _ & A2 & _), (recv_len_arms _ _ _ L4) as (_ & _ & _ & A4).
  eapply drive_S; [reflexivity|]. cbn [so_in so_writes tail app].
  eapply drive_S; [by apply (drive_turn_reads _ _ [h2; l2])|].
  eapply drive_S.
  { apply drive_turn_reads; [done|]. cbn [Initiator_recv]. rewrite check_recv_len_refl. cbn [mbind result_bind]. crypto. }
  eapply drive_S; [reflexivity|]. cbn [so_in so_writes tail app].
  eapply drive_S; [by apply (drive_turn_reads _ _ [h4; l4])|].
  eapply drive_S.
  { replace (MkSocket c2 []) with (MkSocket (c2 ++ []) []) by (by rewrite app_nil_r).
    apply drive_turn_reads; [done|]. cbn [Initiator_recv]. rewrite check_recv_len_refl. cbn [mbind result_bind]. crypto. }
  reflexivity.
Qed.

Lemma turn_psk wire :
  conn_turn env (MkConn (R_NeedPsk r1 id) None None wire [] bucket st [] [] [])
  = (MkConn (R_WriteHs r3 (h2 :: l2 :: m2)) (Some (as_str id)) None wire [] bucket st []
       [log_info Ev_Accept [(B "psk_identity", as_str id); (B "peer", ce_peer env)]] [], Continue).
Proof.
  apply auth_lookup in Hauth as [Hpsk [rc Hcl]].
  unfold conn_turn. cbn [c_sess Responder_step]. unfold arm_need_psk, choose_psk, PskStore_lookup. rewrite Hpsk, Hcl.
  unfold sess_call. cbn [c_sess c_set_sess c_emit c_set_client].
  by rewrite (Responder_set_psk_Ok _ _ _ _ _ _ Esp Ew2 F2).
Qed.

Lemma turn_write_msg2 wire log :
  conn_turn env (MkConn (R_WriteHs r3 (h2 :: l2 :: m2)) (Some (as_str id)) None wire [] bucket st [] log [])
  = (MkConn (R_WantReqLen tr) (Some (as_str id)) None wire [] bucket st [h2 :: l2 :: m2] log [], Continue).
Proof.
  unfold conn_turn. cbn [c_sess Responder_step c_set_sess]. unfold arm_write, sess_call.
  cbn [c_writes c_set_sess head tail c_sess c_wrote Responder_wrote]. unfold lift, into_transport. by rewrite Etr.
Qed.

Lemma turn_granted log :
  ∃ st' rec mints,
  conn_turn env (MkConn (R_HaveRequest tr1 request) (Some (as_str id)) None [] [] bucket st [h2 :: l2 :: m2] log [])
  = (MkConn (R_WriteResp (h4 :: l4 :: c2)) (Some (as_str id)) (Some rec) [] [] bucket st' [h2 :: l2 :: m2] log mints, Continue) ∧
  0 <= password_expiry_utc (mr_response rec).
Proof.
  destruct Hgrant as (req & n & provider & st' & out & Hb & Hp & Hf & Hm & He & Ha). do 3 eexists. split.
  2: match goal with |- 0 <= password_expiry_utc (mr_response ?r) => unify r (MkMintRecord (host req) (path req) (mo_response out) (mo_out_req_id out) (mo_provider_req_id out) (ce_provider_ms env)) end; exact He.
  unfold conn_turn. cbn [c_sess Responder_step c_set_sess]. unfold arm_request. cbn [c_client c_set_sess].
  replace (WIRE_READ_BUDGET <? len request) with false by lia. rewrite Hp, Hf. unfold mint_for. cbn [c_providers c_set_sess]. rewrite Hm.
  unfold answer_request. rewrite Ha. unfold sess_call. cbn [c_sess c_set_sess c_minted Responder_set_response].
  unfold lift, transport_write. rewrite Ec2. cbn [mbind result_bind map_err]. rewrite F4. reflexivity.
Qed.

Lemma turn_write_answer st' rec log mints :
  conn_turn env (MkConn (R_WriteResp (h4 :: l4 :: c2)) (Some (as_str id)) (Some rec) [] [] bucket st' [h2 :: l2 :: m2] log mints)
  = (MkConn R_Done (Some (as_str id)) (Some rec) [] [] bucket st' [h2 :: l2 :: m2; h4 :: l4 :: c2] log mints, Continue).
Proof. reflexivity. Qed.

Lemma daemon_serves :
  ∃ c, conn_loop CONN_FUEL env
         (MkConn (R_WantHsLen r0) None None (segment (h1 :: l1 :: m1) ++ segment (h3 :: l3 :: c1)) [] bucket st [] [] [])
       = (c, Some Return) ∧ c_out c = [h2 :: l2 :: m2; h4 :: l4 :: c2] ∧ ev_kind <$> last (c_log c) = Some Ev_Mint.
Proof.
  destruct (recv_len_arms _ _ _ L1) as (A1 & _), (recv_len_arms _ _ _ L3) as (_ & A3 & _).
  destruct (turn_granted [log_info Ev_Accept [(B "psk_identity", as_str id); (B "peer", ce_peer env)]]) as (st' & rec & mints & Htr & He).
  eexists. split.
  - eapply conn_loop_S; [by apply (conn_turn_read _ (R_WantHsLen r0) _ _ [h1; l1])|].
    eapply conn_loop_S.
    { rewrite <-(app_nil_r m1) at 2. apply conn_turn_read; [done|]. by apply Responder_recv_msg1. }
    eapply conn_loop_S; [apply turn_psk|].
    eapply conn_loop_S; [apply turn_write_msg2|].
    replace (segment [] ++ segment (h3 :: l3 :: c1)) with (segment ([h3; l3] ++ c1) ++ []) by (by rewrite app_nil_r).
    eapply conn_loop_S; [by apply conn_turn_read|].
    eapply conn_loop_S.
    { rewrite <-(app_nil_r c1) at 2. apply conn_turn_read; [done|]. cbn [Responder_recv]. rewrite check_recv_len_refl.
      cbn [mbind result_bind]. unfold lift, transport_read. rewrite Ed1. reflexivity. }
    eapply conn_loop_S; [apply Htr|]. eapply conn_loop_S; [apply turn_write_answer|].
    cbn [conn_loop]. unfold conn_turn. cbn [c_sess Responder_step c_set_sess]. unfold arm_done. cbn [c_client c_record c_set_sess].
    unfold password_expiry_unix_secs. replace (password_expiry_utc (mr_response rec) <? 0) with false by lia. reflexivity.
  - done.
Qed.

End run.

Context {NL : NoiseLaws} {HXL : HexLaws}.

(** The helper run as git runs it: [get], with the enrolled identity, the key
    file made from the broker's public key and the PSK, and a connection on
    which [incoming] arrives. *)
Definition helper_args (id : Identity) (endpoint key_path : bytes) : Args := MkArgs endpoint (as_str id) key_path (B "get").
Definition helper_env (key : BrokerPrivateKey) (psk : Psk) (request incoming : bytes) (seed : Z) : ClientEnv :=
  MkClientEnv (Ok (key_line (derive_public key) psk ++ [x0a])) (Ok request) (Ok [Ok (MkSocket incoming [])]) (Ok ()) None seed.

(** The whole system.  Take an enrolled identity, a client that holds its
    PSK and the broker's public key in a key file, and a request of at most
    8 KiB that parses, names the host of a configured provider and is granted
    by it.  Then the frames that the helper sends are the ones the daemon reads,
    the frames the daemon writes are the ones the helper reads; the daemon ends
    with the event [mint], and the helper exits with 0 having printed exactly
    the encoded credential. *)
Theorem end_to_end (env : @ConnEnv H St) id psk request answer st bucket si endpoint key_path :
  len (priv_bytes (ce_broker_key env)) = 32 → Psk_ok psk → Identity_ok id → auth (ce_mem env) !! id = Some psk →
  grants env request st answer → len answer <= MAX_MESSAGE_SIZE - 16 →
  ∃ f1 f2 o1 o2 c,
    handle_connection env (segment f1 ++ segment f2) [] bucket st = (c, Some Return) ∧
    c_out c = [o1; o2] ∧ ev_kind <$> last (c_log c) = Some Ev_Mint ∧
    let args := helper_args id endpoint key_path in
    let cenv := helper_env (ce_broker_key env) psk request (o1 ++ o2) si in
    cr_sent_frames (client_run args cenv) = [f1; f2] ∧ client_main args cenv = (Some 0, answer).
Proof.
  intros Hk Hp Hid Ha Hg Hans. assert (len request <= MAX_MESSAGE_SIZE - 16) as Hreq.
  { destruct Hg as (? & _ & _ & _ & _ & Hb & _). unfold WIRE_READ_BUDGET, MAX_MESSAGE_SIZE in *. lia. }
  destruct (handshake_completes si (ce_seed env) (priv_bytes (ce_broker_key env)) (psk_bytes psk) (encode_identity_tlv id))
    as (i0 & i1 & m1 & r0 & r1 & r2 & r3 & m2 & i2 & p2 & ti & tr & Ei & Ew1 & Er & Er1 & Esp & Ew2 & Er2 & Etr & Eti & Hlink);
    [done|done|by apply identity_tlv_fits|].
  destruct (channel_to_responder _ _ _ Hlink Hreq) as (ti1 & tr1 & c1 & Ec1 & Ed1 & Hlink1).
  destruct (channel_to_initiator _ _ _ Hlink1 Hans) as (ti2 & tr2 & c2 & Ec2 & Ed2 & _).
  destruct (frame_written _ _ _ _ Ew1) as (h1 & l1 & F1 & L1).
  destruct (frame_written _ _ _ _ Ew2) as (h2 & l2 & F2 & L2).
  destruct (frame_sealed _ _ _ _ Ec1) as (h3 & l3 & F3 & L3).
  destruct (frame_sealed _ _ _ _ Ec2) as (h4 & l4 & F4 & L4).
  edestruct (daemon_serves env id psk request answer st bucket r0 r1 r2 r3 tr tr1 tr2 m1 m2 c1 c2 h1 l1 h2 l2 h3 l3 h4 l4)
    as (c & Hloop & Hout & Hlast); [done..|].
  eexists (h1 :: l1 :: m1), (h3 :: l3 :: c1), _, _, c. split_and!; [|exact Hout|exact Hlast|].
  { unfold handle_connection. rewrite (Responder_new_Ok _ _ _ Er). exact Hloop. }
  intros args cenv. assert (run_setup args cenv = Ok (I_WriteHs1 i1 (h1 :: l1 :: m1) request)) as Hset.
  { unfold run_setup. cbn [a_identity args helper_args a_key_file cl_key_file cl_stdin cl_seed cenv helper_env].
    rewrite Identity_parse_ok by done. cbn [map_err mbind result_bind].
    rewrite key_file_load by (done || by apply mul_base_len). cbn [mbind result_bind map_err].
    by erewrite Initiator_new_Ok. }
  pose proof (client_drives request answer i1 i2 ti ti1 ti2 m1 m2 p2 c1 c2 h1 l1 h2 l2 h3 l3 h4 l4
    ltac:(done) ltac:(done) ltac:(done) ltac:(done) ltac:(done) ltac:(done) ltac:(done)) as Hdrive.
  assert (client_run args cenv = MkClientRun [h1 :: l1 :: m1; h3 :: l3 :: c1] answer (Some (Ok ()))) as Hrun.
  { unfold client_run. rewrite Hset. unfold run_connect, connect. cbn [cl_resolve cl_timeouts cl_stdout cenv helper_env map_err mbind result_bind connect_loop].
    by rewrite Hdrive. }
  unfold client_main. by rewrite Hrun.
Qed.

End end_to_end.

(** ** Witnesses *)

Definition demo_req : Request := MkRequest (B "https") (B "github.com") (B "Octo/Hello") false.
Definition demo_gp : @Provider () GState := @github_provider github_model demo_provider.
Definition granted_run : GState * outcome (result (ProviderError ()) MintOutcome) :=
  pr_mint demo_gp (B "Octo/Hello") (@life github_model demo_provider []).
Definition granted_out : MintOutcome :=
  match granted_run.2 with Ret (Ok out) => out | _ => MkMintOutcome (MkResponse [] [] 0) [] None end.

(** The credential for [Octo/Hello], as git reads it. *)
Definition demo_answer : bytes := default [] (Response_encode (mo_response granted_out) false []).

Lemma demo_grants : @grants () GState (demo_env demo_tables) demo_ask (@life github_model demo_provider []) demo_answer.
Proof.
  exists demo_req, 0%nat, demo_gp, granted_run.1, granted_out. split; [vm_compute; discriminate|]. split; [vm_compute; reflexivity|].
  split; [change (ce_providers (demo_env demo_tables)) with [demo_gp]; cbn [list_find]; by rewrite decide_True|].
  split; [vm_compute; reflexivity|]. split; [vm_compute; discriminate|].
  vm_compute. reflexivity.
Qed.

Lemma end_to_end_witness :
  ∃ f1 f2 o1 o2, @client_main noise_model hex_model (helper_args demo_id (B "broker:7373") (B "/etc/key"))
    (@helper_env noise_model hex_model demo_key demo_psk demo_ask (o1 ++ o2) 1) = (Some 0, demo_answer) ∧
    cr_sent_frames (@client_run noise_model hex_model (helper_args demo_id (B "broker:7373") (B "/etc/key"))
      (@helper_env noise_model hex_model demo_key demo_psk demo_ask (o1 ++ o2) 1)) = [f1; f2].
Proof.
  destruct (@end_to_end noise_model hex_model () GState demo_text noise_model_laws hex_model_laws (demo_env demo_tables) demo_id
    demo_psk demo_ask demo_answer (@life github_model demo_provider []) conn_bucket 1 (B "broker:7373") (B "/etc/key"))
    as (f1 & f2 & o1 & o2 & c & _ & _ & _ & H1 & H2);
    [reflexivity|reflexivity|exact demo_id_ok|vm_compute; reflexivity|exact demo_grants|vm_compute; discriminate|].
  exists f1, f2, o1, o2. split; [exact H2|exact H1].
Defined.

(** The helper on the bytes that [demo_connection] wrote. *)
Definition demo_args : Args := helper_args demo_id (B "broker:7373") (B "/etc/key").
Definition demo_helper : ClientEnv := @helper_env noise_model hex_model demo_key demo_psk demo_ask (concat (c_out demo_conn)) 1.

Lemma client_response_authentic_witness :
  @client_main noise_model hex_model demo_args demo_helper = (Some 0, demo_answer) ∧
  ∃ hs request so frame2, @reads_msg2 noise_model hs request (so_in so) demo_answer frame2.
Proof.
  assert (@client_main noise_model hex_model demo_args demo_helper = (Some 0, demo_answer)) as Hm by (vm_compute; reflexivity).
  split; [exact Hm|].
  destruct (@client_response_authentic noise_model hex_model demo_args demo_helper demo_answer eq_refl Hm)
    as (id & pub & psk & request & hs & msg1 & so & frame2 & _ & _ & _ & _ & _ & H & _).
  exists hs, request, so, frame2. exact H.
Defined.

Lemma key_file_roundtrip_witness :
  @load_key_file noise_model hex_model (B "/etc/key")
    (Ok (@key_line hex_model (@derive_public noise_model demo_key) demo_psk ++ [x0a])) = Ok (@derive_public noise_model demo_key, demo_psk).
Proof. apply (@key_file_roundtrip noise_model hex_model hex_model_laws (B "/etc/key")); reflexivity. Defined.
