(* ===== verification/Tracker.v ===== *)
(** * Connection bookkeeping and the drain at shutdown: [src/connection_tracker.rs]

    The counter of active handlers, the RAII token each handler carries, the
    [empty] event, and [drain] with its listener and its deadline.  The tasks
    of the runtime are interleaved one step at a time; a step of [drain] is
    the code between two points where other tasks may run, and the listener's
    registration is a step of its own, so that a decrement between it and the
    check of the counter is among the interleavings. *)

From S2P Require Import Prelude.

Record DrainStats := MkDrainStats { inflight_drained : Z; drain_complete : bool }.

(** Where [drain] is.  [listener] is a registered listener of [empty]: has it
    been notified? *)
Inductive DrainPc :=
| Serving                                             (* not called yet *)
| LoopHead (start initial : Z)
| Listening (start initial : Z) (listener : bool)     (* registered, counter not checked yet *)
| Awaiting (start initial : Z) (listener : bool)      (* in [timeout(remaining, listener)] *)
| Drained (initial : Z) (stats : DrainStats).

(** [ConnectionTracker], the handlers that hold a token, and the clock.  A
    handler may end at any time, by itself or by its [per_handler_timeout]. *)
Record Tracker := MkTracker {
  active : Z;
  per_handler_timeout : Z;
  drain_deadline : Z;
  tokens : gset nat;
  pc : DrainPc;
  clock : Z;
}.

Definition ConnectionTracker_new (per_handler_timeout drain_deadline now : Z) : Tracker :=
  MkTracker 0 per_handler_timeout drain_deadline ∅ Serving now.

Definition set_pc (p : DrainPc) (t : Tracker) : Tracker :=
  MkTracker (active t) (per_handler_timeout t) (drain_deadline t) (tokens t) p (clock t).

(** [empty.notify(usize::MAX)]: every listener registered so far. *)
Definition notify_empty (p : DrainPc) : DrainPc :=
  match p with
  | Listening start initial _ => Listening start initial true
  | Awaiting start initial _ => Awaiting start initial true
  | other => other
  end.

(** [drain] takes the tracker by value: no [spawn] once it was called. *)
Definition spawn (id : nat) (t : Tracker) : option Tracker :=
  match pc t with
  | Serving =>
      if decide (id ∈ tokens t) then None
      else Some (MkTracker (active t + 1) (per_handler_timeout t) (drain_deadline t) ({[id]} ∪ tokens t) (pc t) (clock t))
  | _ => None
  end.

(** [Drop for Token]; [*a -= 1] below zero is a panic. *)
Inductive Dropped := Underflow | Fine (t : Tracker).

Definition Token_drop (id : nat) (t : Tracker) : Dropped :=
  if active t =? 0 then Underflow
  else
    let a := active t - 1 in
    Fine (MkTracker a (per_handler_timeout t) (drain_deadline t) (tokens t ∖ {[id]})
            (if a =? 0 then notify_empty (pc t) else pc t) (clock t)).

Definition stats_of (initial : Z) (complete : bool) (t : Tracker) : DrainPc :=
  Drained initial (MkDrainStats (saturating_sub initial (active t)) complete).

Definition drain_begin (t : Tracker) : option Tracker :=
  match pc t with Serving => Some (set_pc (LoopHead (clock t) (active t)) t) | _ => None end.

(** [let listener = self.empty.listen();] *)
Definition drain_listen (t : Tracker) : option Tracker :=
  match pc t with LoopHead start initial => Some (set_pc (Listening start initial false) t) | _ => None end.

(** From the check of the counter to the next [await] or the end. *)
Definition drain_check (t : Tracker) : option Tracker :=
  match pc t with
  | Listening start initial listener =>
      Some (set_pc (if active t =? 0 then stats_of initial true t
                    else if drain_deadline t <=? clock t - start then stats_of initial false t
                    else Awaiting start initial listener) t)
  | _ => None
  end.

(** The listener resolves. *)
Definition drain_woken (t : Tracker) : option Tracker :=
  match pc t with Awaiting start initial true => Some (set_pc (LoopHead start initial) t) | _ => None end.

(** The timeout does: [remaining] after the check is [drain_deadline] after the start. *)
Definition drain_timeout (t : Tracker) : option Tracker :=
  match pc t with
  | Awaiting start initial _ =>
      if start + drain_deadline t <=? clock t then Some (set_pc (stats_of initial false t) t) else None
  | _ => None
  end.

Inductive TrackerStep :=
| Do_spawn (id : nat)
| Do_exit (id : nat)      (* a handler returns, times out or panics: its token is dropped *)
| Do_tick (d : Z)
| Do_begin | Do_listen | Do_check | Do_woken | Do_timeout.

(** [None]: the step cannot happen here. *)
Definition do_step (a : TrackerStep) (t : Tracker) : option Tracker :=
  match a with
  | Do_spawn id => spawn id t
  | Do_exit id => if decide (id ∈ tokens t) then match Token_drop id t with Fine t => Some t | Underflow => None end else None
  | Do_tick d => if 0 <=? d then Some (MkTracker (active t) (per_handler_timeout t) (drain_deadline t) (tokens t) (pc t) (clock t + d)) else None
  | Do_begin => drain_begin t
  | Do_listen => drain_listen t
  | Do_check => drain_check t
  | Do_woken => drain_woken t
  | Do_timeout => drain_timeout t
  end.

Fixpoint do_steps (l : list TrackerStep) (t : Tracker) : option Tracker :=
  match l with [] => Some t | a :: l => t ← do_step a t; do_steps l t end.

Inductive reachable (timeout deadline now : Z) : Tracker → Prop :=
| reach_new : reachable timeout deadline now (ConnectionTracker_new timeout deadline now)
| reach_step t a t' : reachable timeout deadline now t → do_step a t = Some t' → reachable timeout deadline now t'.

(** ** The invariant *)

Definition live_handlers (t : Tracker) : Z := Z.of_nat (size (tokens t)).

Definition pc_ok (t : Tracker) : Prop :=
  match pc t with
  | Serving => True
  | LoopHead start initial => live_handlers t <= initial ∧ start <= clock t
  | Listening start initial l => live_handlers t <= initial ∧ start <= clock t ∧ (l = true → live_handlers t = 0)
  | Awaiting start initial l => live_handlers t <= initial ∧ start <= clock t ∧ (l = true ↔ live_handlers t = 0)
  | Drained initial st =>
      0 <= inflight_drained st ∧ inflight_drained st + live_handlers t <= initial ∧
      (drain_complete st = true → live_handlers t = 0 ∧ inflight_drained st = initial)
  end.

Definition tracker_ok (t : Tracker) : Prop := active t = live_handlers t ∧ pc_ok t.

Lemma live_nonneg t : 0 <= live_handlers t.
Proof. unfold live_handlers. lia. Qed.

Lemma live_0 t : live_handlers t = 0 ↔ tokens t = ∅.
Proof. unfold live_handlers. split; [|intros ->; by rewrite size_empty]. intros H. apply leibniz_equiv, size_empty_inv. lia. Qed.

Lemma live_spawn id (t : Tracker) : id ∉ tokens t → Z.of_nat (size ({[id]} ∪ tokens t)) = live_handlers t + 1.
Proof. intros H. unfold live_handlers. rewrite size_union, size_singleton by set_solver. lia. Qed.

Lemma live_exit id (t : Tracker) : id ∈ tokens t → Z.of_nat (size (tokens t ∖ {[id]})) = live_handlers t - 1.
Proof.
  intros Hid. unfold live_handlers. rewrite size_difference, size_singleton by set_solver.
  assert (size (tokens t) ≠ 0%nat); [|lia]. intros H%size_empty_inv. set_solver.
Qed.

(** A live token keeps the counter above zero: its drop never underflows. *)
Lemma drop_fine id t :
  tracker_ok t → id ∈ tokens t → ∃ t', Token_drop id t = Fine t' ∧ do_step (Do_exit id) t = Some t' ∧
    tokens t' = tokens t ∖ {[id]} ∧ tracker_ok t'.
Proof.
  intros [Ha Hp] Hid. pose proof (live_exit id t Hid) as He. unfold Token_drop. cbn [do_step]. rewrite decide_True by done.
  unfold Token_drop. replace (active t =? 0) with false by lia. eexists. split_and!; [done..|].
  split; [cbn; unfold live_handlers; cbn; lia|]. unfold pc_ok. cbn [pc]. unfold live_handlers in *. cbn [tokens clock].
  unfold pc_ok, live_handlers in Hp. destruct (active t - 1 =? 0) eqn:E; destruct (pc t) as [| | | |i st]; cbn [notify_empty]; cbn in *; try done; intuition lia.
Qed.

Lemma tracker_step a t t' : tracker_ok t → do_step a t = Some t' → tracker_ok t'.
Proof.
  intros Hok Ht. destruct a; cbn [do_step] in Ht.
  2:{ case_decide as Hid; [|done]. destruct (drop_fine _ _ Hok Hid) as (t1 & E & _ & _ & H1). rewrite E in Ht. by injection Ht as <-. }
  all: destruct Hok as [Ha Hp]; unfold pc_ok in Hp;
    unfold spawn, drain_begin, drain_listen, drain_check, drain_woken, drain_timeout in Ht.
  - destruct (pc t) eqn:Ep; try done. case_decide; [done|]. injection Ht as <-. split; cbn; [|done].
    unfold live_handlers. cbn [tokens]. rewrite live_spawn by done. lia.
  - destruct (0 <=? d) eqn:Ed; [|done]. injection Ht as <-. split; [done|]. unfold pc_ok, live_handlers in *. cbn. destruct (pc t); intuition lia.
  - destruct (pc t); try done. injection Ht as <-. split; [done|]. unfold pc_ok, live_handlers in *. cbn. lia.
  - destruct (pc t); try done. injection Ht as <-. split; [done|]. unfold pc_ok, live_handlers in *. cbn. intuition done.
  - destruct (pc t) as [| |start initial l| |]; try done. injection Ht as <-. split; [done|]. unfold pc_ok, set_pc, live_handlers, stats_of, saturating_sub in *. cbn.
    pose proof (live_nonneg t). unfold live_handlers in *. destruct (active t =? 0) eqn:E0; [|destruct (drain_deadline t <=? _)]; cbn; intuition lia.
  - destruct (pc t) as [| | |start initial []|]; try done. injection Ht as <-. split; [done|]. unfold pc_ok, live_handlers in *. cbn. intuition done.
  - destruct (pc t) as [| | |start initial l|]; try done. destruct (_ <=? _); [|done]. injection Ht as <-. split; [done|].
    unfold pc_ok, set_pc, live_handlers, stats_of, saturating_sub in *. cbn. intuition lia.
Qed.

Lemma reachable_ok timeout deadline now t : reachable timeout deadline now t → tracker_ok t.
Proof.
  induction 1 as [|t a t' _ IH Ht]; [|by eapply tracker_step]. split; [|done]. cbn. unfold live_handlers. cbn. by rewrite size_empty.
Qed.

(** ** How far [drain] has to go *)

Definition is_drain (a : TrackerStep) : bool :=
  match a with Do_begin | Do_listen | Do_check | Do_woken | Do_timeout => true | _ => false end.

Definition drain_left (t : Tracker) : nat :=
  match pc t with
  | Serving => 6
  | LoopHead _ _ => if active t =? 0 then 2 else 5
  | Listening _ _ _ => if active t =? 0 then 1 else 4
  | Awaiting _ _ _ => 3
  | Drained _ _ => 0
  end.

(** All handlers end, in any order. *)
Lemma exits_all ids t :
  tracker_ok t → NoDup ids → (∀ id, id ∈ ids ↔ id ∈ tokens t) →
  ∃ t', do_steps (Do_exit <$> ids) t = Some t' ∧ tracker_ok t' ∧ tokens t' = ∅ ∧
    (∀ start initial l, pc t = Awaiting start initial l → ∃ l', pc t' = Awaiting start initial l').
Proof.
  revert t. induction ids as [|id ids IH]; intros t Hok Hnd Hids.
  { exists t. cbn. split_and!; [done..| |eauto]. apply set_eq. intros x. rewrite <-Hids. set_solver. }
  apply NoDup_cons in Hnd as [Hin Hnd].
  destruct (drop_fine id t Hok) as (t1 & E & Es & Htok & Hok1); [apply Hids; set_solver|].
  destruct (IH t1 Hok1 Hnd) as (t2 & Er & Hok2 & Hemp & Hpc).
  { intros x. rewrite Htok, elem_of_difference, <-Hids. set_solver. }
  exists t2. cbn [fmap list_fmap do_steps]. rewrite Es. cbn [mbind option_bind]. split_and!; [done..|].
  intros start initial l Hp. unfold Token_drop in E. destruct (active t =? 0); [done|]. injection E as <-. cbn [pc] in Hpc.
  rewrite Hp in Hpc. destruct (active t - 1 =? 0); by eapply Hpc.
Qed.

Lemma do_steps_app l1 l2 t t1 : do_steps l1 t = Some t1 → do_steps (l1 ++ l2) t = do_steps l2 t1.
Proof.
  revert t. induction l1 as [|a l1 IH]; intros t; cbn; [by intros [= ->]|].
  destruct (do_step a t); [apply IH|done].
Qed.

Lemma drain_left_step a t t' :
  tracker_ok t → do_step a t = Some t' →
  (drain_left t' <= drain_left t)%nat ∧ (is_drain a = true → (drain_left t' < drain_left t)%nat).
Proof.
  intros [Ha Hp] Ht. pose proof (live_nonneg t). unfold pc_ok in Hp. destruct a; cbn [do_step is_drain] in *.
  - unfold spawn in Ht. destruct (pc t) eqn:Ep; try done. case_decide; [done|]. injection Ht as <-.
    unfold drain_left. cbn. by rewrite Ep.
  - case_decide; [|done]. unfold Token_drop in Ht. destruct (active t =? 0) eqn:E0; [done|]. injection Ht as <-.
    unfold drain_left. cbn [pc active]. rewrite E0. destruct (active t - 1 =? 0), (pc t); cbn [notify_empty]; split; (lia || done).
  - destruct (0 <=? d); [|done]. by injection Ht as <-.
  - unfold drain_begin in Ht. unfold drain_left. destruct (pc t); try done. injection Ht as <-. cbn. destruct (active t =? 0); lia.
  - unfold drain_listen in Ht. unfold drain_left. destruct (pc t); try done. injection Ht as <-. cbn. destruct (active t =? 0); lia.
  - unfold drain_check in Ht. unfold drain_left. destruct (pc t); try done. injection Ht as <-. cbn.
    destruct (active t =? 0) eqn:E0; [cbn; lia|]. destruct (_ <=? _); cbn; lia.
  - unfold drain_woken in Ht. unfold drain_left. destruct (pc t) as [| | |start initial []|]; try done. injection Ht as <-. cbn.
    replace (active t =? 0) with true by (destruct Hp as (_ & _ & [Hl _]); specialize (Hl eq_refl); lia). lia.
  - unfold drain_timeout in Ht. unfold drain_left. destruct (pc t); try done. destruct (_ <=? _); [|done]. injection Ht as <-. cbn. lia.
Qed.

(** ** Properties *)

(** The counter and the report.  In every reachable state the counter is
    the number of handlers that hold a token, so the decrement of a drop never
    underflows; and once [drain] has returned, what it reports is true: with
    [drain_complete] no handler is left and all the initial ones were drained,
    and in any case the handlers still there are among those not reported as
    drained. *)
Theorem tracker_invariant timeout deadline now t :
  reachable timeout deadline now t →
  active t = live_handlers t ∧
  (∀ id, id ∈ tokens t → ∃ t', Token_drop id t = Fine t' ∧ active t' = active t - 1) ∧
  (∀ initial st, pc t = Drained initial st →
     0 <= inflight_drained st ∧ inflight_drained st + live_handlers t <= initial ∧
     (drain_complete st = true → tokens t = ∅ ∧ inflight_drained st = initial)).
Proof.
  intros Hok%reachable_ok. pose proof Hok as [Ha Hp]. split; [done|]. split.
  - intros id Hid. destruct (drop_fine id t Hok Hid) as (t' & E & _ & Htok & [Ha' _]). exists t'. split; [done|].
    rewrite Ha', Ha. unfold live_handlers at 1. rewrite Htok. by apply live_exit.
  - intros initial st Hpc. unfold pc_ok in Hp. rewrite Hpc in Hp. destruct Hp as (H1 & H2 & H3). split_and!; [done..|].
    intros Hc. by destruct (H3 Hc) as [?%live_0 ?].
Qed.

(** C34: no lost wake-up.  While [drain] is suspended, if the handlers that are
    left end, in whatever order, the notification reaches it and three more of
    its steps bring it to the report that all of them were drained, the last
    decrement having come before or after the listener; if instead the deadline
    passes, one step ends it.  And it is never stuck: in any other state of
    [drain] its next step can be taken. *)
Theorem drain_no_lost_wakeup timeout deadline now t :
  reachable timeout deadline now t →
  match pc t with
  | Serving => ∃ t', do_step Do_begin t = Some t'
  | LoopHead _ _ => ∃ t', do_step Do_listen t = Some t'
  | Listening _ _ _ => ∃ t', do_step Do_check t = Some t'
  | Awaiting start initial l =>
      (∀ ids, NoDup ids → (∀ id, id ∈ ids ↔ id ∈ tokens t) →
         ∃ t', do_steps ((Do_exit <$> ids) ++ [Do_woken; Do_listen; Do_check]) t = Some t' ∧
           pc t' = Drained initial (MkDrainStats initial true)) ∧
      (start + drain_deadline t <= clock t → ∃ t' n, do_step Do_timeout t = Some t' ∧ pc t' = Drained initial (MkDrainStats n false))
  | Drained _ _ => True
  end.
Proof.
  intros Hok%reachable_ok. destruct (pc t) as [| | |start initial l|] eqn:Ep;
    try (cbn [do_step]; unfold drain_begin, drain_listen, drain_check; rewrite Ep; by eauto); [|done].
  split.
  - intros ids Hnd Hids. destruct (exits_all ids t Hok Hnd Hids) as (t1 & Es & [Ha1 Hp1] & Hemp & Hpc1).
    destruct (Hpc1 _ _ _ Ep) as [l1 Epc]. rewrite (do_steps_app _ _ _ _ Es).
    assert (live_handlers t1 = 0) as Hl0 by (by apply live_0). unfold pc_ok in Hp1. rewrite Epc in Hp1. destruct Hp1 as (Hle & _ & Hl).
    assert (l1 = true) as -> by (by apply Hl). cbn [do_steps do_step]. unfold drain_woken. rewrite Epc.
    cbn [mbind option_bind]. unfold drain_listen, drain_check. cbn [pc set_pc active]. cbn [mbind option_bind pc set_pc active].
    rewrite Ha1, Hl0. cbn [Z.eqb]. eexists. split; [done|]. cbn. unfold stats_of, saturating_sub. cbn [active set_pc]. rewrite Ha1, Hl0.
    pose proof (live_nonneg t1). do 2 f_equal. lia.
  - intros Hd. cbn [do_step]. unfold drain_timeout. rewrite Ep. replace (_ <=? _) with true by lia. eexists _, _. split; [done|]. done.
Qed.

(** [drain] ends.  Each of its steps takes it nearer to the end of its
    (at most two) iterations, and nothing that happens around it takes it
    back, so it returns after at most six steps of its own. *)
Theorem drain_terminates timeout deadline now t a t' :
  reachable timeout deadline now t → do_step a t = Some t' →
  (drain_left t <= 6)%nat ∧ (drain_left t' <= drain_left t)%nat ∧ (is_drain a = true → (drain_left t' < drain_left t)%nat) ∧
  (drain_left t = 0%nat ↔ ∃ initial st, pc t = Drained initial st).
Proof.
  intros Hok%reachable_ok Ht. destruct (drain_left_step _ _ _ Hok Ht) as [H1 H2]. split_and!; [|done..|].
  - unfold drain_left. destruct (pc t), (active t =? 0); lia.
  - unfold drain_left. destruct (pc t), (active t =? 0); naive_solver.
Qed.

(** ** Witnesses *)

(** Two handlers, a drain that has to wait for both, and one of them gone. *)
Definition demo_steps : list TrackerStep := [Do_spawn 1; Do_spawn 2; Do_begin; Do_listen; Do_check; Do_tick 3; Do_exit 1].
Definition demo_tracker : Tracker :=
  default (ConnectionTracker_new 30 20 0) (do_steps demo_steps (ConnectionTracker_new 30 20 0)).

Lemma do_steps_reachable timeout deadline now l t t' :
  reachable timeout deadline now t → do_steps l t = Some t' → reachable timeout deadline now t'.
Proof.
  revert t. induction l as [|a l IH]; intros t Hr; cbn; [by intros [= <-]|].
  destruct (do_step a t) as [t1|] eqn:E; [|done]. apply IH. by eapply reach_step.
Qed.

Lemma demo_reachable : reachable 30 20 0 demo_tracker.
Proof. eapply (do_steps_reachable _ _ _ demo_steps); [apply reach_new|]. by vm_compute. Qed.

Lemma tracker_invariant_witness : active demo_tracker = 1 ∧ live_handlers demo_tracker = 1.
Proof.
  destruct (tracker_invariant 30 20 0 demo_tracker demo_reachable) as [H _]. rewrite <-H. by vm_compute.
Defined.

Lemma drain_no_lost_wakeup_witness :
  ∃ t', do_steps ((Do_exit <$> [2%nat]) ++ [Do_woken; Do_listen; Do_check]) demo_tracker = Some t' ∧
    pc t' = Drained 2 (MkDrainStats 2 true).
Proof.
  destruct (drain_no_lost_wakeup 30 20 0 demo_tracker demo_reachable) as [H _]. apply (H [2%nat]).
  - apply NoDup_singleton.
  - intros id. rewrite list_elem_of_singleton. change (tokens demo_tracker) with ({[2%nat]} : gset nat). set_solver.
Defined.

Lemma drain_terminates_witness :
  ∃ t', do_step (Do_exit 2) demo_tracker = Some t' ∧ (drain_left t' <= drain_left demo_tracker)%nat.
Proof.
  eexists. split; [by vm_compute|].
  apply (drain_terminates 30 20 0 demo_tracker (Do_exit 2) _ demo_reachable). by vm_compute.
Defined.
