(* ===== verification/Admin.v ===== *)
(** * The admin socket: [src/admin.rs]

    One request line of JSON per connection, answered with one line: the
    reader with its size cap, the handlers over the daemon's state, the
    envelope of the answer, and the command line client of the same socket.
    [serde_json] is a parameter ([AdminJson]). *)

From S2P Require Import Prelude Identity Psk GitCredential Transport RateLimit AtomicFs Config State Github Events Connection.

(** ** Requests and responses *)

Inductive AdminRequest :=
| Req_Status
| Req_List
| Req_Pubkey
| Req_Enroll (provider : ProviderKind) (client : Identity) (psk : Psk) (note : option Note)
| Req_Revoke (provider : ProviderKind) (client : Identity)
| Req_Mint (provider : ProviderKind) (client : Identity) (path : bytes)
| Req_Selfcheck (provider : ProviderKind).

(** [strum::IntoStaticStr] *)
Definition op_name (r : AdminRequest) : bytes :=
  match r with
  | Req_Status => B "status"
  | Req_List => B "list"
  | Req_Pubkey => B "pubkey"
  | Req_Enroll _ _ _ _ => B "enroll"
  | Req_Revoke _ _ => B "revoke"
  | Req_Mint _ _ _ => B "mint"
  | Req_Selfcheck _ => B "selfcheck"
  end.

Record StatusResponse := MkStatusResponse { uptime_sec : Z; st_providers : list ProviderKind; client_count : Z }.
Record ListEntry := MkListEntry { le_name : Identity; le_providers : list ProviderKind; le_enrolled_at : Z; le_note : option Note }.
Record MintResponse := MkMintResponse {
  mi_username : bytes;
  mi_password : bytes;
  expires_at_unix : Z;
  mi_out_req_id : bytes;
  mi_provider_req_id : option bytes;
}.

(** The success payloads, under one type. *)
Inductive AdminResponse :=
| Ans_Status (r : StatusResponse)
| Ans_List (clients : list ListEntry)
| Ans_Pubkey (broker_public_key : bytes)
| Ans_Mint (r : MintResponse)
| Ans_Selfcheck (r : SelfcheckOutcome)
| Ans_Ack.

(** [ErrorResponse]; [ok] is [false] in every one of them. *)
Record ErrorResponse := MkErrorResponse { er_error : bytes }.

Definition ProviderKind_display (p : ProviderKind) : bytes := match p with Github => B "github" end.

Definition unknown_provider (provider : ProviderKind) : ErrorResponse :=
  MkErrorResponse (B "provider '" ++ ProviderKind_display provider ++ B "' not configured").

Inductive CliCommand :=
| Cli_Status
| Cli_List
| Cli_Pubkey
| Cli_GithubEnroll (client : Identity) (note : option Note) (psk : Psk)
| Cli_GithubRevoke (client : Identity)
| Cli_GithubMint (client : Identity) (path : bytes)
| Cli_GithubSelfcheck.

Definition to_request (c : CliCommand) : AdminRequest :=
  match c with
  | Cli_Status => Req_Status
  | Cli_List => Req_List
  | Cli_Pubkey => Req_Pubkey
  | Cli_GithubEnroll client note psk => Req_Enroll Github client psk note
  | Cli_GithubRevoke client => Req_Revoke Github client
  | Cli_GithubMint client path => Req_Mint Github client path
  | Cli_GithubSelfcheck => Req_Selfcheck Github
  end.

(** ** [read_line] *)

Definition ADMIN_READ_BUDGET : Z := 64 * 1024.
Definition CHUNK : Z := 1024.

Inductive LineError := Line_TooLong | Line_Eof | Line_Io.

(** [position(|&b| b == b'\n')] and [truncate] *)
Definition first_line (acc : bytes) : option bytes := fst <$> split_once x0a acc.

(** Every successful read brings a byte, so [ADMIN_READ_BUDGET] reads reach the
    cap; [None] when the fuel is used up.  [stream_read] does not tell EOF from
    a fault: both end the connection. *)
Fixpoint read_line_loop (fuel : nat) (acc : bytes) (wire : list Arrival) : option (result LineError bytes) :=
  match first_line acc with
  | Some line => Some (Ok line)
  | None =>
      if ADMIN_READ_BUDGET <=? len acc then Some (Err Line_TooLong)
      else match fuel with
           | O => None
           | S fuel' =>
               match stream_read CHUNK wire with
               | (None, _) => Some (Err (match wire with [] => Line_Eof | _ => Line_Io end))
               | (Some chunk, wire') => read_line_loop fuel' (acc ++ chunk) wire'
               end
           end
  end.

Definition read_line (wire : list Arrival) : option (result LineError bytes) :=
  read_line_loop (Z.to_nat ADMIN_READ_BUDGET) [] wire.

Lemma first_line_Some acc line : first_line acc = Some line ↔ ∃ rest, acc = line ++ x0a :: rest ∧ x0a ∉ line.
Proof.
  unfold first_line. destruct (split_once x0a acc) as [[x y]|] eqn:E; cbn.
  - pose proof E as E'. apply split_once_Some in E as [-> Hx]. split; [intros [= <-]; eauto|].
    intros (rest & Hr & Hl). assert (split_once x0a (x ++ x0a :: y) = Some (line, rest)) as E2 by (by apply split_once_Some).
    rewrite E' in E2. by injection E2 as -> _.
  - split; [done|]. intros (rest & -> & Hl). rewrite (proj2 (split_once_Some _ _ line rest)) in E; [done|by split].
Qed.

Lemma stream_read_None cap wire : 0 < cap → (stream_read cap wire).1 = None ↔ arriving wire = [].
Proof. intros Hc. destruct wire as [|[b bs|] wire]; cbn; [done| |done]. by destruct (drop _ _). Qed.

Lemma CHUNK_pos : 0 < CHUNK.
Proof. unfold CHUNK. lia. Qed.

(** A loop that returns a line: it is the first one, of bounded length. *)
Lemma read_line_loop_Ok fuel acc wire line :
  len acc < ADMIN_READ_BUDGET + CHUNK → read_line_loop fuel acc wire = Some (Ok line) →
  len line < ADMIN_READ_BUDGET + CHUNK - 1 ∧ ∃ rest, acc ++ arriving wire = line ++ x0a :: rest ∧ x0a ∉ line.
Proof.
  revert acc wire. induction fuel as [|fuel IH]; intros acc wire Hacc; cbn [read_line_loop];
    destruct (first_line acc) as [l|] eqn:E.
  1,3: intros [= <-]; apply first_line_Some in E as (rest & -> & Hl); rewrite len_app, len_cons in Hacc;
    pose proof (len_nonneg rest); (split; [lia|]); exists (rest ++ arriving wire); by rewrite <-(assoc_L (++)).
  1: by destruct (_ <=? _).
  destruct (ADMIN_READ_BUDGET <=? len acc) eqn:Eb; [done|].
  destruct (stream_read CHUNK wire) as [[chunk|] w] eqn:Er; [|done].
  apply stream_read_Some in Er as [-> Hl]; [|apply CHUNK_pos].
  intros Hr. rewrite (assoc_L (++)). apply IH; [rewrite len_app; lia|done].
Qed.

(** A first line under the cap is returned. *)
Lemma read_line_loop_fits fuel acc wire line rest :
  acc ++ arriving wire = line ++ x0a :: rest → x0a ∉ line → len line < ADMIN_READ_BUDGET →
  ADMIN_READ_BUDGET <= len acc + Z.of_nat fuel → read_line_loop fuel acc wire = Some (Ok line).
Proof.
  revert acc wire. induction fuel as [|fuel IH]; intros acc wire He Hn Hl Hf; cbn [read_line_loop];
    destruct (first_line acc) as [l|] eqn:E.
  1,3: do 2 f_equal; apply first_line_Some in E as (r2 & -> & H2); rewrite <-(assoc_L (++)) in He;
    assert (Some (l, r2 ++ arriving wire) = Some (line, rest)) as [= -> _]; [|done];
    transitivity (split_once x0a (line ++ x0a :: rest)); [symmetry|]; apply split_once_Some; [by rewrite <-He|done].
  all: assert (len acc <= len line) as Hle.
  1,3: destruct (decide (len acc <= len line)) as [|Hgt]; [done|exfalso];
    apply (f_equal (take (length acc))) in He; rewrite take_app_length in He;
    rewrite take_app_ge in He by (unfold len in Hgt; lia);
    assert (length acc - length line = S (length acc - length line - 1))%nat as El by (unfold len in Hgt; lia);
    rewrite El in He; cbn [take] in He;
    rewrite (proj2 (first_line_Some acc line)) in E; [done|]; eexists; split; [exact He|done].
  all: replace (ADMIN_READ_BUDGET <=? len acc) with false by lia.
  1: lia.
  destruct (stream_read CHUNK wire) as [[chunk|] w] eqn:Er.
  - apply stream_read_Some in Er as [Ha Hc]; [|apply CHUNK_pos]. apply IH; [|done..|rewrite len_app; lia].
    by rewrite <-(assoc_L (++)), <-Ha.
  - assert (arriving wire = []) as Ha by (apply (stream_read_None CHUNK); [apply CHUNK_pos|by rewrite Er]).
    rewrite Ha, app_nil_r in He. rewrite (proj2 (first_line_Some acc line)) in E; [done|]. eauto.
Qed.

Lemma read_line_loop_total fuel acc wire :
  ADMIN_READ_BUDGET <= len acc + Z.of_nat fuel → ∃ r, read_line_loop fuel acc wire = Some r.
Proof.
  revert acc wire. induction fuel as [|fuel IH]; intros acc wire Hf; cbn [read_line_loop]; destruct (first_line acc); eauto.
  - replace (ADMIN_READ_BUDGET <=? len acc) with true by lia. eauto.
  - destruct (_ <=? _); [eauto|]. destruct (stream_read CHUNK wire) as [[chunk|] w] eqn:Er; [|eauto].
    apply stream_read_Some in Er as [_ Hc]; [|apply CHUNK_pos]. apply IH. rewrite len_app. lia.
Qed.

Lemma budget_fuel : ADMIN_READ_BUDGET <= len (@nil byte) + Z.of_nat (Z.to_nat ADMIN_READ_BUDGET).
Proof. rewrite len_nil. unfold ADMIN_READ_BUDGET. lia. Qed.

Lemma read_line_fits wire line rest :
  arriving wire = line ++ x0a :: rest → x0a ∉ line → len line < ADMIN_READ_BUDGET → read_line wire = Some (Ok line).
Proof. intros Ha Hn Hl. unfold read_line. apply (read_line_loop_fits _ [] wire line rest); [done..|apply budget_fuel]. Qed.

Lemma read_line_total wire : ∃ r, read_line wire = Some r.
Proof. unfold read_line. apply read_line_loop_total, budget_fuel. Qed.

Lemma read_line_Ok wire line :
  read_line wire = Some (Ok line) →
  len line < ADMIN_READ_BUDGET + CHUNK - 1 ∧ ∃ rest, arriving wire = line ++ x0a :: rest ∧ x0a ∉ line.
Proof.
  unfold read_line. intros Hr. eapply (read_line_loop_Ok _ [] wire line); [|exact Hr].
  rewrite len_nil. unfold ADMIN_READ_BUDGET, CHUNK. lia.
Qed.

Lemma arriving_segment bs : arriving (segment bs) = bs.
Proof. destruct bs; cbn; [done|]. by rewrite app_nil_r. Qed.

(** ** JSON *)

Class AdminJson := {
  AJsonError : Type;
  show_json_error : AJsonError → bytes;
  request_of_json : bytes → result AJsonError AdminRequest;
  json_of_request : AdminRequest → result AJsonError bytes;
  (** [OkEnvelope] and [ErrorResponse] *)
  json_of_ok : AdminResponse → result AJsonError bytes;
  json_of_error : ErrorResponse → result AJsonError bytes;
  (** the object [cli_dispatch] prints after an enrolment, around [psk_hex] *)
  json_of_psk : bytes → result AJsonError bytes;
  (** [OkField]: the member [ok] of the object *)
  ok_field : bytes → result AJsonError bool;
}.

(** The types of the fields are enforced when a request is read: identities,
    notes, 32-byte PSKs and UTF-8 strings. *)
Definition request_ok (r : AdminRequest) : Prop :=
  match r with
  | Req_Enroll _ client psk note => Identity_ok client ∧ Psk_ok psk ∧ (∀ n, note = Some n → Note_ok n)
  | Req_Revoke _ client => Identity_ok client
  | Req_Mint _ client path => Identity_ok client ∧ from_utf8 path = Ok path
  | _ => True
  end.

(** Compact JSON has no line break (strings escape control characters), these
    types always serialise, and what was written reads back. *)
Class AdminJsonLaws `{!AdminJson} : Prop := {
  request_of_json_ok b r : request_of_json b = Ok r → request_ok r;
  json_of_request_Ok r : request_ok r → ∃ b, json_of_request r = Ok b ∧ b ≠ [] ∧ (x0a ∉ b) ∧ request_of_json b = Ok r;
  json_of_ok_Ok a : ∃ b, json_of_ok a = Ok b ∧ (x0a ∉ b) ∧ ok_field b = Ok true;
  json_of_error_Ok e : ∃ b, json_of_error e = Ok b ∧ (x0a ∉ b) ∧ ok_field b = Ok false;
  json_of_psk_Ok h : ∃ b, json_of_psk h = Ok b;
}.

(** ** The handlers *)

Section admin.
Context {NZ : Noise} {HX : HexCodec} {FF : FileFormats} {HO : HashOrder} {AJ : AdminJson} {H St : Type} {LT : LogText H}.
Context (psk_file_path clients_file_path : Path).

(** What the handlers see of the daemon besides the tables. *)
Record AdminEnv := MkAdminEnv {
  ae_uptime : Z;                                  (* start_time.elapsed().as_secs() *)
  ae_now : Z;                                     (* OffsetDateTime::now_utc() *)
  ae_awaits : Await * Await;                      (* the two file writes of a mutation *)
  ae_providers : list (ProviderKind * @Provider H St);
  ae_broker_public : BrokerPublicKey;
}.

Record AdminState := MkAdminState { as_mem : Mem; as_fs : Fs; as_providers : St }.

(** How a handler ends: with an answer, or without (a panic, a call that never
    resolves, the task dropped by its timeout). *)
Inductive Handled := Answer (r : result ErrorResponse AdminResponse) | NoAnswer.

Definition lookup_provider (env : AdminEnv) (kind : ProviderKind) : option (@Provider H St) :=
  snd <$> (snd <$> list_find (λ p, p.1 = kind) (ae_providers env)).

(** [Display for StateMutationError] *)
Definition StateMutationError_display (e : StateMutationError) : bytes :=
  match e with
  | SM_ClientAlreadyEnrolled c => B "client '" ++ as_str c ++ B "' already enrolled"
  | SM_UnknownClient c => B "no enrolled client named '" ++ c ++ B "'"
  | SM_WritePsks _ => B "write psks file"
  | SM_WriteClients _ => B "write clients.json"
  | SM_EncodeClients _ => B "encode clients.json"
  end.

Definition handle_status (env : AdminEnv) (s : AdminState) : StatusResponse :=
  MkStatusResponse (ae_uptime env) (fst <$> ae_providers env) (Z.of_nat (size (m_clients (as_mem s)))).

Definition handle_pubkey (env : AdminEnv) : bytes := BrokerPublicKey_to_string (ae_broker_public env).

Definition handle_list (s : AdminState) : list ListEntry :=
  (λ kv, MkListEntry kv.1 (rc_providers kv.2) (rc_enrolled_at kv.2) (rc_note kv.2)) <$> client_iter (m_clients (as_mem s)).

(** The answer to a mutation, and the state it leaves. *)
Definition mutated (o : Outcome) (s : AdminState) : AdminState * Handled :=
  (MkAdminState (o_mem o) (last_fs (as_fs s) (o_disk o)) (as_providers s),
   match o_result o with
   | None => NoAnswer
   | Some (Ok _) => Answer (Ok Ans_Ack)
   | Some (Err e) => Answer (Err (MkErrorResponse (StateMutationError_display e)))
   end).

Definition handle_enroll (env : AdminEnv) (provider : ProviderKind) (client : Identity) (note : option Note) (psk : Psk)
    (s : AdminState) : AdminState * Handled * list Event :=
  let o := enroll_client psk_file_path clients_file_path (ae_now env) (ae_awaits env).1 (ae_awaits env).2 client psk provider note
             (as_mem s) (as_fs s) in
  (mutated o s, if ended_ok o then [log_info Ev_Enroll [(B "provider", ProviderKind_display provider); (B "client", as_str client)]] else []).

Definition handle_revoke (env : AdminEnv) (provider : ProviderKind) (client : Identity) (s : AdminState) : AdminState * Handled :=
  match lookup_provider env provider with
  | None => (s, Answer (Err (unknown_provider provider)))
  | Some _ =>
      mutated (revoke_client psk_file_path clients_file_path (ae_awaits env).1 (ae_awaits env).2 client (as_mem s) (as_fs s)) s
  end.

Definition handle_mint (env : AdminEnv) (provider : ProviderKind) (client : Identity) (path : bytes) (s : AdminState) :
    AdminState * Handled :=
  if decide (m_clients (as_mem s) !! client = None) then
    (s, Answer (Err (MkErrorResponse (StateMutationError_display (SM_UnknownClient (as_str client))))))
  else match lookup_provider env provider with
  | None => (s, Answer (Err (unknown_provider provider)))
  | Some p =>
      let '(st, o) := pr_mint p path (as_providers s) in
      let s := MkAdminState (as_mem s) (as_fs s) st in
      match o with
      | Ret (Err e) => (s, Answer (Err (MkErrorResponse (show_provider_error e))))
      | Ret (Ok out) =>
          match password_expiry_unix_secs (mo_response out) with
          | None => (s, NoAnswer)
          | Some secs =>
              (s, Answer (Ok (Ans_Mint (MkMintResponse (username (mo_response out)) (password (mo_response out)) secs
                                          (mo_out_req_id out) (mo_provider_req_id out)))))
          end
      | _ => (s, NoAnswer)
      end
  end.

Definition handle_selfcheck (env : AdminEnv) (provider : ProviderKind) (s : AdminState) : AdminState * Handled :=
  match lookup_provider env provider with
  | None => (s, Answer (Err (unknown_provider provider)))
  | Some p =>
      let '(st, o) := pr_selfcheck p (as_providers s) in
      let s := MkAdminState (as_mem s) (as_fs s) st in
      match o with
      | Ret (Err e) => (s, Answer (Err (MkErrorResponse (show_provider_error e))))
      | Ret (Ok out) => (s, Answer (Ok (Ans_Selfcheck out)))
      | _ => (s, NoAnswer)
      end
  end.

(** ** Writing, dispatch, the connection *)

(** What one connection leaves: the state, the events and what was written. *)
Record AdminRun := MkAdminRun { ar_state : AdminState; ar_log : list Event; ar_out : bytes }.

(** The bytes written; [fault] is the error of the write, if any, and the
    number of bytes it got out before. *)
Definition write_response (fault : option nat) (r : result ErrorResponse AdminResponse) : bytes :=
  match (match r with Ok data => json_of_ok data | Err err => json_of_error err end) with
  | Err _ => []
  | Ok payload =>
      let payload := payload ++ [x0a] in
      match fault with None => payload | Some n => take n payload end
  end.

(** The handler a request is dispatched to. *)
Definition dispatch (env : AdminEnv) (request : AdminRequest) (s : AdminState) : AdminState * Handled * list Event :=
  match request with
  | Req_Status => (s, Answer (Ok (Ans_Status (handle_status env s))), [])
  | Req_List => (s, Answer (Ok (Ans_List (handle_list s))), [])
  | Req_Pubkey => (s, Answer (Ok (Ans_Pubkey (handle_pubkey env))), [])
  | Req_Enroll provider client psk note => handle_enroll env provider client note psk s
  | Req_Revoke provider client => (handle_revoke env provider client s, [])
  | Req_Mint provider client path => (handle_mint env provider client path s, [])
  | Req_Selfcheck provider => (handle_selfcheck env provider s, [])
  end.

Definition dispatch_and_write (fault : option nat) (env : AdminEnv) (request : AdminRequest) (s : AdminState) : AdminRun :=
  let '(s, h, log) := dispatch env request s in
  MkAdminRun s log (match h with Answer r => write_response fault r | NoAnswer => [] end).

(** [None] if the reader does not end. *)
Definition handle_admin (fault : option nat) (env : AdminEnv) (wire : list Arrival) (s : AdminState) : option AdminRun :=
  raw ← read_line wire;
  Some (match raw with
        | Err _ | Ok [] => MkAdminRun s [] []
        | Ok raw =>
            match request_of_json raw with
            | Err e =>
                MkAdminRun s [log_info Ev_AdminRequest [(B "ok", B "false"); (B "error", show_json_error e)]]
                  (write_response fault (Err (MkErrorResponse (B "request parse failed: " ++ show_json_error e))))
            | Ok request =>
                let r := dispatch_and_write fault env request s in
                MkAdminRun (ar_state r) (log_info Ev_AdminRequest [(B "op", op_name request)] :: ar_log r) (ar_out r)
            end
        end).

(** ** The command line client *)

Inductive AdminError := A_Accept (e : IoError) | A_Connect (path : Path) (e : IoError) | A_Io | A_RequestParse (e : AJsonError) | A_ResponseParse (e : AJsonError).

(** A run of [cli_dispatch]: what it sent, what it printed where, and the exit
    code or the error. *)
Record CliRun := MkCliRun { cli_sent : bytes; cli_stdout : bytes; cli_stderr : bytes; cli_result : option (result AdminError Z) }.

Definition is_ok_response (bs : bytes) : result AdminError bool := map_err A_ResponseParse (ok_field bs).

(** The answer that arrived, handled. *)
Definition cli_answer (stdout_ok : bool) (command : CliCommand) (payload response_bytes : bytes) : CliRun :=
  match is_ok_response response_bytes with
  | Err e => MkCliRun payload [] [] (Some (Err e))
  | Ok false => MkCliRun payload [] (response_bytes ++ [x0a]) (Some (Ok 1))
  | Ok true =>
      let body := match command with
                  | Cli_GithubEnroll _ _ psk => map_err A_ResponseParse (json_of_psk (Psk_lower_hex psk))
                  | _ => Ok response_bytes
                  end in
      match body with
      | Err e => MkCliRun payload [] [] (Some (Err e))
      | Ok b => if stdout_ok then MkCliRun payload (b ++ [x0a]) [] (Some (Ok 0)) else MkCliRun payload [] [] (Some (Err A_Io))
      end
  end.

(** [conn]: the connection, as what arrives on it, and whether the request can
    be written. *)
Definition cli_dispatch (stdout_ok : bool) (socket_path : Path) (command : CliCommand)
    (conn : result IoError (bool * list Arrival)) : CliRun :=
  match json_of_request (to_request command) with
  | Err e => MkCliRun [] [] [] (Some (Err (A_RequestParse e)))
  | Ok payload =>
      let payload := payload ++ [x0a] in
      match conn with
      | Err e => MkCliRun [] [] [] (Some (Err (A_Connect socket_path e)))
      | Ok (false, _) => MkCliRun [] [] [] (Some (Err A_Io))
      | Ok (true, wire) =>
          match read_line wire with
          | None => MkCliRun payload [] [] None
          | Some (Err _) => MkCliRun payload [] [] (Some (Err A_Io))
          | Some (Ok response_bytes) => cli_answer stdout_ok command payload response_bytes
          end
      end
  end.

(** ** The abstract service

    Seen from outside, the admin socket operates on the authorisation table:
    an enrolment adds one entry, a revocation removes one, and what is not
    acknowledged has not been enrolled. *)

Definition acknowledged (h : Handled) : Prop := ∃ a, h = Answer (Ok a).

(** What a request that only reads may be answered with, when it succeeds: the
    table as it is, the key, or what the provider of that kind returned, the
    mint only for an enrolled client. *)
Definition read_answer (env : AdminEnv) (s : AdminState) (request : AdminRequest) (a : AdminResponse) : Prop :=
  let clients := m_clients (as_mem s) in
  match request, a with
  | Req_Status, Ans_Status r => client_count r = Z.of_nat (size clients) ∧ st_providers r = fst <$> ae_providers env
  | Req_List, Ans_List l =>
      NoDup (le_name <$> l) ∧
      ∀ id c, clients !! id = Some c ↔ MkListEntry id (rc_providers c) (rc_enrolled_at c) (rc_note c) ∈ l
  | Req_Pubkey, Ans_Pubkey b => b = BrokerPublicKey_to_string (ae_broker_public env)
  | Req_Mint p c path, Ans_Mint r =>
      is_Some (clients !! c) ∧
      ∃ pr st out, lookup_provider env p = Some pr ∧ pr_mint pr path (as_providers s) = (st, Ret (Ok out)) ∧
        mi_username r = username (mo_response out) ∧ mi_password r = password (mo_response out) ∧
        Some (expires_at_unix r) = password_expiry_unix_secs (mo_response out)
  | Req_Selfcheck p, Ans_Selfcheck out =>
      ∃ pr st, lookup_provider env p = Some pr ∧ pr_selfcheck pr (as_providers s) = (st, Ret (Ok out))
  | _, _ => False
  end.

Definition mutates (request : AdminRequest) : bool :=
  match request with Req_Enroll _ _ _ _ | Req_Revoke _ _ => true | _ => false end.

Inductive admin_spec (env : AdminEnv) (s : AdminState) : AdminRequest → gmap Identity Psk → gmap Identity Psk → Handled → Prop :=
| Sp_read request a h :
    mutates request = false → (∀ r, h = Answer (Ok r) → read_answer env s request r) → admin_spec env s request a a h
| Sp_enrolled p c k n a : a !! c = None → admin_spec env s (Req_Enroll p c k n) a (<[c := k]> a) (Answer (Ok Ans_Ack))
| Sp_not_enrolled p c k n a h : ¬ acknowledged h → admin_spec env s (Req_Enroll p c k n) a a h
| Sp_revoked p c a h : is_Some (lookup_provider env p) → admin_spec env s (Req_Revoke p c) a (delete c a) h
| Sp_not_revoked p c a h : ¬ acknowledged h → admin_spec env s (Req_Revoke p c) a a h.

Lemma mutated_spec o s s' h :
  mutated o s = (s', h) → as_mem s' = o_mem o ∧ if ended_ok o then h = Answer (Ok Ans_Ack) else ¬ acknowledged h.
Proof.
  unfold ended_ok, mutated, acknowledged. intros [= <- <-]. split; [done|].
  destruct (o_result o) as [[[]|]|]; [done|..]; by intros [? ?].
Qed.

Lemma enroll_spec env p c k n s s' h log :
  handle_enroll env p c n k s = (s', h, log) → admin_spec env s (Req_Enroll p c k n) (auth (as_mem s)) (auth (as_mem s')) h.
Proof.
  unfold handle_enroll. set (o := enroll_client _ _ _ _ _ _ _ _ _ _ _). destruct (mutated o s) as [s1 h1] eqn:E.
  intros [= <- <- _]. apply mutated_spec in E as [Hm Hh]. rewrite Hm.
  destruct (enroll_client_cases psk_file_path clients_file_path (ae_now env) (ae_awaits env).1 (ae_awaits env).2 c k p n (as_mem s) (as_fs s))
    as [[_ Ho]|(Hc & _ & [[Ho Hm']|[Ho Hm']])]; fold o in Ho.
  - rewrite Ho in *. by apply Sp_not_enrolled.
  - rewrite Ho in Hh. rewrite Hh. fold o in Hm'. rewrite Hm', auth_enrolled. apply Sp_enrolled.
    apply eq_None_not_Some. intros [q Hq]. apply auth_lookup in Hq as [_ [? ?]]. congruence.
  - rewrite Ho in Hh. fold o in Hm'. rewrite Hm', auth_rollback by done. by apply Sp_not_enrolled.
Qed.

Lemma revoke_spec env p c s s' h :
  handle_revoke env p c s = (s', h) → admin_spec env s (Req_Revoke p c) (auth (as_mem s)) (auth (as_mem s')) h.
Proof.
  unfold handle_revoke. destruct (lookup_provider env p) eqn:Hp; [|intros [= <- <-]; apply Sp_not_revoked; by intros [? ?]].
  set (o := revoke_client _ _ _ _ _ _ _). intros E. apply mutated_spec in E as [Hm Hh]. rewrite Hm.
  destruct (revoke_client_cases psk_file_path clients_file_path (ae_awaits env).1 (ae_awaits env).2 c (as_mem s) (as_fs s))
    as [[_ Ho]|(Hc & _ & [[Ho Hm']|[[Ho Hm']|[Ho Hm']]])]; fold o in Ho; try fold o in Hm'.
  - rewrite Ho in *. by apply Sp_not_revoked.
  - rewrite Ho in Hh. rewrite Hm'. by apply Sp_not_revoked.
  - rewrite Hm', auth_revoked by done. apply Sp_revoked. by eexists.
  - rewrite Hm'. cbn [m_psks]. rewrite auth_revoked by (intros; by rewrite lookup_delete_ne). apply Sp_revoked. by eexists.
Qed.

Lemma handle_list_spec s : 
  NoDup (le_name <$> handle_list s) ∧
  ∀ id c, m_clients (as_mem s) !! id = Some c ↔ MkListEntry id (rc_providers c) (rc_enrolled_at c) (rc_note c) ∈ handle_list s.
Proof.
  unfold handle_list. split.
  - rewrite <-list_fmap_compose. change (_ ∘ _) with (@fst Identity ResolvedClient). rewrite client_iter_perm. apply NoDup_fst_map_to_list.
  - intros id c. rewrite <-elem_of_map_to_list, <-client_iter_perm, list_elem_of_fmap. split; [by exists (id, c)|].
    intros ([id' [ps t n]] & [= -> <- <- <-] & Hin). by destruct c.
Qed.

(** The requests that only read leave the tables and the disk alone, and
    answer what the spec says. *)
Lemma dispatch_reads env request s s' h log :
  mutates request = false → dispatch env request s = (s', h, log) →
  as_mem s' = as_mem s ∧ as_fs s' = as_fs s ∧ log = [] ∧ ∀ r, h = Answer (Ok r) → read_answer env s request r.
Proof.
  intros Hr. destruct request as [| | |p c k n|p c|p c path|p]; try done; cbn [dispatch].
  - intros [= <- <- <-]. split_and!; [done..|]. by intros r [= <-].
  - intros [= <- <- <-]. split_and!; [done..|]. intros r [= <-]. apply handle_list_spec.
  - intros [= <- <- <-]. split_and!; [done..|]. by intros r [= <-].
  - unfold handle_mint. case_decide as Hc; [by intros [= <- <- <-]|]. destruct (lookup_provider env p) as [pr|] eqn:Hp; [|by intros [= <- <- <-]].
    destruct (pr_mint pr path (as_providers s)) as [st [[out|e]| |]] eqn:Hm; try by intros [= <- <- <-].
    destruct (password_expiry_unix_secs _) as [secs|] eqn:He; [|by intros [= <- <- <-]].
    intros [= <- <- <-]. split_and!; [done..|]. intros r [= <-]. cbn. split; [by apply not_eq_None_Some|].
    exists pr, st, out. by rewrite He.
  - unfold handle_selfcheck. destruct (lookup_provider env p) as [pr|] eqn:Hp; [|by intros [= <- <- <-]].
    destruct (pr_selfcheck pr (as_providers s)) as [st [[out|e]| |]] eqn:Hm; try by intros [= <- <- <-].
    intros [= <- <- <-]. split_and!; [done..|]. intros r [= <-]. by exists pr, st.
Qed.

Lemma dispatch_spec env request s s' h log :
  dispatch env request s = (s', h, log) → admin_spec env s request (auth (as_mem s)) (auth (as_mem s')) h.
Proof.
  intros Hd. destruct (mutates request) eqn:Hr.
  - destruct request as [| | |p c k n|p c|p c path|p]; try done; cbn [dispatch] in Hd; [by eapply enroll_spec|].
    destruct (handle_revoke env p c s) as [s1 h1] eqn:E. injection Hd as <- <- _. by eapply revoke_spec.
  - destruct (dispatch_reads _ _ _ _ _ _ Hr Hd) as (-> & _ & _ & Ha). by apply Sp_read.
Qed.

Lemma write_response_line {AL : AdminJsonLaws} r :
  ∃ b, write_response None r = b ++ [x0a] ∧ (x0a ∉ b) ∧ ok_field b = Ok (is_ok r).
Proof.
  unfold write_response. destruct r as [a|e].
  - destruct (json_of_ok_Ok a) as (b & -> & Hn & Ho). by exists b.
  - destruct (json_of_error_Ok e) as (b & -> & Hn & Ho). by exists b.
Qed.

(** A line in one segment. *)
Lemma read_line_segment b : x0a ∉ b → len b < ADMIN_READ_BUDGET → read_line (segment (b ++ [x0a])) = Some (Ok b).
Proof. intros Hn Hl. apply (read_line_fits _ b []); [|done..]. apply arriving_segment. Qed.

(** The client reads the answer with the reader of requests, cap included: a
    longer answer (a [list] of many clients) is an error on the client's side. *)
Lemma cli_long_answer_fails path command b p :
  json_of_request (to_request command) = Ok p → x0a ∉ b → ADMIN_READ_BUDGET + CHUNK <= len b →
  cli_result (cli_dispatch true path command (Ok (true, segment (b ++ [x0a])))) = Some (Err A_Io).
Proof.
  intros Hp Hn Hl. unfold cli_dispatch. rewrite Hp. destruct (read_line_total (segment (b ++ [x0a]))) as [[line|e] Hr]; rewrite Hr; [|done].
  exfalso. apply read_line_Ok in Hr as (Hlen & rest & Ha & Hn2). rewrite arriving_segment in Ha.
  assert (first_line (b ++ [x0a]) = Some b) as E1 by (apply first_line_Some; eauto).
  assert (first_line (b ++ [x0a]) = Some line) as E2 by (apply first_line_Some; eauto).
  rewrite E1 in E2. injection E2 as <-. lia.
Qed.

(** ** Properties *)

(** The line reader.  It always ends.  A line it returns is the first line
    that arrived, complete; and when the first line is shorter than 64 KiB it
    is returned, however it is cut into segments. *)
Lemma read_line_spec wire :
  ∃ r, read_line wire = Some r ∧
    (∀ line, r = Ok line → len line < ADMIN_READ_BUDGET + CHUNK - 1 ∧ ∃ rest, arriving wire = line ++ x0a :: rest ∧ x0a ∉ line) ∧
    (∀ line rest, arriving wire = line ++ x0a :: rest → x0a ∉ line → len line < ADMIN_READ_BUDGET → r = Ok line).
Proof.
  destruct (read_line_total wire) as [r Hr]. exists r. split; [exact Hr|]. split.
  - intros line ->. by apply read_line_Ok.
  - intros line rest Ha Hn Hl. rewrite (read_line_fits _ _ _ Ha Hn Hl) in Hr. by injection Hr.
Qed.

(** C17: the admin socket implements the abstract service.  Whatever arrives on
    a connection, the handler ends; without a well-formed request line nothing
    changes; and a request is served as [admin_spec] says: only an enrolment
    adds to the authorisation table and only a revocation removes from it, an
    acknowledged enrolment of a client that was not authorised makes exactly
    that client authorised with exactly that PSK, an acknowledged revocation
    (of a configured provider) takes effect, a successful answer to any other
    request carries the table, the key or what the provider returned, a mint
    only for an enrolled client, and the answer is what is written back.  A
    request line under the 64 KiB cap is always served; one that exceeds it by a
    read of the socket (1023 bytes) or more never is, and changes nothing: the
    cap is tested between the reads, so in between it depends on how the line
    was cut into segments. *)
Theorem admin_refines fault env wire s :
  ∃ run, handle_admin fault env wire s = Some run ∧
    ((ar_state run = s ∧
      ∀ line rest request, arriving wire = line ++ x0a :: rest → x0a ∉ line → line ≠ [] → len line < ADMIN_READ_BUDGET →
        request_of_json line ≠ Ok request) ∨
     ∃ line rest request h, arriving wire = line ++ x0a :: rest ∧ (x0a ∉ line) ∧ line ≠ [] ∧
       len line < ADMIN_READ_BUDGET + CHUNK - 1 ∧ request_of_json line = Ok request ∧
       admin_spec env s request (auth (as_mem s)) (auth (as_mem (ar_state run))) h ∧
       ar_out run = match h with Answer r => write_response fault r | NoAnswer => [] end ∧
       head (ar_log run) = Some (log_info Ev_AdminRequest [(B "op", op_name request)])).
Proof.
  destruct (read_line_total wire) as [r Hr].
  unfold handle_admin. rewrite Hr. cbn [mbind option_bind]. eexists. split; [done|].
  assert (∀ line rest, arriving wire = line ++ x0a :: rest → x0a ∉ line → len line < ADMIN_READ_BUDGET → r = Ok line) as Hfit.
  { intros line rest Ha Hn Hl. rewrite (read_line_fits _ _ _ Ha Hn Hl) in Hr. congruence. }
  destruct r as [[|b raw]|e]; [left; split; [done|]; intros line rest req Ha Hn Hne Hl; by specialize (Hfit _ _ Ha Hn Hl) as [= <-]| |
    left; split; [done|]; intros line rest req Ha Hn Hne Hl; by specialize (Hfit _ _ Ha Hn Hl)].
  apply read_line_Ok in Hr as (Hcap & rest & Ha & Hn).
  destruct (request_of_json (b :: raw)) as [request|e] eqn:Ej.
  - right. exists (b :: raw), rest, request. unfold dispatch_and_write.
    destruct (dispatch env request s) as [[s' h] log] eqn:Ed. exists h. split_and!; [done..| |done|done].
    by eapply dispatch_spec.
  - left. split; [done|]. intros line rest' req Ha' Hn' Hne Hl. specialize (Hfit _ _ Ha' Hn' Hl) as [= <-]. by rewrite Ej.
Qed.

(** C36: the command line and the daemon agree.  For any admin command whose
    request and answer fit the reader's cap, the line the client sends is the
    request the daemon dispatches; the client exits with 0 exactly when the
    daemon's handler succeeded and with 1 when it failed, printing the daemon's
    answer on stdout or stderr (after an enrolment: the PSK in its stead). *)
Theorem cli_agrees {AL : AdminJsonLaws} env path command s s' r log payload b :
  request_ok (to_request command) → dispatch env (to_request command) s = (s', Answer r, log) →
  json_of_request (to_request command) = Ok payload → len payload < ADMIN_READ_BUDGET →
  write_response None r = b ++ [x0a] → len b < ADMIN_READ_BUDGET →
  ∃ run, handle_admin None env (segment (payload ++ [x0a])) s = Some run ∧ ar_state run = s' ∧ ar_out run = b ++ [x0a] ∧
    let cli := cli_dispatch true path command (Ok (true, segment (ar_out run))) in
    cli_sent cli = payload ++ [x0a] ∧
    match r, command with
    | Err _, _ => cli_result cli = Some (Ok 1) ∧ cli_stderr cli = b ++ [x0a] ∧ cli_stdout cli = []
    | Ok _, Cli_GithubEnroll _ _ psk =>
        cli_result cli = Some (Ok 0) ∧ ∃ j, json_of_psk (Psk_lower_hex psk) = Ok j ∧ cli_stdout cli = j ++ [x0a]
    | Ok _, _ => cli_result cli = Some (Ok 0) ∧ cli_stdout cli = b ++ [x0a] ∧ cli_stderr cli = []
    end.
Proof.
  intros Hok Hd Hj Hlen Hw Hb. destruct (json_of_request_Ok _ Hok) as (p & Hj' & Hne & Hn & Hp). rewrite Hj in Hj'. injection Hj' as <-.
  destruct (write_response_line r) as (b' & Hw' & Hn' & Ho'). rewrite Hw in Hw'. apply app_inj_tail in Hw' as [<- _].
  unfold handle_admin. rewrite read_line_segment by done. cbn [mbind option_bind]. eexists. split; [done|].
  destruct payload as [|x payload]; [done|]. rewrite Hp. unfold dispatch_and_write. rewrite Hd. cbn [ar_state ar_out]. rewrite Hw.
  split; [done|]. split; [done|]. cbv zeta. unfold cli_dispatch. rewrite Hj, read_line_segment by done.
  unfold cli_answer, is_ok_response. rewrite Ho'. cbn [map_err].
  destruct r as [a|e]; cbn [is_ok]; [|done].
  destruct command as [| | |c n psk|c|c q|]; try done. destruct (json_of_psk_Ok (Psk_lower_hex psk)) as [j ->]. cbn. eauto 10.
Qed.

End admin.

(** ** A concrete JSON

    Requests as the digits of their number in a fixed enumeration, read back
    through the checks of the field types; answers as their [ok] member. *)

#[export] Instance request_ok_dec r : Decision (request_ok r).
Proof.
  destruct r as [| | |p c k [n|]|p c|p c path|p]; cbn; try apply _.
  - refine (cast_if (decide (Identity_ok c ∧ Psk_ok k ∧ Note_ok n))); [|naive_solver].
    abstract (intros; destruct_and?; split_and!; try done; by intros ? [= <-]).
  - refine (cast_if (decide (Identity_ok c ∧ Psk_ok k))); naive_solver.
Defined.

Definition req_code (r : AdminRequest) : Z * bytes * bytes * option bytes :=
  match r with
  | Req_Status => (0, [], [], None)
  | Req_List => (1, [], [], None)
  | Req_Pubkey => (2, [], [], None)
  | Req_Enroll _ c k n => (3, as_str c, psk_bytes k, note_str <$> n)
  | Req_Revoke _ c => (4, as_str c, [], None)
  | Req_Mint _ c path => (5, as_str c, path, None)
  | Req_Selfcheck _ => (6, [], [], None)
  end.

Definition code_req (t : Z * bytes * bytes * option bytes) : AdminRequest :=
  let '(tag, x, y, n) := t in
  if tag =? 0 then Req_Status else if tag =? 1 then Req_List else if tag =? 2 then Req_Pubkey
  else if tag =? 3 then Req_Enroll Github (MkIdentity x) (MkPsk y) (MkNote <$> n)
  else if tag =? 4 then Req_Revoke Github (MkIdentity x)
  else if tag =? 5 then Req_Mint Github (MkIdentity x) y
  else Req_Selfcheck Github.

Lemma code_req_code r : code_req (req_code r) = r.
Proof. by destruct r as [| | |[] [] [] [[]|]|[] []|[] []|[]]. Qed.

Definition admin_json_model : AdminJson := {|
  AJsonError := ();
  show_json_error _ := B "invalid JSON";
  request_of_json b :=
    match b with
    | x7b :: t =>
        match digits_pos t ≫= decode with
        | Some code => if decide (request_ok (code_req code)) then Ok (code_req code) else Err ()
        | None => Err ()
        end
    | _ => Err ()
    end;
  json_of_request r := Ok (x7b :: pos_digits (encode (req_code r)));
  json_of_ok _ := Ok [x74];
  json_of_error _ := Ok [x66];
  json_of_psk h := Ok h;
  ok_field b := match b with [x74] => Ok true | [x66] => Ok false | _ => Err () end;
|}.

Lemma pos_digits_no_nl p : x0a ∉ pos_digits p.
Proof. induction p as [p IH|p IH|]; cbn; rewrite ?elem_of_cons; [intros [|]; done..|apply not_elem_of_nil]. Qed.

#[export] Instance admin_json_model_laws : @AdminJsonLaws admin_json_model.
Proof.
  split.
  - intros b r. cbn. destruct b as [|[] t]; try done. destruct (digits_pos t ≫= decode) as [code|]; [|done].
    case_decide; [|done]. by intros [= <-].
  - intros r Hok. eexists. split; [reflexivity|]. split; [done|]. split.
    + rewrite not_elem_of_cons. split; [done|apply pos_digits_no_nl].
    + cbn [request_of_json admin_json_model]. rewrite digits_pos_digits. cbn [mbind option_bind].
      rewrite decode_encode, code_req_code, decide_True by done. done.
  - intros a. exists [x74]. split; [done|]. split; [|done]. by intros ?%list_elem_of_singleton.
  - intros e. exists [x66]. split; [done|]. split; [|done]. by intros ?%list_elem_of_singleton.
  - intros h. by exists h.
Qed.

(** ** Witness: enrolling the first client *)

Definition admin_text : @LogText noise_model () := {|
  show_session_error _ := B "session error";
  show_credential_error _ := B "malformed";
  show_provider_error _ := B "provider error";
|}.

Definition admin_env : @AdminEnv () () := MkAdminEnv 60 7 (Run all_ok, Run all_ok) [] (MkBrokerPublicKey (replicate 32 x09)).
Definition admin_state : @AdminState () := MkAdminState demo_mem demo_fs ().
Definition enroll_command : CliCommand := Cli_GithubEnroll demo_id None demo_psk.
Definition enroll_payload : bytes := x7b :: pos_digits (encode (req_code (to_request enroll_command))).

Definition admin_after : @AdminState () * @Handled * list Event :=
  @dispatch noise_model hex_model formats_model plain_order () () admin_text demo_path demo_clients_path admin_env
    (to_request enroll_command) admin_state.

Lemma cli_agrees_witness :
  ∃ run, @handle_admin noise_model hex_model formats_model plain_order admin_json_model () () admin_text demo_path demo_clients_path
    None admin_env (segment (enroll_payload ++ [x0a])) admin_state = Some run ∧ ar_out run = [x74; x0a] ∧
    cli_stdout (@cli_dispatch hex_model admin_json_model true (MkPath None None) enroll_command (Ok (true, segment (ar_out run))))
    = @Psk_lower_hex hex_model demo_psk ++ [x0a].
Proof.
  destruct (@cli_agrees noise_model hex_model formats_model plain_order admin_json_model () () admin_text demo_path demo_clients_path
    admin_json_model_laws admin_env (MkPath None None) enroll_command admin_state admin_after.1.1 (Ok Ans_Ack) admin_after.2
    enroll_payload [x74]) as (run & H1 & _ & H2 & _ & _ & j & [= <-] & H4).
  - by refine (bool_decide_unpack _ _).
  - vm_compute. reflexivity.
  - reflexivity.
  - vm_compute. reflexivity.
  - reflexivity.
  - reflexivity.
  - exists run. split; [exact H1|]. split; [exact H2|exact H4].
Defined.
