(* ===== verification/AdminWire.v ===== *)
(** * The admin protocol on the wire: the serde derives of [admin.rs]

    [Request] ([tag = "op"], snake case), the answers in [OkEnvelope]
    ([flatten]), [ErrorResponse] and [OkField] as JSON texts.  [admin_serde] is
    the interface [AdminJson] the handlers and the command line client are
    proved against, with its laws. *)

From S2P Require Import Prelude Identity Psk Transport Config Github Json Serde Admin.

(** ** Requests *)

(** An internally tagged enum buffers the whole document: every string of it is
    checked. *)
Fixpoint all_utf8 (v : Value) : bool :=
  match v with
  | V_Str s => is_ok (from_utf8 s)
  | V_Arr vs => forallb all_utf8 vs
  | V_Obj ms => forallb (λ kv, is_ok (from_utf8 (fst kv)) && all_utf8 (snd kv)) ms
  | _ => true
  end.

(** The tag and the rest of the document; a sequence has the tag first. *)
Definition visit_tag (v : Value) : result JsonFault (bytes * Value) :=
  match v with
  | V_Obj ms =>
      o ← find_member (B "op") ms;
      match o with
      | Some (V_Str op) => Ok (op, V_Obj (filter (λ kv, fst kv ≠ B "op") ms))
      | _ => refuse
      end
  | V_Arr (V_Str op :: vs) => Ok (op, V_Arr vs)
  | _ => refuse
  end.

(** A unit variant ignores the other members. *)
Definition visit_unit {A} (a : A) (rest : Value) : result JsonFault A :=
  match rest with V_Obj _ | V_Arr [] => Ok a | _ => refuse end.

Definition Request_fields (r : AdminRequest) : list (bytes * Value) :=
  match r with
  | Req_Status | Req_List | Req_Pubkey => []
  | Req_Enroll provider client psk note =>
      [(B "provider", ser provider_codec provider); (B "client", ser identity_codec client); (B "psk", ser psk_codec psk);
       (B "note", ser (option_codec note_codec) note)]
  | Req_Revoke provider client => [(B "provider", ser provider_codec provider); (B "client", ser identity_codec client)]
  | Req_Mint provider client path =>
      [(B "provider", ser provider_codec provider); (B "client", ser identity_codec client); (B "path", V_Str path)]
  | Req_Selfcheck provider => [(B "provider", ser provider_codec provider)]
  end.

Definition Request_ser (r : AdminRequest) : Value := V_Obj ((B "op", V_Str (op_name r)) :: Request_fields r).

Definition de_enroll (rest : Value) : result JsonFault AdminRequest :=
  os ← visit_struct false [required (B "provider"); required (B "client"); required (B "psk"); defaulted (B "note")] rest;
  match os with
  | [p; c; k; n] =>
      provider ← de_req provider_codec p; client ← de_req identity_codec c; psk ← de_req psk_codec k;
      note ← de_opt note_codec n;
      Ok (Req_Enroll provider client psk note)
  | _ => refuse
  end.

Definition de_revoke (rest : Value) : result JsonFault AdminRequest :=
  os ← visit_struct false [required (B "provider"); required (B "client")] rest;
  match os with
  | [p; c] => provider ← de_req provider_codec p; client ← de_req identity_codec c; Ok (Req_Revoke provider client)
  | _ => refuse
  end.

Definition de_mint (rest : Value) : result JsonFault AdminRequest :=
  os ← visit_struct false [required (B "provider"); required (B "client"); required (B "path")] rest;
  match os with
  | [p; c; x] =>
      provider ← de_req provider_codec p; client ← de_req identity_codec c; path ← de_req string_codec x;
      Ok (Req_Mint provider client path)
  | _ => refuse
  end.

Definition de_selfcheck (rest : Value) : result JsonFault AdminRequest :=
  os ← visit_struct false [required (B "provider")] rest;
  match os with
  | [p] => provider ← de_req provider_codec p; Ok (Req_Selfcheck provider)
  | _ => refuse
  end.

Definition de_variant (op : bytes) (rest : Value) : result JsonFault AdminRequest :=
  if decide (op = B "status") then visit_unit Req_Status rest
  else if decide (op = B "list") then visit_unit Req_List rest
  else if decide (op = B "pubkey") then visit_unit Req_Pubkey rest
  else if decide (op = B "enroll") then de_enroll rest
  else if decide (op = B "revoke") then de_revoke rest
  else if decide (op = B "mint") then de_mint rest
  else if decide (op = B "selfcheck") then de_selfcheck rest
  else refuse.

Definition Request_de (v : Value) : result JsonFault AdminRequest :=
  if all_utf8 v then '(op, rest) ← visit_tag v; de_variant op rest else refuse.

(** ** Answers *)

(** [u64] and [i64] at their width. *)
Definition as_u64 (n : Z) : Z := n mod 18446744073709551616.
Definition as_i64 (n : Z) : Z := (n - i64_min) mod 18446744073709551616 + i64_min.

Section wire.
Context {RF : Rfc3339}.

Definition opt_str (o : option bytes) : Value := match o with Some s => V_Str s | None => V_Null end.

Definition ListEntry_ser (e : ListEntry) : Value :=
  V_Obj [(B "name", ser identity_codec (le_name e)); (B "providers", ser (vec_codec provider_codec) (le_providers e));
         (B "enrolled_at", ser time_codec (le_enrolled_at e)); (B "note", ser (option_codec note_codec) (le_note e))].

Definition Response_fields (a : AdminResponse) : list (bytes * Value) :=
  match a with
  | Ans_Status r =>
      [(B "uptime_sec", V_Int (as_u64 (uptime_sec r))); (B "providers", ser (vec_codec provider_codec) (st_providers r));
       (B "client_count", V_Int (as_u64 (client_count r)))]
  | Ans_List clients => [(B "clients", V_Arr (ListEntry_ser <$> clients))]
  | Ans_Pubkey broker_public_key => [(B "broker_public_key", V_Str broker_public_key)]
  | Ans_Mint r =>
      [(B "username", V_Str (mi_username r)); (B "password", V_Str (mi_password r));
       (B "expires_at_unix", V_Int (as_u64 (expires_at_unix r))); (B "out_req_id", V_Str (mi_out_req_id r));
       (B "provider_req_id", opt_str (mi_provider_req_id r))]
  | Ans_Selfcheck r =>
      [(B "out_req_id", V_Str (so_out_req_id r)); (B "provider_req_id", opt_str (so_provider_req_id r));
       (B "clock_skew_sec", V_Int (as_i64 (so_clock_skew_sec r)));
       (B "details", V_Obj (prod_map id V_Str <$> so_details r))]
  | Ans_Ack => []
  end.

Definition OkEnvelope_ser (fields : list (bytes * Value)) : Value := V_Obj ((B "ok", V_Bool true) :: fields).

Definition ErrorResponse_ser (e : ErrorResponse) : Value :=
  V_Obj [(B "ok", V_Bool false); (B "error", V_Str (er_error e))].

Definition OkField_de (v : Value) : result JsonFault bool :=
  os ← visit_struct false [required (B "ok")] v;
  match os with [o] => de_req bool_codec o | _ => refuse end.

(** [show]: how the crate words an error. *)
Definition admin_serde (show : JsonFault → bytes) : AdminJson := {|
  AJsonError := JsonFault;
  show_json_error := show;
  request_of_json := from_json Request_de;
  json_of_request r := Ok (json_compact (Request_ser r));
  json_of_ok a := Ok (json_compact (OkEnvelope_ser (Response_fields a)));
  json_of_error e := Ok (json_compact (ErrorResponse_ser e));
  json_of_psk hex := Ok (json_compact (OkEnvelope_ser [(B "psk_hex", V_Str hex)]));
  ok_field := from_json OkField_de;
|}.

End wire.

(** ** Requests read back *)

Lemma visit_tag_fields op ms :
  keys_apart (B "op") ms = true → visit_tag (V_Obj ((B "op", V_Str op) :: ms)) = Ok (op, V_Obj ms).
Proof.
  intros Hms. unfold visit_tag. rewrite find_member_head by done. cbn [mbind result_bind].
  apply keys_apart_Forall in Hms as [Hms _]. rewrite filter_cons_False, filter_all by naive_solver. done.
Qed.

Lemma all_utf8_strings v : strings utf8 v → all_utf8 v = true.
Proof.
  assert (∀ s, utf8 s → is_ok (from_utf8 s) = true) as Hs by (by intros s ->%utf8_from_utf8).
  induction v as [|[]|n|f|s|vs IH|ms IH] using Value_nested; cbn; auto; intros Hv.
  - induction IH as [|v vs Hv' _ IH]; cbn in *; [done|]. destruct Hv. by rewrite Hv', IH.
  - induction IH as [|[k v] ms Hv' _ IH]; cbn in *; [done|]. destruct Hv as [[]?]. by rewrite Hs, Hv', IH.
Qed.

Lemma B_utf8 t : forallb (λ b, u8 b <? 128) (B t) = true → utf8 (B t).
Proof.
  intros H. apply utf8_ascii, Forall_forall. intros b Hb%list_elem_of_In. rewrite forallb_forall in H. apply H in Hb. lia.
Qed.

Lemma psk_strings p : strings utf8 (ser psk_codec p).
Proof. cbn. induction (psk_bytes p); cbn; auto. Qed.

Lemma Request_strings r : request_ok r → strings utf8 (Request_ser r).
Proof.
  assert (∀ i, Identity_ok i → utf8 (as_str i)) as Hi by (intros i Hi; by apply utf8_from_utf8, Identity_ok_utf8).
  destruct r as [| | |[] c k n|[] c|[] c x|[]]; intros Hok; cbn [request_ok] in Hok;
    cbn [Request_ser Request_fields op_name strings foldr fst snd ser provider_codec identity_codec]; split_and!;
    try done; try (by apply B_utf8); try (apply Hi; naive_solver); try apply psk_strings.
  - destruct n as [n|]; cbn; [|done]. destruct Hok as (_ & _ & Hn). destruct (Hn n eq_refl) as (_ & Hu & _). by apply utf8_from_utf8.
  - apply utf8_from_utf8. naive_solver.
Qed.

Lemma Request_printable r : printable 2 (Request_ser r) = true.
Proof.
  assert (∀ p, printable 1 (ser psk_codec p) = true) as Hp.
  { intros p. cbn. apply forallb_forall. intros v. rewrite <-list_elem_of_In. intros (n & -> & Hn)%list_elem_of_fmap.
    apply list_elem_of_fmap in Hn as (b & -> & _). pose proof (u8_range b). cbn. unfold i64_min, u64_max. lia. }
  destruct r as [| | |[] c k [n|]|[] c|[] c x|[]]; try done;
    cbn [Request_ser Request_fields printable forallb snd]; by rewrite Hp.
Qed.

Lemma visit_enroll p c k n :
  visit_struct false [required (B "provider"); required (B "client"); required (B "psk"); defaulted (B "note")]
    (V_Obj [(B "provider", p); (B "client", c); (B "psk", k); (B "note", n)]) = Ok [Some p; Some c; Some k; Some n].
Proof. by vm_compute. Qed.
Lemma visit_revoke p c :
  visit_struct false [required (B "provider"); required (B "client")] (V_Obj [(B "provider", p); (B "client", c)]) = Ok [Some p; Some c].
Proof. by vm_compute. Qed.
Lemma visit_mint p c x :
  visit_struct false [required (B "provider"); required (B "client"); required (B "path")]
    (V_Obj [(B "provider", p); (B "client", c); (B "path", x)]) = Ok [Some p; Some c; Some x].
Proof. by vm_compute. Qed.
Lemma visit_selfcheck p : visit_struct false [required (B "provider")] (V_Obj [(B "provider", p)]) = Ok [Some p].
Proof. by vm_compute. Qed.

Lemma Request_de_ser r : request_ok r → Request_de (Request_ser r) = Ok r.
Proof.
  intros Hok. unfold Request_de. rewrite (all_utf8_strings _ (Request_strings r Hok)). unfold Request_ser.
  rewrite visit_tag_fields by (by destruct r as [| | |[] c k n|[] c|[] c x|[]]; vm_compute). cbn [mbind result_bind].
  pose proof (option_laws 0 note_codec note_not_null note_laws) as Hn.
  destruct r as [| | |p c k n|p c|p c x|p]; try done; cbn [request_ok] in Hok;
    unfold de_variant; repeat (rewrite decide_False by done); rewrite decide_True by done; cbn [Request_fields].
  - destruct Hok as (Hc & Hk & Hnote). unfold de_enroll. rewrite visit_enroll. cbn [mbind result_bind de_req].
    rewrite (de_ser _ _ provider_laws), (de_ser _ _ identity_laws), (de_ser _ _ psk_laws) by done. cbn [mbind result_bind de_opt].
    rewrite (de_ser _ _ Hn); [done|]. destruct n; [by apply Hnote|done].
  - unfold de_revoke. rewrite visit_revoke. cbn [mbind result_bind de_req].
    by rewrite (de_ser _ _ provider_laws), (de_ser _ _ identity_laws) by done.
  - destruct Hok as [Hc Hx]. unfold de_mint. rewrite visit_mint. cbn [mbind result_bind de_req].
    rewrite (de_ser _ _ provider_laws), (de_ser _ _ identity_laws) by done. cbn [mbind result_bind].
    by rewrite (de_ser _ _ string_laws x Hx : de string_codec (V_Str _) = _).
  - unfold de_selfcheck. rewrite visit_selfcheck. cbn [mbind result_bind de_req]. by rewrite (de_ser _ _ provider_laws).
Qed.

Lemma de_req_Ok {A} (c : Codec A) o a : de_req c o = Ok a → ∃ v, o = Some v ∧ de c v = Ok a.
Proof. destruct o; [eauto|done]. Qed.

Lemma de_opt_typed {A} depth (c : Codec A) o a : CodecLaws depth c → de_opt c o = Ok (Some a) → typed c a.
Proof.
  intros Hc H. destruct o as [v|]; [|done]. cbn in H. destruct v; inv_ok; try done; by eapply (de_typed _ _ Hc).
Qed.

Lemma visit_unit_Ok {A} (a b : A) rest : visit_unit a rest = Ok b → b = a.
Proof. destruct rest as [| | | | |[]|]; cbn; unfold refuse; congruence. Qed.

(** Split a decoder into its fields. *)
Ltac inv_fields :=
  repeat match goal with
  | H : _ ≫= _ = Ok _ |- _ => apply bind_Ok in H as (? & ? & ?)
  | H : match ?os with _ => _ end = Ok _ |- _ => destruct os; try done
  | H : de_req _ _ = Ok _ |- _ => apply de_req_Ok in H as (? & -> & ?)
  | H : Ok _ = Ok _ |- _ => injection H as ?; subst
  end.

Lemma de_variant_ok op rest r : de_variant op rest = Ok r → request_ok r.
Proof.
  unfold de_variant. intros H. repeat case_decide; try done; try (by apply visit_unit_Ok in H as ->).
  - unfold de_enroll in H. inv_fields. cbn. split_and!.
    + by eapply (de_typed _ _ identity_laws).
    + by eapply (de_typed _ _ psk_laws).
    + intros n ->. by eapply (de_opt_typed 0 note_codec _ _ note_laws).
  - unfold de_revoke in H. inv_fields. by eapply (de_typed _ _ identity_laws).
  - unfold de_mint in H. inv_fields. split; [by eapply (de_typed _ _ identity_laws)|by eapply (de_typed _ _ string_laws)].
  - unfold de_selfcheck in H. by inv_fields.
Qed.

Lemma Request_de_ok v r : Request_de v = Ok r → request_ok r.
Proof. unfold Request_de. case_match; [|done]. intros ([op rest] & _ & Hv)%bind_Ok. by eapply de_variant_ok. Qed.

(** ** Strings that cannot break a line *)

(** The strings of a request that have a type of their own. *)
Definition checked_strings (r : AdminRequest) : list bytes :=
  match r with
  | Req_Enroll _ client _ note => as_str client :: option_list (note_str <$> note)
  | Req_Revoke _ client | Req_Mint _ client _ => [as_str client]
  | _ => []
  end.

Lemma second3_big b0 b1 : second3 b0 b1 = true → 128 <= u8 b1.
Proof. unfold second3, cont, in_range. repeat case_decide; lia. Qed.
Lemma second4_big b0 b1 : second4 b0 b1 = true → 128 <= u8 b1.
Proof. unfold second4, cont, in_range. repeat case_decide; lia. Qed.
Lemma cont_big b : cont b = true → 128 <= u8 b.
Proof. unfold cont, in_range. lia. Qed.

(** An ASCII byte of a string is one of its characters. *)
Lemma ascii_is_char l : ∀ off cs b, utf8_chars off l = Ok cs → b ∈ l → u8 b < 128 → u8 b ∈ cs.*2.
Proof.
  induction l as [l IH] using list_len_ind. intros off cs b. destruct l as [|b0 l]; [by intros _ ?%elem_of_nil|].
  assert (∀ c k n x, b0 :: l = c ++ k → c ≠ [] → Forall (λ b, 128 <= u8 b) c →
    utf8_chars n k ≫= (λ cs, mret ((off, x) :: cs)) = Ok cs → b ∈ b0 :: l → u8 b < 128 → u8 b ∈ cs.*2) as Hrec.
  { intros c k n x Hl Hc Hbig (cs' & Hcs & [= <-])%bind_Ok Hin Hb. cbn. right. rewrite Hl in Hin, IH. apply elem_of_app in Hin as [Hin|Hin].
    - rewrite Forall_forall in Hbig. apply Hbig in Hin. lia.
    - apply (IH k) with n; try done. destruct c; [done|]. cbn. rewrite length_app. lia. }
  cbn [utf8_chars]. destruct (u8 b0 <? 128) eqn:E0.
  { intros (cs' & Hcs & [= <-])%bind_Ok [->|Hin]%elem_of_cons Hb; cbn; [by left|]. right. apply (IH l) with (off + 1); try done. cbn. lia. }
  assert (128 <= u8 b0) as H0 by lia.
  destruct (in_range 194 223 b0).
  { destruct l as [|b1 l]; [done|]. destruct (cont b1) eqn:C1; [|done]. apply (Hrec [b0; b1] l); try done.
    repeat constructor; [done|by apply cont_big]. }
  destruct (in_range 224 239 b0).
  { destruct l as [|b1 [|b2 l]]; [done..|]. destruct (second3 b0 b1 && cont b2) eqn:C; [|done]. apply andb_true_iff in C as [C1 C2].
    apply (Hrec [b0; b1; b2] l); try done. repeat constructor; [done|by eapply second3_big|by apply cont_big]. }
  destruct (in_range 240 244 b0); [|done].
  destruct l as [|b1 [|b2 [|b3 l]]]; [done..|]. destruct (second4 b0 b1 && cont b2 && cont b3) eqn:C; [|done].
  apply andb_true_iff in C as [[C1 C2]%andb_true_iff C3].
  apply (Hrec [b0; b1; b2; b3] l); try done. repeat constructor; [done|by eapply second4_big|by apply cont_big..].
Qed.

Lemma Identity_no_control i : Identity_ok i → no_control (as_str i).
Proof.
  intros [_ H]. eapply Forall_impl; [exact H|]. intros b Hb. enough ((32 <=? u8 b) = true) by lia. revert Hb. by destruct b; vm_compute.
Qed.

Lemma Note_no_control n : Note_ok n → no_control (note_str n).
Proof.
  intros (_ & Hu & Hc). apply Forall_forall. intros b Hb. destruct (decide (32 <= u8 b)) as [|Hlt]; [done|]. exfalso.
  unfold from_utf8 in Hu. unfold str_chars in Hc. destruct (char_indices (note_str n)) as [cs|] eqn:Ecs; [|done]. cbn in Hc.
  pose proof (ascii_is_char _ 0 cs b Ecs Hb ltac:(lia)) as ([o c] & Hx & Hin)%list_elem_of_fmap. cbn in Hx.
  rewrite Forall_forall in Hc. apply Hc in Hin. cbn in Hin. subst c. unfold is_control in Hin. lia.
Qed.

Lemma request_clean r s : request_ok r → s ∈ checked_strings r → no_control s.
Proof.
  destruct r as [| | |p c k n|p c|p c x|p]; cbn [request_ok checked_strings]; try (by intros _ ?%elem_of_nil).
  - intros (Hc & _ & Hn) [->|Hs]%elem_of_cons; [by apply Identity_no_control|]. destruct n as [n|]; [|by apply elem_of_nil in Hs].
    apply list_elem_of_singleton in Hs as ->. apply Note_no_control. by apply Hn.
  - intros Hc ->%list_elem_of_singleton. by apply Identity_no_control.
  - intros [Hc _] ->%list_elem_of_singleton. by apply Identity_no_control.
Qed.

(** The path of a mint is a plain string: what refuses a line break in it is
    the provider. *)
Lemma RepoPath_no_control {H} path rp : RepoPath_parse (H:=H) path = Ok rp → no_control path.
Proof.
  assert (∀ l, forallb is_valid_byte l = true → no_control l) as Hv.
  { intros l Hl. apply Forall_forall. intros b Hb%list_elem_of_In. rewrite forallb_forall in Hl. apply Hl in Hb.
    enough ((32 <=? u8 b) = true) by lia. revert Hb. by destruct b; vm_compute. }
  unfold RepoPath_parse. destruct (split_once x2f path) as [[o r]|] eqn:E; [|done]. apply split_once_Some in E as [-> _].
  destruct (_ || _) eqn:Hbad; [done|]. intros _. apply orb_false_iff in Hbad as [[_ H3]%orb_false_iff H4].
  apply negb_false_iff in H3, H4. apply Forall_app_2; [by apply Hv|]. constructor; [by vm_compute|]. by apply Hv.
Qed.

(** ** Answers are read as what they are *)

Section answers.
Context {RF : Rfc3339}.

Lemma printable_obj depth ms : printable (S depth) (V_Obj ms) = forallb (λ kv, printable depth (snd kv)) ms.
Proof. done. Qed.

Lemma as_u64_printable n depth : printable depth (V_Int (as_u64 n)) = true.
Proof. cbn. unfold as_u64, i64_min, u64_max. pose proof (Z.mod_pos_bound n 18446744073709551616 ltac:(lia)). lia. Qed.
Lemma as_i64_printable n depth : printable depth (V_Int (as_i64 n)) = true.
Proof. cbn. pose proof (Z.mod_pos_bound (n - i64_min) 18446744073709551616 ltac:(lia)). unfold as_i64, i64_min, u64_max in *. lia. Qed.

Lemma providers_printable ps depth : printable (S depth) (ser (vec_codec provider_codec) ps) = true.
Proof. cbn. induction ps as [|[] ps IH]; [done|]. exact IH. Qed.

Lemma ListEntry_printable e : printable 2 (ListEntry_ser e) = true.
Proof. cbn [ListEntry_ser printable forallb snd]. rewrite providers_printable. by destruct (le_note e). Qed.

Lemma Response_printable a : printable 4 (OkEnvelope_ser (Response_fields a)) = true.
Proof.
  destruct a as [s|cs|k|m|o|]; try done; unfold OkEnvelope_ser; rewrite printable_obj; cbn [Response_fields forallb snd].
  - by rewrite !as_u64_printable, providers_printable.
  - rewrite andb_true_r. apply forallb_forall. intros v. rewrite <-list_elem_of_In. intros (e & -> & _)%list_elem_of_fmap.
    apply ListEntry_printable.
  - rewrite as_u64_printable. by destruct (mi_provider_req_id m).
  - rewrite as_i64_printable. destruct (so_provider_req_id o); cbn; rewrite andb_true_r;
      apply forallb_forall; intros v; rewrite <-list_elem_of_In; by intros ([k x] & -> & _)%list_elem_of_fmap.
Qed.

Lemma OkField_de_envelope b ms : keys_apart (B "ok") ms = true → OkField_de (V_Obj ((B "ok", V_Bool b) :: ms)) = Ok b.
Proof. intros Hms. unfold OkField_de. by rewrite visit_struct_one. Qed.

Lemma Response_keys a : keys_apart (B "ok") (Response_fields a) = true.
Proof. destruct a; by vm_compute. Qed.

(** The texts, one by one. *)
Lemma Request_text r :
  request_ok r → no_control (json_compact (Request_ser r)) ∧ from_json Request_de (json_compact (Request_ser r)) = Ok r.
Proof.
  intros Hr. rewrite (from_json_compact 2) by (apply Request_printable || lia).
  split; [|by apply Request_de_ser]. apply (json_compact_visible 2), Request_printable.
Qed.

Lemma Request_text_ok text r : from_json Request_de text = Ok r → request_ok r.
Proof. intros (v & Hv)%from_json_Ok. by eapply Request_de_ok. Qed.

Lemma Response_text a :
  no_control (json_compact (OkEnvelope_ser (Response_fields a))) ∧
  from_json OkField_de (json_compact (OkEnvelope_ser (Response_fields a))) = Ok true.
Proof.
  rewrite (from_json_compact 4) by (apply Response_printable || lia).
  split; [|by apply OkField_de_envelope, Response_keys]. apply (json_compact_visible 4), Response_printable.
Qed.

Lemma ErrorResponse_text e :
  no_control (json_compact (ErrorResponse_ser e)) ∧ from_json OkField_de (json_compact (ErrorResponse_ser e)) = Ok false.
Proof.
  rewrite (from_json_compact 1) by (done || lia).
  split; [|by apply OkField_de_envelope]. by apply (json_compact_visible 1).
Qed.

(** C37: The admin protocol on the wire, byte for byte.  Every request of the
    protocol is written as one line, without a byte below [0x20], and that line
    reads back as exactly that request; whatever text is accepted, the request it
    gives has valid identities, notes, 32-byte keys and UTF-8 paths, so no
    handler sees an unchecked field; every success answer and every error answer
    is one line, without a byte below [0x20], that the command line client reads
    as what it is.  CR, LF and every other byte below [0x20] are refused in
    identities and notes when the request is read, but not in the path of a mint
    ([mint_path_crlf] below, against the protocol's documentation): there the
    provider refuses it. *)
Theorem admin_wire_faithful :
  (∀ r, request_ok r →
     no_control (json_compact (Request_ser r)) ∧ from_json Request_de (json_compact (Request_ser r)) = Ok r) ∧
  (∀ text r, from_json Request_de text = Ok r →
     request_ok r ∧ (∀ s, s ∈ checked_strings r → no_control s)) ∧
  (∀ H path rp, RepoPath_parse (H:=H) path = Ok rp → no_control path) ∧
  (∀ a, no_control (json_compact (OkEnvelope_ser (Response_fields a))) ∧
     from_json OkField_de (json_compact (OkEnvelope_ser (Response_fields a))) = Ok true) ∧
  (∀ e, no_control (json_compact (ErrorResponse_ser e)) ∧
     from_json OkField_de (json_compact (ErrorResponse_ser e)) = Ok false).
Proof.
  split_and!; [exact Request_text| |intros H path rp; apply RepoPath_no_control|exact Response_text|exact ErrorResponse_text].
  intros text r Hr%Request_text_ok. split; [done|]. intros s. by apply request_clean.
Qed.

Lemma admin_serde_laws show : @AdminJsonLaws (admin_serde show).
Proof.
  split; cbn [request_of_json json_of_request json_of_ok json_of_error json_of_psk ok_field admin_serde].
  - exact Request_text_ok.
  - intros r Hr. destruct (Request_text r Hr) as [?%visible_no_lf ?]. eexists. split; [done|]. split; [done|]. by split.
  - intros a. destruct (Response_text a) as [?%visible_no_lf ?]. eexists. split; [done|]. by split.
  - intros e. destruct (ErrorResponse_text e) as [?%visible_no_lf ?]. eexists. split; [done|]. by split.
  - eauto.
Qed.

End answers.

(** JSON written with single quotes. *)
Definition J (t : string) : bytes := (λ b, if decide (b = x27) then x22 else b) <$> B t.

(** A mint whose path holds CR and LF is read and dispatched like any other. *)
Lemma mint_path_crlf :
  from_json Request_de (J "{'op':'mint','provider':'github','client':'dev-vm-1','path':'octo/a\r\nb'}") =
    Ok (Req_Mint Github demo_id (B "octo/a" ++ [x0d; x0a] ++ B "b")).
Proof. by vm_compute. Qed.

(** The command line's [mint] request, as text. *)
Definition demo_mint_request : AdminRequest := Req_Mint Github demo_id (B "octo/hello").

Lemma admin_wire_faithful_witness :
  json_compact (Request_ser demo_mint_request) = J "{'op':'mint','provider':'github','client':'dev-vm-1','path':'octo/hello'}" ∧
  from_json Request_de (json_compact (Request_ser demo_mint_request)) = Ok demo_mint_request.
Proof.
  split; [by vm_compute|]. destruct (@admin_wire_faithful demo_rfc3339) as [H _]. apply (H demo_mint_request).
  split; [apply demo_id_ok|by vm_compute].
Defined.
