(* ===== verification/Daemon.v ===== *)
(** * The running daemon

    The parts together, as one state machine: live connections, each at some
    turn of [handle_connection]; the admin socket with at most one enrolment or
    revocation in progress (the mutation lock); the tables in memory, the state
    files on disk, the providers and the log rate limiter they all share; and
    crashes at any moment, followed by a start-up from what is on disk.

    Connections and the mutation in progress interleave at the turns of the
    connection loop and at the suspension points and file system actions of the
    mutation; a turn that mints runs the provider to its answer.  What happens
    is recorded in a trace, of which two monitors compute who may, and who
    must, hold an accepted PSK. *)

From S2P Require Import Prelude Identity Psk GitCredential Transport RateLimit AtomicFs Config State Github Events Connection Broker Admin.

(** ** What the daemon needs of a provider beyond [ProviderLaws]

    What is known of a credential stays known when the provider is used
    again. *)
Class ProviderStable {H St} (I : St → Prop) (Q : bytes → Response → St → Prop) (pr : @Provider H St) : Prop := {
  mint_keeps st path st' o p r : I st → pr_mint pr path st = (st', o) → Q p r st → Q p r st';
  selfcheck_keeps st st' o p r : I st → pr_selfcheck pr st = (st', o) → Q p r st → Q p r st';
}.

Section daemon.
Context {NZ : Noise} {HX : HexCodec} {FF : FileFormats} {HO : HashOrder} {AJ : AdminJson} {H St : Type} {LT : LogText H}.
Context (psk_file_path clients_file_path : Path) (broker_key : BrokerPrivateKey) (broker_public : BrokerPublicKey).
Context (providers : list (ProviderKind * @Provider H St)).
(** The providers' state after a start-up: empty caches. *)
Context (restart : St → St).

(** ** State *)

(** What the outside decides about a connection. *)
Record ConnIn := MkConnIn {
  ci_peer : bytes;
  ci_seed : Z;
  ci_random : result bytes Psk;
  ci_instant : Z;
  ci_provider_ms : Z;
  ci_wall : Z;
  ci_wire : list Arrival;
  ci_writes : list (option bytes);
}.

(** And about an admin connection. *)
Record AdminIn := MkAdminIn {
  ai_fault : option nat;
  ai_uptime : Z;
  ai_now : Z;
  ai_awaits : Await * Await;
  ai_wire : list Arrival;
}.

(** A connection being served: what it was given, the tables it has seen, and
    how far its handler is. *)
Record Live := MkLive { lv_in : ConnIn; lv_mem : Mem; lv_conn : @Conn NZ St }.

(** What ends up in the trace. *)
Inductive Logged :=
| L_open (n : nat) (i : ConnIn)                           (* connection [n] was accepted *)
| L_accept (n : nat) (id : Identity) (psk : Psk)          (* its PSK was looked up and found *)
| L_mint (n : nat) (host path : bytes)                    (* it asked a provider for a mint *)
| L_end (n : nat) (lv : Live) (v : Verdict)               (* its handler ended *)
| L_enroll (id : Identity) (psk : Psk)                    (* an enrolment began *)
| L_enrolled (id : Identity) (psk : Psk)                  (* and succeeded *)
| L_revoke (id : Identity)                                (* a revocation began *)
| L_revoked (id : Identity)                               (* and succeeded *)
| L_boot                                                  (* the daemon started again *)
| L_down.                                                 (* it failed to start *)

(** A mutation in progress: the tables it will show, the states of the disk it
    will go through, how it ends. *)
Record Pending := MkPending {
  pd_visible : list Mem;
  pd_disks : list Fs;
  pd_final : @AdminState St;
  pd_log : list Logged;
}.

Record Daemon := MkDaemon {
  d_mem : Mem;
  d_fs : Fs;
  d_providers : St;
  d_bucket : TokenBucket;
  d_pending : option Pending;
  d_live : gmap nat Live;
  d_next : nat;                                           (* the number of the next connection *)
}.

(** ** Steps *)

Inductive DEvent :=
| E_open (i : ConnIn)
| E_turn (n : nat)
| E_cut (n : nat)          (* the per-connection timeout, or the shutdown *)
| E_admin (i : AdminIn)
| E_visible                (* the mutation reaches its next suspension point *)
| E_disk                   (* the mutation's next file system action *)
| E_finish                 (* the mutation returns *)
| E_crash (instant : Z).   (* the process dies and is started again *)

Definition conn_env (m : Mem) (i : ConnIn) : ConnEnv :=
  MkConnEnv (ci_peer i) (ci_seed i) broker_key m (ci_random i) (ci_instant i) (ci_provider_ms i) (ci_wall i)
    (snd <$> providers).

Definition admin_env_of (i : AdminIn) : @AdminEnv H St :=
  MkAdminEnv (ai_uptime i) (ai_now i) (ai_awaits i) providers broker_public.

(** The tables are read in the turn that needs the PSK, as they are then. *)
Definition turn_mem (d : Daemon) (lv : Live) : Mem :=
  match c_sess (lv_conn lv) with R_NeedPsk _ _ => d_mem d | _ => lv_mem lv end.

(** A connection over the shared providers and rate limiter as they are now. *)
Definition share (st : St) (b : TokenBucket) (c : @Conn NZ St) : Conn :=
  MkConn (c_sess c) (c_client c) (c_record c) (c_wire c) (c_writes c) b st (c_out c) (c_log c) (c_mints c).

Definition accept_log (n : nat) (m : Mem) (before after : @Conn NZ St) : list Logged :=
  match c_sess before, c_client after with
  | R_NeedPsk _ id, Some _ => L_accept n id <$> option_list (auth m !! id)
  | _, _ => []
  end.

Definition mint_log (n : nat) (before after : @Conn NZ St) : list Logged :=
  (λ hp, L_mint n hp.1 hp.2) <$> drop (length (c_mints before)) (c_mints after).

Definition turn_step (d : Daemon) (n : nat) (lv : Live) : list Logged * Daemon :=
  let m := turn_mem d lv in
  let '(c, v) := conn_turn (conn_env m (lv_in lv)) (share (d_providers d) (d_bucket d) (lv_conn lv)) in
  let lv' := MkLive (lv_in lv) m c in
  (accept_log n m (lv_conn lv) c ++ mint_log n (lv_conn lv) c ++ match v with Continue => [] | _ => [L_end n lv' v] end,
   MkDaemon (d_mem d) (d_fs d) (c_providers c) (c_bucket c) (d_pending d)
     (match v with Continue => <[n := lv']> (d_live d) | _ => delete n (d_live d) end) (d_next d)).

(** The mutation an admin connection asks for, if any. *)
Definition mutation_of (env : @AdminEnv H St) (request : AdminRequest) : option Mutation :=
  match request with
  | Req_Enroll p c k n => Some (Mut_enroll (ae_now env) (ae_awaits env).1 (ae_awaits env).2 c k p n)
  | Req_Revoke p c => (λ _, Mut_revoke (ae_awaits env).1 (ae_awaits env).2 c) <$> lookup_provider env p
  | _ => None
  end.

Definition admin_request (wire : list Arrival) : option AdminRequest :=
  match read_line wire with
  | Some (Ok (b :: raw)) => ok (request_of_json (b :: raw))
  | _ => None
  end.

Definition begin_log (mu : Mutation) (m : Mem) : list Logged :=
  match mu with
  | Mut_enroll _ _ _ c k _ _ => if decide (m_clients m !! c = None) then [L_enroll c k] else []
  | Mut_revoke _ _ c => [L_revoke c]
  end.

Definition finish_log (mu : Mutation) (o : Outcome) : list Logged :=
  if ended_ok o then match mu with Mut_enroll _ _ _ c k _ _ => [L_enrolled c k] | Mut_revoke _ _ c => [L_revoked c] end else [].

(** An admin connection: a mutation waits for the lock (the event has no effect
    while another one is in progress), everything else is served at once. *)
Definition admin_step (d : Daemon) (i : AdminIn) : list Logged * Daemon :=
  let env := admin_env_of i in
  match handle_admin psk_file_path clients_file_path (ai_fault i) env (ai_wire i) (MkAdminState (d_mem d) (d_fs d) (d_providers d)) with
  | None => ([], d)
  | Some run =>
      match admin_request (ai_wire i) ≫= mutation_of env, d_pending d with
      | None, _ =>
          ([], MkDaemon (d_mem d) (d_fs d) (as_providers (ar_state run)) (d_bucket d) (d_pending d) (d_live d) (d_next d))
      | Some mu, Some _ => ([], d)
      | Some mu, None =>
          let o := mutate psk_file_path clients_file_path mu (d_mem d) (d_fs d) in
          (begin_log mu (d_mem d),
           MkDaemon (d_mem d) (d_fs d) (d_providers d) (d_bucket d)
             (Some (MkPending (o_visible o) (o_disk o) (ar_state run) (finish_log mu o))) (d_live d) (d_next d))
      end
  end.

Definition booted (m : Mem) (fs : Fs) (st : St) (instant : Z) (next : nat) : Daemon :=
  MkDaemon m fs st (TokenBucket_new UNKNOWN_IDENTITY_LOG_REFILL UNKNOWN_IDENTITY_LOG_BURST_TOLERANCE instant) None ∅ next.

(** One event; an event that is not enabled has no effect. *)
Definition dstep (d : Daemon) (e : DEvent) : list Logged * Daemon :=
  match e with
  | E_open i =>
      ([L_open (d_next d) i],
       MkDaemon (d_mem d) (d_fs d) (d_providers d) (d_bucket d) (d_pending d)
         (match Responder_new (ci_seed i) broker_key with
          | Ok s => <[d_next d := MkLive i (d_mem d)
                       (MkConn s None None (ci_wire i) (ci_writes i) (d_bucket d) (d_providers d) [] [] [])]> (d_live d)
          | Err _ => d_live d
          end) (S (d_next d)))
  | E_turn n => match d_live d !! n with Some lv => turn_step d n lv | None => ([], d) end
  | E_cut n => ([], MkDaemon (d_mem d) (d_fs d) (d_providers d) (d_bucket d) (d_pending d) (delete n (d_live d)) (d_next d))
  | E_admin i => admin_step d i
  | E_visible =>
      match d_pending d with
      | Some (MkPending (m :: ms) fss s l) =>
          ([], MkDaemon m (d_fs d) (d_providers d) (d_bucket d) (Some (MkPending ms fss s l)) (d_live d) (d_next d))
      | _ => ([], d)
      end
  | E_disk =>
      match d_pending d with
      | Some (MkPending ms (fs :: fss) s l) =>
          ([], MkDaemon (d_mem d) fs (d_providers d) (d_bucket d) (Some (MkPending ms fss s l)) (d_live d) (d_next d))
      | _ => ([], d)
      end
  | E_finish =>
      match d_pending d with
      | Some (MkPending [] [] s l) =>
          (l, MkDaemon (as_mem s) (as_fs s) (d_providers d) (d_bucket d) None (d_live d) (d_next d))
      | _ => ([], d)
      end
  | E_crash instant =>
      match acquire_tables psk_file_path clients_file_path (d_fs d) with
      | Ok m => ([L_boot], booted m (d_fs d) (restart (d_providers d)) instant (d_next d))
      | Err _ => ([L_down], d)
      end
  end.

Fixpoint drun (d : Daemon) (es : list DEvent) : list Logged * Daemon :=
  match es with
  | [] => ([], d)
  | e :: es' =>
      let '(l1, d1) := dstep d e in
      let '(l2, d2) := drun d1 es' in
      (l1 ++ l2, d2)
  end.

(** ** Two monitors of the trace

    Who may hold an accepted PSK: those of the start, and whoever an enrolment
    was attempted for, until a revocation of that client succeeds.  Who must:
    those of the start and whoever was successfully enrolled, until a
    revocation of that client is attempted. *)

Definition may_step (P : Identity → Psk → Prop) (l : Logged) : Identity → Psk → Prop :=
  match l with
  | L_enroll id psk => λ i p, (i = id ∧ p = psk) ∨ P i p
  | L_revoked id => λ i p, i ≠ id ∧ P i p
  | _ => P
  end.

Definition must_step (P : Identity → Psk → Prop) (l : Logged) : Identity → Psk → Prop :=
  match l with
  | L_enrolled id psk => λ i p, (i = id ∧ p = psk) ∨ P i p
  | L_revoke id => λ i p, i ≠ id ∧ P i p
  | _ => P
  end.

Definition may_hold (m0 : Mem) (tr : list Logged) : Identity → Psk → Prop :=
  foldl may_step (λ i p, entries (m_psks m0) !! i = Some p) tr.

Definition must_hold (m0 : Mem) (tr : list Logged) : Identity → Psk → Prop :=
  foldl must_step (λ i p, auth m0 !! i = Some p) tr.

(** ** Lemmas on the monitors *)

(** Events the monitors do not look at. *)
Definition quiet_event (l : Logged) : bool :=
  match l with L_enroll _ _ | L_enrolled _ _ | L_revoke _ | L_revoked _ => false | _ => true end.

Lemma may_hold_app m0 tr l : may_hold m0 (tr ++ l) = foldl may_step (may_hold m0 tr) l.
Proof. apply foldl_app. Qed.
Lemma must_hold_app m0 tr l : must_hold m0 (tr ++ l) = foldl must_step (must_hold m0 tr) l.
Proof. apply foldl_app. Qed.

Lemma quiet_may P l : forallb quiet_event l = true → foldl may_step P l = P.
Proof. revert P. induction l as [|e l IH]; intros P; [done|]. cbn. intros [He Hl]%andb_prop. rewrite IH by done. by destruct e. Qed.
Lemma quiet_must P l : forallb quiet_event l = true → foldl must_step P l = P.
Proof. revert P. induction l as [|e l IH]; intros P; [done|]. cbn. intros [He Hl]%andb_prop. rewrite IH by done. by destruct e. Qed.

(** Tables between the two monitors. *)
Definition bounded (m0 : Mem) (tr : list Logged) (m : Mem) : Prop :=
  mem_ok m ∧ (∀ id p, entries (m_psks m) !! id = Some p → may_hold m0 tr id p) ∧
  (∀ id p, must_hold m0 tr id p → auth m !! id = Some p).

Definition disk_bounded (m0 : Mem) (tr : list Logged) (fs : Fs) : Prop :=
  ∃ m, acquire_tables psk_file_path clients_file_path fs = Ok m ∧ bounded m0 tr m.

Lemma bounded_quiet m0 tr l1 l2 m :
  forallb quiet_event l1 = true → bounded m0 (tr ++ l2) m → bounded m0 ((tr ++ l1) ++ l2) m.
Proof.
  intros Hq. unfold bounded. rewrite !may_hold_app, !must_hold_app. by rewrite (quiet_may _ l1), (quiet_must _ l1).
Qed.

Lemma bounded_quiet_nil m0 tr l m : forallb quiet_event l = true → bounded m0 tr m → bounded m0 (tr ++ l) m.
Proof. intros Hq Hb. pose proof (bounded_quiet m0 tr l [] m Hq) as Hx. rewrite !app_nil_r in Hx. auto. Qed.

Lemma disk_bounded_quiet m0 tr l1 l2 fs :
  forallb quiet_event l1 = true → disk_bounded m0 (tr ++ l2) fs → disk_bounded m0 ((tr ++ l1) ++ l2) fs.
Proof. intros Hq (m & Hm & Hb). exists m. split; [done|]. by apply bounded_quiet. Qed.

Lemma disk_bounded_quiet_nil m0 tr l fs : forallb quiet_event l = true → disk_bounded m0 tr fs → disk_bounded m0 (tr ++ l) fs.
Proof. intros Hq (m & Hm & Hb). exists m. split; [done|]. by apply bounded_quiet_nil. Qed.

(** ** Mutations keep the tables between the monitors *)

Context {HXL : HexLaws} {FFL : FileFormatLaws} {AL : AdminJsonLaws}.
Context (kp kc : FileKey).
Hypothesis Hkp : target psk_file_path = Some kp.
Hypothesis Hkc : target clients_file_path = Some kc.
(** The two state files are different files, and no temporary name of one is
    the name of the other. *)
Hypothesis Hne : kp ≠ kc.
Hypothesis Htmp_p : ∀ dir base ulid, parent psk_file_path = Some dir → file_name psk_file_path = Some base →
  kc ≠ (dir, tmp_name base ulid).
Hypothesis Htmp_c : ∀ dir base ulid, parent clients_file_path = Some dir → file_name clients_file_path = Some base →
  kp ≠ (dir, tmp_name base ulid).

(** What is known of the arguments of a mutation that came through the socket. *)
Definition mutation_ok (mu : Mutation) : Prop :=
  match mu with Mut_enroll _ _ _ c k _ _ => Identity_ok c ∧ Psk_ok k | Mut_revoke _ _ c => Identity_ok c end.

Definition outcome_bounded (m0 : Mem) (tr l : list Logged) (fs : Fs) (o : Outcome) : Prop :=
  Forall (bounded m0 tr) (o_visible o) ∧ Forall (disk_bounded m0 tr) (o_disk o) ∧
  bounded m0 (tr ++ l) (o_mem o) ∧ disk_bounded m0 (tr ++ l) (last_fs fs (o_disk o)).

Lemma last_bounded m0 tr fs fss :
  disk_bounded m0 tr fs → Forall (disk_bounded m0 tr) fss → disk_bounded m0 tr (last_fs fs fss).
Proof.
  intros Hfs Hall. unfold last_fs. destruct (last fss) as [f|] eqn:E; [|done]. cbn.
  rewrite Forall_forall in Hall. by apply Hall, last_Some_elem_of.
Qed.

Lemma auth_entries m id p : auth m !! id = Some p → entries (m_psks m) !! id = Some p ∧ is_Some (m_clients m !! id).
Proof. apply auth_lookup. Qed.

(** Tables made of the PSKs of one pair of bounded tables and the clients of
    another are bounded. *)
Lemma bounded_mixed m0 tr m1 m2 : bounded m0 tr m1 → bounded m0 tr m2 → bounded m0 tr (MkMem (m_psks m1) (m_clients m2)).
Proof.
  intros ([Hp1 _] & Hmay & Hm1) ([_ Hc2] & _ & Hm2). split; [by split|]. split; [done|].
  intros id p Hmust. apply auth_lookup. cbn.
  split; [by eapply auth_entries, Hm1|by eapply auth_entries, Hm2].
Qed.

Lemma bounded_enrolled m0 tr client psk c m :
  Identity_ok client → Psk_ok psk → m_clients m !! client = None → bounded m0 tr m →
  bounded m0 (tr ++ [L_enroll client psk])
    (MkMem (PskStore_insert (m_psks m) client psk) (<[client := c]> (m_clients m))).
Proof.
  intros Hid Hp Hc (Hok & Hmay & Hmust). split; [by apply mem_ok_inserted|]. rewrite may_hold_app, must_hold_app. cbn. split.
  - intros id p. rewrite lookup_insert_Some. naive_solver.
  - intros id p Hm. rewrite auth_enrolled. apply lookup_insert_Some. right. split; [|by apply Hmust].
    intros <-. apply Hmust, auth_entries in Hm as [_ [? ?]]. congruence.
Qed.

Lemma bounded_more_may m0 tr client psk m : bounded m0 tr m → bounded m0 (tr ++ [L_enroll client psk]) m.
Proof.
  intros (Hok & Hmay & Hmust). split; [done|]. rewrite may_hold_app, must_hold_app. cbn. split; [|done]. auto.
Qed.

Lemma bounded_rollback m0 tr client psk c m :
  m_clients m !! client = None → bounded m0 tr m →
  bounded m0 tr (rollback client (MkMem (PskStore_insert (m_psks m) client psk) (<[client := c]> (m_clients m)))).
Proof.
  intros Hc ([Hok1 Hok2] & Hmay & Hmust). split; [|split].
  - split; cbn.
    + unfold PskStore_ok. cbn. rewrite delete_insert_eq. by apply map_Forall_delete.
    + rewrite delete_insert_eq. by apply map_Forall_delete.
  - intros id p. cbn. rewrite delete_insert_eq, lookup_delete_Some. naive_solver.
  - intros id p Hm. rewrite auth_rollback by done. auto.
Qed.

Lemma bounded_enrolled_ack m0 tr client psk c m :
  bounded m0 tr (MkMem (PskStore_insert (m_psks m) client psk) (<[client := c]> (m_clients m))) →
  bounded m0 (tr ++ [L_enrolled client psk])
    (MkMem (PskStore_insert (m_psks m) client psk) (<[client := c]> (m_clients m))).
Proof.
  intros (Hok & Hmay & Hmust). split; [done|]. rewrite may_hold_app, must_hold_app. cbn. split; [done|].
  intros id p [[-> ->]|Hm]; [|auto]. rewrite auth_enrolled. apply lookup_insert_eq.
Qed.

Lemma enroll_bounded m0 tr now w1 w2 client psk provider note m fs :
  let mu := Mut_enroll now w1 w2 client psk provider note in
  let o := mutate psk_file_path clients_file_path mu m fs in
  mutation_ok mu → bounded m0 tr m → disk_bounded m0 tr fs →
  outcome_bounded m0 (tr ++ begin_log mu m) (finish_log mu o) fs o.
Proof.
  intros mu o [Hid Hp] Hm (md & Hmd & Hbd).
  destruct (enroll_client_cases psk_file_path clients_file_path now w1 w2 client psk provider note m fs)
    as [[Hc Ho]|(Hc & Hvis & Hend)].
  { change (enroll_client _ _ _ _ _ _ _ _ _ _ _) with o in Ho. unfold outcome_bounded, begin_log, finish_log. rewrite Ho. cbn.
    rewrite decide_False by (intros E; rewrite E in Hc; by destruct Hc). rewrite !app_nil_r.
    split_and!; try done; [|by exists md]. constructor; [by exists md|done]. }
  assert (mem_ok m) as Hokm by apply Hm.
  destruct (enroll_disk psk_file_path clients_file_path kp kc Hkp Hkc Hne Htmp_p Htmp_c
              now w1 w2 client psk provider note md m fs Hmd Hokm Hid Hp Hc) as [Hd Hlast].
  change (enroll_client _ _ _ _ _ _ _ _ _ _ _) with o in *.
  set (m1 := MkMem (PskStore_insert (m_psks m) client psk) (<[client := MkResolvedClient [provider] now note]> (m_clients m))) in *.
  unfold begin_log, mu. rewrite decide_True by done. set (tr1 := tr ++ [L_enroll client psk]).
  assert (bounded m0 tr1 m1) as Hb1 by (by apply bounded_enrolled).
  assert (bounded m0 tr1 md) as Hbmd by (by apply bounded_more_may).
  assert (Forall (disk_bounded m0 tr1) (o_disk o)) as Hdisks.
  { eapply Forall_impl; [exact Hd|]. cbn beta. intros fs' [E|[E|E]]; eexists; (split; [exact E|]); try done.
    by apply (bounded_mixed m0 tr1 m1 md). }
  split; [|split; [done|]].
  { eapply Forall_impl; [exact Hvis|]. by intros v <-. }
  unfold finish_log, mu. destruct Hend as [[Hok Hmem]|[Hok Hmem]]; rewrite Hok, Hmem.
  - split; [by apply bounded_enrolled_ack|]. exists m1. split; [by apply Hlast|]. by apply bounded_enrolled_ack.
  - rewrite app_nil_r. split; [apply bounded_rollback; [done|by apply bounded_more_may]|].
    apply last_bounded; [by exists md|done].
Qed.

Lemma bounded_fewer_must m0 tr client m : bounded m0 tr m → bounded m0 (tr ++ [L_revoke client]) m.
Proof.
  intros (Hok & Hmay & Hmust). split; [done|]. rewrite may_hold_app, must_hold_app. cbn. split; [done|]. naive_solver.
Qed.

(** Tables without [client] in either half, after a revocation has begun. *)
Lemma bounded_removed m0 tr client m cs :
  (∀ k, k ≠ client → cs !! k = m_clients m !! k) → map_Forall (λ id _, Identity_ok id) cs → bounded m0 tr m →
  bounded m0 (tr ++ [L_revoke client]) (MkMem (PskStore_remove (m_psks m) client).1 cs) ∧
  bounded m0 ((tr ++ [L_revoke client]) ++ [L_revoked client]) (MkMem (PskStore_remove (m_psks m) client).1 cs).
Proof.
  intros Hcs Hok' (Hok & Hmay & Hmust).
  assert (mem_ok (MkMem (PskStore_remove (m_psks m) client).1 cs)) as Hm by (split; [by apply mem_ok_removed|done]).
  pose proof (auth_revoked client m cs Hcs) as Ha. cbn in Ha.
  unfold bounded. rewrite !may_hold_app, !must_hold_app. cbn.
  split; (split; [done|]); (split; [|intros id p [Hi ?]; rewrite Ha; apply lookup_delete_Some; auto]);
    intros id p; rewrite lookup_delete_Some; naive_solver.
Qed.

Lemma revoke_bounded m0 tr w1 w2 client m fs :
  let mu := Mut_revoke w1 w2 client in
  let o := mutate psk_file_path clients_file_path mu m fs in
  bounded m0 tr m → disk_bounded m0 tr fs →
  outcome_bounded m0 (tr ++ begin_log mu m) (finish_log mu o) fs o.
Proof.
  intros mu o Hm (md & Hmd & Hbd). assert (mem_ok m) as Hokm by apply Hm.
  destruct (revoke_disk psk_file_path clients_file_path kp kc Hkp Hkc Hne Htmp_p Htmp_c w1 w2 client md m fs Hmd Hokm) as [Hd Hlast].
  pose proof (revoke_client_cases psk_file_path clients_file_path w1 w2 client m fs) as Hcs. cbn zeta in Hcs.
  change (revoke_client _ _ _ _ _ _ _) with o in *. unfold begin_log, mu. set (tr1 := tr ++ [L_revoke client]).
  set (m1 := MkMem (PskStore_remove (m_psks m) client).1 (m_clients m)) in *.
  set (m2 := MkMem (PskStore_remove (m_psks m) client).1 (delete client (m_clients m))) in *.
  assert (bounded m0 tr1 m) as Hbm by (by apply bounded_fewer_must).
  assert (bounded m0 tr1 md) as Hbmd by (by apply bounded_fewer_must).
  assert (bounded m0 tr1 m1) as Hb1 by (by apply bounded_removed; [done|apply Hokm|]).
  destruct (bounded_removed m0 tr client m (delete client (m_clients m))) as [Hb2 Hb2'];
    [intros; by apply lookup_delete_ne|apply map_Forall_delete, Hokm|done|].
  assert (Forall (disk_bounded m0 tr1) (o_disk o)) as Hdisks.
  { eapply Forall_impl; [exact Hd|]. cbn beta. intros fs' [E|[E|E]]; eexists; (split; [exact E|]); try done.
    by apply (bounded_mixed m0 tr1 md m2). }
  assert (disk_bounded m0 tr1 (last_fs fs (o_disk o))) as Hlastb by (apply last_bounded; [by exists md|done]).
  unfold outcome_bounded, finish_log, mu. destruct Hcs as [[Hc Ho]|(Hc & Hvis & Hend)].
  { rewrite Ho in *. cbn in *. rewrite app_nil_r. auto using Forall_nil. }
  split; [eapply Forall_impl; [exact Hvis|]; by intros v [-> | ->]|]. split; [done|].
  destruct Hend as [[Hok Hmem]|[[Hok Hmem]|[Hok Hmem]]]; rewrite Hok, Hmem; rewrite ?app_nil_r; [auto..|].
  split; [exact Hb2'|]. exists m2. split; [by apply Hlast|exact Hb2'].
Qed.

Lemma mutate_bounded m0 tr mu m fs :
  let o := mutate psk_file_path clients_file_path mu m fs in
  mutation_ok mu → bounded m0 tr m → disk_bounded m0 tr fs →
  outcome_bounded m0 (tr ++ begin_log mu m) (finish_log mu o) fs o.
Proof. destruct mu as [now w1 w2 c k p n|w1 w2 c]; cbn zeta; intros; [by apply enroll_bounded|by apply revoke_bounded]. Qed.

(** ** The admin socket and the mutations *)

Lemma admin_request_ok wire request : admin_request wire = Some request → request_ok request.
Proof.
  unfold admin_request. destruct (read_line wire) as [[[|b raw]|e]|]; try done.
  destruct (request_of_json (b :: raw)) as [r|e] eqn:E; [|done]. intros [= <-]. by eapply request_of_json_ok.
Qed.

Lemma mutation_of_ok env request mu : request_ok request → mutation_of env request = Some mu → mutation_ok mu.
Proof.
  destruct request as [| | |p c k n|p c|p c path|p]; cbn; try done.
  - intros (? & ? & _) [= <-]. done.
  - destruct (lookup_provider env p); [|done]. by intros ? [= <-].
Qed.

(** A mutation is what the handler of the socket does with the tables and the
    disk, all at once. *)
Lemma handle_admin_mutates fault env wire s run mu :
  handle_admin psk_file_path clients_file_path fault env wire s = Some run → admin_request wire ≫= mutation_of env = Some mu →
  let o := mutate psk_file_path clients_file_path mu (as_mem s) (as_fs s) in
  ar_state run = MkAdminState (o_mem o) (last_fs (as_fs s) (o_disk o)) (as_providers s).
Proof.
  unfold handle_admin, admin_request. destruct (read_line wire) as [[[|b raw]|e]|]; try done. cbn [mbind option_bind].
  destruct (request_of_json (b :: raw)) as [request|e]; [|done]. cbn [ok]. intros [= <-] Hmu. cbn [ar_state].
  unfold dispatch_and_write. destruct request as [| | |p c k n|p c|p c path|p]; try done; cbn [mutation_of dispatch] in *.
  - injection Hmu as <-. done.
  - revert Hmu. cbn [mbind option_bind mutation_of]. unfold handle_revoke. destruct (lookup_provider env p); [|done]. by intros [= <-].
Qed.

(** Where the providers' state can come from. *)
Definition used (prs : list (@Provider H St)) (st st' : St) : Prop :=
  st' = st ∨ ∃ pr, pr ∈ prs ∧ ((∃ path, st' = (pr_mint pr path st).1) ∨ st' = (pr_selfcheck pr st).1).

Lemma lookup_provider_elem (env : @AdminEnv H St) kind pr : lookup_provider env kind = Some pr → pr ∈ snd <$> ae_providers env.
Proof.
  unfold lookup_provider. destruct (list_find _ _) as [[i [k p]]|] eqn:E; [|done]. cbn. intros [= <-].
  apply list_find_Some in E as (E & _). apply list_elem_of_fmap. exists (k, p). split; [done|]. by eapply list_elem_of_lookup_2.
Qed.

Lemma dispatch_used env request s s' h log :
  dispatch psk_file_path clients_file_path env request s = (s', h, log) →
  used (snd <$> ae_providers env) (as_providers s) (as_providers s').
Proof.
  unfold used. destruct request as [| | |p c k n|p c|p c path|p]; cbn [dispatch].
  - intros [= <- _ _]. by left.
  - intros [= <- _ _]. by left.
  - intros [= <- _ _]. by left.
  - unfold handle_enroll, mutated. intros [= <- _ _]. by left.
  - unfold handle_revoke, mutated. destruct (lookup_provider env p); intros [= <- _ _]; by left.
  - unfold handle_mint. case_decide; [intros [= <- _ _]; by left|].
    destruct (lookup_provider env p) as [pr|] eqn:Hp; [|intros [= <- _ _]; by left].
    apply lookup_provider_elem in Hp. destruct (pr_mint pr path (as_providers s)) as [st o] eqn:Em. intros Hr.
    right. exists pr. split; [done|]. left. exists path. rewrite Em.
    destruct o as [[out|e]| |]; [destruct (password_expiry_unix_secs _)|..]; by injection Hr as <- _ _.
  - unfold handle_selfcheck. destruct (lookup_provider env p) as [pr|] eqn:Hp; [|intros [= <- _ _]; by left].
    apply lookup_provider_elem in Hp. destruct (pr_selfcheck pr (as_providers s)) as [st o] eqn:Em. intros Hr.
    right. exists pr. split; [done|]. right. rewrite Em. destruct o as [[out|e]| |]; by injection Hr as <- _ _.
Qed.

Lemma handle_admin_used fault env wire s run :
  handle_admin psk_file_path clients_file_path fault env wire s = Some run →
  used (snd <$> ae_providers env) (as_providers s) (as_providers (ar_state run)).
Proof.
  unfold handle_admin. destruct (read_line wire) as [[[|b raw]|e]|]; try done; cbn [mbind option_bind].
  1,3: intros [= <-]; by left.
  destruct (request_of_json (b :: raw)) as [request|e]; [|intros [= <-]; by left].
  unfold dispatch_and_write. destruct (dispatch _ _ env request s) as [[s' h] log] eqn:E. intros [= <-]. cbn.
  by eapply dispatch_used.
Qed.

(** ** Connections over shared state *)

Lemma mint_for_used env cl request pr (c : @Conn NZ St) c' v :
  pr ∈ ce_providers env → mint_for env cl request pr c = (c', v) →
  used (ce_providers env) (c_providers c) (c_providers c') ∧ c_client c' = c_client c.
Proof.
  intros Hpr. unfold mint_for, used. destruct (pr_mint pr (path request) (c_providers c)) as [st o] eqn:Em. intros Hm.
  assert (c_providers c' = st ∧ c_client c' = c_client c) as [-> ->].
  { destruct o as [[out|e]| |]; [|destruct e; by injection Hm as <- _|by injection Hm as <- _..].
    unfold answer_request in Hm. destruct (Response_encode _ _ _); [|by injection Hm as <- _].
    destruct (sess_call _ _ _) as [c1 v1] eqn:Es. apply sess_call_cases in Es as [(-> & e & s & -> & _)|(-> & s & _ & ->)];
      by injection Hm as <- _. }
  split; [|done]. right. exists pr. split; [done|]. left. exists (path request). by rewrite Em.
Qed.

(** A turn other than the PSK lookup does not change the client; only a turn
    that mints touches the providers. *)
Lemma conn_turn_used env (c : @Conn NZ St) c' v :
  conn_turn env c = (c', v) →
  used (ce_providers env) (c_providers c) (c_providers c') ∧
  (c_client c' = c_client c ∨ ∃ hs id, c_sess c = R_NeedPsk hs id).
Proof.
  unfold conn_turn. destruct (Responder_step (c_sess c)) as [s r] eqn:Es. intros Ht.
  assert (c_providers c' = c_providers c → c_client c' = c_client c →
    used (ce_providers env) (c_providers c) (c_providers c') ∧ (c_client c' = c_client c ∨ ∃ hs id, c_sess c = R_NeedPsk hs id)) as Hsame.
  { intros -> ->. split; by left. }
  destruct r as [[n|id|out|rb|]|e].
  - unfold arm_read in Ht. destruct (read_exact_n n _) as [[bs|] w]; [|injection Ht as <- _; by apply Hsame].
    destruct (Responder_recv _ bs) as [s2 [|e]]; injection Ht as <- _; by apply Hsame.
  - split; [|right; destruct (c_sess c); cbn in Es; try done; injection Es as _ ->; eauto].
    left. unfold arm_need_psk in Ht. destruct (choose_psk env id (c_set_sess s c)) as [c1 p] eqn:Ec.
    assert (c_providers c1 = c_providers c) as Hp.
    { unfold choose_psk in Ec. destruct (PskStore_lookup _ id); [destruct (m_clients _ !! id)|destruct (try_acquire _ _) as [? []]];
        by injection Ec as <- _. }
    destruct p as [p|e]; [|injection Ht as <- _; done].
    by apply sess_call_cases in Ht as [(-> & e & s1 & -> & _)|(-> & s1 & _ & ->)].
  - apply arm_write_cases in Ht as [(-> & e & s1 & ws & outs & -> & _)|(-> & s1 & ws & _ & ->)]; by apply Hsame.
  - unfold arm_request in Ht. cbn [c_client c_set_sess] in Ht. destruct (c_client c) as [cl|] eqn:Ecl;
      [|injection Ht as <- _; by apply Hsame].
    destruct (_ <? _); [injection Ht as <- _; by apply Hsame|].
    destruct (Request_parse rb) as [request|e]; [|injection Ht as <- _; by apply Hsame].
    destruct (list_find _ _) as [[i pr]|] eqn:Ef; [|injection Ht as <- _; by apply Hsame].
    apply list_find_Some in Ef as (Hi & _). apply list_elem_of_lookup_2 in Hi.
    apply mint_for_used in Ht as [Hu Hcl]; [|done]. cbn in Hu, Hcl. rewrite Hcl. split; [done|by left].
  - unfold arm_done in Ht. cbn [c_client c_record c_set_sess] in Ht.
    destruct (c_client c) eqn:Ecl, (c_record c); try (injection Ht as <- _; by apply Hsame).
    destruct (password_expiry_unix_secs _); injection Ht as <- _; by apply Hsame.
  - injection Ht as <- _. by apply Hsame.
Qed.

(** The state files that are there at the first start are there in every later
    state, and will be after each step of a mutation in progress. *)
Definition disk_kept (fs : Fs) (d : Daemon) : Prop :=
  files_kept kp kc fs (d_fs d) ∧
  ∀ pd, d_pending d = Some pd → Forall (files_kept kp kc fs) (pd_disks pd) ∧ files_kept kp kc fs (as_fs (pd_final pd)).

Lemma mutate_kept mu m fs : Forall (files_kept kp kc fs) (o_disk (mutate psk_file_path clients_file_path mu m fs)).
Proof. destruct mu; [by apply enroll_kept|by apply revoke_kept]. Qed.

Lemma disk_kept_step fs d e : disk_kept fs d → disk_kept fs (dstep d e).2.
Proof.
  intros [Hf Hp]. destruct e as [i|n|n|i| | | |t]; cbn [dstep]; try done.
  - destruct (d_live d !! n); [|done]. unfold turn_step. by destruct (conn_turn _ _).
  - unfold admin_step. destruct (handle_admin _ _ _ _ _ _) as [run|] eqn:Er; [|done].
    destruct (admin_request (ai_wire i) ≫= mutation_of (admin_env_of i)) as [mu|] eqn:Emu; [|done].
    destruct (d_pending d) as [pd|] eqn:Ep; [by split; [|cbn; rewrite Ep]|]. split; [exact Hf|]. intros pd [= <-]. cbn [pd_disks pd_final].
    rewrite (handle_admin_mutates _ _ _ _ _ _ Er Emu). cbn [as_fs as_mem].
    assert (Forall (files_kept kp kc fs) (o_disk (mutate psk_file_path clients_file_path mu (d_mem d) (d_fs d)))) as Hall.
    { eapply Forall_impl; [apply mutate_kept|]. intros fs' H'. by etrans. }
    split; [exact Hall|]. by apply files_kept_last.
  - destruct (d_pending d) as [[[|m ms] fss s l]|] eqn:Ep; try (split; [exact Hf|cbn; by rewrite Ep]). split; [exact Hf|]. intros pd [= <-].
    exact (Hp _ eq_refl).
  - destruct (d_pending d) as [[ms [|fs1 fss] s l]|] eqn:Ep; try (split; [exact Hf|cbn; by rewrite Ep]).
    destruct (Hp _ eq_refl) as [[H1 H2]%Forall_cons H3]. split; [exact H1|]. by intros pd [= <-].
  - destruct (d_pending d) as [[[|m ms] [|fs1 fss] s l]|] eqn:Ep; try (split; [exact Hf|cbn; by rewrite Ep]).
    split; [exact (proj2 (Hp _ eq_refl))|done].
  - destruct (acquire_tables _ _ _); done.
Qed.

Lemma disk_kept_run fs d es : disk_kept fs d → disk_kept fs (drun d es).2.
Proof.
  revert d. induction es as [|e es IH]; intros d Hd; cbn [drun]; [done|].
  pose proof (disk_kept_step fs d e Hd) as H1. destruct (dstep d e) as [l1 d1]. cbn [snd] in H1. apply IH in H1. by destruct (drun d1 es).
Qed.

(** ** The invariant of the running daemon *)

Section invariant.
Context (I : St → Prop) (Q : bytes → Response → St → Prop).
Context (PL : Forall (ProviderLaws I Q) (snd <$> providers)) (PS : Forall (ProviderStable I Q) (snd <$> providers)).
Context (Hrestart : ∀ st, I st → I (restart st)).
(** The tables at the start of the trace. *)
Context (m0 : Mem).

(** [id] was accepted on connection [n] with [psk], which it might hold then;
    the daemon has not been restarted since. *)
Definition accepted (tr : list Logged) (n : nat) (i : ConnIn) (m : Mem) (id : Identity) (psk : Psk) : Prop :=
  ∃ before after, tr = before ++ L_accept n id psk :: after ∧ (L_boot ∉ after) ∧ (L_open n i ∈ before) ∧
    may_hold m0 before id psk ∧ auth m !! id = Some psk.

(** What each entry of a trace says about what came before it. *)
Definition justified (tr : list Logged) (l : Logged) : Prop :=
  match l with
  | L_accept n id psk => may_hold m0 tr id psk
  | L_mint n h p =>
      ∃ i m id psk hs0 out1 ts1 request, accepted tr n i m id psk ∧
        responder_hs (ci_seed i) (priv_bytes broker_key) = Ok hs0 ∧
        requested (conn_env m i) hs0 (ci_wire i) (Some (as_str id)) out1 id ts1 request ∧ host request = h ∧ path request = p
  | L_end n (MkLive i m c) v =>
      v = Return ∧ L_open n i ∈ tr ∧
      ∃ hs0, responder_hs (ci_seed i) (priv_bytes broker_key) = Ok hs0 ∧ cpost Q (conn_env m i) hs0 (ci_wire i) c
  | L_down => False
  | _ => True
  end.

Definition trace_ok (tr : list Logged) : Prop := ∀ pre l post, tr = pre ++ l :: post → justified pre l.

Record live_ok (tr : list Logged) (st : St) (n : nat) (lv : Live) : Prop := {
  live_opened : L_open n (lv_in lv) ∈ tr;
  live_cinv : ∃ hs0, responder_hs (ci_seed (lv_in lv)) (priv_bytes broker_key) = Ok hs0 ∧
    cinv Q (conn_env (lv_mem lv) (lv_in lv)) hs0 (ci_wire (lv_in lv)) (share st (c_bucket (lv_conn lv)) (lv_conn lv));
  live_accepted name : c_client (lv_conn lv) = Some name →
    ∃ id psk, name = as_str id ∧ accepted tr n (lv_in lv) (lv_mem lv) id psk;
}.

Definition is_ack (l : Logged) : bool := match l with L_enrolled _ _ | L_revoked _ => true | _ => false end.

Definition pending_ok (tr : list Logged) (pd : Pending) : Prop :=
  Forall (bounded m0 tr) (pd_visible pd) ∧ Forall (disk_bounded m0 tr) (pd_disks pd) ∧
  bounded m0 (tr ++ pd_log pd) (as_mem (pd_final pd)) ∧ disk_bounded m0 (tr ++ pd_log pd) (as_fs (pd_final pd)) ∧
  forallb is_ack (pd_log pd) = true.

Record dinv (tr : list Logged) (d : Daemon) : Prop := {
  dinv_trace : trace_ok tr;
  dinv_providers : I (d_providers d);
  dinv_mem : bounded m0 tr (d_mem d);
  dinv_disk : disk_bounded m0 tr (d_fs d);
  dinv_pending pd : d_pending d = Some pd → pending_ok tr pd;
  dinv_live n lv : d_live d !! n = Some lv → live_ok tr (d_providers d) n lv;
}.

Lemma trace_ok_app tr l :
  trace_ok tr → (∀ l1 e l2, l = l1 ++ e :: l2 → justified (tr ++ l1) e) → trace_ok (tr ++ l).
Proof.
  intros Htr Hl pre x post Heq. apply app_eq_inv in Heq as [(k & -> & Hk)|(k & -> & ->)]; [|by eapply Hl].
  destruct k as [|y k]; cbn in Hk.
  - rewrite app_nil_r in *. destruct l as [|e l]; [done|]. injection Hk as -> ->.
    specialize (Hl [] e l eq_refl). by rewrite app_nil_r in Hl.
  - injection Hk as -> ->. by eapply Htr.
Qed.

Lemma accepted_app tr l n i m id psk : L_boot ∉ l → accepted tr n i m id psk → accepted (tr ++ l) n i m id psk.
Proof.
  intros Hl (before & after & -> & Hb & Ho & Hrest). exists before, (after ++ l). rewrite <-(assoc_L (++)).
  split; [done|]. split; [|done]. rewrite elem_of_app. tauto.
Qed.

Lemma used_keeps st st' :
  used (snd <$> providers) st st' → I st → I st' ∧ ∀ p r, Q p r st → Q p r st'.
Proof.
  intros [->|(pr & Hin & Hu)] HI; [done|]. rewrite Forall_forall in PL, PS. specialize (PL _ Hin). specialize (PS _ Hin).
  destruct Hu as [(path & ->)| ->].
  - destruct (pr_mint pr path st) as [st' o] eqn:E. destruct (mint_returns _ _ _ _ HI E) as [HI' _].
    split; [exact HI'|]. intros p r. cbn [fst]. by eapply mint_keeps.
  - destruct (pr_selfcheck pr st) as [st' o] eqn:E. destruct (selfcheck_returns _ _ _ HI E) as [HI' _].
    split; [exact HI'|]. intros p r. cbn [fst]. by eapply selfcheck_keeps.
Qed.

(** Nothing in the invariant of a connection depends on the shared state but
    what is known of the credential. *)
Lemma minted_share (env : @ConnEnv H St) hs0 wire st st' b b' c o1 o2 :
  (∀ p r, Q p r st → Q p r st') → minted_ok Q env hs0 wire (share st b c) o1 o2 → minted_ok Q env hs0 wire (share st' b' c) o1 o2.
Proof.
  intros HQ (id & ts1 & rq & rec & x & ts2 & m2 & ? & ? & ? & ? & ? & ? & ? & ?). exists id, ts1, rq, rec, x, ts2, m2.
  split_and!; try done; [by apply HQ|naive_solver..].
Qed.

Lemma cinv_share (env : @ConnEnv H St) hs0 wire st st' b b' c :
  (∀ p r, Q p r st → Q p r st') → cinv Q env hs0 wire (share st b c) → cinv Q env hs0 wire (share st' b' c).
Proof.
  intros HQ. pose proof (λ o1 o2, minted_share env hs0 wire st st' b b' c o1 o2 HQ) as Hm.
  unfold cinv. cbn [c_sess share]. destruct (c_sess c); try done.
  - intros (out1 & ? & ? & ?). exists out1. auto.
  - intros (out1 & out2 & ? & ? & ?). exists out1, out2. auto.
Qed.

Lemma cpost_share (env : @ConnEnv H St) hs0 wire st st' b b' c :
  (∀ p r, Q p r st → Q p r st') → cpost Q env hs0 wire (share st b c) → cpost Q env hs0 wire (share st' b' c).
Proof.
  intros HQ (before & e & Hl & Hb & Hm & Hor). exists before, e. split_and!; [done..|].
  destruct Hor as [(He & out1 & out2 & Ho & Hmo)|?]; [left|by right]. split; [done|]. exists out1, out2. split; [done|].
  by eapply minted_share.
Qed.

Lemma live_ok_app tr l st st' n lv :
  L_boot ∉ l → (∀ p r, Q p r st → Q p r st') → live_ok tr st n lv → live_ok (tr ++ l) st' n lv.
Proof.
  intros Hl HQ [Hop (hs0 & Hhs & Hc) Hacc]. split.
  - apply elem_of_app. by left.
  - exists hs0. split; [done|]. by eapply cinv_share.
  - intros name Hn. destruct (Hacc name Hn) as (id & psk & -> & Ha). exists id, psk. split; [done|]. by apply accepted_app.
Qed.

Lemma pending_ok_app tr l pd : forallb quiet_event l = true → pending_ok tr pd → pending_ok (tr ++ l) pd.
Proof.
  intros Hq (Hv & Hd & Hm & Hf & Hl). split_and!; [| | | |done].
  - eapply Forall_impl; [exact Hv|]. intros. by apply bounded_quiet_nil.
  - eapply Forall_impl; [exact Hd|]. intros. by apply disk_bounded_quiet_nil.
  - by apply bounded_quiet.
  - by apply disk_bounded_quiet.
Qed.

Lemma justified_app tr l e : forallb quiet_event l = true → (L_boot ∉ l) → justified tr e → justified (tr ++ l) e.
Proof.
  intros Hq Hb. destruct e as [n i|n id psk|n h p|n [i m c] v|id psk|id psk|id|id| |]; cbn; try done.
  - by rewrite may_hold_app, quiet_may.
  - intros (i & m & id & psk & hs0 & out1 & ts1 & rq & Ha & Hrest). exists i, m, id, psk, hs0, out1, ts1, rq.
    split; [by apply accepted_app|done].
  - intros (-> & Ho & Hrest). split_and!; [done| |done]. apply elem_of_app. by left.
Qed.

Lemma trace_ok_quiet tr l :
  trace_ok tr → forallb quiet_event l = true → (L_boot ∉ l) → Forall (justified tr) l → trace_ok (tr ++ l).
Proof.
  intros Ht Hq Hb Hj. apply trace_ok_app; [done|]. intros l1 e l2 ->. rewrite forallb_app in Hq. apply andb_prop in Hq as [Hq _].
  apply justified_app; [done| |]; [rewrite elem_of_app in Hb; tauto|]. rewrite Forall_app, Forall_cons in Hj. tauto.
Qed.

(** Steps that leave the tables, the disk and the mutation alone. *)
Lemma dinv_frame tr l d d' :
  dinv tr d → forallb quiet_event l = true → (L_boot ∉ l) → Forall (justified tr) l →
  d_mem d' = d_mem d → d_fs d' = d_fs d → d_pending d' = d_pending d → used (snd <$> providers) (d_providers d) (d_providers d') →
  (∀ n lv, d_live d' !! n = Some lv → d_live d !! n = Some lv ∨ live_ok (tr ++ l) (d_providers d') n lv) →
  dinv (tr ++ l) d'.
Proof.
  intros [Ht HI Hm Hd Hp Hl] Hq Hb Hj Em Ef Ep Hu Hlive. apply used_keeps in Hu as [HI' HQ]; [|done].
  split; rewrite ?Em, ?Ef, ?Ep.
  - by apply trace_ok_quiet.
  - done.
  - by apply bounded_quiet_nil.
  - by apply disk_bounded_quiet_nil.
  - intros pd Hpd. by apply pending_ok_app, Hp.
  - intros n lv Hn. destruct (Hlive n lv Hn) as [Hn'|?]; [|done]. eapply live_ok_app; [done|exact HQ|by apply Hl].
Qed.

Lemma dinv_open tr d i : dinv tr d → dinv (tr ++ (dstep d (E_open i)).1) (dstep d (E_open i)).2.
Proof.
  intros Hd. cbn. eapply dinv_frame; [exact Hd|done| |by repeat constructor|done..|by left|].
  { rewrite list_elem_of_singleton. done. }
  cbn. intros n lv. destruct (Responder_new (ci_seed i) broker_key) as [s|e] eqn:En; [|by left].
  rewrite lookup_insert_Some. intros [[<- <-]|[_ ?]]; [right|by left].
  apply Responder_new_inv in En as (hs0 & Hhs & ->). split; cbn.
  - apply elem_of_app. right. by apply list_elem_of_singleton.
  - exists hs0. split; [done|].
    exact (cinv_start Q (conn_env (d_mem d) i) hs0 (ci_wire i) (ci_writes i) (d_bucket d) (d_providers d)).
  - done.
Qed.

Lemma dinv_cut tr d n : dinv tr d → dinv (tr ++ (dstep d (E_cut n)).1) (dstep d (E_cut n)).2.
Proof.
  intros Hd. eapply dinv_frame; [exact Hd|done|apply not_elem_of_nil|constructor|done..|by left|].
  cbn. intros k lv [_ ?]%lookup_delete_Some. by left.
Qed.

(** ** A turn of a connection *)

Lemma need_psk_turn env (c : @Conn NZ St) c' v hs id :
  c_sess c = R_NeedPsk hs id → conn_turn env c = (c', v) →
  c_mints c' = c_mints c ∧ (c_client c' = c_client c ∨ c_client c' = Some (as_str id) ∧ is_Some (auth (ce_mem env) !! id)).
Proof.
  intros Hs Ht. unfold conn_turn in Ht. rewrite Hs in Ht. cbn [Responder_step] in Ht. unfold arm_need_psk in Ht.
  destruct (choose_psk env id (c_set_sess (R_AwaitingPsk hs) c)) as [c1 p] eqn:Ec.
  assert (c_mints c1 = c_mints c ∧ (c_client c1 = c_client c ∨ c_client c1 = Some (as_str id) ∧ is_Some (auth (ce_mem env) !! id))) as Hc1.
  { unfold choose_psk, PskStore_lookup in Ec. destruct (entries _ !! id) as [psk|] eqn:Ep.
    - destruct (m_clients _ !! id) as [cl|] eqn:Em; injection Ec as <- _; cbn; split; [done| |done|by left].
      right. split; [done|]. exists psk. apply auth_lookup. by rewrite Em.
    - destruct (try_acquire _ _) as [? []]; injection Ec as <- _; cbn; (split; [done|by left]). }
  destruct p as [p|e]; [|injection Ht as <- _; done].
  by apply sess_call_cases in Ht as [(-> & e & s1 & -> & _)|(-> & s1 & _ & ->)].
Qed.

(** Every mint of a connection that is in order. *)
Lemma turn_mints (env : @ConnEnv H St) hs0 wire (c c' : @Conn NZ St) v :
  turn_ok I Q env hs0 wire c c' v → ∀ h p, (h, p) ∈ c_mints c' → mint_ok env hs0 wire c' h p.
Proof.
  intros [_ Hv] h p Hin. destruct v; [|..|done|done].
  - destruct Hv as [Hc _].
    assert (c_mints c' = [] ∨ ∃ o1 o2, minted_ok Q env hs0 wire c' o1 o2) as [Hm|(o1 & o2 & id & ts1 & rq & rec & b & ts2 & m2 & Hr & Hm & _)].
    { unfold cinv, quiet_so_far in Hc. destruct (c_sess c'); naive_solver. }
    + rewrite Hm in Hin. by apply not_elem_of_nil in Hin.
    + rewrite Hm in Hin. apply list_elem_of_singleton in Hin as [= -> ->]. by exists o1, id, ts1, rq.
  - destruct Hv as (before & e & _ & _ & [Hm|(h' & p' & Hm & Hok)] & _); rewrite Hm in Hin.
    + by apply not_elem_of_nil in Hin.
    + by apply list_elem_of_singleton in Hin as [= -> ->].
Qed.

(** The tables a turn sees make no difference to what is known before it. *)
Lemma cinv_turn_mem d lv hs0 wire st b :
  cinv Q (conn_env (lv_mem lv) (lv_in lv)) hs0 wire (share st b (lv_conn lv)) →
  cinv Q (conn_env (turn_mem d lv) (lv_in lv)) hs0 wire (share st b (lv_conn lv)).
Proof. unfold turn_mem, cinv. cbn [c_sess share]. by destruct (c_sess (lv_conn lv)). Qed.

Lemma mint_log_elem n before after e : e ∈ mint_log n before after → ∃ h p, e = L_mint n h p ∧ (h, p) ∈ c_mints after.
Proof.
  unfold mint_log. rewrite list_elem_of_fmap. intros ([h p] & -> & Hin). exists h, p. split; [done|].
  rewrite <-(take_drop (length (c_mints before)) (c_mints after)), elem_of_app. by right.
Qed.

Lemma accept_log_elem n m before after e :
  e ∈ accept_log n m before after → ∃ hs id psk, e = L_accept n id psk ∧ c_sess before = R_NeedPsk hs id ∧ auth m !! id = Some psk.
Proof.
  unfold accept_log. destruct (c_sess before); try (by intros ?%not_elem_of_nil).
  destruct (c_client after); [|by intros ?%not_elem_of_nil]. destruct (auth m !! identity) as [psk|] eqn:E; [|by intros ?%not_elem_of_nil].
  cbn. intros ->%list_elem_of_singleton. by eexists _, _, _.
Qed.

Lemma accept_or_lookup n m (before after : @Conn NZ St) :
  accept_log n m before after = [] ∨ ∃ hs id, c_sess before = R_NeedPsk hs id.
Proof. unfold accept_log. destruct (c_sess before); eauto. Qed.

(** Who is behind a connection after a turn. *)
Lemma turn_accepted tr d n lv c v name :
  bounded m0 tr (d_mem d) → live_ok tr (d_providers d) n lv → c_client c = Some name →
  conn_turn (conn_env (turn_mem d lv) (lv_in lv)) (share (d_providers d) (d_bucket d) (lv_conn lv)) = (c, v) →
  ∃ id psk, name = as_str id ∧
    accepted (tr ++ accept_log n (turn_mem d lv) (lv_conn lv) c) n (lv_in lv) (turn_mem d lv) id psk.
Proof.
  intros (_ & Hmay & _) [Hop (hs0 & _ & Hc) Hacc] Hn Ht.
  destruct (conn_turn_used _ _ _ _ Ht) as [_ Hcl]. unfold turn_mem, accept_log in *. rewrite Hn.
  cbn [c_sess share c_client] in *. destruct (c_sess (lv_conn lv)) as [|hs1 id| | | | | | | | | | | |] eqn:Es;
    try (destruct Hcl as [Hcl|(? & ? & ?)]; [|done]; rewrite Hn in Hcl; destruct (Hacc name (eq_sym Hcl)) as (id & psk & -> & Ha);
         exists id, psk; rewrite app_nil_r; by split).
  destruct (need_psk_turn _ (share (d_providers d) (d_bucket d) (lv_conn lv)) _ _ hs1 id Es Ht) as [_ [Hsame|[Hid [psk Ha]]]]; cbn [c_client share] in *.
  - unfold cinv in Hc. cbn [c_sess share] in Hc. rewrite Es in Hc. destruct Hc as [Hnone _]. cbn in Hnone. congruence.
  - cbn [ce_mem conn_env] in Ha. rewrite Ha. cbn. exists id, psk. split; [congruence|]. exists tr, [].
    split_and!; [done|apply not_elem_of_nil|done| |done]. apply Hmay. by apply auth_lookup in Ha as [? _].
Qed.

Definition end_log (n : nat) (lv : Live) (v : Verdict) : list Logged := match v with Continue => [] | _ => [L_end n lv v] end.

Lemma turn_log_quiet n m (c c' : @Conn NZ St) lv v :
  let l := accept_log n m c c' ++ mint_log n c c' ++ end_log n lv v in
  forallb quiet_event l = true ∧ L_boot ∉ l.
Proof.
  cbn zeta. assert (∀ e, e ∈ accept_log n m c c' ++ mint_log n c c' ++ end_log n lv v → quiet_event e = true ∧ e ≠ L_boot) as Hall.
  { intros e. rewrite !elem_of_app. intros [(hs & id & psk & -> & _)%accept_log_elem|[(h & p & -> & _)%mint_log_elem|Hin]]; [done..|].
    destruct v; [by apply not_elem_of_nil in Hin|..]; by apply list_elem_of_singleton in Hin as ->. }
  split.
  - apply forallb_forall. intros e Hin%list_elem_of_In. by apply Hall.
  - intros Hin. by apply Hall in Hin as [_ ?].
Qed.

Lemma dinv_turn tr d n : dinv tr d → dinv (tr ++ (dstep d (E_turn n)).1) (dstep d (E_turn n)).2.
Proof.
  intros Hd. cbn [dstep]. destruct (d_live d !! n) as [lv|] eqn:En; [|by rewrite app_nil_r].
  unfold turn_step. set (m := turn_mem d lv). destruct (conn_turn _ _) as [c v] eqn:Et. cbn [fst snd].
  change (match v with Continue => [] | _ => _ end) with (end_log n (MkLive (lv_in lv) m c) v).
  pose proof (dinv_live _ _ Hd _ _ En) as Hlv. pose proof Hlv as [Hop (hs0 & Hhs & Hc) Hacc].
  assert (turn_ok I Q (conn_env m (lv_in lv)) hs0 (ci_wire (lv_in lv)) (share (d_providers d) (d_bucket d) (lv_conn lv)) c v) as Hok.
  { eapply conn_turn_ok; [done|by apply Hd| |done]. by eapply cinv_turn_mem, cinv_share. }
  destruct (turn_log_quiet n m (lv_conn lv) c (MkLive (lv_in lv) m c) v) as [Hq Hb].
  assert (L_boot ∉ accept_log n m (lv_conn lv) c) as Hba by (rewrite elem_of_app in Hb; tauto).
  pose proof (turn_accepted tr d n lv c v) as Hwho. fold m in Hwho.
  eapply dinv_frame; [exact Hd|exact Hq|exact Hb| |done..|by apply conn_turn_used in Et as [? _]|]; cbn.
  - apply Forall_forall. intros e. rewrite !elem_of_app.
    intros [(hs & id & psk & -> & Hs & Ha)%accept_log_elem|[(h & p & -> & Hin)%mint_log_elem|Hin]]; cbn.
    + apply (dinv_mem _ _ Hd). unfold m, turn_mem in Ha. rewrite Hs in Ha. by apply auth_lookup in Ha as [? _].
    + destruct (turn_mints _ _ _ _ _ _ Hok h p Hin) as (out1 & id & ts1 & rq & Hrq & Hh & Hp).
      pose proof Hrq as (_ & _ & _ & _ & _ & _ & Hcl & _).
      destruct (Hwho (as_str id)) as (id' & psk & Hid & Ha); [by apply Hd|done|done|done|].
      assert (id' = id) as -> by (destruct id, id'; cbn in Hid; congruence).
      destruct (accept_or_lookup n m (lv_conn lv) c) as [E|(hs & id2 & Hs)].
      * rewrite E, app_nil_r in Ha. rewrite Hcl in Hrq. by exists (lv_in lv), m, id, psk, hs0, out1, ts1, rq.
      * exfalso. destruct (need_psk_turn _ (share (d_providers d) (d_bucket d) (lv_conn lv)) _ _ hs id2 Hs Et) as [Hm _].
        unfold cinv in Hc. cbn [c_sess share] in Hc. rewrite Hs in Hc. destruct Hc as (_ & (_ & Hm' & _) & _).
        cbn in Hm, Hm'. rewrite Hm, Hm' in Hin. by apply not_elem_of_nil in Hin.
    + destruct Hok as [_ Hv]. destruct v; [by apply not_elem_of_nil in Hin|..|done|done].
      apply list_elem_of_singleton in Hin as ->. cbn. split_and!; [done..|]. by exists hs0.
  - intros k lv' Hk. assert (k ≠ n ∧ d_live d !! k = Some lv' ∨ k = n ∧ v = Continue ∧ lv' = MkLive (lv_in lv) m c)
      as [[_ ?]|(-> & -> & ->)]; [|by left|right].
    { destruct v; [apply lookup_insert_Some in Hk; naive_solver|apply lookup_delete_Some in Hk; naive_solver..]. }
    destruct Hok as [_ [Hc' _]]. split; cbn.
    + apply elem_of_app. by left.
    + exists hs0. split; [done|]. by destruct c.
    + intros name Hn. destruct (Hwho name) as (id & psk & Hid & Ha); [by apply Hd|done..|]. exists id, psk. split; [done|].
      rewrite (assoc_L (++)). apply accepted_app; [|done]. rewrite elem_of_app in Hb. tauto.
Qed.

(** ** The other steps *)

(** The start of a mutation, or its end. *)
Lemma trace_ok_adm tr l :
  trace_ok tr → Forall (λ e, match e with L_enroll _ _ | L_enrolled _ _ | L_revoke _ | L_revoked _ => True | _ => False end) l →
  trace_ok (tr ++ l).
Proof.
  intros Ht Hl. apply trace_ok_app; [done|]. intros l1 e l2 ->. rewrite Forall_app, Forall_cons in Hl.
  destruct Hl as (_ & He & _). by destruct e.
Qed.

Lemma begin_log_adm mu m :
  Forall (λ e, match e with L_enroll _ _ | L_enrolled _ _ | L_revoke _ | L_revoked _ => True | _ => False end) (begin_log mu m) ∧
  L_boot ∉ begin_log mu m.
Proof.
  destruct mu; cbn; [case_decide|]; (split; [by repeat constructor|]); rewrite ?list_elem_of_singleton; [done|apply not_elem_of_nil|done].
Qed.

Lemma ack_adm l : forallb is_ack l = true →
  Forall (λ e, match e with L_enroll _ _ | L_enrolled _ _ | L_revoke _ | L_revoked _ => True | _ => False end) l ∧ (L_boot ∉ l).
Proof.
  rewrite forallb_forall. intros Hl. split.
  - apply Forall_forall. intros e He%list_elem_of_In%Hl. by destruct e.
  - intros Hin%list_elem_of_In%Hl. done.
Qed.

Lemma begin_bounded tr mu m fs :
  mutation_ok mu → bounded m0 tr m → disk_bounded m0 tr fs →
  bounded m0 (tr ++ begin_log mu m) m ∧ disk_bounded m0 (tr ++ begin_log mu m) fs.
Proof.
  intros Hmu Hm (md & Hmd & Hb). unfold begin_log. destruct mu as [now w1 w2 c k p n|w1 w2 c].
  - case_decide; [|rewrite app_nil_r; split; [done|by exists md]].
    split; [by apply bounded_more_may|]. exists md. split; [done|by apply bounded_more_may].
  - split; [by apply bounded_fewer_must|]. exists md. split; [done|by apply bounded_fewer_must].
Qed.

Lemma dinv_admin tr d i : dinv tr d → dinv (tr ++ (dstep d (E_admin i)).1) (dstep d (E_admin i)).2.
Proof.
  intros Hd. cbn [dstep]. unfold admin_step. set (s := MkAdminState _ _ _).
  destruct (handle_admin _ _ _ _ _ s) as [run|] eqn:Er; [|by rewrite app_nil_r].
  destruct (admin_request (ai_wire i) ≫= mutation_of (admin_env_of i)) as [mu|] eqn:Emu.
  - destruct (d_pending d) as [pd|] eqn:Ep; [by rewrite app_nil_r|]. cbn [fst snd].
    assert (mutation_ok mu) as Hmu.
    { destruct (admin_request (ai_wire i)) as [request|] eqn:Eq; [|done]. eapply mutation_of_ok; [|exact Emu].
      by eapply admin_request_ok. }
    pose proof (handle_admin_mutates _ _ _ _ _ _ Er Emu) as Hst. cbn zeta in Hst. cbn [as_mem as_fs as_providers s] in Hst.
    destruct Hd as [Ht HI Hm Hf _ Hl]. destruct (begin_log_adm mu (d_mem d)) as [Ha Hb].
    destruct (begin_bounded tr mu (d_mem d) (d_fs d)) as [Hm' Hf']; [done..|].
    split; cbn; try done.
    + by apply trace_ok_adm.
    + intros pd [= <-]. destruct (mutate_bounded m0 tr mu (d_mem d) (d_fs d) Hmu Hm Hf) as (H1 & H2 & H3 & H4).
      rewrite Hst. split_and!; try done. cbn. unfold finish_log. destruct (ended_ok _); [|done]. by destruct mu.
    + intros n lv Hn. apply live_ok_app with (d_providers d); [done..|by apply Hl].
  - cbn [fst snd]. eapply dinv_frame; [exact Hd|done|apply not_elem_of_nil|constructor|done..| |by left].
    by eapply (handle_admin_used _ _ _ _ _ Er).
Qed.

Lemma dinv_visible tr d : dinv tr d → dinv (tr ++ (dstep d E_visible).1) (dstep d E_visible).2.
Proof.
  intros Hd. cbn [dstep]. destruct (d_pending d) as [[[|m ms] fss s l]|] eqn:Ep; cbn; rewrite app_nil_r; try done.
  destruct Hd as [Ht HI Hm Hf Hp Hl]. destruct (Hp _ Ep) as (Hv & H2 & H3 & H4 & H5). cbn in Hv. apply Forall_cons in Hv as [Hv1 Hv2].
  split; cbn; try done. intros pd [= <-]. by split_and!.
Qed.

Lemma dinv_fs_action tr d : dinv tr d → dinv (tr ++ (dstep d E_disk).1) (dstep d E_disk).2.
Proof.
  intros Hd. cbn [dstep]. destruct (d_pending d) as [[ms [|fs fss] s l]|] eqn:Ep; cbn; rewrite app_nil_r; try done.
  destruct Hd as [Ht HI Hm Hf Hp Hl]. destruct (Hp _ Ep) as (H1 & Hv & H3 & H4 & H5). cbn in Hv. apply Forall_cons in Hv as [Hv1 Hv2].
  split; cbn; try done. intros pd [= <-]. by split_and!.
Qed.

Lemma dinv_finish tr d : dinv tr d → dinv (tr ++ (dstep d E_finish).1) (dstep d E_finish).2.
Proof.
  intros Hd. cbn [dstep]. destruct (d_pending d) as [[[|m ms] [|fs fss] s l]|] eqn:Ep; cbn; try by rewrite app_nil_r.
  destruct Hd as [Ht HI Hm Hf Hp Hl]. destruct (Hp _ Ep) as (H1 & H2 & H3 & H4 & H5). cbn in *.
  apply ack_adm in H5 as [Ha Hb]. split; cbn; try done.
  - by apply trace_ok_adm.
  - intros n lv Hn. apply live_ok_app with (d_providers d); [done..|by apply Hl].
Qed.

Lemma dinv_crash tr d t : dinv tr d → dinv (tr ++ (dstep d (E_crash t)).1) (dstep d (E_crash t)).2.
Proof.
  intros [Ht HI Hm (md & Hmd & Hb) Hp Hl]. cbn [dstep]. rewrite Hmd. cbn [fst snd]. split; cbn; try done.
  - apply trace_ok_app; [done|]. intros [|x l1] e l2; [|destruct l1; done]. by intros [= <- _].
  - by apply Hrestart.
  - by apply bounded_quiet_nil.
  - exists md. split; [done|]. by apply bounded_quiet_nil.
Qed.

Lemma dinv_step tr d e : dinv tr d → dinv (tr ++ (dstep d e).1) (dstep d e).2.
Proof.
  destruct e; [apply dinv_open|apply dinv_turn|apply dinv_cut|apply dinv_admin|apply dinv_visible|apply dinv_fs_action|apply dinv_finish|apply dinv_crash].
Qed.

Lemma dinv_run tr d es : dinv tr d → dinv (tr ++ (drun d es).1) (drun d es).2.
Proof.
  revert tr d. induction es as [|e es IH]; intros tr d Hd; cbn [drun]; [by rewrite app_nil_r|].
  pose proof (dinv_step tr d e Hd) as H1. destruct (dstep d e) as [l1 d1]. apply IH in H1. cbn [fst snd] in H1.
  destruct (drun d1 es) as [l2 d2]. cbn in *. by rewrite (assoc_L (++)).
Qed.

Lemma dinv_start fs st t :
  acquire_tables psk_file_path clients_file_path fs = Ok m0 → I st → dinv [] (booted m0 fs st t 0).
Proof.
  intros Hl HI. assert (bounded m0 [] m0) as Hb.
  { split; [by eapply acquire_tables_mem_ok|]. split; [done|]. intros id p Hm. exact Hm. }
  split; cbn; try done.
  - intros pre l post Heq. by destruct pre.
  - by exists m0.
Qed.

Lemma run_inv fs st t es tr d :
  acquire_tables psk_file_path clients_file_path fs = Ok m0 → I st → drun (booted m0 fs st t 0) es = (tr, d) → dinv tr d.
Proof.
  intros Hl HI Hr. pose proof (dinv_run [] _ es (dinv_start fs st t Hl HI)) as Hd. by rewrite Hr in Hd.
Qed.

(** The next turn of a live connection continues or ends, with the invariant. *)
Lemma live_turn tr d n lv :
  dinv tr d → d_live d !! n = Some lv →
  ∃ c v, conn_turn (conn_env (turn_mem d lv) (lv_in lv)) (share (d_providers d) (d_bucket d) (lv_conn lv)) = (c, v) ∧
    (v = Return ∨ v = Continue ∧ turn_pos (c_sess c) = S (turn_pos (c_sess (lv_conn lv)))).
Proof.
  intros Hd Hn. destruct (conn_turn _ _) as [c v] eqn:Et. exists c, v. split; [done|].
  destruct (dinv_live _ _ Hd _ _ Hn) as [_ (hs0 & _ & Hc) _].
  eapply (conn_turn_ok I Q) in Et as [_ Hv]; [..|by eapply cinv_turn_mem, cinv_share].
  - destruct v; [|by left|done|done]. right. by destruct Hv.
  - exact PL.
  - by apply Hd.
Qed.

End invariant.

(** ** What the monitors say *)

Lemma may_hold_revoked m0 pre id psk mid : may_hold m0 (pre ++ L_revoked id :: mid) id psk → L_enroll id psk ∈ mid.
Proof.
  induction mid as [|l mid IH] using rev_ind.
  - rewrite may_hold_app. cbn. naive_solver.
  - rewrite app_comm_cons, (assoc_L (++)), may_hold_app. cbn. rewrite elem_of_app, list_elem_of_singleton.
    destruct l; cbn; naive_solver.
Qed.

Lemma may_hold_origin m0 tr id psk : may_hold m0 tr id psk → entries (m_psks m0) !! id = Some psk ∨ L_enroll id psk ∈ tr.
Proof.
  induction tr as [|l tr IH] using rev_ind; [by left|].
  rewrite may_hold_app, elem_of_app, list_elem_of_singleton. destruct l; cbn; naive_solver.
Qed.

Lemma must_hold_enrolled m0 pre id psk post : L_revoke id ∉ post → must_hold m0 (pre ++ L_enrolled id psk :: post) id psk.
Proof.
  induction post as [|l post IH] using rev_ind; intros Hr.
  - rewrite must_hold_app. cbn. by left.
  - rewrite elem_of_app, list_elem_of_singleton in Hr.
    rewrite app_comm_cons, (assoc_L (++)), must_hold_app. cbn. destruct l; cbn; naive_solver.
Qed.

(** ** A connection alone

    With nothing in between, the turns of a connection are its handler. *)

Lemma share_id (c : @Conn NZ St) : share (c_providers c) (c_bucket c) c = c.
Proof. by destruct c. Qed.

Lemma turns_alone fuel d n i m c c' v :
  (m = d_mem d) → d_live d !! n = Some (MkLive i m c) → c_providers c = d_providers d → c_bucket c = d_bucket d →
  conn_loop fuel (conn_env m i) c = (c', Some v) →
  ∃ k tr d', drun d (replicate k (E_turn n)) = (tr ++ [L_end n (MkLive i m c') v], d') ∧ (k <= fuel)%nat ∧
    d_mem d' = d_mem d ∧ d_fs d' = d_fs d ∧ d_providers d' = c_providers c'.
Proof.
  intros Hm. revert d c Hm. induction fuel as [|fuel IH]; intros d c Hm Hn Hp Hb Hl; [done|]. cbn [conn_loop] in Hl.
  assert (turn_mem d (MkLive i m c) = m) as Etm by (unfold turn_mem; cbn; subst; by destruct (c_sess c)).
  destruct (conn_turn (conn_env m i) c) as [c1 v1] eqn:Et.
  assert (conn_turn (conn_env (turn_mem d (MkLive i m c)) i) (share (d_providers d) (d_bucket d) c) = (c1, v1)) as Et'.
  { rewrite Etm, <-Hp, <-Hb, share_id. exact Et. }
  assert (dstep d (E_turn n) = (accept_log n m c c1 ++ mint_log n c c1 ++
     (match v1 with Continue => [] | _ => [L_end n (MkLive i m c1) v1] end),
     MkDaemon (d_mem d) (d_fs d) (c_providers c1) (c_bucket c1) (d_pending d)
       (match v1 with Continue => <[n := MkLive i m c1]> (d_live d) | _ => delete n (d_live d) end) (d_next d))) as Hs.
  { cbn [dstep]. rewrite Hn. unfold turn_step. cbn [lv_in lv_conn]. rewrite Et', Etm. done. }
  destruct (match v1 with Continue => true | _ => false end) eqn:Ev.
  - destruct v1; try done. set (d1 := MkDaemon _ _ _ _ _ _ _) in Hs.
    destruct (IH d1 c1) as (k & tr & d' & Hr & Hk & ?); [done|cbn; by rewrite lookup_insert_eq|done|done|done|].
    eexists (S k), _, d'. split; [|split; [lia|done]]. cbn [replicate drun]. rewrite Hs, Hr. by rewrite (assoc_L (++)).
  - assert (c1 = c' ∧ v1 = v) as [-> ->] by (destruct v1; [done|injection Hl as <- <-; done..]).
    eexists 1%nat, _, _. split; [cbn [replicate drun]; rewrite Hs; rewrite app_nil_r, (assoc_L (++)); by destruct v|]. by split; [lia|].
Qed.

Lemma connection_alone d i c v :
  is_ok (Responder_new (ci_seed i) broker_key) = true →
  handle_connection (conn_env (d_mem d) i) (ci_wire i) (ci_writes i) (d_bucket d) (d_providers d) = (c, Some v) →
  ∃ k tr d', drun d (E_open i :: replicate k (E_turn (d_next d))) = (tr ++ [L_end (d_next d) (MkLive i (d_mem d) c) v], d') ∧
    (k <= CONN_FUEL)%nat ∧ d_mem d' = d_mem d ∧ d_fs d' = d_fs d ∧ d_providers d' = c_providers c.
Proof.
  intros Hok Hh. unfold handle_connection in Hh. cbn [ce_seed ce_broker_key conn_env] in Hh.
  cbn [drun dstep]. destruct (Responder_new (ci_seed i) broker_key) as [s|e]; [|done].
  set (d1 := MkDaemon _ _ _ _ _ _ _).
  destruct (turns_alone CONN_FUEL d1 (d_next d) i (d_mem d) _ c v ltac:(done) ltac:(apply lookup_insert_eq) ltac:(done) ltac:(done) Hh)
    as (k & tr & d' & Hr & ?).
  eexists k, (_ :: tr), d'. rewrite Hr. done.
Qed.

End daemon.
