(* ===== verification/Lifecycle.v ===== *)
(** * The life of a daemon that serves GitHub

    The state machine of [Daemon] with the provider of [Github], from its first
    start through any interleaving of connections, admin requests and crashes:
    who gets a credential, what an acknowledged revocation and an acknowledged
    enrolment mean, and that the state files can always be loaded again. *)

From S2P Require Import Prelude Identity Psk GitCredential Transport RateLimit TtlCache Singleflight AtomicFs Config State Github Events Connection Broker Client EndToEnd Admin Daemon.

Section lifecycle.
Context {NZ : Noise} {HX : HexCodec} {FF : FileFormats} {HO : HashOrder} {AJ : AdminJson} {GE : GithubEnv} {LT : LogText HttpError}.

(** A restarted provider has empty caches; the calls made so far are history. *)
Definition gs_restart (s : GState) : GState := MkGState (gs_repo_ids gs_new) (gs_tokens gs_new) (gs_calls s) (gs_ticks s).

Lemma gs_restart_inv gp s : github_inv gp s → github_inv gp (gs_restart s).
Proof.
  intros _. split.
  - split; cbn; [|apply ttl_new_inv|]; intros *; by rewrite lookup_empty.
  - split; intros *; cbn; by rewrite lookup_empty.
Qed.

(** What is known of a credential stays known. *)
#[export] Instance github_stable gp : ProviderStable (github_inv gp) (scoped_credential gp) (github_provider gp).
Proof.
  split.
  - intros s path s' o p r [Hi _] Hm Hq. cbn in Hm. unfold Provider_mint in Hm. destruct (mint gp path s) as [s1 o1] eqn:E.
    injection Hm as <- _. destruct (mint_cases _ _ _ _ _ Hi E) as (r' & new & _ & Hc & _). by eapply scoped_more.
  - intros s s' o p r _ Hm Hq. cbn in Hm. unfold Provider_selfcheck in Hm. destruct (selfcheck gp s) as [s1 o1] eqn:E.
    injection Hm as <- _. apply selfcheck_spec in E as (c & n & r' & -> & _). by eapply (scoped_more _ _ _ s _ [c]).
Qed.

Context {NL : NoiseLaws} {HXL : HexLaws} {FFL : FileFormatLaws} {AL : AdminJsonLaws}.
Context (psk_file_path clients_file_path : Path) (broker_key : BrokerPrivateKey) (broker_public : BrokerPublicKey) (gp : GitHubProvider).
Context (kp kc : FileKey).
Hypothesis Hkp : target psk_file_path = Some kp.
Hypothesis Hkc : target clients_file_path = Some kc.
(** The two state files are different files, and no temporary name of one is
    the name of the other. *)
Hypothesis Hne : kp ≠ kc.
Hypothesis Htmp_p : ∀ dir base ulid, parent psk_file_path = Some dir → file_name psk_file_path = Some base →
  kc ≠ (dir, tmp_name base ulid).
Hypothesis Htmp_c : ∀ dir base ulid, parent clients_file_path = Some dir → file_name clients_file_path = Some base →
  kp ≠ (dir, tmp_name base ulid).

(** The first start. *)
Context (fs0 : Fs) (m0 : Mem) (t0 : Z).
Hypothesis Hload : acquire_tables psk_file_path clients_file_path fs0 = Ok m0.

Definition github_daemon : list (ProviderKind * Provider) := [(Github, github_provider gp)].

Definition life_run (es : list DEvent) : list Logged * Daemon :=
  drun psk_file_path clients_file_path broker_key broker_public github_daemon gs_restart (booted m0 fs0 gs_new t0 0) es.

Lemma daemon_laws : Forall (ProviderLaws (github_inv gp) (scoped_credential gp)) (snd <$> github_daemon).
Proof. apply Forall_singleton, github_laws. Qed.
Lemma daemon_stable : Forall (ProviderStable (github_inv gp) (scoped_credential gp)) (snd <$> github_daemon).
Proof. apply Forall_singleton, github_stable. Qed.

Lemma life_dinv es tr d : life_run es = (tr, d) →
  dinv psk_file_path clients_file_path broker_key github_daemon (github_inv gp) (scoped_credential gp) m0 tr d.
Proof.
  intros Hr. eapply run_inv; [done..| | | |exact Hload| |exact Hr].
  - exact daemon_laws.
  - exact daemon_stable.
  - apply gs_restart_inv.
  - apply (life_inv gp []).
Qed.

Lemma life_kept es tr d : life_run es = (tr, d) → disk_kept kp kc fs0 d.
Proof.
  intros Hr. pose proof (disk_kept_run psk_file_path clients_file_path broker_key broker_public github_daemon gs_restart
    kp kc Hkp Hkc Hne Htmp_p Htmp_c fs0 (booted m0 fs0 gs_new t0 0) es) as Hk.
  unfold life_run in Hr. rewrite Hr in Hk. apply Hk. split; [|done]. cbn. reflexivity.
Qed.

(** ** Properties *)

(** C2: who can make the daemon mint.  In any life of the daemon, with any
    number of connections interleaved with each other and with admin requests,
    and crashes at any moment, a mint asked for on connection [n] comes from a
    client that was accepted on that connection, since the last start of the
    daemon, with a PSK that it could hold at that moment: one of the first
    start, or of an enrolment, with no successful revocation of the client in
    between.  The bytes that arrived on the connection are a handshake under that PSK and
    a request encrypted in it that names this host and this path. *)
Theorem daemon_mints_authorised es tr d pre n h p post :
  life_run es = (tr, d) → tr = pre ++ L_mint n h p :: post →
  ∃ i m id psk hs0 out1 ts1 request before after,
    pre = before ++ L_accept n id psk :: after ∧ (L_boot ∉ after) ∧ (L_open n i ∈ before) ∧
    may_hold m0 before id psk ∧ auth m !! id = Some psk ∧
    responder_hs (ci_seed i) (priv_bytes broker_key) = Ok hs0 ∧
    requested (conn_env broker_key github_daemon m i) hs0 (ci_wire i) (Some (as_str id)) out1 id ts1 request ∧
    host request = h ∧ path request = p.
Proof.
  intros Hr Htr. pose proof (dinv_trace _ _ _ _ _ _ _ _ _ (life_dinv _ _ _ Hr) _ _ _ Htr) as Hj.
  destruct Hj as (i & m & id & psk & hs0 & out1 & ts1 & request & (before & after & H1 & H2 & H3 & H4 & H5) & H6 & H7 & H8 & H9).
  exists i, m, id, psk, hs0, out1, ts1, request, before, after. by split_and!.
Qed.

(** C3: what a client can get.  Every connection handler that ends in any life of
    the daemon returns normally; and when it reports a mint, the client was
    authorised and asked for the path in its own encrypted session, and the
    second frame sent to it is the encryption, in that session, of a
    git-credential answer whose token GitHub issued, in this life of the daemon
    or before a crash, for exactly one repository, the one of that owner and
    name up to ASCII case. *)
Theorem daemon_credentials_scoped es tr d pre n i m c v post :
  life_run es = (tr, d) → tr = pre ++ L_end n (MkLive i m c) v :: post →
  v = Return ∧ L_open n i ∈ pre ∧
  ((∃ e, e ∈ c_log c ∧ ev_kind e = Ev_Mint) →
   ∃ hs0 out1 out2, responder_hs (ci_seed i) (priv_bytes broker_key) = Ok hs0 ∧ c_out c = [out1; out2] ∧
     minted_ok (scoped_credential gp) (conn_env broker_key github_daemon m i) hs0 (ci_wire i) c out1 out2).
Proof.
  intros Hr Htr. pose proof (dinv_trace _ _ _ _ _ _ _ _ _ (life_dinv _ _ _ Hr) _ _ _ Htr) as (-> & Ho & hs0 & Hhs & Hpost).
  split; [done|]. split; [done|]. intros He. destruct (cpost_minted _ _ _ _ _ Hpost He) as (out1 & out2 & Hout & Hm).
  by exists hs0, out1, out2.
Qed.

(** C6: the daemon stays well formed.  In every state of every life: the keys
    of both tables are valid identities and every PSK has its 32 bytes; the
    provider's caches satisfy their invariants; the next turn of every live
    connection goes on to the next of its nine positions or returns, without
    panic or deadlock; and whatever the disk holds at this moment, in the
    middle of an enrolment or a revocation too, both state files load, into
    well-formed tables, and a state file that was there at the first start is
    still there.  (Loading them is the part of a start-up that depends on what
    the daemon wrote; the rest of it, which can fail for other reasons, is
    [Startup].) *)
Theorem daemon_wellformed es tr d :
  life_run es = (tr, d) →
  mem_ok (d_mem d) ∧ github_inv gp (d_providers d) ∧
  (∀ n lv, d_live d !! n = Some lv → ∃ c v,
     conn_turn (conn_env broker_key github_daemon (turn_mem d lv) (lv_in lv)) (share (d_providers d) (d_bucket d) (lv_conn lv)) = (c, v) ∧
     (v = Return ∨ v = Continue ∧ turn_pos (c_sess c) = S (turn_pos (c_sess (lv_conn lv))))) ∧
  (∃ m, acquire_tables psk_file_path clients_file_path (d_fs d) = Ok m ∧ mem_ok m) ∧ (L_down ∉ tr) ∧
  (is_Some (fs0 !! kp) → is_Some (d_fs d !! kp)) ∧ (is_Some (fs0 !! kc) → is_Some (d_fs d !! kc)).
Proof.
  intros Hr. pose proof (life_dinv _ _ _ Hr) as Hd. pose proof (life_kept _ _ _ Hr) as [Hkeep _].
  refine (conj _ (conj _ (conj _ (conj _ (conj _ Hkeep))))).
  - apply Hd.
  - apply Hd.
  - intros n lv Hn. eapply live_turn; [exact daemon_laws|exact Hd|exact Hn].
  - destruct (dinv_disk _ _ _ _ _ _ _ _ _ Hd) as (m & Hm & Hb). exists m. split; [done|]. apply Hb.
  - intros (pre & post & Htr)%list_elem_of_split. exact (dinv_trace _ _ _ _ _ _ _ _ _ Hd _ _ _ Htr).
Qed.

(** C4: a revocation that was acknowledged holds.  After the revocation of a
    client has succeeded, no connection is accepted for that client again, with
    any PSK, through any failures of later mutations and any crashes, unless an
    enrolment of that client with that PSK has begun after it. *)
Theorem revocation_effective es tr d pre id mid n psk post :
  life_run es = (tr, d) → tr = pre ++ L_revoked id :: mid ++ L_accept n id psk :: post → L_enroll id psk ∈ mid.
Proof.
  intros Hr Htr. eapply (may_hold_revoked m0 pre id psk mid). rewrite app_comm_cons, (assoc_L (++)) in Htr.
  exact (dinv_trace _ _ _ _ _ _ _ _ _ (life_dinv _ _ _ Hr) _ _ _ Htr).
Qed.

(** C5: an enrolment that was acknowledged is durable.  After the enrolment of
    a client has succeeded and as long as nobody begins to revoke it, the
    client is accepted with that PSK, in memory and by any start-up from the
    disk as it is, whatever connections, other mutations (failed, cancelled or
    in progress) and crashes came after. *)
Theorem enrolment_durable es tr d pre id psk post :
  life_run es = (tr, d) → tr = pre ++ L_enrolled id psk :: post → L_revoke id ∉ post →
  auth (d_mem d) !! id = Some psk ∧
  ∃ m, acquire_tables psk_file_path clients_file_path (d_fs d) = Ok m ∧ auth m !! id = Some psk.
Proof.
  intros Hr Htr Hno. pose proof (life_dinv _ _ _ Hr) as Hd. pose proof (must_hold_enrolled m0 pre id psk post Hno) as Hm. rewrite <-Htr in Hm.
  split.
  - destruct (dinv_mem _ _ _ _ _ _ _ _ _ Hd) as (_ & _ & Hmust). by apply Hmust.
  - destruct (dinv_disk _ _ _ _ _ _ _ _ _ Hd) as (m & Hl & _ & _ & Hmust). exists m. split; [done|]. by apply Hmust.
Qed.

(** A connection on which [wire] arrives and every write succeeds. *)
Definition conn_in_on (wire : list Arrival) (i : ConnIn) : ConnIn :=
  MkConnIn (ci_peer i) (ci_seed i) (ci_random i) (ci_instant i) (ci_provider_ms i) (ci_wall i) wire [].

(** C1: from enrolment to credential.  Let an enrolment have succeeded at some
    point of the life of the daemon and no revocation of that client have begun
    since, with any connections, mutations and crashes in between.  The helper,
    run by git with the key file made of the enrolled PSK and the broker's
    public key, on a request of at most 8 KiB that parses and that the provider
    grants, is served: the frames it sends are those the daemon reads on a new
    connection and the other way round, the handler of that connection returns
    after at most nine turns with the event [mint] last, and the helper exits
    with 0 having printed exactly the encoded credential. *)
Theorem enrolled_client_served es tr d pre id psk post i request answer si endpoint key_path :
  len (priv_bytes broker_key) = 32 →
  life_run es = (tr, d) → tr = pre ++ L_enrolled id psk :: post → L_revoke id ∉ post →
  grants (conn_env broker_key github_daemon (d_mem d) i) request (d_providers d) answer → len answer <= MAX_MESSAGE_SIZE - 16 →
  ∃ f1 f2 o1 o2 k lg c d',
    drun psk_file_path clients_file_path broker_key broker_public github_daemon gs_restart d
      (E_open (conn_in_on (segment f1 ++ segment f2) i) :: replicate k (E_turn (d_next d)))
    = (lg ++ [L_end (d_next d) (MkLive (conn_in_on (segment f1 ++ segment f2) i) (d_mem d) c) Return], d') ∧ (k <= 9)%nat ∧
    c_out c = [o1; o2] ∧ ev_kind <$> last (c_log c) = Some Ev_Mint ∧
    let args := helper_args id endpoint key_path in
    let cenv := helper_env broker_key psk request (o1 ++ o2) si in
    cr_sent_frames (client_run args cenv) = [f1; f2] ∧ client_main args cenv = (Some 0, answer).
Proof.
  intros Hk Hr Htr Hno Hg Hans. pose proof (life_dinv _ _ _ Hr) as Hd.
  pose proof (must_hold_enrolled m0 pre id psk post Hno) as Hm. rewrite <-Htr in Hm.
  destruct (dinv_mem _ _ _ _ _ _ _ _ _ Hd) as ([Hok _] & _ & Hmust). apply Hmust in Hm as Ha.
  assert (Identity_ok id ∧ Psk_ok psk) as [Hid Hp] by (by eapply Hok, auth_lookup).
  destruct (end_to_end (conn_env broker_key github_daemon (d_mem d) i) id psk request answer (d_providers d) (d_bucket d) si endpoint key_path)
    as (f1 & f2 & o1 & o2 & c & Hh & Hout & Hlast & Hcl); [done..|].
  destruct (connection_alone psk_file_path clients_file_path broker_key broker_public github_daemon gs_restart d
    (conn_in_on (segment f1 ++ segment f2) i) c Return) as (k & lg & d' & Hrun & Hkf & _); [|exact Hh|].
  - unfold handle_connection in Hh. cbn in Hh |- *. destruct (Responder_new (ci_seed i) broker_key); [done|].
    injection Hh as <-. done.
  - exists f1, f2, o1, o2, k, lg, c, d'. by split_and!.
Qed.

End lifecycle.

(** ** A concrete life *)

Definition life_in : ConnIn :=
  MkConnIn (B "127.0.0.1:4000") 2 (Ok (MkPsk (replicate 32 x55))) 0 12 (from_secs 1700000000) demo_wire [].

Definition admin_in (request : AdminRequest) : AdminIn :=
  MkAdminIn None 60 7 (Run all_ok, Run all_ok) (segment ((x7b :: pos_digits (encode (req_code request))) ++ [x0a])).

(** A mutation from its request to its answer. *)
Definition mutation_events (request : AdminRequest) : list DEvent :=
  E_admin (admin_in request) :: replicate 2 E_visible ++ replicate 24 E_disk ++ [E_finish].
Definition serve_events (n : nat) : list DEvent := E_open life_in :: replicate 9 (E_turn n).

Definition enroll_request : AdminRequest := Req_Enroll Github demo_id demo_psk None.

Abbreviation demo_life := (@life_run noise_model hex_model formats_model plain_order admin_json_model github_model demo_text
  demo_path demo_clients_path demo_key (MkBrokerPublicKey (replicate 32 x09)) demo_provider demo_fs demo_mem 0).

(** Enrolled, served after a crash; revoked, refused; enrolled again, served. *)
Definition demo_events : list DEvent :=
  mutation_events enroll_request ++ [E_crash 5] ++ serve_events 0 ++ mutation_events (Req_Revoke Github demo_id) ++ serve_events 1 ++
  mutation_events enroll_request ++ serve_events 2.

Definition demo_trace : list (@Logged noise_model GState) := (demo_life demo_events).1.
Definition demo_last : @Daemon noise_model GState := (demo_life demo_events).2.

Lemma demo_life_eq : demo_life demo_events = (demo_trace, demo_last).
Proof. apply surjective_pairing. Qed.

Lemma demo_load : @acquire_tables hex_model formats_model demo_path demo_clients_path demo_fs = Ok demo_mem.
Proof. vm_compute. reflexivity. Qed.

Lemma demo_ne : demo_kp ≠ demo_kc.
Proof. discriminate. Qed.

(** The trace around an entry. *)
Lemma demo_trace_at k l : demo_trace !! k = Some l → demo_trace = take k demo_trace ++ l :: drop (S k) demo_trace.
Proof. intros Hk. symmetry. by apply take_drop_middle. Qed.

Lemma daemon_mints_authorised_witness :
  ∃ id psk before after, take 5 demo_trace = before ++ L_accept 0 id psk :: after ∧ may_hold demo_mem before id psk.
Proof.
  destruct (@daemon_mints_authorised noise_model hex_model formats_model plain_order admin_json_model github_model demo_text _ _ _
    demo_path demo_clients_path demo_key (MkBrokerPublicKey (replicate 32 x09)) demo_provider demo_kp demo_kc eq_refl eq_refl
    demo_ne demo_kc_not_tmp demo_kp_not_tmp demo_fs demo_mem 0 demo_load demo_events demo_trace demo_last
    (take 5 demo_trace) 0 (B "github.com") (B "Octo/Hello") (drop 6 demo_trace) demo_life_eq)
    as (i & m & id & psk & hs0 & out1 & ts1 & request & before & after & H1 & _ & _ & H4 & _).
  - apply demo_trace_at. vm_compute. reflexivity.
  - exists id, psk, before, after. split; [exact H1|exact H4].
Defined.

(** The handler that served the last connection reported a mint. *)
Definition reported_mint (c : @Conn noise_model GState) : bool :=
  existsb (λ e, match ev_kind e with Ev_Mint => true | _ => false end) (c_log c).
Definition ends_minting (l : option (@Logged noise_model GState)) : bool :=
  match l with Some (L_end 2 lv Return) => reported_mint (lv_conn lv) | _ => false end.
Lemma ends_minting_true l :
  ends_minting l = true → ∃ i m c, l = Some (L_end 2 (MkLive i m c) Return) ∧ ∃ e, e ∈ c_log c ∧ ev_kind e = Ev_Mint.
Proof.
  destruct l as [[|n id psk|n h p|[|[|[|n]]] [i m c] []|id psk|id psk|id|id| |]|]; try discriminate.
  cbn. intros (e & Hin & He)%existsb_exists. exists i, m, c. split; [done|]. exists e.
  split; [by apply list_elem_of_In|]. by destruct (ev_kind e).
Qed.
Lemma demo_ended : ends_minting (demo_trace !! 16%nat) = true.
Proof. vm_compute. reflexivity. Qed.

Lemma daemon_credentials_scoped_witness :
  ∃ i m c hs0 out1 out2, c_out c = [out1; out2] ∧
    @minted_ok noise_model () GState (@scoped_credential github_model demo_provider)
      (conn_env demo_key (@github_daemon github_model demo_provider) m i) hs0 (ci_wire i) c out1 out2.
Proof.
  destruct (ends_minting_true _ demo_ended) as (i & m & c & El & He).
  destruct (@daemon_credentials_scoped noise_model hex_model formats_model plain_order admin_json_model github_model demo_text _ _ _
    demo_path demo_clients_path demo_key (MkBrokerPublicKey (replicate 32 x09)) demo_provider demo_kp demo_kc eq_refl eq_refl
    demo_ne demo_kc_not_tmp demo_kp_not_tmp demo_fs demo_mem 0 demo_load demo_events demo_trace demo_last
    (take 16 demo_trace) 2 i m c Return (drop 17 demo_trace) demo_life_eq (demo_trace_at 16 _ El)) as (_ & _ & H).
  destruct (H He) as (hs0 & out1 & out2 & _ & H1 & H2). exists i, m, c, hs0, out1, out2. split; [exact H1|exact H2].
Defined.

Lemma daemon_wellformed_witness : mem_ok (d_mem demo_last) ∧ L_down ∉ demo_trace.
Proof.
  destruct (@daemon_wellformed noise_model hex_model formats_model plain_order admin_json_model github_model demo_text _ _ _
    demo_path demo_clients_path demo_key (MkBrokerPublicKey (replicate 32 x09)) demo_provider demo_kp demo_kc eq_refl eq_refl
    demo_ne demo_kc_not_tmp demo_kp_not_tmp demo_fs demo_mem 0 demo_load demo_events demo_trace demo_last demo_life_eq)
    as (H1 & _ & _ & _ & H2 & _).
  split; [exact H1|exact H2].
Defined.

Lemma revocation_effective_witness : L_enroll demo_id demo_psk ∈ take 5 (drop 9 demo_trace).
Proof.
  refine (@revocation_effective noise_model hex_model formats_model plain_order admin_json_model github_model demo_text _ _ _
    demo_path demo_clients_path demo_key (MkBrokerPublicKey (replicate 32 x09)) demo_provider demo_kp demo_kc eq_refl eq_refl
    demo_ne demo_kc_not_tmp demo_kp_not_tmp demo_fs demo_mem 0 demo_load demo_events demo_trace demo_last
    (take 8 demo_trace) demo_id (take 5 (drop 9 demo_trace)) 2 demo_psk (drop 6 (drop 9 demo_trace)) demo_life_eq _).
  rewrite (take_drop_middle (drop 9 demo_trace) 5 (L_accept 2 demo_id demo_psk)) by (vm_compute; reflexivity).
  apply demo_trace_at. vm_compute. reflexivity.
Defined.

(** The same life up to the crash. *)
Definition demo_events1 : list DEvent := mutation_events enroll_request ++ [E_crash 5].
Definition demo_life1 : list (@Logged noise_model GState) * @Daemon noise_model GState := demo_life demo_events1.

Lemma demo_life1_eq : demo_life demo_events1 = (demo_life1.1, demo_life1.2).
Proof. exact (surjective_pairing demo_life1). Qed.

Lemma demo_trace1 : demo_life1.1 = [L_enroll demo_id demo_psk] ++ L_enrolled demo_id demo_psk :: [L_boot].
Proof. vm_compute. reflexivity. Qed.

Lemma enrolment_durable_witness : auth (d_mem demo_life1.2) !! demo_id = Some demo_psk.
Proof.
  refine (proj1 (@enrolment_durable noise_model hex_model formats_model plain_order admin_json_model github_model demo_text _ _ _
    demo_path demo_clients_path demo_key (MkBrokerPublicKey (replicate 32 x09)) demo_provider demo_kp demo_kc eq_refl eq_refl
    demo_ne demo_kc_not_tmp demo_kp_not_tmp demo_fs demo_mem 0 demo_load demo_events1 demo_life1.1 demo_life1.2
    [L_enroll demo_id demo_psk] demo_id demo_psk [L_boot] demo_life1_eq demo_trace1 _)).
  by rewrite list_elem_of_singleton.
Defined.

Lemma demo_grants1 :
  @grants () GState (conn_env demo_key (@github_daemon github_model demo_provider) (d_mem demo_life1.2) life_in) demo_ask
    (d_providers demo_life1.2) demo_answer.
Proof.
  exists demo_req, 0%nat, demo_gp, granted_run.1, granted_out. split; [vm_compute; discriminate|]. split; [vm_compute; reflexivity|].
  split; [cbn [ce_providers conn_env github_daemon fmap list_fmap snd]; change (@github_provider github_model demo_provider) with demo_gp;
    cbn [list_find]; by rewrite decide_True|].
  split; [vm_compute; reflexivity|]. split; [vm_compute; discriminate|].
  vm_compute. reflexivity.
Qed.

Lemma enrolled_client_served_witness :
  ∃ o1 o2, @client_main noise_model hex_model (helper_args demo_id (B "broker:7373") (B "/etc/key"))
    (@helper_env noise_model hex_model demo_key demo_psk demo_ask (o1 ++ o2) 1) = (Some 0, demo_answer).
Proof.
  destruct (@enrolled_client_served noise_model hex_model formats_model plain_order admin_json_model github_model demo_text noise_model_laws _ _ _
    demo_path demo_clients_path demo_key (MkBrokerPublicKey (replicate 32 x09)) demo_provider demo_kp demo_kc eq_refl eq_refl
    demo_ne demo_kc_not_tmp demo_kp_not_tmp demo_fs demo_mem 0 demo_load demo_events1 demo_life1.1 demo_life1.2
    [L_enroll demo_id demo_psk] demo_id demo_psk [L_boot] life_in demo_ask demo_answer 1 (B "broker:7373") (B "/etc/key"))
    as (f1 & f2 & o1 & o2 & k & lg & c & d' & _ & _ & _ & _ & _ & H).
  - reflexivity.
  - exact demo_life1_eq.
  - exact demo_trace1.
  - by rewrite list_elem_of_singleton.
  - exact demo_grants1.
  - vm_compute. discriminate.
  - exists o1, o2. exact H.
Defined.
