(* ===== verification/Concurrent.v ===== *)
(** * Connections served at the same time

    [handle_connection] over the interleaved mints of [Mints]: any number of
    connections, each at some turn of its loop or suspended in the turn that
    mints, share the provider and the log rate limiter.  A turn runs alone; the
    turn that mints is cut at the await of the provider: it new_mint a task, and
    goes on with the answer when the task has ended, after any number of turns
    of other connections and steps of their mints.  The tables a turn sees are
    given with it, so enrolments, revocations and restarts may happen at any
    time.

    [conn_turn] is run twice on a turn that mints: with a provider that does
    not return, which shows the path that is asked for, and from the same state
    with the answer. *)

From S2P Require Import Prelude Identity Psk GitCredential Transport RateLimit TtlCache Singleflight AtomicFs Config State Signing Github Mints Events Connection Broker Admin Daemon Lifecycle.

Section concurrent.
Context {NZ : Noise} {GE : GithubEnv} {LT : LogText HttpError}.
Context (broker_key : BrokerPrivateKey) (gp : GitHubProvider).

Abbreviation GErr := (GithubError HttpError).
Abbreviation Prov := (@Provider HttpError GState).
Abbreviation GConn := (@Conn NZ GState).

(** The provider while the answer is awaited, and when it is there.  A
    connection asks for one mint, that of [path]. *)
Definition unanswered : Prov := MkProvider (gp_host gp) (λ _ st, (st, Blocked)) (λ st, (st, Blocked)).
Definition answering (path : bytes) (r : result GErr MintOutcome) : Prov :=
  MkProvider (gp_host gp)
    (λ path' st, (st, Ret (if decide (path' = path) then map_err ProviderError_from r else Err PE_Cancelled)))
    (λ st, (st, Ret (Err PE_Cancelled))).

Definition env_with (pr : Prov) (m : Mem) (i : ConnIn) : ConnEnv := conn_env broker_key [(Config.Github, pr)] m i.

(** ** State *)

(** A connection being served; [sv_mint]: the task it awaits, and the path. *)
Record Served := MkServed {
  sv_in : ConnIn;
  sv_mem : Mem;
  sv_conn : GConn;
  sv_mint : option (nat * bytes);
}.

Record Serving := MkServing {
  sr_mints : Mints;
  sr_bucket : TokenBucket;
  sr_live : gmap nat Served;
  sr_ended : list (nat * Served * Verdict);
}.

Inductive SEvent :=
| V_open (n : nat) (m : Mem) (i : ConnIn)
| V_turn (n : nat) (m : Mem) (t : nat)       (* a turn, with the tables as they are; [t]: a task for its mint *)
| V_step (a : MAction)                       (* a step of a mint *)
| V_resume (n : nat)                         (* the mint that [n] awaits has ended *)
| V_cut (n : nat).                           (* the timeout of the connection *)

Definition shared (s : Serving) (sv : Served) : GConn := share (ms_state (sr_mints s)) (sr_bucket s) (sv_conn sv).

(** The tables are read in the turn that needs the PSK. *)
Definition seen (m : Mem) (sv : Served) : Mem := match c_sess (sv_conn sv) with R_NeedPsk _ _ => m | _ => sv_mem sv end.

(** The turn is over: the connection goes on or has ended. *)
Definition advance (n : nat) (sv : Served) (m : Mem) (c : GConn) (v : Verdict) (s : Serving) : Serving :=
  let sv' := MkServed (sv_in sv) m c None in
  MkServing (sr_mints s) (c_bucket c)
    (match v with Continue => <[n := sv']> (sr_live s) | _ => delete n (sr_live s) end)
    (match v with Continue => sr_ended s | _ => sr_ended s ++ [(n, sv', v)] end).

Definition with_mints (w : Mints) (live : gmap nat Served) (s : Serving) : Serving :=
  MkServing w (sr_bucket s) live (sr_ended s).

(** How a task that ended answers its caller. *)
Definition answer_of (x : Mint) : option (result GErr MintOutcome) :=
  match x with M_done _ r => Some r | M_malformed _ e => Some (Err e) | _ => None end.

(** Tasks go on by themselves; they start and are dropped with their connection. *)
Definition own_step (a : MAction) : bool := match a with A_run _ | A_answer _ => true | _ => false end.

(** The task is dropped with the connection. *)
Definition drop_mint (sv : Served) (w : Mints) : Mints :=
  match sv_mint sv with Some (t, _) => default w (m_step gp (A_drop t) w) | None => w end.

Definition s_step (e : SEvent) (s : Serving) : option Serving :=
  match e with
  | V_open n m i =>
      match sr_live s !! n with
      | Some _ => None
      | None =>
          Some (match Responder_new (ci_seed i) broker_key with
                | Ok r => with_mints (sr_mints s) (<[n := MkServed i m
                            (MkConn r None None (ci_wire i) (ci_writes i) (sr_bucket s) (ms_state (sr_mints s)) [] [] []) None]> (sr_live s)) s
                | Err _ => s
                end)
      end
  | V_turn n m t =>
      sv ← sr_live s !! n;
      match sv_mint sv with
      | Some _ => None
      | None =>
          let m := seen m sv in
          let '(c, v) := conn_turn (env_with unanswered m (sv_in sv)) (shared s sv) in
          match v, last (c_mints c) with
          | Waiting, Some (_, path) =>
              w ← m_step gp (A_mint t path) (sr_mints s);
              Some (with_mints w (<[n := MkServed (sv_in sv) m (sv_conn sv) (Some (t, path))]> (sr_live s)) s)
          | _, _ => Some (advance n sv m c v s)
          end
      end
  | V_step a => if own_step a then w ← m_step gp a (sr_mints s); Some (with_mints w (sr_live s) s) else None
  | V_resume n =>
      sv ← sr_live s !! n;
      '(t, path) ← sv_mint sv;
      x ← ms_tasks (sr_mints s) !! t;
      r ← answer_of x;
      let '(c, v) := conn_turn (env_with (answering path r) (sv_mem sv) (sv_in sv)) (shared s sv) in
      Some (advance n sv (sv_mem sv) c v s)
  | V_cut n =>
      sv ← sr_live s !! n;
      Some (with_mints (drop_mint sv (sr_mints s)) (delete n (sr_live s)) s)
  end.

Fixpoint s_run (es : list SEvent) (s : Serving) : option Serving :=
  match es with
  | [] => Some s
  | e :: es => s ← s_step e s; s_run es s
  end.

Definition s_init (b : TokenBucket) : Serving := MkServing m_init b ∅ [].

(** ** A turn and its provider *)

(** A turn that did not ask for a mint is the same with any provider. *)
Lemma unanswered_turn pr m i c c' v :
  pr_host pr = gp_host gp → conn_turn (env_with unanswered m i) c = (c', v) → v ≠ Waiting → conn_turn (env_with pr m i) c = (c', v).
Proof.
  intros Hh Ht Hv. unfold conn_turn in *. destruct (Responder_step (c_sess c)) as [s [[n|id|out|rb|]|e]]; [exact Ht..| | |]; try exact Ht.
  unfold arm_request in *. cbn [c_client c_set_sess] in *. destruct (c_client c) as [name|]; [|exact Ht].
  destruct (WIRE_READ_BUDGET <? len rb); [exact Ht|]. destruct (Request_parse rb) as [rq|]; [|exact Ht].
  cbn in Ht |- *. rewrite Hh. destruct (decide (gp_host gp = host rq)); [|exact Ht]. cbn in Ht. congruence.
Qed.

(** One that did came to the request of a client, and leaves the path it asked for. *)
Lemma unanswered_asks m i c c' :
  conn_turn (env_with unanswered m i) c = (c', Waiting) →
  ∃ s rb name rq, Responder_step (c_sess c) = (s, Ok (Step_Request rb)) ∧ c_client c = Some name ∧ (WIRE_READ_BUDGET <? len rb) = false ∧
    Request_parse rb = Ok rq ∧ gp_host gp = host rq ∧ c_mints c' = c_mints c ++ [(host rq, path rq)].
Proof.
  intros Ht. unfold conn_turn in Ht. destruct (Responder_step (c_sess c)) as [s [[n|id|out|rb|]|e]]; try done.
  - unfold arm_read in Ht. destruct (read_exact_n _ _) as [[]]; [|done]. by destruct (Responder_recv _ _) as [? []].
  - unfold arm_need_psk in Ht. destruct (choose_psk _ _ _) as [? []]; [|done]. unfold sess_call in Ht. by destruct (Responder_set_psk _ _) as [? []].
  - unfold arm_write in Ht. destruct (head _) as [[]|]; [done|..]; unfold sess_call in Ht; by destruct (Responder_wrote _) as [? []].
  - unfold arm_request in Ht. cbn [c_client c_set_sess] in *. destruct (c_client c) as [name|]; [|done].
    destruct (WIRE_READ_BUDGET <? len rb) eqn:El; [done|]. destruct (Request_parse rb) as [rq|] eqn:Er; [|done].
    cbn in Ht. destruct (decide (gp_host gp = host rq)); [|done]. cbn in Ht. injection Ht as <-. cbn. by exists s, rb, name, rq.
  - unfold arm_done in Ht. by repeat case_match.
Qed.

Lemma unanswered_mints m i c c' :
  conn_turn (env_with unanswered m i) c = (c', Waiting) → ∃ h path, last (c_mints c') = Some (h, path).
Proof. intros (s & rb & name & rq & _ & _ & _ & _ & _ & ->)%unanswered_asks. rewrite last_snoc. by eexists _, _. Qed.

(** The turn, from the state in which the provider's mint has left it and with
    its answer, is the turn that runs the mint. *)
Lemma replayed_turn m i st st' b conn c1 h path r :
  conn_turn (env_with unanswered m i) (share st b conn) = (c1, Waiting) → last (c_mints c1) = Some (h, path) →
  mint gp path st = (st', Ret r) →
  conn_turn (env_with (answering path r) m i) (share st' b conn) = conn_turn (env_with (github_provider gp) m i) (share st b conn).
Proof.
  intros (s & rb & name & rq & Hs & Hn & Hl & Hr & Hh & Hm)%unanswered_asks Hlast Hmint.
  rewrite Hm, last_snoc in Hlast. injection Hlast as <- <-. cbn [c_sess share c_client] in *.
  unfold conn_turn. cbn [c_sess share]. rewrite Hs. unfold arm_request. cbn [c_client c_set_sess share]. rewrite Hn, Hl, Hr. cbn.
  rewrite !decide_True by done. cbn. rewrite (decide_True (P := path rq = path rq)) by done.
  unfold mint_for. cbn [pr_mint github_provider c_providers c_set_sess share]. unfold Provider_mint. rewrite Hmint. by destruct r.
Qed.

(** What is known of a connection does not depend on the provider's answers. *)
Lemma requested_env pr pr' m i hs0 wire client out1 id ts1 rq :
  pr_host pr = pr_host pr' → requested (env_with pr m i) hs0 wire client out1 id ts1 rq →
  requested (env_with pr' m i) hs0 wire client out1 id ts1 rq.
Proof.
  intros Hh (psk & f1 & f2 & rest & plain & H1 & H2 & H3 & H4 & H5 & H6 & H7). exists psk, f1, f2, rest, plain.
  split_and!; try done. cbn in H7 |- *. rewrite Exists_cons, Exists_nil in H7 |- *. by rewrite <-Hh.
Qed.

Abbreviation scoped := (scoped_credential gp).

Lemma minted_env pr pr' m i hs0 wire (c : GConn) out1 out2 :
  pr_host pr = pr_host pr' → minted_ok scoped (env_with pr m i) hs0 wire c out1 out2 →
  minted_ok scoped (env_with pr' m i) hs0 wire c out1 out2.
Proof.
  intros Hh (id & ts1 & rq & rec & b & ts2 & m2 & Hr & H). exists id, ts1, rq, rec, b, ts2, m2. split; [|exact H].
  by eapply requested_env.
Qed.

Lemma cinv_env pr pr' m i hs0 wire (c : GConn) :
  pr_host pr = pr_host pr' → cinv scoped (env_with pr m i) hs0 wire c → cinv scoped (env_with pr' m i) hs0 wire c.
Proof.
  intros Hh. unfold cinv. destruct (c_sess c); try done.
  - intros (out1 & H1 & H2 & H3). exists out1. split_and!; [done| |done]. by eapply minted_env.
  - intros (out1 & out2 & H1 & H2 & H3). exists out1, out2. split_and!; [done| |done]. by eapply minted_env.
Qed.

Lemma cpost_env pr pr' m i hs0 wire (c : GConn) :
  pr_host pr = pr_host pr' → cpost scoped (env_with pr m i) hs0 wire c → cpost scoped (env_with pr' m i) hs0 wire c.
Proof.
  intros Hh (before & e & Hl & Hb & Hm & Hor). exists before, e. split_and!; [done|done| |].
  - destruct Hm as [?|(h & p & Hm & out1 & id & ts1 & rq & Hr & ?)]; [by left|right]. exists h, p. split; [done|].
    exists out1, id, ts1, rq. split; [|done]. by eapply requested_env.
  - destruct Hor as [(He & out1 & out2 & Ho & Hmo)|?]; [left|by right]. split; [done|]. exists out1, out2. split; [done|].
    by eapply minted_env.
Qed.

(** The provider with the answer keeps what it promises, when the answer is good. *)
Definition good_answer (path : bytes) (r : result GErr MintOutcome) (st : GState) : Prop :=
  ∀ out, r = Ok out → 0 <= password_expiry_utc (mo_response out) ∧ scoped path (mo_response out) st.

Lemma answering_laws path r st :
  good_answer path r st → Forall (ProviderLaws (λ s, s = st) scoped) [answering path r].
Proof.
  intros Hg. apply Forall_singleton. split.
  - intros s path' s' o -> Hm. cbn in Hm. injection Hm as <- <-. split; [done|]. eexists. split; [done|].
    intros out Ho. destruct (decide (path' = path)) as [->|]; [|done]. apply map_err_Ok in Ho. by apply Hg.
  - intros s s' o -> Hm. injection Hm as <- <-. split; [done|]. by eexists.
Qed.

(** The environment a connection is judged by. *)
Abbreviation env_of m i := (env_with (github_provider gp) m i).

(** A turn of a connection, the mint answered. *)
Lemma minting_turn path r m i hs0 (c c' : GConn) v :
  good_answer path r (c_providers c) → cinv scoped (env_of m i) hs0 (ci_wire i) c →
  conn_turn (env_with (answering path r) m i) c = (c', v) →
  c_providers c' = c_providers c ∧
  match v with
  | Continue => cinv scoped (env_of m i) hs0 (ci_wire i) c' ∧ turn_pos (c_sess c') = S (turn_pos (c_sess c))
  | Return => cpost scoped (env_of m i) hs0 (ci_wire i) c'
  | _ => False
  end.
Proof.
  intros Hg Hc Ht.
  eapply (conn_turn_ok _ scoped (env_with (answering path r) m i) hs0 (ci_wire i) (answering_laws path r _ Hg)) in Ht as [Hs Hv];
    [|done|by eapply cinv_env, Hc].
  split; [done|]. destruct v; [|..|done|done]; [|by eapply cpost_env, Hv]. destruct Hv as [Hc' Hpos]. split; [|done].
  by eapply cinv_env, Hc'.
Qed.

(** ** What the tasks answer *)

Lemma answer_good w t x path r :
  minv gp w → ms_tasks w !! t = Some x → for_path path x → answer_of x = Some r → good_answer path r (ms_state w).
Proof.
  intros [_ [_ Hts]] Hx Hp Hr out ->. apply Hts in Hx. destruct x as [| | | | | |rp r'|path' e| |]; cbn in Hr; try done.
  injection Hr as ->. destruct (Hx out eq_refl) as [Hu Ht]. split; [|split; [done|]; by exists rp].
  destruct Ht as (j & rec & id & _ & _ & _ & _ & Hrep). by eapply replied_token_nonneg.
Qed.

(** The records of calls only grow. *)
Lemma step_keeps a w w' path r : minv gp w → m_step gp a w = Some w' → scoped path r (ms_state w) → scoped path r (ms_state w').
Proof. intros Hm Ha. destruct (step_moves gp a w w' Hm Ha) as (y & [_ [new Hn]] & _). by eapply scoped_more. Qed.

(** ** The invariant *)

(** A connection, judged with the provider's state as it is. *)
Definition conn_ok (Post : ConnEnv → HandshakeState → list Arrival → GConn → Prop) (st : GState) (sv : Served) : Prop :=
  ∃ hs0, responder_hs (ci_seed (sv_in sv)) (priv_bytes broker_key) = Ok hs0 ∧
    Post (env_of (sv_mem sv) (sv_in sv)) hs0 (ci_wire (sv_in sv)) (share st (c_bucket (sv_conn sv)) (sv_conn sv)).

(** The task it awaits is a mint of its path. *)
Definition awaits_ok (w : Mints) (sv : Served) : Prop :=
  ∀ t path, sv_mint sv = Some (t, path) → ∃ x, ms_tasks w !! t = Some x ∧ for_path path x.

Record sinv (s : Serving) : Prop := {
  sinv_mints : minv gp (sr_mints s);
  sinv_conn n sv : sr_live s !! n = Some sv → conn_ok (cinv scoped) (ms_state (sr_mints s)) sv;
  sinv_awaits n sv : sr_live s !! n = Some sv → awaits_ok (sr_mints s) sv;
  sinv_own n1 n2 sv1 sv2 t p1 p2 : sr_live s !! n1 = Some sv1 → sr_live s !! n2 = Some sv2 →
    sv_mint sv1 = Some (t, p1) → sv_mint sv2 = Some (t, p2) → n1 = n2;
  sinv_ended n sv v : (n, sv, v) ∈ sr_ended s → v = Return ∧ conn_ok (cpost scoped) (ms_state (sr_mints s)) sv;
}.

Lemma sinv_init b : sinv (s_init b).
Proof.
  split; cbn; [apply minv_init|..]; intros *; rewrite ?lookup_empty; try done. by intros ?%not_elem_of_nil.
Qed.

Definition keeps (w w' : Mints) : Prop := ∀ path r, scoped path r (ms_state w) → scoped path r (ms_state w').

Lemma conn_ok_keeps w w' sv : keeps w w' → conn_ok (cinv scoped) (ms_state w) sv → conn_ok (cinv scoped) (ms_state w') sv.
Proof. intros Hk (hs0 & Hhs & Hc). exists hs0. split; [done|]. by eapply cinv_share. Qed.

Lemma ended_ok_keeps w w' sv : keeps w w' → conn_ok (cpost scoped) (ms_state w) sv → conn_ok (cpost scoped) (ms_state w') sv.
Proof. intros Hk (hs0 & Hhs & Hc). exists hs0. split; [done|]. by eapply cpost_share. Qed.

(** The mints go on; connections that are there and have not changed are as
    good as before, so that only what is new is to be shown. *)
Lemma sinv_frame s s' :
  sinv s → minv gp (sr_mints s') → keeps (sr_mints s) (sr_mints s') →
  (∀ n sv, sr_live s' !! n = Some sv → conn_ok (cinv scoped) (ms_state (sr_mints s')) sv ∨ sr_live s !! n = Some sv) →
  (∀ n sv, sr_live s' !! n = Some sv → awaits_ok (sr_mints s') sv) →
  (∀ n1 n2 sv1 sv2 t p1 p2, sr_live s' !! n1 = Some sv1 → sr_live s' !! n2 = Some sv2 →
     sv_mint sv1 = Some (t, p1) → sv_mint sv2 = Some (t, p2) → n1 = n2) →
  (∀ n sv v, (n, sv, v) ∈ sr_ended s' →
     (v = Return ∧ conn_ok (cpost scoped) (ms_state (sr_mints s')) sv) ∨ (n, sv, v) ∈ sr_ended s) →
  sinv s'.
Proof.
  intros [Hm Hc Ha Ho He] Hm' Hk Hc' Ha' Ho' He'. split; try done.
  - intros n sv Hn. destruct (Hc' n sv Hn) as [?|Hn']; [done|]. by eapply conn_ok_keeps, Hc.
  - intros n sv v Hn. destruct (He' n sv v Hn) as [?|Hn']; [done|]. destruct (He _ _ _ Hn') as [-> ?].
    split; [done|]. by eapply ended_ok_keeps.
Qed.

(** A turn is over, the mints are as they were. *)
Lemma sinv_advance n sv m c v hs0 s :
  sinv s → sr_live s !! n = Some sv → responder_hs (ci_seed (sv_in sv)) (priv_bytes broker_key) = Ok hs0 →
  c_providers c = ms_state (sr_mints s) →
  match v with
  | Continue => cinv scoped (env_of m (sv_in sv)) hs0 (ci_wire (sv_in sv)) c
  | Return => cpost scoped (env_of m (sv_in sv)) hs0 (ci_wire (sv_in sv)) c
  | _ => False
  end → sinv (advance n sv m c v s).
Proof.
  intros Hs Hn Hhs Hp Hv. pose proof Hs as [Hm Hc Ha Ho He].
  assert (share (ms_state (sr_mints s)) (c_bucket c) c = c) as Hsh by (rewrite <-Hp; by destruct c).
  eapply sinv_frame; [exact Hs|done|by intros ??|..]; cbn.
  - intros k sv'. destruct v; [|..|done|done]; [|intros [_ ?]%lookup_delete_Some; by right].
    rewrite lookup_insert_Some. intros [[<- <-]|[_ ?]]; [left|by right]. exists hs0. split; [done|]. cbn. by rewrite Hsh.
  - intros k sv'. destruct v; [|..|done|done]; [|intros [_ ?]%lookup_delete_Some; by eapply Ha].
    rewrite lookup_insert_Some. intros [[<- <-]|[_ ?]]; [by intros ??|by eapply Ha].
  - intros n1 n2 sv1 sv2 t p1 p2. destruct v; [|..|done|done].
    + rewrite !lookup_insert_Some. intros [[<- <-]|[_ ?]] [[<- <-]|[_ ?]]; [done..|]. by eapply Ho.
    + intros [_ ?]%lookup_delete_Some [_ ?]%lookup_delete_Some. by eapply Ho.
  - intros k sv' v'. destruct v; [by right|..|done|done]. rewrite elem_of_app, list_elem_of_singleton.
    intros [?|[= -> -> ->]]; [by right|left]. split; [done|]. exists hs0. split; [done|]. cbn. by rewrite Hsh.
Qed.

(** ** The events keep it *)

Lemma step_awaits a w w' sv :
  minv gp w → m_step gp a w = Some w' → (∀ t path, sv_mint sv = Some (t, path) → a ≠ A_drop t) → awaits_ok w sv → awaits_ok w' sv.
Proof.
  intros Hm Ha Hd Hw t path Ht. destruct (Hw t path Ht) as (x & Hx & Hp). eapply step_for_path; [done..|by eapply Hd|done|done].
Qed.

(** The tables a turn sees make no difference to what is known before it. *)
Lemma conn_ok_seen m sv s hs0 :
  cinv scoped (env_of (sv_mem sv) (sv_in sv)) hs0 (ci_wire (sv_in sv)) (share (ms_state (sr_mints s)) (c_bucket (sv_conn sv)) (sv_conn sv)) →
  cinv scoped (env_of (seen m sv) (sv_in sv)) hs0 (ci_wire (sv_in sv)) (shared s sv).
Proof.
  intros Hc. unfold shared. apply (cinv_share scoped _ _ _ (ms_state (sr_mints s)) _ (c_bucket (sv_conn sv))); [done|].
  unfold seen, cinv in *. cbn [c_sess share] in *. by destruct (c_sess (sv_conn sv)).
Qed.

Lemma sinv_open n m i s s' : sinv s → s_step (V_open n m i) s = Some s' → sinv s'.
Proof.
  intros Hs He. cbn in He. destruct (sr_live s !! n) eqn:Hn; [done|]. injection He as <-.
  destruct (Responder_new (ci_seed i) broker_key) as [r|e] eqn:Er; [|done]. apply Responder_new_inv in Er as (hs0 & Hhs & ->).
  pose proof Hs as [Hm Hc Ha Ho _]. eapply sinv_frame; [exact Hs|done|by intros ??|..]; cbn.
  - intros k sv. rewrite lookup_insert_Some. intros [[<- <-]|[_ ?]]; [left|by right]. exists hs0. split; [done|].
    exact (cinv_start scoped (env_of m i) hs0 (ci_wire i) (ci_writes i) (sr_bucket s) (ms_state (sr_mints s))).
  - intros k sv. rewrite lookup_insert_Some. intros [[<- <-]|[_ ?]]; [by intros ??|by eapply Ha].
  - intros n1 n2 sv1 sv2 t p1 p2. rewrite !lookup_insert_Some. intros [[<- <-]|[_ ?]] [[<- <-]|[_ ?]]; [done..|]. by eapply Ho.
  - by right.
Qed.

(** The turn that asks for the mint starts its task. *)
Lemma sinv_ask n m t path sv w s :
  sinv s → sr_live s !! n = Some sv → m_step gp (A_mint t path) (sr_mints s) = Some w →
  sinv (with_mints w (<[n := MkServed (sv_in sv) (seen m sv) (sv_conn sv) (Some (t, path))]> (sr_live s)) s).
Proof.
  intros Hs Hn Hw. pose proof Hs as [Hm Hc Ha Ho _]. 
  assert (∀ k sv' p', sr_live s !! k = Some sv' → sv_mint sv' ≠ Some (t, p')) as Hfresh.
  { intros k sv' p' Hk Ht. destruct (Ha _ _ Hk _ _ Ht) as (x & Hx & _). cbn in Hw. by rewrite Hx in Hw. }
  assert (keeps (sr_mints s) w) as Hkeep by (intros p r; by eapply step_keeps).
  eapply sinv_frame; [exact Hs|by eapply minv_step|done|..]; cbn.
  - intros k sv'. rewrite lookup_insert_Some. intros [[<- <-]|[_ ?]]; [left|by right].
    destruct (Hc _ _ Hn) as (hs0 & Hhs & Hci). exists hs0. split; [done|]. cbn. apply (conn_ok_seen m) in Hci.
    by eapply cinv_share.
  - intros k sv'. rewrite lookup_insert_Some. intros [[<- <-]|[_ Hk]].
    + intros t' p' [= <- <-]. destruct (step_moves gp _ _ _ Hm Hw) as (y & [Hts _] & Hy). exists y. split; [|done].
      destruct Hts as [->|[ev ->]]; apply lookup_insert_eq.
    + eapply step_awaits; [done..|by eapply Ha].
  - intros n1 n2 sv1 sv2 t' p1 p2. rewrite !lookup_insert_Some. 
    intros [[<- <-]|[_ H1]] [[<- <-]|[_ H2]] E1 E2; [done|..]; [| |by eapply Ho].
    + injection E1 as <- <-. by destruct (Hfresh _ _ p2 H2).
    + injection E2 as <- <-. by destruct (Hfresh _ _ p1 H1).
  - by right.
Qed.

(** A turn that is over: the connection is in order, and nearer to its end. *)
Definition turned (m : Mem) (sv : Served) (c : GConn) (v : Verdict) (s : Serving) : Prop :=
  c_providers c = ms_state (sr_mints s) ∧ ∃ hs0, responder_hs (ci_seed (sv_in sv)) (priv_bytes broker_key) = Ok hs0 ∧
  match v with
  | Continue => cinv scoped (env_of m (sv_in sv)) hs0 (ci_wire (sv_in sv)) c ∧ turn_pos (c_sess c) = S (turn_pos (c_sess (sv_conn sv)))
  | Return => cpost scoped (env_of m (sv_in sv)) hs0 (ci_wire (sv_in sv)) c
  | _ => False
  end.

Lemma sinv_turned n m sv c v s : sinv s → sr_live s !! n = Some sv → turned m sv c v s → sinv (advance n sv m c v s).
Proof. intros Hs Hn (Hp & hs0 & Hhs & Hv). eapply sinv_advance; try done. destruct v; [by destruct Hv|done..]. Qed.

(** A turn is over, or asks for its mint. *)
Lemma turn_cases n m t s s' :
  sinv s → s_step (V_turn n m t) s = Some s' → ∃ sv, sr_live s !! n = Some sv ∧ sv_mint sv = None ∧
  ((∃ c v, turned (seen m sv) sv c v s ∧ s' = advance n sv (seen m sv) c v s) ∨
   (∃ path w, m_step gp (A_mint t path) (sr_mints s) = Some w ∧
      s' = with_mints w (<[n := MkServed (sv_in sv) (seen m sv) (sv_conn sv) (Some (t, path))]> (sr_live s)) s)).
Proof.
  intros Hs He. cbn -[conn_turn env_with m_step] in He. destruct (sr_live s !! n) as [sv|] eqn:Hn; [|done].
  cbn -[conn_turn env_with m_step] in He. exists sv. split; [done|].
  destruct (sv_mint sv); [done|]. split; [done|]. destruct (conn_turn _ _) as [c v] eqn:Et.
  assert (v ≠ Waiting → turned (seen m sv) sv c v s) as Hadv.
  { intros Hv. apply (unanswered_turn (answering [] (Err G_Cancelled))) in Et; [|done..].
    destruct (sinv_conn _ Hs _ _ Hn) as (hs0 & Hhs & Hc). apply (conn_ok_seen m) in Hc.
    apply (minting_turn _ _ _ _ hs0) in Et as [Hp Hr]; [|done|done]. split; [done|]. by exists hs0. }
  destruct v; try (left; injection He as <-; eexists _, _; split; [by apply Hadv|done]).
  destruct (unanswered_mints _ _ _ _ Et) as (h & path & Hl). rewrite Hl in He.
  destruct (m_step gp (A_mint t path) (sr_mints s)) as [w|] eqn:Hw; [|done]. injection He as <-. right. by exists path, w.
Qed.

Lemma sinv_turn n m t s s' : sinv s → s_step (V_turn n m t) s = Some s' → sinv s'.
Proof.
  intros Hs He. destruct (turn_cases _ _ _ _ _ Hs He) as (sv & Hn & _ & [(c & v & Ht & ->)|(path & w & Hw & ->)]).
  - by apply sinv_turned.
  - by apply sinv_ask.
Qed.

Lemma sinv_own_step a s s' : sinv s → s_step (V_step a) s = Some s' → sinv s'.
Proof.
  intros Hs He. cbn in He. destruct (own_step a) eqn:Ea; [|done]. destruct (m_step gp a (sr_mints s)) as [w|] eqn:Hw; [|done].
  injection He as <-. pose proof Hs as [Hm Hc Ha Ho _].
  eapply sinv_frame; [exact Hs|by eapply minv_step|intros p r; by eapply step_keeps|..]; cbn; [by right| |done|by right].
  intros k sv Hk. eapply step_awaits; [done..| |by eapply Ha]. intros t path _ ->. done.
Qed.

Lemma resume_cases n s s' :
  sinv s → s_step (V_resume n) s = Some s' →
  ∃ sv c v, sr_live s !! n = Some sv ∧ turned (sv_mem sv) sv c v s ∧ s' = advance n sv (sv_mem sv) c v s.
Proof.
  intros Hs He. cbn -[conn_turn env_with m_step] in He. destruct (sr_live s !! n) as [sv|] eqn:Hn; [|done].
  cbn -[conn_turn env_with m_step] in He.
  destruct (sv_mint sv) as [[t path]|] eqn:Ht; [|done]. cbn -[conn_turn env_with m_step] in He.
  destruct (sinv_awaits _ Hs _ _ Hn _ _ Ht) as (x & Hx & Hp). rewrite Hx in He. cbn -[conn_turn env_with m_step] in He.
  destruct (answer_of x) as [r|] eqn:Hr; [|done]. cbn -[conn_turn env_with m_step] in He.
  destruct (conn_turn _ _) as [c v] eqn:Et. injection He as <-. exists sv, c, v.
  destruct (sinv_conn _ Hs _ _ Hn) as (hs0 & Hhs & Hc).
  apply (cinv_share scoped _ _ _ _ (ms_state (sr_mints s)) _ (sr_bucket s)) in Hc; [|done].
  apply (minting_turn _ _ _ _ hs0) in Et as [Hpv Hres]; [|by eapply answer_good, Hr; [apply Hs|..]|done].
  split; [done|]. split; [|done]. split; [done|]. by exists hs0.
Qed.

Lemma sinv_resume n s s' : sinv s → s_step (V_resume n) s = Some s' → sinv s'.
Proof. intros Hs He. destruct (resume_cases _ _ _ Hs He) as (sv & c & v & Hn & Ht & ->). by apply sinv_turned. Qed.

Lemma sinv_cut n s s' : sinv s → s_step (V_cut n) s = Some s' → sinv s'.
Proof.
  intros Hs He. cbn -[drop_mint] in He. destruct (sr_live s !! n) as [sv|] eqn:Hn; [|done]. injection He as <-. pose proof Hs as [Hm Hc Ha Ho _].
  set (w := drop_mint sv (sr_mints s)).
  assert (minv gp w ∧ keeps (sr_mints s) w ∧ ∀ k sv', k ≠ n → sr_live s !! k = Some sv' → awaits_ok w sv') as (Hw & Hk & Haw).
  { unfold w, drop_mint. destruct (sv_mint sv) as [[t path]|] eqn:Ht; [|split_and!; [done|by intros ??|intros; by eapply Ha]].
    destruct (m_step gp (A_drop t) (sr_mints s)) as [w'|] eqn:Hd; cbn; [|split_and!; [done|by intros ??|intros; by eapply Ha]].
    split_and!; [by eapply minv_step|intros p r; by eapply step_keeps|]. intros k sv' Hkn Hk'.
    eapply step_awaits; [done..| |by eapply Ha]. intros t' p' Ht' [= <-]. by eapply Hkn, Ho. }
  eapply sinv_frame; [exact Hs|done|done|..]; cbn.
  - intros k sv' [_ ?]%lookup_delete_Some. by right.
  - intros k sv' [? ?]%lookup_delete_Some. by eapply Haw.
  - intros n1 n2 sv1 sv2 t p1 p2 [_ ?]%lookup_delete_Some [_ ?]%lookup_delete_Some. by eapply Ho.
  - by right.
Qed.

Lemma sinv_step e s s' : sinv s → s_step e s = Some s' → sinv s'.
Proof. destruct e; [apply sinv_open|apply sinv_turn|apply sinv_own_step|apply sinv_resume|apply sinv_cut]. Qed.

Lemma sinv_run es s s' : sinv s → s_run es s = Some s' → sinv s'.
Proof.
  revert s. induction es as [|e es IH]; intros s Hs Hr; [by injection Hr as <-|]. cbn in Hr.
  destruct (s_step e s) as [s1|] eqn:E; [|done]. by eapply IH; [eapply sinv_step|].
Qed.

(** ** Every connection comes to an end *)

(** The steps a connection has left, those of its mint apart. *)
Definition left_of (sv : Served) : nat :=
  2 * (9 - turn_pos (c_sess (sv_conn sv))) - (match sv_mint sv with Some _ => 1 | None => 0 end).

Definition opens (e : SEvent) : bool := match e with V_open _ _ _ => true | _ => false end.

(** For up to [cap] mints, those under way and those to come. *)
Definition room (s : Serving) : nat := size (ms_tasks (sr_mints s)) + total left_of (sr_live s).
Definition burden (cap : nat) (s : Serving) : nat :=
  total left_of (sr_live s) * (4 * cap + 6) + potential cap (ms_tasks (sr_mints s)).

Lemma turn_pos_le x : (turn_pos x <= 8)%nat.
Proof. destruct x; cbn; lia. Qed.

Lemma left_of_bounds sv : (1 <= left_of sv <= 18)%nat.
Proof. unfold left_of. pose proof (turn_pos_le (c_sess (sv_conn sv))). destruct (sv_mint sv); lia. Qed.

Lemma advance_left n m sv c v s :
  sr_live s !! n = Some sv → turned m sv c v s → (total left_of (sr_live (advance n sv m c v s)) < total left_of (sr_live s))%nat.
Proof.
  intros Hn (_ & hs0 & _ & Hv). destruct v; cbn; [|..|done|done].
  - destruct Hv as [_ Hpos]. set (sv' := MkServed (sv_in sv) m c None). pose proof (total_set left_of _ n _ sv' Hn).
    assert (left_of sv' < left_of sv)%nat; [|lia]. pose proof (turn_pos_le (c_sess c)). unfold left_of, sv'. cbn.
    destruct (sv_mint sv); lia.
  - pose proof (total_delete left_of _ n _ Hn). pose proof (left_of_bounds sv). lia.
Qed.

Lemma drop_mint_lighter cap sv w :
  minv gp w → (size (ms_tasks w) <= cap)%nat →
  (potential cap (ms_tasks (drop_mint sv w)) <= potential cap (ms_tasks w))%nat ∧ size (ms_tasks (drop_mint sv w)) = size (ms_tasks w).
Proof.
  intros Hm Hc. unfold drop_mint. destruct (sv_mint sv) as [[t path]|]; [|done].
  destruct (m_step gp (A_drop t) w) as [w'|] eqn:E; [|done]. cbn [default from_option id].
  pose proof (step_potential gp cap (A_drop t) _ _ Hc eq_refl E). pose proof (step_size gp (A_drop t) _ _ Hm eq_refl E). split; [lia|done].
Qed.

Lemma step_burden cap e s s' :
  sinv s → (room s <= cap)%nat → opens e = false → s_step e s = Some s' → (burden cap s' < burden cap s)%nat ∧ (room s' <= room s)%nat.
Proof.
  intros Hs Hcap Ho He. unfold room, burden in *.
  assert (∀ n m sv c v, sr_live s !! n = Some sv → turned m sv c v s → s' = advance n sv m c v s →
    (burden cap s' < burden cap s)%nat ∧ (room s' <= room s)%nat) as Hadv.
  { intros n m sv c v Hn Ht ->. pose proof (advance_left n m sv c v s Hn Ht). unfold burden, room.
    cbn [sr_mints advance]. split; [nia|lia]. }
  destruct e as [n m i|n m t|a|n|n]; [done|..].
  - destruct (turn_cases _ _ _ _ _ Hs He) as (sv & Hn & Hnone & [(c & v & Ht & ->)|(path & w & Hw & ->)]); [by eapply Hadv|].
    destruct (start_potential gp cap _ _ _ _ Hw) as [Hp Hsz].
    set (sv' := MkServed _ _ _ _). pose proof (total_set left_of _ n _ sv' Hn).
    assert (S (left_of sv') = left_of sv) by (unfold left_of, sv'; cbn; rewrite Hnone; pose proof (turn_pos_le (c_sess (sv_conn sv))); lia).
    cbn. split; [nia|lia].
  - cbn in He. destruct (own_step a) eqn:Ea; [|done]. destruct (m_step gp a (sr_mints s)) as [w|] eqn:Hw; [|done]. injection He as <-.
    assert (new_mint a = false) as Hst by (by destruct a). pose proof (step_size gp _ _ _ (sinv_mints _ Hs) Hst Hw).
    pose proof (step_potential gp cap a (sr_mints s) w ltac:(lia) Hst Hw). cbn. split; lia.
  - destruct (resume_cases _ _ _ Hs He) as (sv & c & v & Hn & Ht & ->). by eapply Hadv.
  - cbn -[drop_mint] in He. destruct (sr_live s !! n) as [sv|] eqn:Hn; [|done]. injection He as <-.
    destruct (drop_mint_lighter cap sv (sr_mints s) (sinv_mints _ Hs) ltac:(lia)) as [Hp Hsz].
    pose proof (total_delete left_of _ n _ Hn). pose proof (left_of_bounds sv). cbn [with_mints sr_mints sr_live]. split; [nia|lia].
Qed.

Lemma run_burden cap es s s' :
  sinv s → (room s <= cap)%nat → forallb (λ e, negb (opens e)) es = true → s_run es s = Some s' →
  (length es + burden cap s' <= burden cap s)%nat.
Proof.
  revert s. induction es as [|e es IH]; intros s Hs Hc Ho Hr; [injection Hr as <-; cbn; lia|]. cbn in Ho, Hr |- *.
  apply andb_true_iff in Ho as [Ho Hos]. apply negb_true_iff in Ho. destruct (s_step e s) as [s1|] eqn:E; [|done].
  destruct (step_burden cap e s s1 Hs Hc Ho E) as [Hb Hroom].
  assert (length es + burden cap s' <= burden cap s1)%nat; [|lia]. apply IH; try done; [by eapply sinv_step|lia].
Qed.

(** A connection that is served can go on, or waits for a mint that can. *)
Lemma served_goes_on n sv s :
  sinv s → sr_live s !! n = Some sv →
  match sv_mint sv with
  | None => ∀ m t, ms_tasks (sr_mints s) !! t = None → is_Some (s_step (V_turn n m t) s)
  | Some _ => is_Some (s_step (V_resume n) s) ∨ ∃ a, is_Some (s_step (V_step a) s)
  end.
Proof.
  intros Hs Hn. destruct (sv_mint sv) as [[t path]|] eqn:Hm.
  - destruct (sinv_awaits _ Hs _ _ Hn _ _ Hm) as (x & Hx & Hp). destruct (answer_of x) as [r|] eqn:Hr.
    + left. cbn -[conn_turn env_with]. rewrite Hn. cbn -[conn_turn env_with]. rewrite Hm. cbn -[conn_turn env_with].
      rewrite Hx. cbn -[conn_turn env_with]. rewrite Hr. cbn -[conn_turn env_with]. destruct (conn_turn _ _). by eexists.
    + right. destruct (someone_goes_on gp t x _ (sinv_mints _ Hs) Hx) as (t' & [[w Hw]|[w Hw]]); [by destruct x| |].
      * exists (A_run t'). cbn -[m_step]. rewrite Hw. by eexists.
      * exists (A_answer t'). cbn -[m_step]. rewrite Hw. by eexists.
  - intros m t Ht. cbn -[conn_turn env_with m_step]. rewrite Hn. cbn -[conn_turn env_with m_step]. rewrite Hm.
    destruct (conn_turn _ _) as [c v]. destruct v; try (by eexists). destruct (last (c_mints c)) as [[h path]|]; [|by eexists].
    cbn. rewrite Ht. by eexists.
Qed.

(** ** Turns that are not interrupted *)

(** Tasks on their own. *)
Lemma run_steps k t s w :
  m_run gp (replicate k (A_answer t)) (sr_mints s) = Some w →
  s_run (replicate k (V_step (A_answer t))) s = Some (with_mints w (sr_live s) s).
Proof.
  revert s. induction k as [|k IH]; intros s Hr; [injection Hr as <-; by destruct s|]. cbn -[m_step] in Hr |- *.
  destruct (m_step gp (A_answer t) (sr_mints s)) as [w1|]; [|done]. cbn -[m_step] in Hr |- *. by rewrite (IH (with_mints w1 (sr_live s) s) Hr).
Qed.

Lemma s_run_app es es' s s1 : s_run es s = Some s1 → s_run (es ++ es') s = s_run es' s1.
Proof.
  revert s. induction es as [|e es IH]; intros s Hr; [by injection Hr as <-|]. cbn in Hr |- *.
  destruct (s_step e s) as [s2|]; [|done]. by apply IH.
Qed.

Lemma answering_keeps path r m i st b conn c v :
  conn_turn (env_with (answering path r) m i) (share st b conn) = (c, v) → c_providers c = st.
Proof.
  intros Ht. apply conn_turn_used in Ht as [[->|(pr & Hin & Hu)] _]; [done|]. cbn in Hin. apply list_elem_of_singleton in Hin as ->.
  destruct Hu as [(path' & ->)| ->]; done.
Qed.

(** The task of an uninterrupted mint answers what [mint] returns. *)
Lemma alone_answers t path w :
  minv gp w → ms_tasks w !! t = None → (∀ k ev, memo (gs_repo_ids (ms_state w)) !! k ≠ Some (InFlight ev)) →
  ∃ k w1 w' x r, (k <= 4)%nat ∧ m_step gp (A_mint t path) w = Some w1 ∧ m_run gp (replicate k (A_answer t)) w1 = Some w' ∧
    mint gp path (ms_state w) = (ms_state w', Ret r) ∧ ms_tasks w' !! t = Some x ∧ answer_of x = Some r.
Proof.
  intros Hm Ht Hfree.
  destruct (mint_alone gp t path w Ht ltac:(eauto) ltac:(apply mint_no_panic; eauto)) as (k & w' & Hk & Hrun & r & Hmint & Hx).
  cbn [m_run] in Hrun. destruct (m_step gp (A_mint t path) w) as [w1|]; [|done]. exists k, w1, w'. eexists _, r. split_and!; try done.
  destruct (RepoPath_parse path) as [rp|e] eqn:Ep; [done|]. rewrite mint_eq, Ep in Hmint. by injection Hmint as _ <-.
Qed.

(** The turn that asks, its mint alone, and the answer. *)
Lemma asking_alone n sv m t s c1 c v :
  sinv s → sr_live s !! n = Some sv → sv_mint sv = None → ms_tasks (sr_mints s) !! t = None →
  (∀ k ev, memo (gs_repo_ids (ms_state (sr_mints s))) !! k ≠ Some (InFlight ev)) →
  conn_turn (env_with unanswered (seen m sv) (sv_in sv)) (shared s sv) = (c1, Waiting) →
  conn_turn (env_of (seen m sv) (sv_in sv)) (shared s sv) = (c, v) →
  ∃ k w', (k <= 4)%nat ∧ ms_state w' = c_providers c ∧
    s_run (V_turn n m t :: replicate k (V_step (A_answer t)) ++ [V_resume n]) s =
      Some (advance n sv (seen m sv) c v (with_mints w' (sr_live s) s)).
Proof.
  intros Hs Hn Hnone Ht Hfree Hu Hc. destruct (unanswered_mints _ _ _ _ Hu) as (h & path & Hl).
  destruct (alone_answers t path (sr_mints s) (sinv_mints _ Hs) Ht Hfree) as (k & w1 & w' & x & r & Hk & Hw1 & Hrun & Hmint & Hx & Hr).
  pose proof (replayed_turn _ _ (ms_state (sr_mints s)) (ms_state w') _ _ _ _ _ _ Hu Hl Hmint) as Hsame. fold (shared s sv) in Hsame.
  exists k, w'. split; [done|]. split; [symmetry; eapply (answering_keeps path r); by rewrite Hsame|].
  cbn -[conn_turn env_with m_step]. rewrite Hn. cbn -[conn_turn env_with m_step]. rewrite Hnone, Hu.
  rewrite Hl. cbn -[conn_turn env_with m_step]. rewrite Hw1. cbn -[conn_turn env_with m_step].
  set (sv' := MkServed _ _ _ _). set (s1 := with_mints w1 _ s).
  rewrite (s_run_app _ _ s1 (with_mints w' (sr_live s1) s1)) by (by apply run_steps).
  cbn -[conn_turn env_with m_step]. rewrite lookup_insert_eq. cbn -[conn_turn env_with m_step]. rewrite Hx. cbn -[conn_turn env_with m_step].
  rewrite Hr. cbn -[conn_turn env_with m_step]. unfold shared. cbn [sr_mints with_mints sr_bucket sv_conn sv' s1].
  rewrite Hsame, Hc. f_equal. unfold advance. cbn [with_mints sr_live sr_mints sr_bucket sr_ended sv_in].
  destruct v; rewrite ?insert_insert_eq, ?delete_insert_eq; done.
Qed.

(** C14: One model of the daemon inside the other.  Take any state that
    interleaved connections can reach in which no repository is being looked up,
    and a connection that is not awaiting a mint.  The turn that [Connection] and
    [Daemon] compute for it, running the provider's [mint] to its answer, is a run
    of at most six events here, with the same connection afterwards, the same
    verdict, the same rate limiter and the same state of the provider. *)
Theorem turn_uninterrupted es b s n sv m t c v :
  s_run es (s_init b) = Some s → sr_live s !! n = Some sv → sv_mint sv = None → ms_tasks (sr_mints s) !! t = None →
  (∀ k ev, memo (gs_repo_ids (ms_state (sr_mints s))) !! k ≠ Some (InFlight ev)) →
  conn_turn (env_of (seen m sv) (sv_in sv)) (shared s sv) = (c, v) →
  ∃ more w', (length more <= 5)%nat ∧ ms_state w' = c_providers c ∧
    s_run (V_turn n m t :: more) s = Some (advance n sv (seen m sv) c v (with_mints w' (sr_live s) s)).
Proof.
  intros Hr Hn Hnone Ht Hfree Hc. pose proof (sinv_run _ _ _ (sinv_init b) Hr) as Hs.
  destruct (sinv_conn _ Hs _ _ Hn) as (hs0 & Hhs & Hci). apply (conn_ok_seen m) in Hci.
  destruct (conn_turn (env_with unanswered (seen m sv) (sv_in sv)) (shared s sv)) as [c1 v1] eqn:Hu.
  assert (v1 = Waiting ∨ v1 ≠ Waiting) as [->|Hv] by (destruct v1; auto).
  - destruct (asking_alone n sv m t s c1 c v Hs Hn Hnone Ht Hfree Hu Hc) as (k & w' & Hk & Hp & Hrun).
    exists (replicate k (V_step (A_answer t)) ++ [V_resume n]), w'. split; [|done]. rewrite length_app, length_replicate. cbn. lia.
  - pose proof (unanswered_turn (github_provider gp) _ _ _ _ _ eq_refl Hu Hv) as Hsame. rewrite Hc in Hsame. injection Hsame as <- <-.
    pose proof (unanswered_turn (answering [] (Err G_Cancelled)) _ _ _ _ _ eq_refl Hu Hv) as Hans.
    apply (minting_turn _ _ _ _ hs0) in Hans as [Hp Hres]; [|done|done].
    exists [], (sr_mints s). split; [cbn; lia|]. split; [done|]. cbn -[conn_turn env_with m_step]. rewrite Hn. cbn -[conn_turn env_with m_step].
    rewrite Hnone, Hu. destruct s. by destruct v.
Qed.

(** C7: Connections served at the same time, each with its own credential.  Any
    number of connections take their turns in any order, over tables that change
    between the turns, and mints of the same and of other repositories are
    suspended, answered and cut off in between.  A connection that has ended ended
    by itself: it asked for at most one mint, for the path of the request that an
    authorised client encrypted in its session; and if it reports a mint, the
    second frame it wrote is the encryption in that session of a token GitHub
    issued for that path, whoever looked up its id and whoever cached the token. *)
Theorem connections_interleaved es b s n sv v :
  s_run es (s_init b) = Some s → (n, sv, v) ∈ sr_ended s →
  v = Return ∧
  ∃ hs0, responder_hs (ci_seed (sv_in sv)) (priv_bytes broker_key) = Ok hs0 ∧
    cpost scoped (env_of (sv_mem sv) (sv_in sv)) hs0 (ci_wire (sv_in sv))
      (share (ms_state (sr_mints s)) (c_bucket (sv_conn sv)) (sv_conn sv)).
Proof. intros Hr Hin. by apply (sinv_ended _ (sinv_run _ _ _ (sinv_init b) Hr)) in Hin. Qed.

(** C12: No connection hangs on another.  From any state that interleaved
    connections can reach, with [c] the number of mints plus eighteen times the
    number of connections, at most [c (4 c + 6)] events are left unless new
    connections are accepted; and each connection that has not ended can take its
    next turn, or be handed the answer it waits for, or some mint can take a
    step, though the lookup it waits for may belong to a connection that has
    been cut off. *)
Theorem connections_settle es b s :
  s_run es (s_init b) = Some s →
  (∀ more s', forallb (λ e, negb (opens e)) more = true → s_run more s = Some s' →
     let c := (size (ms_tasks (sr_mints s)) + 18 * size (sr_live s))%nat in (length more <= c * (4 * c + 6))%nat) ∧
  ∀ n sv, sr_live s !! n = Some sv →
    match sv_mint sv with
    | None => ∀ m t, ms_tasks (sr_mints s) !! t = None → is_Some (s_step (V_turn n m t) s)
    | Some _ => is_Some (s_step (V_resume n) s) ∨ ∃ a, is_Some (s_step (V_step a) s)
    end.
Proof.
  intros Hr. pose proof (sinv_run _ _ _ (sinv_init b) Hr) as Hs. split; [|intros n sv; by apply served_goes_on].
  intros more s' Ho Hm c. pose proof (total_le left_of 18 (sr_live s) (λ sv, proj2 (left_of_bounds sv))) as Hl.
  pose proof (run_burden c more s s' Hs ltac:(unfold room; lia) Ho Hm) as Hb. unfold burden in Hb at 2.
  pose proof (potential_le c (ms_tasks (sr_mints s))). nia.
Qed.

End concurrent.

(** ** Witnesses

    Two connections of one client ask for the same repository; the second waits
    for the lookup of the first and is answered before it. *)

Abbreviation turns k n := (replicate k (V_turn n demo_tables n)).
Definition both_ask : list SEvent := [V_open 0 demo_tables life_in; V_open 1 demo_tables life_in] ++ turns 7 0 ++ turns 7 1.
Definition both_served : list SEvent :=
  (V_step <$> two_go_on) ++ [V_resume 1] ++ turns 2 1 ++ [V_resume 0] ++ turns 2 0.
(** The first is cut off while it looks the repository up. *)
Definition first_cut : list SEvent :=
  [V_cut 0; V_step (A_run 1); V_step (A_answer 1); V_resume 1].

Abbreviation demo_serve := (@s_run noise_model github_model demo_text demo_key demo_provider).
Abbreviation DemoServing := (@Serving noise_model github_model).
Definition served_by (es : list SEvent) (s : DemoServing) : bool := match demo_serve es s with Some _ => true | None => false end.
Lemma served_by_true es s : served_by es s = true → demo_serve es s = Some (default s (demo_serve es s)).
Proof. unfold served_by. by destruct (demo_serve es s). Qed.

Definition serving0 : DemoServing := s_init conn_bucket.
Definition serving1 : DemoServing := default serving0 (demo_serve both_ask serving0).
Definition serving2 : DemoServing := default serving0 (demo_serve (both_ask ++ both_served) serving0).

Lemma serving1_ran : served_by both_ask serving0 = true.
Proof. vm_compute. reflexivity. Qed.
Lemma serving2_ran : served_by (both_ask ++ both_served) serving0 = true.
Proof. vm_compute. reflexivity. Qed.
Lemma first_cut_ran : served_by first_cut serving1 = true.
Proof. vm_compute. reflexivity. Qed.

(** The connections that ended, in order, and whether they report a mint. *)
Definition outcomes_of (l : list (nat * @Served noise_model * Verdict)) : list (nat * bool) :=
  (λ '(n, sv, _), (n, reported_mint (sv_conn sv))) <$> l.
Lemma serving2_outcomes : outcomes_of (sr_ended serving2) = [(1, true); (0, true)]%nat.
Proof. vm_compute. reflexivity. Qed.

Lemma first_outcome l n :
  outcomes_of l !! 0%nat = Some (n, true) → ∃ sv v, (n, sv, v) ∈ l ∧ ∃ e, e ∈ c_log (sv_conn sv) ∧ ev_kind e = Ev_Mint.
Proof.
  destruct l as [|[[n' sv] v] l]; [done|]. cbn. intros [= -> Hm]. exists sv, v. split; [by left|].
  apply existsb_exists in Hm as (e & Hin & Hk). exists e. split; [by apply list_elem_of_In|]. by destruct (ev_kind e).
Qed.

Lemma connections_interleaved_witness :
  ∃ sv hs0 out1 out2, (1%nat, sv, Return) ∈ sr_ended serving2 ∧
    @minted_ok noise_model () GState (@scoped_credential github_model demo_provider)
      (@env_with github_model demo_key (@github_provider github_model demo_provider) (sv_mem sv) (sv_in sv)) hs0
      (ci_wire (sv_in sv)) (share (ms_state (sr_mints serving2)) (c_bucket (sv_conn sv)) (sv_conn sv)) out1 out2.
Proof.
  destruct (first_outcome (sr_ended serving2) 1) as (sv & v & Hs & He); [by rewrite serving2_outcomes|].
  destruct (@connections_interleaved noise_model github_model demo_text demo_key demo_provider (both_ask ++ both_served) conn_bucket serving2
    1 sv v (served_by_true _ _ serving2_ran) Hs) as (Hv & hs0 & _ & Hpost).
  destruct (cpost_minted _ _ _ _ _ Hpost He) as (out1 & out2 & _ & Hm). rewrite Hv in Hs.
  exists sv, hs0, out1, out2. split; [exact Hs|exact Hm].
Defined.

Lemma connections_settle_witness : (length first_cut <= 38 * (4 * 38 + 6))%nat.
Proof.
  destruct (@connections_settle noise_model github_model demo_text demo_key demo_provider both_ask conn_bucket serving1
    (served_by_true _ _ serving1_ran)) as [H _].
  exact (H first_cut _ eq_refl (served_by_true _ _ first_cut_ran)).
Defined.

(** One connection comes to its request, and its mint is not interleaved. *)
Definition one_asks : list SEvent := [V_open 0 demo_tables life_in] ++ turns 6 0.
Definition serving3 : DemoServing := default serving0 (demo_serve one_asks serving0).
Lemma serving3_ran : served_by one_asks serving0 = true.
Proof. vm_compute. reflexivity. Qed.

Definition is_live (s : DemoServing) (n : nat) : bool :=
  match sr_live s !! n with Some (MkServed _ _ _ None) => true | _ => false end.
Lemma is_live_true s n : is_live s n = true → ∃ sv, sr_live s !! n = Some sv ∧ sv_mint sv = None.
Proof. unfold is_live. destruct (sr_live s !! n) as [[i m c []]|]; try done. intros _. by eexists. Qed.
Lemma serving3_live : is_live serving3 0 = true.
Proof. vm_compute. reflexivity. Qed.

Definition nothing_pending (s : DemoServing) (t : nat) : bool :=
  match ms_tasks (sr_mints s) !! t, map_to_list (memo (gs_repo_ids (ms_state (sr_mints s)))) with None, [] => true | _, _ => false end.
Lemma nothing_pending_true s t :
  nothing_pending s t = true → ms_tasks (sr_mints s) !! t = None ∧ ∀ k ev, memo (gs_repo_ids (ms_state (sr_mints s))) !! k ≠ Some (InFlight ev).
Proof.
  unfold nothing_pending. destruct (ms_tasks (sr_mints s) !! t); [done|]. destruct (map_to_list _) eqn:E; [|done]. intros _. split; [done|].
  apply map_to_list_empty_iff in E. intros k ev. by rewrite E, lookup_empty.
Qed.
Lemma serving3_nothing_pending : nothing_pending serving3 0 = true.
Proof. vm_compute. reflexivity. Qed.

Lemma turn_uninterrupted_witness :
  ∃ more s', (length more <= 5)%nat ∧ demo_serve (V_turn 0 demo_tables 0 :: more) serving3 = Some s'.
Proof.
  destruct (is_live_true _ _ serving3_live) as (sv & Hn & Hnone).
  destruct (@conn_turn noise_model () GState demo_text (@env_with github_model demo_key (@github_provider github_model demo_provider) (seen demo_tables sv) (sv_in sv))
    (shared serving3 sv)) as [c v] eqn:Ec.
  destruct (@turn_uninterrupted noise_model github_model demo_text demo_key demo_provider one_asks conn_bucket serving3 0 sv demo_tables 0 c v
    (served_by_true _ _ serving3_ran) Hn Hnone) as (more & w' & Hl & _ & Hr).
  - exact (proj1 (nothing_pending_true _ _ serving3_nothing_pending)).
  - exact (proj2 (nothing_pending_true _ _ serving3_nothing_pending)).
  - exact Ec.
  - eexists _, _. split; [exact Hl|exact Hr].
Defined.
