(* ===== verification/Logging.v ===== *)
(** * What is logged: [src/logging.rs] and the texts of errors

    The two output streams of [setup_tracing], the rendering of an error with
    its causes by [ErrorChain], and the messages and causes of the provider's
    error types. *)

From S2P Require Import Prelude Identity Psk GitCredential Transport RateLimit AtomicFs Config State Signing Github Events Connection Broker Admin.

(** ** [setup_tracing] *)

Inductive Stream := Stdout | Stderr.

#[export] Instance Stream_eq_dec : EqDecision Stream.
Proof. solve_decision. Defined.

#[export] Instance Level_eq_dec : EqDecision Level.
Proof. solve_decision. Defined.

(** [LevelFilter]: [Error] passes every filter, [Trace] only [Trace]. *)
Definition level_rank (l : Level) : Z :=
  match l with Error => 1 | Warn => 2 | Info => 3 | Debug => 4 | Trace => 5 end.
Definition level_filter (level l : Level) : bool := level_rank l <=? level_rank level.

Definition stdout_layer (l : Level) : bool := negb (bool_decide (l = Warn) || bool_decide (l = Error)).
Definition stderr_layer (l : Level) : bool := bool_decide (l = Warn) || bool_decide (l = Error).

(** The streams a record of level [l] is written to. *)
Definition setup_tracing (level l : Level) : list Stream :=
  if level_filter level l
  then (if stdout_layer l then [Stdout] else []) ++ (if stderr_layer l then [Stderr] else [])
  else [].

Definition severity_level (s : Severity) : Level :=
  match s with Sev_info => Info | Sev_warn => Warn | Sev_error => Error end.

(** What a log leaves on a stream. *)
Definition on_stream (level : Level) (st : Stream) (log : list Event) : list Event :=
  filter (λ e, st ∈ setup_tracing level (severity_level (ev_level e))) log.

(** Every record goes to exactly one stream, warnings and errors to stderr, or
    is below the configured level. *)
Lemma setup_tracing_spec level l :
  setup_tracing level l =
    if level_filter level l then [match l with Warn | Error => Stderr | _ => Stdout end] else [].
Proof. by destruct level, l. Qed.

(** ** [ErrorChain] *)

(** [std::error::Error]: the text of [Display] and the [source]. *)
Inductive ErrorNode := Err_root (text : bytes) | Err_caused (text : bytes) (source : ErrorNode).

Definition node_text (e : ErrorNode) : bytes := match e with Err_root t => t | Err_caused t _ => t end.

(** The loop over [source()]. *)
Fixpoint chain_sources (e : ErrorNode) : bytes :=
  match e with
  | Err_root _ => []
  | Err_caused _ s => B ": " ++ node_text s ++ chain_sources s
  end.

Definition ErrorChain_display (e : ErrorNode) : bytes := node_text e ++ chain_sources e.

Fixpoint node_texts (e : ErrorNode) : list bytes :=
  match e with
  | Err_root t => [t]
  | Err_caused t s => t :: node_texts s
  end.

(** ** The errors of the provider *)

(** [Display] of values of other crates: durations ([Debug]) and HTTP errors
    with their own causes. *)
Class ErrorText (H : Type) := { show_duration : Z → bytes; http_node : H → ErrorNode }.

Section errors.
Context {H : Type} {ET : ErrorText H}.

Definition JwtBackendError_node (e : JwtBackendError) : ErrorNode :=
  Err_root (match e with
               | JB_BackendDead => B "signing backend is no longer running"
               | JB_Io s => B "signing backend I/O failed: " ++ s
               | JB_Protocol s => B "signing backend protocol error: " ++ s
               | JB_Rejected s => B "signing backend rejected the request: " ++ s
               | JB_Backend s => B "signing backend error: " ++ s
               | JB_Construct s => B "backend construction failed: " ++ s
               end).

Definition GithubError_node (e : GithubError H) : ErrorNode :=
  match e with
  | G_JwtSign e => Err_caused (B "failed to sign App JWT") (JwtBackendError_node e)
  | G_Http e => Err_caused (B "HTTP transport error") (http_node e)
  | G_ParseResponse context detail =>
      Err_root (B "malformed response from " ++ context ++ B " (" ++ detail ++ B ")")
  | G_MalformedPath p => Err_root (B "malformed owner/repo path: " ++ p)
  | G_Unauthorized body => Err_root (B "unauthorized (401): " ++ body)
  | G_Forbidden body => Err_root (B "forbidden (403): " ++ body)
  | G_RepoNotFound => Err_root (B "repository not found or App lacks access")
  | G_RateLimited _ => Err_root (B "rate limited (429)")
  | G_OtherStatus status => Err_root (B "provider returned status " ++ show_u64 status)
  | G_ClientIdMismatch configured reported =>
      Err_root (B "Client ID mismatch: configured " ++ configured ++ B ", GitHub reports " ++ reported)
  | G_Timeout d => Err_root (B "provider request timed out after " ++ show_duration d)
  | G_Cancelled => Err_root (B "provider request cancelled (daemon shutting down)")
  end.

Definition ProviderError_node (e : ProviderError H) : ErrorNode :=
  match e with
  | PE_Transport e => Err_caused (B "transport error") (http_node e)
  | PE_Unauthorized body => Err_root (B "unauthorized: " ++ body)
  | PE_Forbidden body => Err_root (B "forbidden: " ++ body)
  | PE_RepoNotFound => Err_root (B "repository not found or credential lacks access")
  | PE_RateLimited _ => Err_root (B "rate limited")
  | PE_UnexpectedStatus status => Err_root (B "provider returned unexpected status " ++ show_u64 status)
  | PE_MalformedPath p => Err_root (B "malformed repository path: " ++ p)
  | PE_MalformedResponse context detail =>
      Err_root (B "malformed response from " ++ context ++ B " (" ++ detail ++ B ")")
  | PE_Timeout elapsed => Err_root (B "provider request timed out after " ++ show_duration elapsed)
  | PE_Cancelled => Err_root (B "provider request cancelled (daemon shutting down)")
  | PE_Internal e => Err_caused (B "internal provider error") (GithubError_node e)
  end.

(** [From<ProviderError> for ErrorResponse] *)
Definition ErrorResponse_from_provider (e : ProviderError H) : ErrorResponse :=
  MkErrorResponse (ErrorChain_display (ProviderError_node e)).

End errors.

(** The chain is the texts of the error and its causes, outermost first, with
    a colon and a space in between. *)
Lemma ErrorChain_joined e :
  ErrorChain_display e = node_text e ++ concat ((λ t, B ": " ++ t) <$> tail (node_texts e)).
Proof.
  unfold ErrorChain_display. f_equal. induction e as [t|t s IH]; cbn [chain_sources node_texts tail]; [done|].
  rewrite IH. destruct s as [ts|ts ss]; cbn; by rewrite ?app_nil_r, <-?(assoc_L (++)).
Qed.

(** A reply with a token in it cannot show up in an error: whatever the body of
    a successful mint reply, the text of the error it is rejected with is one of
    these. *)
Lemma mint_parse_error_static {GE : GithubEnv} {ET : ErrorText HttpError} body e :
  parse_mint_response body = Err e →
  ErrorChain_display (ProviderError_node (ProviderError_from e)) ∈
    [B "malformed response from mint (json)"; B "malformed response from mint (bad expires_at)"].
Proof.
  unfold parse_mint_response. destruct (mint_of_json body) as [[token exp]|]; cbn.
  - destruct (rfc3339_unix exp) as [t|]; cbn; [destruct (t <? 0); cbn; [|done]|]; intros [= <-]; by right; left.
  - intros [= <-]. by left.
Qed.

(** The texts the daemon logs: provider errors with all their causes. *)
Definition chained_text {NZ : Noise} {H} {ET : ErrorText H} (session : SessionError → bytes) (credential : GitCredentialError → bytes) :
    LogText H := {|
  show_session_error := session;
  show_credential_error := credential;
  show_provider_error e := ErrorChain_display (ProviderError_node e);
|}.

(** ** An example *)

(** The streams of a run that mints and of one that is refused, at [info] and
    at [warn]. *)
Lemma demo_streams :
  length (on_stream Info Stdout (c_log demo_conn)) = 2%nat ∧ on_stream Info Stderr (c_log demo_conn) = [] ∧
  on_stream Warn Stdout (c_log demo_conn) = [].
Proof. vm_compute. split_and!; reflexivity. Qed.
