(* ===== verification/TokenLog.v ===== *)
(** * The log of a mint, and the token that is not in it

    The events the GitHub provider logs itself ([token_cache_hit],
    [provider_call] and [provider_call_done] of [src/providers/github.rs]),
    beside those of the connection, and the proof that no event depends on the
    text of a token: two GitHubs that answer alike but for the tokens they issue
    leave the same log. *)

From S2P Require Import Prelude Identity Psk GitCredential Transport RateLimit TtlCache Singleflight AtomicFs Config State Signing Github Events Connection Broker Admin Logging.

(** ** The provider's own events *)

(** [u64::try_from(d.as_millis()).unwrap_or(u64::MAX)] *)
Definition millis_u64 (d : Z) : Z := Z.min u64_max (d / 1000000).

Section provider_log.
Context {GE : GithubEnv} {ET : ErrorText HttpError}.
(** How long call [n] took. *)
Context (elapsed : nat → Z).

Definition provider_call_done (n : nat) (raced : result (GithubError HttpError) CallMeta) : Event :=
  log_info Ev_ProviderCallDone
    match raced with
    | Ok meta => [(B "status", show_u64 (cm_status meta)); (B "provider_req_id", default [] (cm_provider_req_id meta));
                  (B "elapsed_ms", show_u64 (millis_u64 (elapsed n)))]
    | Err e => [(B "status", show_u64 0); (B "provider_req_id", []); (B "elapsed_ms", show_u64 (millis_u64 (elapsed n)));
                (B "error", node_text (GithubError_node e))]
    end.

(** The events of [run_call].  How the race ended is what [run_call] returns
    with a [handle] that hands over the [CallMeta]. *)
Definition run_call_log (p : GitHubProvider) (endpoint : bytes) (timeout : Z) (build : G HttpRequest) (s : GState) : list Event :=
  log_info Ev_ProviderCall [(B "endpoint", endpoint); (B "provider", gp_api_base p); (B "timeout_ms", show_u64 (millis_u64 timeout))] ::
  match (run_call endpoint timeout build (λ _ meta _, Ok meta) s).2 with
  | Ret raced => [provider_call_done (length (gs_calls s)) raced]
  | _ => []
  end.

Definition metadata_log (p : GitHubProvider) : GState → list Event :=
  run_call_log p (B "mint_metadata_token") (gp_request_timeout p) (mint_build p metadata_body).
Definition resolve_log (p : GitHubProvider) (token : bytes) (rp : RepoPath) : GState → list Event :=
  run_call_log p (B "resolve_repo_id") (gp_request_timeout p) (bearer_build p GET (repo_url p (owner rp) (repo rp)) token).
Definition revoke_log (p : GitHubProvider) (token : bytes) : GState → list Event :=
  run_call_log p (B "revoke_install_token") (gp_request_timeout p) (bearer_build p DELETE (installation_token_url p) token).
Definition token_log (p : GitHubProvider) (id : Z) : GState → list Event :=
  run_call_log p (B "mint_token") (gp_request_timeout p) (mint_build p (mint_body id)).

(** The lookup of a repository under its metadata token. *)
Definition lookup_log (p : GitHubProvider) (rp : RepoPath) (s : GState) : list Event :=
  metadata_log p s ++
  match mint_metadata_token p s with
  | (s, Ret (Ok (token, _))) =>
      resolve_log p token rp s ++
      match resolve_repo_id p token (owner rp) (repo rp) s with
      | (s, Ret _) => revoke_log p token s
      | _ => []
      end
  | _ => []
  end.

Definition repo_ids_log (p : GitHubProvider) (rp : RepoPath) (s : GState) : list Event :=
  let '(st, c) := claim (gs_repo_ids s) (mint_key rp) in
  match c with
  | Claim_Resolve _ => lookup_log p rp (gs_with_repo_ids s st)
  | _ => []
  end.

Definition resolve_repo (p : GitHubProvider) (rp : RepoPath) : G Z :=
  repo_ids_with (mint_key rp) (with_metadata_token p (λ token, resolve_repo_id p token (owner rp) (repo rp))).

(** The events of [mint]. *)
Definition Provider_mint_log (p : GitHubProvider) (path : bytes) (s : GState) : list Event :=
  match RepoPath_parse (H:=HttpError) path with
  | Err _ => []
  | Ok rp =>
      match token_cache_get (mint_key rp) s with
      | (s, Ret (Ok (Some (token, expires_at)))) =>
          match mint_cached token expires_at s with
          | (_, Ret _) => [log_info Ev_TokenCacheHit [(B "provider", gp_host p); (B "repo", mint_key rp)]]
          | _ => []
          end
      | (s, Ret (Ok None)) =>
          repo_ids_log p rp s ++
          match resolve_repo p rp s with
          | (s, Ret (Ok id)) => token_log p id s
          | _ => []
          end
      | _ => []
      end
  end.

Definition Provider_selfcheck_log (p : GitHubProvider) (s : GState) : list Event :=
  run_call_log p (B "selfcheck") (gp_selfcheck_timeout p) (selfcheck_build p) (gs_tick s).

(** The provider with its log beside its state. *)
Definition logged_provider (p : GitHubProvider) : @Provider HttpError (GState * list Event) :=
  MkProvider (gp_host p)
    (λ path '(s, l), let '(s', o) := Provider_mint p path s in ((s', l ++ Provider_mint_log p path s), o))
    (λ '(s, l), let '(s', o) := Provider_selfcheck p s in ((s', l ++ Provider_selfcheck_log p s), o)).

End provider_log.

(** ** Another GitHub, with other tokens *)

Section retoken.
Context {GE : GithubEnv} {ET : ErrorText HttpError} (elapsed : nat → Z) (f : bytes → bytes).

(** The same answers to the same calls, but each token [t] is [f t] instead. *)
Definition retoken_env : GithubEnv := {|
  HttpError := HttpError;
  ge_sign := ge_sign; ge_fate := ge_fate; ge_out_req_id := ge_out_req_id; ge_clock := ge_clock;
  url_error := url_error; header_error := header_error; url_host := url_host; client_build := client_build;
  header_to_str := header_to_str; envelope_of_json := envelope_of_json; app_of_json := app_of_json; repo_of_json := repo_of_json;
  mint_of_json body := prod_map f id <$> mint_of_json body;
  rfc3339_unix := rfc3339_unix; rfc2822_unix := rfc2822_unix;
|}.

(** A replacement that the checks on a token cannot tell from it: it fits in a
    header or not, it has control bytes or not, and its length is the same. *)
Record opaque : Prop := {
  opaque_len t : len (f t) = len t;
  opaque_header t : header_error (B "Bearer " ++ f t) = header_error (B "Bearer " ++ t);
  opaque_field t : Response_check_field (B "password") (f t) = Response_check_field (B "password") t;
}.

Definition retoken_cache (c : @TtlCache bytes bytes _ _) : @TtlCache bytes bytes _ _ :=
  MkTtlCache (prod_map f id <$> ttl_entries c) (expirations c).
Definition retoken_state (s : GState) : GState := MkGState (gs_repo_ids s) (retoken_cache (gs_tokens s)) (gs_calls s) (gs_ticks s).

(** The states of the two providers: the calls differ in the bearer tokens. *)
Record twin (s s' : GState) : Prop := {
  twin_ids : gs_repo_ids s' = gs_repo_ids s;
  twin_tokens : gs_tokens s' = retoken_cache (gs_tokens s);
  twin_calls : length (gs_calls s') = length (gs_calls s);
  twin_ticks : gs_ticks s' = gs_ticks s;
}.

Lemma twin_retoken s : twin s (retoken_state s).
Proof. done. Qed.

(** Results that agree up to [Q], errors included. *)
Definition res_pair {A} (Q : A → A → Prop) (r r' : result (GithubError HttpError) A) : Prop :=
  match r, r' with Ok a, Ok a' => Q a a' | Err e, Err e' => e' = e | _, _ => False end.
Definition out_pair {A} (Q : A → A → Prop) (o o' : outcome (result (GithubError HttpError) A)) : Prop :=
  match o, o' with Ret r, Ret r' => res_pair Q r r' | Panic, Panic | Blocked, Blocked => True | _, _ => False end.

Definition sim {A} (Q : A → A → Prop) (m : @G GE A) (m' : @G retoken_env A) : Prop :=
  ∀ s s', twin s s' → twin (m s).1 (m' s').1 ∧ out_pair Q (m s).2 (m' s').2.

Lemma sim_lift {A} (Q : A → A → Prop) r r' : res_pair Q r r' → sim Q (g_lift r) (@g_lift retoken_env A r').
Proof. intros Hr s s' Hs. by split. Qed.

Lemma sim_bind {A C} (Q : A → A → Prop) (Q' : C → C → Prop) m m' k k' :
  sim Q m m' → (∀ a a', Q a a' → sim Q' (k a) (k' a')) → sim Q' (g_bind m k) (@g_bind retoken_env A C m' k').
Proof.
  intros Hm Hk s s' Hs. unfold g_bind. destruct (Hm s s' Hs) as [H1 H2]. destruct (m s) as [s1 o], (m' s') as [s1' o']. cbn in *.
  destruct o as [[a|e]| |], o' as [[a'|e']| |]; cbn in H2; try done. by apply Hk.
Qed.

Lemma sim_clock : sim eq clock_now (@clock_now retoken_env).
Proof. intros s s' [H1 H2 H3 H4]. split; [split; cbn; congruence|]. cbn. by rewrite H4. Qed.

Lemma sim_impl {A} (Q Q' : A → A → Prop) m m' : (∀ a a', Q a a' → Q' a a') → sim Q m m' → sim Q' m m'.
Proof.
  intros HQ Hm s s' Hs. destruct (Hm s s' Hs) as [H1 H2]. split; [done|]. destruct (m s).2 as [[]| |], (m' s').2 as [[]| |]; cbn in *; auto.
Qed.

(** Requests that were both built. *)
Abbreviation built := (λ _ _ : HttpRequest, True).

Lemma pair_bind {A C} (Q : A → A → Prop) (Q' : C → C → Prop) r r' (k k' : A → result (GithubError HttpError) C) :
  res_pair Q r r' → (∀ a a', Q a a' → res_pair Q' (k a) (k' a')) → res_pair Q' (r ≫= k) (r' ≫= k').
Proof. destruct r, r'; cbn; intros; subst; auto; done. Qed.

Lemma pair_new_request m url : res_pair built (new_request m url) (@new_request retoken_env m url).
Proof. unfold new_request. cbn. by destruct (url_error url). Qed.

Lemma pair_add_header name v v' req req' :
  header_error v' = header_error v → res_pair built (add_header name v req) (@add_header retoken_env name v' req').
Proof. intros Hv. unfold add_header. cbn. rewrite Hv. by destruct (header_error v). Qed.

Lemma pair_standard_headers p req req' b b' :
  header_error (B "Bearer " ++ b') = header_error (B "Bearer " ++ b) →
  res_pair built (apply_standard_headers p req b) (@apply_standard_headers retoken_env p req' b').
Proof.
  intros Hb. unfold apply_standard_headers. eapply pair_bind; [by apply pair_add_header|]. intros r1 r1' _.
  eapply pair_bind; [by apply pair_add_header|]. intros r2 r2' _. eapply pair_bind; [by apply pair_add_header|]. intros r3 r3' _.
  by apply pair_add_header.
Qed.

Lemma sim_sign p : sim eq (sign_jwt_now p) (@sign_jwt_now retoken_env p).
Proof.
  eapply sim_bind; [exact sim_clock|]. intros now _ <- s s' Hs. cbn. rewrite (twin_calls _ _ Hs). split; [done|].
  by destruct (ge_sign _ _).
Qed.

Lemma sim_mint_build p body : sim built (mint_build p body) (@mint_build retoken_env p body).
Proof.
  eapply sim_bind; [apply sim_sign|]. intros jwt _ <-. apply sim_lift. eapply pair_bind; [apply pair_new_request|]. intros r r' _.
  eapply pair_bind; [by apply pair_standard_headers|]. intros r1 r1' _. eapply pair_bind; [by apply pair_add_header|]. done.
Qed.

Lemma sim_selfcheck_build p : sim built (selfcheck_build p) (@selfcheck_build retoken_env p).
Proof.
  eapply sim_bind; [apply sim_sign|]. intros jwt _ <-. apply sim_lift. eapply pair_bind; [apply pair_new_request|]. intros r r' _.
  by apply pair_standard_headers.
Qed.

Lemma sim_bearer p m url b b' :
  header_error (B "Bearer " ++ b') = header_error (B "Bearer " ++ b) →
  sim built (bearer_build p m url b) (@bearer_build retoken_env p m url b').
Proof.
  intros Hb. apply sim_lift. eapply pair_bind; [apply pair_new_request|]. intros r r' _. by apply pair_standard_headers.
Qed.

Lemma twin_record s s' c c' : twin s s' → twin (gs_record s c) (gs_record s' c').
Proof. intros [H1 H2 H3 H4]. split; cbn; [done..| |done]. by rewrite !length_app, H3. Qed.

Lemma sim_run_call {T} (Q : T → T → Prop) ep timeout build build' handle handle' :
  sim built build build' → (∀ r meta x, res_pair Q (handle r meta x) (handle' r meta x)) →
  sim Q (run_call ep timeout build handle) (@run_call retoken_env T ep timeout build' handle').
Proof.
  intros Hb Hh s s' Hs. unfold run_call. cbn [ge_fate ge_out_req_id retoken_env]. rewrite (twin_calls _ _ Hs).
  set (n := length (gs_calls s)). destruct (Hb s s' Hs) as [H1 H2]. destruct (build s) as [s1 o], (build' s') as [s1' o']. cbn [fst snd] in H1, H2.
  assert (∀ q q' : result (GithubError HttpError) HttpRequest, res_pair built q q' → ∀ res res' : result (GithubError HttpError) T,
    res_pair Q res res' →
    let send s1 (q : result (GithubError HttpError) HttpRequest) (res : result (GithubError HttpError) T) :=
      match q with
      | Ok req => (gs_record s1 (MkCallRecord ep (Some req)), Ret res)
      | Err e => (gs_record s1 (MkCallRecord ep None), Ret (Err e))
      end in
    twin (send s1 q res).1 (send s1' q' res').1 ∧ out_pair Q (send s1 q res).2 (send s1' q' res').2) as Hsend.
  { intros q q' Hq res res' Hres. destruct q, q'; cbn in Hq |- *; try done; (split; [by apply twin_record|done]). }
  assert (∀ r r' : result (GithubError HttpError) HttpRequest, res_pair built r r' →
    res_pair built (req ← r; req ← add_header X_REQUEST_ID_HEADER (ge_out_req_id n) req;
      add_header REQUEST_TIMEOUT_HEADER (show_u64 (as_secs timeout)) req)
    (req ← r'; req ← @add_header retoken_env X_REQUEST_ID_HEADER (ge_out_req_id n) req;
      @add_header retoken_env REQUEST_TIMEOUT_HEADER (show_u64 (as_secs timeout)) req)) as Hreq.
  { intros r r' Hr. eapply pair_bind; [exact Hr|]. intros a a' _. eapply pair_bind; [by apply pair_add_header|]. intros c c' _.
    by apply pair_add_header. }
  destruct (ge_fate n) as [[]|[]|e|resp]; cbn [fst snd]; try (by split; [apply twin_record|]);
    (destruct o as [r| |], o' as [r'| |]; cbn [out_pair] in H2; try done; apply (Hsend _ _ (Hreq _ _ H2)); first [done|apply Hh]).
Qed.

(** ** The endpoints *)

Lemma res_pair_refl {A} (r : result (GithubError HttpError) A) : res_pair eq r r.
Proof. by destruct r. Qed.

Lemma run_call_log_twin p ep timeout build build' s s' :
  sim built build build' → twin s s' →
  @run_call_log retoken_env ET elapsed p ep timeout build' s' = run_call_log elapsed p ep timeout build s.
Proof.
  intros Hb Hs. unfold run_call_log. refine (f_equal (cons _) _).
  rewrite (twin_calls _ _ Hs). set (o := (run_call ep timeout build _ s).2). set (o' := (@run_call retoken_env _ ep timeout build' _ s').2).
  assert (out_pair eq o o') as Ho by exact (proj2 (sim_run_call eq ep timeout build build' (λ _ meta _, Ok meta) (λ _ meta _, Ok meta)
    Hb (λ _ _ _, eq_refl) s s' Hs)).
  clearbody o o'. by destruct o as [[m|e]| |], o' as [[m'|e']| |]; cbn in Ho; subst.
Qed.

Definition token_pair (x x' : bytes * Z) : Prop := x' = (f x.1, x.2).
Definition retoken_response (r : Response) : Response := MkResponse (username r) (f (password r)) (password_expiry_utc r).
Definition outcome_pair (out out' : MintOutcome) : Prop :=
  out' = MkMintOutcome (retoken_response (mo_response out)) (mo_out_req_id out) (mo_provider_req_id out).

Lemma pair_parse body : res_pair token_pair (parse_mint_response body) (@parse_mint_response retoken_env body).
Proof.
  unfold parse_mint_response. cbn [mint_of_json rfc3339_unix retoken_env]. destruct (mint_of_json body) as [[token exp]|]; cbn; [|done].
  destruct (rfc3339_unix exp) as [t|]; cbn; [|done]. by destruct (t <? 0).
Qed.

Lemma pair_metadata resp meta x : res_pair token_pair (metadata_handle resp meta x) (@metadata_handle retoken_env resp meta x).
Proof.
  unfold metadata_handle. eapply (pair_bind eq); [apply res_pair_refl|]. intros body _ <-. destruct (cm_status meta =? 201); [apply pair_parse|done].
Qed.

Section opaque.
Context (Hf : opaque).

Lemma response_opaque u t e :
  match Response_new u t e, Response_new u (f t) e with
  | Ok r, Ok r' => r' = retoken_response r
  | Err _, Err _ => True
  | _, _ => False
  end.
Proof.
  unfold Response_new. destruct (Response_check_field _ u); cbn; [|done]. rewrite (opaque_field Hf).
  destruct (Response_check_field _ t); cbn; [|done]. by destruct (e <? 0).
Qed.

Lemma pair_token resp meta x : res_pair outcome_pair (token_handle resp meta x) (@token_handle retoken_env resp meta x).
Proof.
  unfold token_handle. eapply (pair_bind eq); [apply res_pair_refl|]. intros body _ <-.
  destruct (cm_status meta =? 201); [|by destruct (cm_status meta =? 404)].
  eapply pair_bind; [apply pair_parse|]. intros [t e] _ ->. cbn [fst snd]. pose proof (response_opaque (B "x-access-token") t e) as Hr.
  by destruct (Response_new _ t e), (Response_new _ (f t) e); cbn in *; subst.
Qed.

Lemma sim_metadata p : sim token_pair (mint_metadata_token p) (@mint_metadata_token retoken_env p).
Proof. apply sim_run_call; [apply sim_mint_build|apply pair_metadata]. Qed.

Lemma sim_resolve p token o r : sim eq (resolve_repo_id p token o r) (@resolve_repo_id retoken_env p (f token) o r).
Proof. apply sim_run_call; [apply sim_bearer, Hf|]. intros. apply res_pair_refl. Qed.

Lemma sim_revoke p token : sim eq (revoke_install_token p token) (@revoke_install_token retoken_env p (f token)).
Proof. apply sim_run_call; [apply sim_bearer, Hf|]. intros. apply res_pair_refl. Qed.

Lemma sim_token p id : sim outcome_pair (mint_token p id) (@mint_token retoken_env p id).
Proof. apply sim_run_call; [apply sim_mint_build|apply pair_token]. Qed.

(** ** The lookup *)

Lemma sim_try {A} (m : @G GE A) m' : sim eq m m' → sim eq (g_try m) (@g_try retoken_env A m').
Proof.
  intros Hm s s' Hs. destruct (Hm s s' Hs) as [H1 H2]. unfold g_try. destruct (m s) as [s1 o], (m' s') as [s1' o']. cbn in *.
  destruct o as [[]| |], o' as [[]| |]; cbn in *; by subst.
Qed.

Lemma sim_ignore {A} Q (m : @G GE A) m' : sim Q m m' → sim eq (g_ignore m) (@g_ignore retoken_env A m').
Proof.
  intros Hm s s' Hs. destruct (Hm s s' Hs) as [H1 H2]. unfold g_ignore. destruct (m s) as [s1 o], (m' s') as [s1' o']. cbn in *.
  by destruct o as [[]| |], o' as [[]| |].
Qed.

Abbreviation lookup p rp := (with_metadata_token p (λ token, resolve_repo_id p token (owner rp) (repo rp))).

Lemma sim_lookup p rp :
  sim eq (lookup p rp) (@with_metadata_token retoken_env Z p (λ token, @resolve_repo_id retoken_env p token (owner rp) (repo rp))).
Proof.
  eapply sim_bind; [apply sim_metadata|]. intros [token e] _ ->. eapply sim_bind; [apply sim_try, sim_resolve|]. intros r _ <-.
  eapply sim_bind; [eapply sim_ignore, sim_revoke|]. intros [] _ _. apply sim_lift, res_pair_refl.
Qed.

Lemma twin_ids_set s s' st : twin s s' → twin (gs_with_repo_ids s st) (gs_with_repo_ids s' st).
Proof. intros [H1 H2 H3 H4]. by split. Qed.

Lemma sim_repo_ids p rp : sim eq (resolve_repo p rp) (@resolve_repo retoken_env p rp).
Proof.
  intros s s' Hs. unfold resolve_repo, repo_ids_with. rewrite (twin_ids _ _ Hs). destruct (claim (gs_repo_ids s) (mint_key rp)) as [st [id|ev|ev]].
  - split; [by apply twin_ids_set|done].
  - split; [by apply twin_ids_set|done].
  - destruct (sim_lookup p rp _ _ (twin_ids_set s s' st Hs)) as [H1 H2].
    destruct (with_metadata_token _ _ _) as [s1 o], (@with_metadata_token retoken_env _ _ _ _) as [s1' o']. cbn [fst snd] in H1, H2.
    destruct o as [[id|e]| |], o' as [[id'|e']| |]; cbn in H2; try done; subst; cbn [fst snd];
      (split; [|done]); rewrite ?(twin_ids _ _ H1); try (by apply twin_ids_set); exact H1.
Qed.

Lemma lookup_log_twin p rp s s' : twin s s' → @lookup_log retoken_env ET elapsed p rp s' = lookup_log elapsed p rp s.
Proof.
  intros Hs. unfold lookup_log, metadata_log. erewrite run_call_log_twin by (done || apply sim_mint_build). f_equal.
  destruct (sim_metadata p s s' Hs) as [H1 H2].
  destruct (mint_metadata_token p s) as [s1 o], (@mint_metadata_token retoken_env p s') as [s1' o']. cbn [fst snd] in H1, H2.
  destruct o as [[[t e]|e]| |], o' as [[[t' e']|e']| |]; cbn in H2; try done. injection H2 as -> ->.
  unfold resolve_log, revoke_log. erewrite run_call_log_twin; [|apply sim_bearer, Hf|exact H1]. f_equal.
  destruct (sim_resolve p t (owner rp) (repo rp) s1 s1' H1) as [H3 H4].
  destruct (resolve_repo_id p t _ _ s1) as [s2 o], (@resolve_repo_id retoken_env p (f t) _ _ s1') as [s2' o']. cbn [fst snd] in H3, H4.
  destruct o, o'; [apply run_call_log_twin; [apply sim_bearer, Hf|exact H3]|first [exact (False_rect _ H4)|reflexivity]..].
Qed.

(** ** The caches and the whole mint *)

Lemma sweep_twin now c : sweep now (retoken_cache c) = retoken_cache (sweep now c).
Proof.
  unfold sweep, retoken_cache. destruct c as [m h]. cbn. revert m. induction h as [|[t k] h IH]; intros m; cbn; [done|].
  destruct (t <=? now); [|done]. rewrite lookup_fmap. destruct (m !! k) as [[v t']|]; cbn; [|apply IH].
  destruct (t' =? t); [|apply IH]. rewrite <-fmap_delete. apply IH.
Qed.

Lemma twin_tokens_set s s' c : twin s s' → twin (gs_with_tokens s c) (gs_with_tokens s' (retoken_cache c)).
Proof. intros [H1 H2 H3 H4]. by split. Qed.

Definition cached_pair (x x' : option (bytes * Z)) : Prop := x' = prod_map f id <$> x.

Lemma sim_cache_get key : sim cached_pair (token_cache_get key) (@token_cache_get retoken_env key).
Proof.
  eapply sim_bind; [apply sim_clock|]. intros now _ <- s s' Hs. unfold get_with_expiry. rewrite (twin_tokens _ _ Hs), sweep_twin.
  split; [by apply twin_tokens_set|]. cbn. unfold cached_pair. by rewrite lookup_fmap.
Qed.

Lemma sim_cache_insert key t e : sim eq (token_cache_insert key t e) (@token_cache_insert retoken_env key (f t) e).
Proof.
  eapply sim_bind; [apply sim_clock|]. intros now _ <- s s' Hs. split; [|done]. cbn [fst]. rewrite (twin_tokens _ _ Hs).
  replace (TtlCache_insert _ _ _ (f t) _ (retoken_cache _)) with (retoken_cache (TtlCache_insert bytes_leb now key t e (gs_tokens s)));
    [by apply twin_tokens_set|].
  unfold TtlCache_insert. rewrite sweep_twin. unfold retoken_cache. cbn. by rewrite fmap_insert.
Qed.

Lemma sim_forget key m m' :
  sim outcome_pair m m' → sim outcome_pair (forget_if_not_found key m) (@forget_if_not_found retoken_env key m').
Proof.
  intros Hm s s' Hs. destruct (Hm s s' Hs) as [H1 H2]. unfold forget_if_not_found. destruct (m s) as [s1 o], (m' s') as [s1' o'].
  cbn [fst snd] in H1, H2. destruct o as [[out|e]| |], o' as [[out'|e']| |]; cbn in H2; try done. subst e'.
  destruct e; try (by split). split; [|done]. cbn [fst]. rewrite (twin_ids _ _ H1), (twin_tokens _ _ H1).
  replace (TtlCache_invalidate key (retoken_cache _)) with (retoken_cache (TtlCache_invalidate key (gs_tokens s1))).
  - by apply twin_tokens_set, twin_ids_set.
  - unfold TtlCache_invalidate, retoken_cache. cbn. by rewrite fmap_delete.
Qed.

Lemma sim_cached t e : sim outcome_pair (mint_cached t e) (@mint_cached retoken_env (f t) e).
Proof.
  intros s s' Hs. unfold mint_cached. pose proof (response_opaque (B "x-access-token") t e) as Hr.
  destruct (Response_new _ t e), (Response_new _ (f t) e); try done. subst. split; [done|]. cbn. by rewrite (twin_calls _ _ Hs).
Qed.

Lemma sim_uncached p rp : sim outcome_pair (mint_uncached p rp) (@mint_uncached retoken_env p rp).
Proof.
  eapply sim_bind; [apply (sim_repo_ids p rp)|]. intros id _ <-. eapply sim_bind; [apply sim_forget, sim_token|]. intros out _ ->.
  eapply sim_bind; [apply sim_cache_insert|]. intros [] _ _. by apply sim_lift.
Qed.

Lemma sim_mint p path : sim outcome_pair (mint p path) (@mint retoken_env p path).
Proof.
  eapply (sim_bind eq); [apply sim_lift, res_pair_refl|]. intros rp _ <-. eapply sim_bind; [apply sim_cache_get|]. intros [[t e]|] _ ->.
  - apply sim_cached.
  - apply sim_uncached.
Qed.

Lemma repo_ids_log_twin p rp s s' : twin s s' → @repo_ids_log retoken_env ET elapsed p rp s' = repo_ids_log elapsed p rp s.
Proof.
  intros Hs. unfold repo_ids_log. rewrite (twin_ids _ _ Hs). destruct (claim (gs_repo_ids s) (mint_key rp)) as [st [id|ev|ev]]; [reflexivity..|].
  apply lookup_log_twin, twin_ids_set, Hs.
Qed.

Lemma mint_log_twin p path s s' : twin s s' → @Provider_mint_log retoken_env ET elapsed p path s' = Provider_mint_log elapsed p path s.
Proof.
  intros Hs. unfold Provider_mint_log. change (@HttpError retoken_env) with (@HttpError GE).
  destruct (RepoPath_parse path) as [rp|e]; [|done]. destruct (sim_cache_get (mint_key rp) s s' Hs) as [H1 H2].
  destruct (token_cache_get (mint_key rp) s) as [s1 o], (@token_cache_get retoken_env (mint_key rp) s') as [s1' o']. cbn [fst snd] in H1, H2.
  destruct o as [[[[t e]|]|e]| |], o' as [[[[t' e']|]|e']| |]; first [exact (False_rect _ H2)|discriminate H2|idtac]; try reflexivity.
  - injection H2 as -> ->. destruct (sim_cached t e s1 s1' H1) as [_ H3].
    destruct (mint_cached t e s1) as [? []], (@mint_cached retoken_env (f t) e s1') as [? []];
      first [exact (False_rect _ H3)|reflexivity].
  - rewrite (repo_ids_log_twin _ _ _ _ H1). refine (f_equal (app _) _). destruct (sim_repo_ids p rp s1 s1' H1) as [H3 H4].
    destruct (resolve_repo p rp s1) as [s2 o], (@resolve_repo retoken_env p rp s1') as [s2' o']. cbn [fst snd] in H3, H4.
    destruct o as [[id|e]| |], o' as [[id'|e']| |]; first [exact (False_rect _ H4)|idtac]; [|exact eq_refl..].
    cbn in H4. subst id'. apply run_call_log_twin; [apply sim_mint_build|exact H3].
Qed.

End opaque.

End retoken.

(** ** Two connections *)

(** Sealing a message succeeds or fails, and grows it, by its length alone (the
    cipher of a Noise transport message adds 16 bytes and refuses what does not
    fit). *)
Class BlindSeal `{!Noise} : Prop := ts_write_blind ts b b' :
  len b' = len b →
  match ts_write_message ts b, ts_write_message ts b' with
  | Ok (_, m), Ok (_, m') => len m' = len m
  | Err _, Err _ => True
  | _, _ => False
  end.

Section connections.
Context {NZ : Noise} {BS : BlindSeal} {H St : Type} {LT : LogText H} (R : St → St → Prop).

(** Credentials that differ in the text of the token. *)
Definition credential_pair (r r' : Response) : Prop :=
  username r' = username r ∧ len (password r') = len (password r) ∧ password_expiry_utc r' = password_expiry_utc r.

Definition minted_pair (o o' : outcome (result (ProviderError H) MintOutcome)) : Prop :=
  match o, o' with
  | Ret (Ok out), Ret (Ok out') =>
      credential_pair (mo_response out) (mo_response out') ∧ mo_out_req_id out' = mo_out_req_id out ∧
      mo_provider_req_id out' = mo_provider_req_id out
  | Ret (Err e), Ret (Err e') => e' = e
  | Panic, Panic | Blocked, Blocked => True
  | _, _ => False
  end.

(** Providers that answer alike but for the tokens. *)
Record provider_pair (pr pr' : @Provider H St) : Prop := {
  pp_host : pr_host pr' = pr_host pr;
  pp_mint path st st' : R st st' →
    R (pr_mint pr path st).1 (pr_mint pr' path st').1 ∧ minted_pair (pr_mint pr path st).2 (pr_mint pr' path st').2;
}.

Definition with_providers (prs : list (@Provider H St)) (env : @ConnEnv H St) : ConnEnv :=
  MkConnEnv (ce_peer env) (ce_seed env) (ce_broker_key env) (ce_mem env) (ce_random env) (ce_instant env) (ce_provider_ms env)
    (ce_wall env) prs.

Definition record_pair (r r' : MintRecord) : Prop :=
  mr_host r' = mr_host r ∧ mr_path r' = mr_path r ∧ mr_out_req_id r' = mr_out_req_id r ∧
  mr_provider_req_id r' = mr_provider_req_id r ∧ mr_provider_ms r' = mr_provider_ms r ∧
  password_expiry_utc (mr_response r') = password_expiry_utc (mr_response r).

Definition c_set_st (st : St) (c : @Conn NZ St) : Conn :=
  MkConn (c_sess c) (c_client c) (c_record c) (c_wire c) (c_writes c) (c_bucket c) st (c_out c) (c_log c) (c_mints c).

(** The same connection before the mint, but for the providers' state; after
    it, also up to the token, the frame that carries it and what was written. *)
Inductive conn_pair : @Conn NZ St → @Conn NZ St → Prop :=
| Cp_before c st' : c_record c = None → R (c_providers c) st' → conn_pair c (c_set_st st' c)
| Cp_answer o o' outs r r' cl w ws b st st' lg ms :
    record_pair r r' → R st st' →
    conn_pair (MkConn (R_WriteResp o) cl (Some r) w ws b st outs lg ms) (MkConn (R_WriteResp o') cl (Some r') w ws b st' outs lg ms)
| Cp_done outs outs' r r' cl w ws b st st' lg ms :
    record_pair r r' → R st st' →
    conn_pair (MkConn R_Done cl (Some r) w ws b st outs lg ms) (MkConn R_Done cl (Some r') w ws b st' outs' lg ms).

(** What two connections agree on. *)
Definition same_log (c c' : @Conn NZ St) : Prop :=
  c_log c' = c_log c ∧ c_mints c' = c_mints c ∧ c_client c' = c_client c ∧ R (c_providers c) (c_providers c').

(** A turn of each: both go on alike, or both end alike. *)
Definition turn_pair (x x' : @Conn NZ St * Verdict) : Prop :=
  x'.2 = x.2 ∧ match x.2 with Continue => conn_pair x.1 x'.1 | _ => same_log x.1 x'.1 end.

Lemma turn_pair_st d v st' : c_record d = None → R (c_providers d) st' → turn_pair (d, v) (c_set_st st' d, v).
Proof. intros Hr Hst. split; [done|]. destruct v; [by apply Cp_before|done..]. Qed.

Lemma find_pair prs prs' h :
  Forall2 provider_pair prs prs' →
  match list_find (λ p, pr_host p = h) prs, list_find (λ p, pr_host p = h) prs' with
  | Some (_, pr), Some (_, pr') => provider_pair pr pr'
  | None, None => True
  | _, _ => False
  end.
Proof.
  induction 1 as [|pr pr' l l' Hp _ IH]; cbn; [done|]. rewrite (pp_host _ _ Hp). case_decide; [done|].
  revert IH. destruct (list_find _ l) as [[]|], (list_find _ l') as [[]|]; cbn; auto.
Qed.

Section env.
Context (env : @ConnEnv H St) (prs : list (@Provider H St)) (Hprs : Forall2 provider_pair (ce_providers env) prs).
Abbreviation env' := (with_providers prs env).

Lemma sess_pair r c st' :
  c_record c = None → R (c_providers c) st' → turn_pair (sess_call env r c) (sess_call env' r (c_set_st st' c)).
Proof.
  intros Hc Hst. destruct r as [s [[]|e]].
  - exact (turn_pair_st (c_set_sess s c) Continue st' Hc Hst).
  - exact (turn_pair_st (c_emit _ (c_set_sess s c)) Return st' Hc Hst).
Qed.

Lemma read_pair n c st' : c_record c = None → R (c_providers c) st' → turn_pair (arm_read env n c) (arm_read env' n (c_set_st st' c)).
Proof.
  intros Hc Hst. unfold arm_read. cbn [c_wire c_sess c_set_st]. destruct (read_exact_n n (c_wire c)) as [[bs|] w].
  - cbn [c_sess c_set_wire c_set_st]. destruct (Responder_recv (c_sess c) bs) as [s [[]|e]].
    + exact (turn_pair_st (c_set_sess s (c_set_wire w c)) Continue st' Hc Hst).
    + exact (turn_pair_st (c_emit _ (c_set_sess s (c_set_wire w c))) Return st' Hc Hst).
  - exact (turn_pair_st (c_emit _ (c_set_wire w c)) Return st' Hc Hst).
Qed.

Lemma choose_pair id c st' :
  choose_psk env' id (c_set_st st' c) = (c_set_st st' (choose_psk env id c).1, (choose_psk env id c).2) ∧
  c_record (choose_psk env id c).1 = c_record c ∧ c_providers (choose_psk env id c).1 = c_providers c.
Proof.
  unfold choose_psk. cbn [ce_mem ce_instant ce_random ce_peer with_providers]. destruct (PskStore_lookup _ id); [by destruct (m_clients _ !! id)|].
  cbn [c_bucket c_set_st]. by destruct (try_acquire _ _) as [b [n|]].
Qed.

Lemma need_psk_pair id c st' :
  c_record c = None → R (c_providers c) st' → turn_pair (arm_need_psk env id c) (arm_need_psk env' id (c_set_st st' c)).
Proof.
  intros Hc Hst. unfold arm_need_psk. destruct (choose_pair id c st') as (-> & Hr & Hp). destruct (choose_psk env id c) as [c1 [p|e]]; cbn [fst snd] in *.
  - apply sess_pair; congruence.
  - apply (turn_pair_st (c_emit _ c1)); cbn; congruence.
Qed.

Lemma write_pair out c st' : c_record c = None → R (c_providers c) st' → turn_pair (arm_write env out c) (arm_write env' out (c_set_st st' c)).
Proof.
  intros Hc Hst. unfold arm_write. cbn [c_writes c_sess c_client c_set_st].
  destruct (head (c_writes c)) as [[e|]|]; [exact (turn_pair_st (c_emit _ c) Return st' Hc Hst)|..];
    exact (sess_pair (Responder_wrote (c_sess c)) (c_wrote out (tail (c_writes c)) c) st' Hc Hst).
Qed.

(** The encoded answers have the same length, so both are sealed or neither. *)
Lemma encode_pair r r' b :
  credential_pair r r' →
  match Response_encode r b [], Response_encode r' b [] with Some x, Some x' => len x' = len x | None, None => True | _, _ => False end.
Proof.
  intros (Hu & Hp & He). unfold Response_encode, password_expiry_unix_secs. rewrite He, Hu. destruct (_ <? 0); [done|].
  cbn [mbind option_bind]. destruct b; rewrite !len_app; lia.
Qed.

Lemma set_response_pair ts b b' :
  len b' = len b →
  match Responder_set_response (R_AwaitingResponse ts) b, Responder_set_response (R_AwaitingResponse ts) b' with
  | (s, Ok _), (s', Ok _) => ∃ o o', s = R_WriteResp o ∧ s' = R_WriteResp o'
  | (s, Err e), (s', Err e') => s = R_Failed ∧ s' = R_Failed ∧ ∀ peer ph cl, log_session_failure peer ph cl e' = log_session_failure peer ph cl e
  | _, _ => False
  end.
Proof.
  intros Hl. cbn. unfold lift, transport_write. pose proof (ts_write_blind ts b b' Hl) as Hb.
  destruct (ts_write_message ts b) as [[ts1 m]|e], (ts_write_message ts b') as [[ts1' m']|e']; cbn; try done.
  unfold frame. rewrite Hb. destruct (_ <? len m); cbn; eauto.
Qed.

Lemma answer_pair request out out' c st' ts :
  c_sess c = R_AwaitingResponse ts → c_record c = None → R (c_providers c) st' →
  credential_pair (mo_response out) (mo_response out') → mo_out_req_id out' = mo_out_req_id out →
  mo_provider_req_id out' = mo_provider_req_id out →
  turn_pair (answer_request env request out c) (answer_request env' request out' (c_set_st st' c)).
Proof.
  intros Hs Hc Hst Hr Hid Hpid. unfold answer_request. pose proof (encode_pair _ _ (client_supports_authtype request) Hr) as Henc.
  destruct (Response_encode (mo_response out) _ []) as [b|], (Response_encode (mo_response out') _ []) as [b'|]; try done.
  cbn [c_sess c_set_st]. rewrite Hs. pose proof (set_response_pair ts b b' Henc) as Hset.
  destruct (Responder_set_response _ b) as [s [[]|e]], (Responder_set_response _ b') as [s' [[]|e']]; try done.
  - destruct Hset as (o & o' & -> & ->). cbn. split; [done|]. destruct c; cbn in *. subst. apply Cp_answer; [|done]. destruct Hr as (_ & _ & He).
    by split_and!.
  - destruct Hset as (-> & -> & Hlog). cbn. split; [done|]. cbn. by rewrite Hlog.
Qed.

Lemma request_pair rb c st' ts :
  c_sess c = R_AwaitingResponse ts → c_record c = None → R (c_providers c) st' →
  turn_pair (arm_request env rb c) (arm_request env' rb (c_set_st st' c)).
Proof.
  intros Hs Hc Hst. unfold arm_request. cbn [c_client c_set_st ce_peer ce_providers with_providers].
  destruct (c_client c) as [cl|]; [|exact (turn_pair_st (c_emit _ c) Return st' Hc Hst)].
  destruct (_ <? _); [exact (turn_pair_st (c_emit _ c) Return st' Hc Hst)|].
  destruct (Request_parse rb) as [request|e]; [|exact (turn_pair_st (c_emit _ c) Return st' Hc Hst)].
  pose proof (find_pair _ _ (host request) Hprs) as Hfind.
  destruct (list_find _ (ce_providers env)) as [[i pr]|], (list_find _ prs) as [[i' pr']|]; try done.
  unfold mint_for. cbn [c_providers c_set_st ce_provider_ms with_providers]. destruct (pp_mint _ _ Hfind (path request) _ _ Hst) as [HR Hm].
  destruct (pr_mint pr (path request) (c_providers c)) as [st1 o], (pr_mint pr' (path request) st') as [st1' o']. cbn [fst snd] in HR, Hm.
  destruct o as [[out|e]| |], o' as [[out'|e']| |]; cbn in Hm; try done.
  - destruct Hm as (H1 & H2 & H3). by apply (answer_pair request out out' (c_minted (host request) (path request) st1 c) st1' ts).
  - subst e'. destruct e; split; done.
Qed.

Lemma before_pair c st' : c_record c = None → R (c_providers c) st' → turn_pair (conn_turn env c) (conn_turn env' (c_set_st st' c)).
Proof.
  intros Hc Hst. unfold conn_turn. cbn [c_sess c_set_st]. destruct (Responder_step (c_sess c)) as [s r] eqn:Es.
  change (c_set_sess s (c_set_st st' c)) with (c_set_st st' (c_set_sess s c)). destruct r as [[n|id|out|rb|]|e].
  - by apply read_pair.
  - by apply need_psk_pair.
  - by apply write_pair.
  - assert (∃ ts, s = R_AwaitingResponse ts) as [ts ->] by (destruct (c_sess c); cbn in Es; try done; injection Es as <- _; eauto).
    by apply (request_pair rb (c_set_sess (R_AwaitingResponse ts) c) st' ts).
  - unfold arm_done. cbn [c_client c_record c_set_sess c_set_st]. rewrite Hc.
    destruct (c_client c); exact (turn_pair_st (c_set_sess s c) Return st' Hc Hst).
  - exact (turn_pair_st (c_emit _ (c_set_sess s c)) Return st' Hc Hst).
Qed.

Lemma conn_turn_pair c c' : conn_pair c c' → turn_pair (conn_turn env c) (conn_turn env' c').
Proof.
  destruct 1 as [c st' Hc Hst|o o' outs r r' cl w ws b st st' lg ms Hm Hst|outs outs' r r' cl w ws b st st' lg ms Hm Hst].
  - by apply before_pair.
  - unfold conn_turn. cbn [c_sess Responder_step c_set_sess RState_phase]. unfold arm_write. cbn [c_writes c_client c_set_sess].
    destruct (head ws) as [[e|]|]; [by split|..]; (split; [done|]); by apply Cp_done.
  - destruct Hm as (E1 & E2 & E3 & E4 & E5 & E6). unfold conn_turn. cbn [c_sess Responder_step c_set_sess RState_phase].
    unfold arm_done. cbn [c_client c_record c_set_sess]. unfold password_expiry_unix_secs. rewrite E1, E2, E3, E4, E5, E6.
    destruct cl as [cl|]; [|by split]. by destruct (_ <? 0).
Qed.

Lemma conn_pair_log c c' : conn_pair c c' → same_log c c'.
Proof. by destruct 1. Qed.

Lemma conn_loop_pair fuel c c' :
  conn_pair c c' →
  (conn_loop fuel env' c').2 = (conn_loop fuel env c).2 ∧ same_log (conn_loop fuel env c).1 (conn_loop fuel env' c').1.
Proof.
  revert c c'. induction fuel as [|fuel IH]; intros c c' Hp; cbn [conn_loop]; [by split; [|apply conn_pair_log]|].
  apply conn_turn_pair in Hp. destruct (conn_turn env c) as [c1 v1], (conn_turn env' c') as [c1' v1']. destruct Hp as [Hv Hp].
  cbn in Hv, Hp. subst v1'. destruct v1; [by apply IH|done..].
Qed.

Lemma connection_pair wire writes bucket st st' :
  R st st' →
  (handle_connection env' wire writes bucket st').2 = (handle_connection env wire writes bucket st).2 ∧
  same_log (handle_connection env wire writes bucket st).1 (handle_connection env' wire writes bucket st').1.
Proof.
  intros Hst. unfold handle_connection. cbn [ce_seed ce_broker_key with_providers].
  destruct (Responder_new (ce_seed env) (ce_broker_key env)) as [s|e]; [|done]. apply conn_loop_pair.
  by apply (Cp_before (MkConn s None None wire writes bucket st [] [] [])).
Qed.

End env.

End connections.

(** ** The daemon's log of a connection *)

Section token.
Context {GE : GithubEnv} {ET : ErrorText HttpError} {NZ : Noise} {BS : BlindSeal} {LT : LogText HttpError}.
Context (elapsed : nat → Z) (f : bytes → bytes) (gp : GitHubProvider).

Definition twin_log (x x' : GState * list Event) : Prop := twin f x.1 x'.1 ∧ x'.2 = x.2.

Lemma logged_pair : opaque f → provider_pair twin_log (@logged_provider GE ET elapsed gp) (@logged_provider (retoken_env f) ET elapsed gp).
Proof.
  intros Hf. split; [done|]. intros path [s l] [s' l'] [Hs Hl]. cbn in Hs, Hl. subst l'. cbn [pr_mint logged_provider].
  unfold Provider_mint. destruct (sim_mint f Hf gp path s s' Hs) as [H1 H2]. rewrite (mint_log_twin elapsed f Hf gp path s s' Hs).
  destruct (mint gp path s) as [s1 o], (@mint (retoken_env f) gp path s') as [s1' o']. cbn [fst snd] in *. split; [split; [exact H1|reflexivity]|].
  destruct o as [[out|e]| |], o' as [[out'|e']| |]; cbn in H2 |- *; try done.
  - unfold outcome_pair in H2. subst out'. cbn. split; [|done]. split; [done|]. split; [apply Hf|done].
  - by subst.
Qed.


End token.

(** ** Witness *)

(** Every byte of a token that is no line control becomes an [x]. *)
Definition demo_mask (t : bytes) : bytes := (λ b, if is_line_control b then b else x78) <$> t.

Lemma find_masked t : find_byte is_line_control (demo_mask t) = find_byte is_line_control t.
Proof.
  induction t as [|b t IH]; [done|]. cbn. fold (demo_mask t). destruct (is_line_control b) eqn:E; [by rewrite E|].
  change (is_line_control x78) with false. cbn. by rewrite IH.
Qed.

Lemma demo_opaque : @opaque github_model demo_mask.
Proof.
  split; [|done|].
  - intros t. unfold len, demo_mask. by rewrite length_fmap.
  - intros t. unfold Response_check_field. by rewrite find_masked.
Qed.

#[export] Instance noise_model_blind : @BlindSeal noise_model.
Proof.
  intros k b b' Hl. cbn. unfold sized. rewrite !len_app, Hl. by destruct (_ <? _); cbn; rewrite ?len_app, ?Hl.
Qed.

Definition demo_error_text : ErrorText () := {| show_duration _ := B "10s"; http_node _ := Err_root (B "HTTP") |}.

Definition logged_env (GE : GithubEnv) (ET : ErrorText HttpError) : @ConnEnv HttpError (GState * list Event) :=
  MkConnEnv (ce_peer (demo_env demo_tables)) (ce_seed (demo_env demo_tables)) (ce_broker_key (demo_env demo_tables)) demo_tables
    (ce_random (demo_env demo_tables)) (ce_instant (demo_env demo_tables)) (ce_provider_ms (demo_env demo_tables))
    (ce_wall (demo_env demo_tables)) [@logged_provider GE ET (λ _, 0) demo_provider].

Definition logged_run (GE : GithubEnv) (ET : ErrorText HttpError) (LT : @LogText noise_model HttpError) :
    @Conn noise_model (GState * list Event) * option Verdict :=
  @handle_connection noise_model HttpError (GState * list Event) LT (logged_env GE ET) demo_wire [] conn_bucket (gs_new, []).

