(* ===== verification/Signals.v ===== *)
(** * Signals to cancellation: [src/signals.rs]

    The signal handler (two atomic stores and a wake), the [Notified] future
    with its check, register, check again, and the watcher task that turns a
    pending signal into the cancellation of the shutdown token.  Handlers run
    between any two atomic operations of the watcher and of one another; the
    atomics are sequentially consistent in this model. *)

From S2P Require Import Prelude.

Inductive Sig := SIGTERM | SIGINT.

Definition Sig_name (s : Sig) : bytes := match s with SIGTERM => B "SIGTERM" | SIGINT => B "SIGINT" end.

(** Where a running handler is: before [pending.store(true)], before
    [set.store(true)], before [waker.wake()]. *)
Inductive Stage := H_pending | H_set | H_wake.

#[local] Instance Sig_eq_dec : EqDecision Sig.
Proof. solve_decision. Defined.
#[local] Instance Stage_eq_dec : EqDecision Stage.
Proof. solve_decision. Defined.

(** Where the watcher task is. *)
Inductive WatcherPc :=
| W_term        (* if term_pending.swap(false) *)
| W_int         (* if int_pending.swap(false) *)
| W_poll        (* Notified::poll: first swap *)
| W_register    (* waker.register *)
| W_poll2       (* second swap *)
| W_suspended   (* Poll::Pending *)
| W_done (s : Sig).

Record SigState := MkSigState {
  term_pending : bool;
  int_pending : bool;
  set : bool;                        (* SignalNotifier::set *)
  registered : bool;                 (* AtomicWaker: a waker is registered *)
  woken : bool;                      (* the task was woken since it last ran *)
  cancelled : bool;                  (* the shutdown token *)
  handlers : list (Sig * Stage);     (* handlers that are running *)
  watcher : WatcherPc;
  delivered : list Sig;              (* signals whose handler has started *)
}.

(** [spawn_shutdown_watcher] *)
Definition sig_init : SigState := MkSigState false false false false false false [] W_term [].

Definition set_pending (sg : Sig) (s : SigState) : SigState :=
  match sg with
  | SIGTERM => MkSigState true (int_pending s) (set s) (registered s) (woken s) (cancelled s) (handlers s) (watcher s) (delivered s)
  | SIGINT => MkSigState (term_pending s) true (set s) (registered s) (woken s) (cancelled s) (handlers s) (watcher s) (delivered s)
  end.
Definition set_set (b : bool) (s : SigState) : SigState :=
  MkSigState (term_pending s) (int_pending s) b (registered s) (woken s) (cancelled s) (handlers s) (watcher s) (delivered s).
Definition set_handlers (h : list (Sig * Stage)) (s : SigState) : SigState :=
  MkSigState (term_pending s) (int_pending s) (set s) (registered s) (woken s) (cancelled s) h (watcher s) (delivered s).
Definition set_watcher (w : WatcherPc) (s : SigState) : SigState :=
  MkSigState (term_pending s) (int_pending s) (set s) (registered s) (woken s) (cancelled s) (handlers s) w (delivered s).

(** [AtomicWaker::wake]: the registered waker is taken and woken. *)
Definition waker_wake (s : SigState) : SigState :=
  MkSigState (term_pending s) (int_pending s) (set s) false (woken s || registered s) (cancelled s) (handlers s) (watcher s) (delivered s).

(** The kernel delivers a signal: its handler starts. *)
Definition deliver (sg : Sig) (s : SigState) : SigState :=
  MkSigState (term_pending s) (int_pending s) (set s) (registered s) (woken s) (cancelled s) ((sg, H_pending) :: handlers s)
    (watcher s) (sg :: delivered s).

(** One operation of the [i]-th running handler. *)
Definition handler_step (i : nat) (s : SigState) : option SigState :=
  match handlers s !! i with
  | Some (sg, H_pending) => Some (set_pending sg (set_handlers (<[i := (sg, H_set)]> (handlers s)) s))
  | Some (sg, H_set) => Some (set_set true (set_handlers (<[i := (sg, H_wake)]> (handlers s)) s))
  | Some (_, H_wake) => Some (waker_wake (set_handlers (delete i (handlers s)) s))
  | None => None
  end.

(** [shutdown.cancel(); return name] *)
Definition finish (sg : Sig) (s : SigState) : SigState :=
  MkSigState (match sg with SIGTERM => false | SIGINT => term_pending s end) (match sg with SIGTERM => int_pending s | SIGINT => false end)
    (set s) (registered s) (woken s) true (handlers s) (W_done sg) (delivered s).

(** One operation of the watcher; a suspended task runs only when woken. *)
Definition watcher_step (s : SigState) : option SigState :=
  match watcher s with
  | W_term => Some (if term_pending s then finish SIGTERM s else set_watcher W_int s)
  | W_int => Some (if int_pending s then finish SIGINT s else set_watcher W_poll s)
  | W_poll => Some (if set s then set_watcher W_term (set_set false s) else set_watcher W_register s)
  | W_register =>
      Some (MkSigState (term_pending s) (int_pending s) (set s) true (woken s) (cancelled s) (handlers s) W_poll2 (delivered s))
  | W_poll2 => Some (if set s then set_watcher W_term (set_set false s) else set_watcher W_suspended s)
  | W_suspended =>
      if woken s then
        Some (MkSigState (term_pending s) (int_pending s) (set s) (registered s) false (cancelled s) (handlers s) W_poll (delivered s))
      else None
  | W_done _ => None
  end.

Inductive sig_step : SigState → SigState → Prop :=
| Step_deliver sg s : sig_step s (deliver sg s)
| Step_handler i s s' : handler_step i s = Some s' → sig_step s s'
| Step_watcher s s' : watcher_step s = Some s' → sig_step s s'.

Definition sig_reachable (s : SigState) : Prop := rtc sig_step sig_init s.

(** The watcher alone, for up to [n] operations. *)
Fixpoint watch (n : nat) (s : SigState) : SigState :=
  match n with
  | O => s
  | S n => match watcher_step s with Some s' => watch n s' | None => s end
  end.

(** The running handlers alone, for up to [n] operations. *)
Fixpoint settle (n : nat) (s : SigState) : SigState :=
  match n with
  | O => s
  | S n => match handler_step 0 s with Some s' => settle n s' | None => s end
  end.

(** ** The invariant *)

Definition past_term (w : WatcherPc) : bool := match w with W_term | W_done _ => false | _ => true end.
Definition past_int (w : WatcherPc) : bool := match w with W_poll | W_register | W_poll2 | W_suspended => true | _ => false end.

Definition is_pending (sg : Sig) (s : SigState) : bool :=
  match sg with SIGTERM => term_pending s | SIGINT => int_pending s end.

Definition at_stage (st : Stage) (s : SigState) : Prop := ∃ sg : Sig, (sg, st) ∈ handlers s.

Definition recorded (sg : Sig) (s : SigState) : Prop :=
  is_pending sg s = true ∨ (sg, H_pending) ∈ handlers s ∨ ∃ sg', watcher s = W_done sg'.

Record sig_ok (s : SigState) : Prop := MkSigOk {
  (** A signal the watcher has not seen is announced, or about to be. *)
  so_term : past_term (watcher s) = true → term_pending s = true → set s = true ∨ at_stage H_set s;
  so_int : past_int (watcher s) = true → int_pending s = true → set s = true ∨ at_stage H_set s;
  (** An announcement a suspended watcher has not seen wakes it, or is about to. *)
  so_set : watcher s = W_suspended → set s = true → woken s = true ∨ at_stage H_wake s;
  so_registered : watcher s = W_poll2 ∨ watcher s = W_suspended → registered s = true ∨ woken s = true;
  (** What was delivered, and only that. *)
  so_delivered : ∀ sg st, (sg, st) ∈ handlers s → sg ∈ delivered s;
  so_term_delivered : term_pending s = true → SIGTERM ∈ delivered s;
  so_int_delivered : int_pending s = true → SIGINT ∈ delivered s;
  (** A delivered signal is recorded, or about to be, until the watcher ends. *)
  so_recorded : ∀ sg, sg ∈ delivered s → recorded sg s;
  so_done : match watcher s with W_done sg => cancelled s = true ∧ sg ∈ delivered s | _ => cancelled s = false end;
}.

Lemma sig_ok_init : sig_ok sig_init.
Proof. split; cbn; try done. - intros [?|?]; done. - intros sg st Hin. by apply elem_of_nil in Hin. - intros sg Hin. by apply elem_of_nil in Hin. Qed.

Lemma sig_ok_deliver sg s : sig_ok s → sig_ok (deliver sg s).
Proof.
  intros [H1 H2 H3 H4 H5 H6 H7 HR H8]. split; cbn; try done.
  - intros Hw Ht. destruct (H1 Hw Ht) as [?|[x Hx]]; [by left|]. right. exists x. cbn. by right.
  - intros Hw Ht. destruct (H2 Hw Ht) as [?|[x Hx]]; [by left|]. right. exists x. cbn. by right.
  - intros Hw Ht. destruct (H3 Hw Ht) as [?|[x Hx]]; [by left|]. right. exists x. cbn. by right.
  - intros x st Hin. apply elem_of_cons in Hin as [[= -> _]|Hin]; [by left|]. right. by eapply H5.
  - intros Ht. right. by apply H6.
  - intros Ht. right. by apply H7.
  - intros x [->|Hin]%elem_of_cons; [right; left; by left|].
    destruct (HR x Hin) as [?|[?|?]]; [by left; destruct x|right; left; by right|right; by right].
  - destruct (watcher s); try done. destruct H8. split; [done|]. by right.
Qed.

(** Elements of a list after an update or a deletion elsewhere. *)
Lemma elem_of_insert_keep {A} (l : list A) i x y z : l !! i = Some x → y ∈ l → y ≠ x → y ∈ <[i := z]> l.
Proof.
  intros Hi [j Hj]%list_elem_of_lookup Hne. apply list_elem_of_lookup. exists j.
  rewrite list_lookup_insert_ne; [done|]. intros ->. congruence.
Qed.

Lemma elem_of_insert_inv {A} (l : list A) i y z : y ∈ <[i := z]> l → y = z ∨ y ∈ l.
Proof.
  intros [j Hj]%list_elem_of_lookup. destruct (decide (i = j)) as [->|Hij].
  - destruct (decide (j < length l)%nat).
    + rewrite list_lookup_insert_eq in Hj by done. left. congruence.
    + rewrite list_insert_ge in Hj by lia. right. apply list_elem_of_lookup. eauto.
  - rewrite list_lookup_insert_ne in Hj by done. right. apply list_elem_of_lookup. eauto.
Qed.

Lemma elem_of_delete_keep {A} (l : list A) i x y : l !! i = Some x → y ∈ l → y ≠ x → y ∈ delete i l.
Proof.
  intros Hi Hy Hne. apply delete_Permutation in Hi. rewrite Hi in Hy. apply elem_of_cons in Hy as [?|?]; done.
Qed.

Lemma elem_of_delete_inv {A} (l : list A) i y : y ∈ delete i l → y ∈ l.
Proof. intros Hy. eapply elem_of_sublist; [exact Hy|]. apply sublist_delete. Qed.

Lemma recorded_handler i s s' sg : recorded sg s → handler_step i s = Some s' → recorded sg s'.
Proof.
  unfold handler_step. destruct (handlers s !! i) as [[x st]|] eqn:Ei; [|done]. unfold recorded.
  intros [Hp|[Hh|Hd]]; [| |by destruct st, x; intros [= <-]; auto].
  - left. destruct st, x, sg; simplify_eq/=; done.
  - destruct (decide ((sg, H_pending) = (x, st))) as [[= <- <-]|Hne]; [intros [= <-]; left; by destruct sg|].
    destruct st; [destruct x|..]; intros [= <-]; right; left; cbn; first [by eapply elem_of_insert_keep|by eapply elem_of_delete_keep].
Qed.

Lemma sig_ok_handler i s s' : sig_ok s → handler_step i s = Some s' → sig_ok s'.
Proof.
  intros [H1 H2 H3 H4 H5 H6 H7 HR H8] Hstep.
  assert (∀ x, x ∈ delivered s → recorded x s') as Hrec by (intros x Hx; eapply recorded_handler; [by apply HR|exact Hstep]).
  revert Hstep. unfold handler_step. destruct (handlers s !! i) as [[sg st]|] eqn:Ei; [|done].
  assert (sg ∈ delivered s) as Hsg by (eapply H5, list_elem_of_lookup_2; exact Ei).
  destruct st; intros [= <-].
  - assert (at_stage H_set (set_handlers (<[i := (sg, H_set)]> (handlers s)) s)) as Hst.
    { exists sg. cbn. apply list_elem_of_lookup. exists i. rewrite list_lookup_insert_eq; [done|]. by eapply lookup_lt_Some. }
    assert (at_stage H_wake s → at_stage H_wake (set_handlers (<[i := (sg, H_set)]> (handlers s)) s)) as Hwk.
    { intros [x Hx]. exists x. cbn. by eapply elem_of_insert_keep. }
    assert (∀ sg0 st0, (sg0, st0) ∈ <[i := (sg, H_set)]> (handlers s) → sg0 ∈ delivered s) as Hd.
    { intros x st Hin. apply elem_of_insert_inv in Hin as [[= -> _]|Hin]; [done|]. by eapply H5. }
    destruct sg; split; cbn in *; auto; intros; destruct (H3 ltac:(done) ltac:(done)); auto.
  - assert (at_stage H_wake (set_handlers (<[i := (sg, H_wake)]> (handlers s)) s)) as Hst.
    { exists sg. cbn. apply list_elem_of_lookup. exists i. rewrite list_lookup_insert_eq; [done|]. by eapply lookup_lt_Some. }
    assert (∀ sg0 st0, (sg0, st0) ∈ <[i := (sg, H_wake)]> (handlers s) → sg0 ∈ delivered s) as Hd.
    { intros x st Hin. apply elem_of_insert_inv in Hin as [[= -> _]|Hin]; [done|]. by eapply H5. }
    split; cbn in *; auto.
  - assert (at_stage H_set s → at_stage H_set (set_handlers (delete i (handlers s)) s)) as Hst.
    { intros [x Hx]. exists x. cbn. by eapply elem_of_delete_keep. }
    split; cbn in *; auto.
    + intros Hw Ht. destruct (H1 Hw Ht); auto.
    + intros Hw Ht. destruct (H2 Hw Ht); auto.
    + intros Hw Ht. left. destruct (H4 (or_intror Hw)) as [->| ->]; [by destruct (woken s)|done].
    + intros Hw. right. destruct (H4 Hw) as [->| ->]; [by destruct (woken s)|done].
    + intros x st Hin. apply elem_of_delete_inv in Hin. by eapply H5.
Qed.

Lemma watcher_step_delivered s s' : watcher_step s = Some s' → delivered s' = delivered s.
Proof. unfold watcher_step. intros Hs. destruct (watcher s); repeat case_match; by simplify_eq/=. Qed.

Lemma recorded_watcher s s' sg : recorded sg s → watcher_step s = Some s' → recorded sg s'.
Proof.
  unfold watcher_step, recorded. destruct (watcher s) eqn:Ew; intros Hr Hs; repeat case_match; simplify_eq/=.
  all: first [right; right; by eexists|destruct Hr as [Hp|[Hh|[x Hd]]]; [by left; destruct sg|by right; left|done]].
Qed.

Ltac watcher_case E :=
  intros [= <-] Hrec; split; [..|exact Hrec|]; clear Hrec; cbn in *; rewrite ?E; auto; try done; try (intros; naive_solver).

Lemma sig_ok_watcher s s' : sig_ok s → watcher_step s = Some s' → sig_ok s'.
Proof.
  intros [H1 H2 H3 H4 H5 H6 H7 HR H8] Hstep.
  assert (∀ x, x ∈ delivered s' → recorded x s') as Hrec.
  { intros x Hx. eapply recorded_watcher; [|exact Hstep]. apply HR. by rewrite <-(watcher_step_delivered _ _ Hstep). }
  clear HR. revert Hstep Hrec. unfold watcher_step. destruct (watcher s) eqn:Ew; cbn in H1, H2; try done.
  - destruct (term_pending s) eqn:Et; watcher_case Et.
  - destruct (int_pending s) eqn:Et; watcher_case Et.
  - destruct (set s) eqn:Et; watcher_case Et.
  - watcher_case Ew.
  - destruct (set s) eqn:Et; watcher_case Et.
  - destruct (woken s) eqn:Et; [|done]. watcher_case Et.
Qed.

Lemma sig_reachable_ok s : sig_reachable s → sig_ok s.
Proof.
  unfold sig_reachable. intros Hr. remember sig_init as s0 eqn:E. assert (sig_ok s0) as H0 by (subst; apply sig_ok_init). clear E.
  induction Hr as [|s1 s2 s3 Hs _ IH]; [done|]. apply IH. destruct Hs as [sg s|i s s' Hh|s s' Hw].
  - by apply sig_ok_deliver.
  - by eapply sig_ok_handler.
  - by eapply sig_ok_watcher.
Qed.

Lemma no_handler st s : handlers s = [] → ¬ at_stage st s.
Proof. intros Hh [sg Hs]. rewrite Hh in Hs. by apply elem_of_nil in Hs. Qed.

(** The watcher at rest with a signal pending. *)
Lemma watch_pending s :
  sig_ok s → handlers s = [] → term_pending s = true ∨ int_pending s = true → ∃ sg, watcher (watch 6 s) = W_done sg.
Proof.
  intros [H1 H2 H3 H4 _ _ _ _ _] Hh Hp.
  pose proof (no_handler H_set s Hh) as N1. pose proof (no_handler H_wake s Hh) as N2.
  assert (past_term (watcher s) = true → term_pending s = true → set s = true) as T1 by (intros; destruct H1; done).
  assert (past_int (watcher s) = true → int_pending s = true → set s = true) as T2 by (intros; destruct H2; done).
  assert (watcher s = W_suspended → set s = true → woken s = true) as T3 by (intros; destruct H3; done).
  clear H1 H2 H3 H4 N1 N2 Hh. destruct s as [t i st r wk c h w d]. cbn in *.
  destruct w, t, i; cbn in *; destruct Hp as [Hp|Hp]; try discriminate Hp;
    try (rewrite (T1 eq_refl eq_refl) in * ); try (rewrite (T2 eq_refl eq_refl) in * ); try (rewrite (T3 eq_refl eq_refl));
    cbn; eauto; destruct st; cbn; eauto.
Qed.

(** A delivered signal is pending when its handler has returned, unless the
    watcher has ended. *)
Lemma delivered_pending s sg :
  sig_ok s → handlers s = [] → sg ∈ delivered s → (term_pending s = true ∨ int_pending s = true) ∨ ∃ sg', watcher s = W_done sg'.
Proof.
  intros Hok Hh Hd. destruct (so_recorded s Hok sg Hd) as [Hp|[Hp|Hp]]; [|rewrite Hh in Hp; by apply elem_of_nil in Hp|by right].
  left. destruct sg; [by left|by right].
Qed.

(** Handlers run to their end: each takes three operations, and none waits. *)
Definition stage_left (st : Stage) : nat := match st with H_pending => 3 | H_set => 2 | H_wake => 1 end.
Definition handlers_left (l : list (Sig * Stage)) : nat := sum_list (stage_left ∘ snd <$> l).

Lemma handlers_left_bound l : (handlers_left l <= 3 * length l)%nat.
Proof. unfold handlers_left. induction l as [|[sg []] l IH]; cbn in *; lia. Qed.

Lemma settle_spec n s : (handlers_left (handlers s) <= n)%nat → handlers (settle n s) = [] ∧ delivered (settle n s) = delivered s.
Proof.
  revert s. induction n as [|n IH]; intros s Hn; cbn [settle]; unfold handler_step in *.
  - destruct (handlers s) as [|[sg []] l]; [done|unfold handlers_left in Hn; cbn in Hn; lia..].
  - destruct (handlers s) as [|[sg st] l] eqn:Eh; cbn [lookup list_lookup]; [done|].
    destruct st, sg; match goal with |- handlers (settle n ?s') = [] ∧ _ => destruct (IH s') as [-> ->]; [|done] end;
      unfold handlers_left in *; cbn in *; lia.
Qed.

Lemma settle_reachable n s : sig_reachable s → sig_reachable (settle n s).
Proof.
  revert s. induction n as [|n IH]; intros s Hr; cbn [settle]; [done|]. destruct (handler_step 0 s) as [s'|] eqn:Es; [|done].
  apply IH. eapply rtc_r; [exact Hr|]. by eapply Step_handler.
Qed.

Lemma watch_reachable n s : sig_reachable s → sig_reachable (watch n s).
Proof.
  revert s. induction n as [|n IH]; intros s Hr; cbn [watch]; [done|]. destruct (watcher_step s) as [s'|] eqn:Es; [|done].
  apply IH. eapply rtc_r; [exact Hr|]. by eapply Step_watcher.
Qed.

Lemma watch_delivered n s : delivered (watch n s) = delivered s.
Proof.
  revert s. induction n as [|n IH]; intros s; cbn [watch]; [done|]. destruct (watcher_step s) as [s'|] eqn:Es; [|done].
  rewrite IH. by apply watcher_step_delivered.
Qed.

Lemma done_cancelled s sg : sig_reachable s → watcher s = W_done sg → cancelled s = true ∧ sg ∈ delivered s.
Proof. intros Hok%sig_reachable_ok Hw. pose proof (so_done s Hok) as H. by rewrite Hw in H. Qed.

Lemma watch_settled s :
  sig_reachable s → handlers s = [] → delivered s ≠ [] → ∃ sg, watcher (watch 6 s) = W_done sg.
Proof.
  intros Hr Hh Hd. pose proof (sig_reachable_ok s Hr) as Hok. destruct (delivered s) as [|sg l] eqn:Ed; [done|].
  destruct (delivered_pending s sg Hok Hh) as [Hp|[sg' Hw]]; [rewrite Ed; by left|by apply watch_pending|].
  exists sg'. cbn [watch]. unfold watcher_step. by rewrite Hw.
Qed.

(** ** Properties *)

(** C35: a signal is never lost and never invented.  However the handlers of any
    number of signals are interleaved with the watcher, once a signal has been
    delivered, the handlers that are running, if any, end within three
    operations each, and then the watcher, which is runnable even if it was
    suspended, ends within six with the shutdown token cancelled and the name of
    a delivered signal; a watcher stays suspended after a delivery only while
    some handler still has something to store or to wake; and the token is
    cancelled only by the watcher, for a signal that was delivered. *)
Theorem signal_not_lost s :
  sig_reachable s →
  (delivered s ≠ [] →
     let s' := settle (3 * length (handlers s)) s in
     handlers s' = [] ∧ ∃ sg, sg ∈ delivered s ∧ watcher (watch 6 s') = W_done sg ∧ cancelled (watch 6 s') = true) ∧
  (watcher s = W_suspended → delivered s ≠ [] → woken s = true ∨ handlers s ≠ []) ∧
  (cancelled s = true ↔ ∃ sg, watcher s = W_done sg) ∧
  (∀ sg, watcher s = W_done sg → sg ∈ delivered s).
Proof.
  intros Hr. split_and!.
  - intros Hd s'. destruct (settle_spec (3 * length (handlers s)) s (handlers_left_bound _)) as [Hh Hde]. fold s' in Hh, Hde. split; [done|].
    assert (sig_reachable s') as Hr' by by apply settle_reachable.
    destruct (watch_settled s' Hr' Hh) as [sg Hw]; [by rewrite Hde|]. exists sg.
    destruct (done_cancelled _ _ (watch_reachable 6 s' Hr') Hw) as [Hc Hin]. rewrite watch_delivered, Hde in Hin. done.
  - intros Hw Hd. destruct (decide (handlers s = [])) as [Hh|]; [left|by right].
    destruct (watch_settled s Hr Hh Hd) as [sg Hs]. cbn [watch] in Hs. unfold watcher_step in Hs. rewrite Hw in Hs.
    destruct (woken s); [done|]. congruence.
  - pose proof (so_done s (sig_reachable_ok s Hr)) as H8. destruct (watcher s); split; try congruence; try (by intros [? ?]).
    + intros _. eauto.
    + intros _. by destruct H8.
  - intros sg Hw. by apply done_cancelled.
Qed.

(** A SIGINT that arrives while the watcher is between its second check and
    its suspension. *)
Definition demo_sig : SigState :=
  MkSigState false true true false true false [] W_suspended [SIGINT].

Lemma demo_sig_reachable : sig_reachable demo_sig.
Proof.
  unfold sig_reachable.
  do 4 (eapply rtc_l; [apply Step_watcher; reflexivity|]). cbn.
  eapply rtc_l; [apply (Step_deliver SIGINT)|].
  eapply rtc_l; [apply Step_watcher; reflexivity|]. cbn.
  do 3 (eapply rtc_l; [apply (Step_handler 0); reflexivity|]). cbn. apply rtc_refl.
Qed.

Lemma signal_not_lost_witness :
  ∃ sg, sg ∈ [SIGINT] ∧ watcher (watch 6 demo_sig) = W_done sg ∧ cancelled (watch 6 demo_sig) = true.
Proof.
  destruct (signal_not_lost demo_sig demo_sig_reachable) as [H _].
  destruct (H ltac:(discriminate)) as [_ H']. exact H'.
Defined.
