(* ===== verification/Sandbox.v ===== *)
(** * The Landlock sandbox: [src/sandbox.rs] and [apply_sandbox] of [src/daemon.rs]

    The rules handed to the kernel, in the order they are added, with every
    early return.  The [landlock] crate and the kernel are a record of their
    answers ([Landlock]); what a set of rules permits is [allowed], the
    documented meaning of path-beneath and port rules. *)

From S2P Require Import Prelude Identity Psk AtomicFs Config State Events.

(** ** Rules *)

Inductive AccessFs := ReadFile | ReadDir | WriteFile | MakeReg | RemoveFile | Truncate | Refer.
#[export] Instance AccessFs_eq_dec : EqDecision AccessFs.
Proof. solve_decision. Defined.
#[export] Instance Path_eq_dec : EqDecision Path.
Proof. solve_decision. Defined.

(** [PathBeneath] on a file or on a directory, and [NetPort] with [ConnectTcp]. *)
Inductive Rule :=
| Rule_file (f : Path) (bits : list AccessFs)
| Rule_dir (d : bytes) (bits : list AccessFs)
| Rule_connect (port : Z).

Record SandboxPaths := MkSandboxPaths {
  read_files : list Path;
  read_dirs : list bytes;
  resolv_files : list Path;
  write_parent_dirs : list bytes;
}.

Inductive SandboxStatus := S_Off | S_FullyEnforced | S_PartiallyEnforced | S_NotEnforced.
#[export] Instance SandboxStatus_eq_dec : EqDecision SandboxStatus.
Proof. solve_decision. Defined.

Definition SandboxStatus_display (s : SandboxStatus) : bytes :=
  match s with
  | S_Off => B "off"
  | S_FullyEnforced => B "fully_enforced"
  | S_PartiallyEnforced => B "partially_enforced"
  | S_NotEnforced => B "not_enforced"
  end.

Record SandboxOutcome := MkSandboxOutcome {
  requested_abi : Z;
  status : SandboxStatus;
  sb_fs : bool;
  sb_tcp : bool;
  sb_scope : bool;
}.

Inductive RulesetStatus := RS_FullyEnforced | RS_PartiallyEnforced | RS_NotEnforced.

(** ** The kernel's answers *)

Inductive PathError := P_NotFound | P_Other.

(** [ll_open_*] is [PathFd::new]; the rest are the calls on the ruleset, by
    their error if any. *)
Record Landlock := MkLandlock {
  ll_open_file : Path → result PathError ();
  ll_open_dir : bytes → result PathError ();
  ll_handle_fs : option bytes;
  ll_handle_net : option bytes;
  ll_scope : option bytes;
  ll_create : option bytes;
  ll_add_rule : Rule → option bytes;
  ll_restrict : result bytes RulesetStatus;
}.

Inductive SandboxError :=
| SE_AbiUnavailable (e : bytes)
| SE_PathOpen (e : PathError)
| SE_Ruleset (e : bytes)
| SE_Restrict (e : bytes).

Definition classify_ruleset_err (level : SandboxMode) (e : bytes) : SandboxError :=
  match level with
  | Sandbox_Required => SE_AbiUnavailable e
  | Sandbox_BestEffort | Sandbox_Off => SE_Ruleset e
  end.

(** [.map_err(f)?] on a call that only fails or not. *)
Definition check_call {E} (f : bytes → E) (o : option bytes) : result E () :=
  match o with None => Ok () | Some e => Err (f e) end.

Definition write_bits : list AccessFs := [ReadFile; ReadDir; WriteFile; MakeReg; RemoveFile; Truncate; Refer].
Definition read_dir_bits : list AccessFs := [ReadFile; ReadDir].

Section apply.
Context (ll : Landlock).

Definition add_rule (r : Rule) : result SandboxError Rule :=
  _ ← check_call SE_Ruleset (ll_add_rule ll r); Ok r.

(** The four loops of [apply]: the rules added, or the error that ends it.  The
    [debug] events of skipped paths are left out. *)
Fixpoint add_read_files (fs : list Path) : result SandboxError (list Rule) :=
  match fs with
  | [] => Ok []
  | f :: fs =>
      _ ← map_err SE_PathOpen (ll_open_file ll f);
      r ← add_rule (Rule_file f [ReadFile]);
      rs ← add_read_files fs; Ok (r :: rs)
  end.

Fixpoint add_read_dirs (ds : list bytes) : result SandboxError (list Rule) :=
  match ds with
  | [] => Ok []
  | d :: ds =>
      match ll_open_dir ll d with
      | Err _ => add_read_dirs ds
      | Ok _ => r ← add_rule (Rule_dir d read_dir_bits); rs ← add_read_dirs ds; Ok (r :: rs)
      end
  end.

Fixpoint add_resolv_files (fs : list Path) : result SandboxError (list Rule) :=
  match fs with
  | [] => Ok []
  | f :: fs =>
      match ll_open_file ll f with
      | Ok _ => r ← add_rule (Rule_file f [ReadFile]); rs ← add_resolv_files fs; Ok (r :: rs)
      | Err P_NotFound => add_resolv_files fs
      | Err e => Err (SE_PathOpen e)
      end
  end.

Fixpoint add_write_dirs (ds : list bytes) : result SandboxError (list Rule) :=
  match ds with
  | [] => Ok []
  | d :: ds =>
      _ ← map_err SE_PathOpen (ll_open_dir ll d);
      r ← add_rule (Rule_dir d write_bits);
      rs ← add_write_dirs ds; Ok (r :: rs)
  end.

Definition status_of (s : RulesetStatus) : SandboxStatus :=
  match s with
  | RS_FullyEnforced => S_FullyEnforced
  | RS_PartiallyEnforced => S_PartiallyEnforced
  | RS_NotEnforced => S_NotEnforced
  end.

(** [apply]: the outcome and the rules the thread is restricted by ([None]:
    not restricted). *)
Definition sandbox_apply (level : SandboxMode) (paths : SandboxPaths) : result SandboxError (SandboxOutcome * option (list Rule)) :=
  match level with
  | Sandbox_Off => Ok (MkSandboxOutcome 0 S_Off false false false, None)
  | _ =>
      _ ← check_call (classify_ruleset_err level) (ll_handle_fs ll);
      _ ← check_call (classify_ruleset_err level) (ll_handle_net ll);
      _ ← check_call (classify_ruleset_err level) (ll_scope ll);
      _ ← check_call SE_Ruleset (ll_create ll);
      rs1 ← add_read_files (read_files paths);
      rs2 ← add_read_dirs (read_dirs paths);
      rs3 ← add_resolv_files (resolv_files paths);
      rs4 ← add_write_dirs (write_parent_dirs paths);
      rn ← add_rule (Rule_connect 443);
      st ← map_err SE_Restrict (ll_restrict ll);
      let st := status_of st in
      let fully := bool_decide (st = S_FullyEnforced) in
      Ok (MkSandboxOutcome 6 st fully fully fully, Some (rs1 ++ rs2 ++ rs3 ++ rs4 ++ [rn]))
  end.

End apply.

(** ** [apply_sandbox] *)

Definition etc_file (name : bytes) : Path := MkPath (Some (B "/etc")) (Some name).

(** [musl]: the target environment the binary was built for. *)
Definition nameservice_files (musl : bool) : list Path :=
  [etc_file (B "resolv.conf"); etc_file (B "hosts")] ++
  (if musl then [] else [etc_file (B "nsswitch.conf"); etc_file (B "gai.conf")]).

Definition urandom : Path := MkPath (Some (B "/dev")) (Some (B "urandom")).
Definition certs_dir : bytes := B "/etc/ssl/certs".

(** Errors of [apply_sandbox]: a path without parent, or the sandbox's own. *)
Inductive ApplyError := AE_NoParentDir (what : bytes) | AE_Sandbox (e : SandboxError).

Definition parent_or (what : bytes) (p : Path) : result ApplyError bytes := ok_or (AE_NoParentDir what) (parent p).

Definition sandbox_paths (musl : bool) (cfg : Config) : result ApplyError SandboxPaths :=
  let clients := clients_path (cfg_clients cfg) in
  let psks := psk_file (cfg_listen cfg) in
  d1 ← parent_or (B "clients.file") clients;
  d2 ← parent_or (B "listen.psk_file") psks;
  ds ← match pidfile (cfg_runtime cfg) with
       | None => Ok []
       | Some p => d ← parent_or (B "runtime.pidfile") p; Ok [d]
       end;
  Ok (MkSandboxPaths [clients; psks; urandom] (certs_dir :: extra_read_dirs (cfg_security cfg)) (nameservice_files musl) (d1 :: d2 :: ds)).

Definition SandboxMode_debug (m : SandboxMode) : bytes :=
  match m with Sandbox_Required => B "Required" | Sandbox_BestEffort => B "BestEffort" | Sandbox_Off => B "Off" end.

Definition show_bool (b : bool) : bytes := if b then B "true" else B "false".

Definition sandbox_event (m : SandboxMode) (o : SandboxOutcome) : Event :=
  let fields := [(B "policy", SandboxMode_debug m); (B "abi", show_u64 (requested_abi o));
                 (B "status", SandboxStatus_display (status o)); (B "fs", show_bool (sb_fs o));
                 (B "tcp", show_bool (sb_tcp o)); (B "scope", show_bool (sb_scope o))] in
  if decide (status o = S_FullyEnforced ∨ status o = S_Off) then log_info Ev_SandboxApplied fields else log_warn Ev_SandboxApplied fields.

Definition apply_sandbox (ll : Landlock) (musl : bool) (cfg : Config) : result ApplyError (option (list Rule) * Event) :=
  paths ← sandbox_paths musl cfg;
  '(outcome, rules) ← map_err AE_Sandbox (sandbox_apply ll (sandbox (cfg_security cfg)) paths);
  Ok (rules, sandbox_event (sandbox (cfg_security cfg)) outcome).

(** ** What the rules permit

    A rule is attached to what the kernel finds under the path it was given; a
    place is where that is in the file system, as the names from the root. *)

Abbreviation Place := (list bytes).

Section meaning.
(** Path resolution: the place of a directory and of a file. *)
Context (dir_place : bytes → Place) (file_place : Path → Place).

(** The directory itself or anything below it: the rule type is called
    path-beneath, and its hierarchy includes its root. *)
Definition beneath (d : bytes) (x : Place) : Prop := dir_place d `prefix_of` x.

Definition rule_allows (x : Place) (a : AccessFs) (r : Rule) : Prop :=
  match r with
  | Rule_file f bits => file_place f = x ∧ a ∈ bits
  | Rule_dir d bits => beneath d x ∧ a ∈ bits
  | Rule_connect _ => False
  end.

Definition allowed (rules : list Rule) (x : Place) (a : AccessFs) : Prop := Exists (rule_allows x a) rules.
End meaning.

Definition connects (rules : list Rule) (port : Z) : Prop := Rule_connect port ∈ rules.

(** ** Lemmas *)

Section loops.
Context (ll : Landlock).

Lemma add_rule_Ok r r' : add_rule ll r = Ok r' → r' = r.
Proof. unfold add_rule. intros Ha. by inv_ok. Qed.

Lemma add_read_files_Ok fs rs : add_read_files ll fs = Ok rs → rs = (λ f, Rule_file f [ReadFile]) <$> fs.
Proof.
  revert rs. induction fs as [|f fs IH]; intros rs; cbn [add_read_files]; [by intros [= <-]|]. intros Ha. inv_ok.
  match goal with E : add_rule _ _ = _ |- _ => apply add_rule_Ok in E as -> end. cbn. f_equal. by apply IH.
Qed.

Lemma add_write_dirs_Ok ds rs : add_write_dirs ll ds = Ok rs → rs = (λ d, Rule_dir d write_bits) <$> ds.
Proof.
  revert rs. induction ds as [|d ds IH]; intros rs; cbn [add_write_dirs]; [by intros [= <-]|]. intros Ha. inv_ok.
  match goal with E : add_rule _ _ = _ |- _ => apply add_rule_Ok in E as -> end. cbn. f_equal. by apply IH.
Qed.

Lemma add_read_dirs_Ok ds rs :
  add_read_dirs ll ds = Ok rs → rs = (λ d, Rule_dir d read_dir_bits) <$> filter (λ d, is_ok (ll_open_dir ll d) = true) ds.
Proof.
  revert rs. induction ds as [|d ds IH]; intros rs; cbn [add_read_dirs]; [by intros [= <-]|]. rewrite filter_cons.
  destruct (ll_open_dir ll d) as [u|e]; cbn [is_ok]; [rewrite decide_True by done|rewrite decide_False by done; apply IH].
  intros Ha. inv_ok. match goal with E : add_rule _ _ = _ |- _ => apply add_rule_Ok in E as -> end. cbn. f_equal. by apply IH.
Qed.

Lemma add_resolv_files_Ok fs rs :
  add_resolv_files ll fs = Ok rs → rs = (λ f, Rule_file f [ReadFile]) <$> filter (λ f, is_ok (ll_open_file ll f) = true) fs.
Proof.
  revert rs. induction fs as [|f fs IH]; intros rs; cbn [add_resolv_files]; [by intros [= <-]|]. rewrite filter_cons.
  destruct (ll_open_file ll f) as [u|[]]; cbn [is_ok]; [rewrite decide_True by done|rewrite decide_False by done; apply IH|done].
  intros Ha. inv_ok. match goal with E : add_rule _ _ = _ |- _ => apply add_rule_Ok in E as -> end. cbn. f_equal. by apply IH.
Qed.

(** The rules of a successful run, from the paths alone. *)
Lemma sandbox_apply_rules level paths o rules :
  sandbox_apply ll level paths = Ok (o, Some rules) →
  rules = ((λ f, Rule_file f [ReadFile]) <$> read_files paths) ++
          ((λ d, Rule_dir d read_dir_bits) <$> filter (λ d, is_ok (ll_open_dir ll d) = true) (read_dirs paths)) ++
          ((λ f, Rule_file f [ReadFile]) <$> filter (λ f, is_ok (ll_open_file ll f) = true) (resolv_files paths)) ++
          ((λ d, Rule_dir d write_bits) <$> write_parent_dirs paths) ++ [Rule_connect 443].
Proof.
  intros Ha. unfold sandbox_apply in Ha. destruct level; try done; inv_ok;
    repeat match goal with
    | E : add_read_files _ _ = _ |- _ => apply add_read_files_Ok in E as ->
    | E : add_read_dirs _ _ = _ |- _ => apply add_read_dirs_Ok in E as ->
    | E : add_resolv_files _ _ = _ |- _ => apply add_resolv_files_Ok in E as ->
    | E : add_write_dirs _ _ = _ |- _ => apply add_write_dirs_Ok in E as ->
    | E : add_rule _ _ = _ |- _ => apply add_rule_Ok in E as ->
    end; done.
Qed.

End loops.

Lemma Exists_fmap_elem {A C} (f : A → C) (P : C → Prop) l : Exists P (f <$> l) ↔ ∃ x, x ∈ l ∧ P (f x).
Proof. rewrite Exists_exists. setoid_rewrite list_elem_of_fmap. naive_solver. Qed.

Lemma is_ok_unit {E} (r : result E ()) : is_ok r = true ↔ r = Ok ().
Proof. destruct r as [[]|]; naive_solver. Qed.

Section confined.
Context (dir_place : bytes → Place) (file_place : Path → Place).
Abbreviation rule_allows := (rule_allows dir_place file_place).
Abbreviation allowed := (allowed dir_place file_place).
Abbreviation beneath := (beneath dir_place).

Lemma allowed_files x a fs :
  Exists (rule_allows x a) ((λ f, Rule_file f [ReadFile]) <$> fs) ↔ a = ReadFile ∧ ∃ f, f ∈ fs ∧ file_place f = x.
Proof. rewrite Exists_fmap_elem. cbn. setoid_rewrite list_elem_of_singleton. naive_solver. Qed.

Lemma allowed_dirs x a bits ds : Exists (rule_allows x a) ((λ d, Rule_dir d bits) <$> ds) ↔ a ∈ bits ∧ ∃ d, d ∈ ds ∧ beneath d x.
Proof. rewrite Exists_fmap_elem. cbn. naive_solver. Qed.

(** ** Properties *)

(** C24: the sandbox permits exactly what its table says.  When the daemon has
    restricted itself, and wherever the kernel finds the paths it was given: a
    file can be read if it is one of the two state files, [/dev/urandom] or a
    name service file that existed, or lies in a certificate or extra directory
    that existed; it can be created, written or replaced only in the directories
    of the state files and of the pidfile; these directories can be opened
    themselves, as the atomic write does to sync them; and connections go to
    port 443 only.  In particular the broker key and the App key are out of
    reach unless the configuration puts them there. *)
Theorem sandbox_confines ll musl cfg rules ev :
  apply_sandbox ll musl cfg = Ok (Some rules, ev) →
  let clients := clients_path (cfg_clients cfg) in
  let psks := psk_file (cfg_listen cfg) in
  let state_dir d := parent clients = Some d ∨ parent psks = Some d ∨
                     ∃ pf, pidfile (cfg_runtime cfg) = Some pf ∧ parent pf = Some d in
  (∀ x a, allowed rules x a ↔
     (a = ReadFile ∧ ∃ f, file_place f = x ∧
        (f = clients ∨ f = psks ∨ f = urandom ∨ (f ∈ nameservice_files musl ∧ ll_open_file ll f = Ok ()))) ∨
     (a ∈ read_dir_bits ∧ ∃ d, (d ∈ certs_dir :: extra_read_dirs (cfg_security cfg)) ∧ ll_open_dir ll d = Ok () ∧ beneath d x) ∨
     (a ∈ write_bits ∧ ∃ d, beneath d x ∧ state_dir d)) ∧
  (∀ d, state_dir d → allowed rules (dir_place d) ReadDir ∧ ∀ below a, a ∈ write_bits → allowed rules (dir_place d ++ below) a) ∧
  (∀ port, connects rules port ↔ port = 443).
Proof.
  intros Ha clients psks state_dir. unfold apply_sandbox, sandbox_paths, parent_or in Ha. fold clients psks in Ha. inv_ok.
  match goal with E : sandbox_apply _ _ _ = _ |- _ => apply sandbox_apply_rules in E as -> end. cbn [read_files read_dirs resolv_files write_parent_dirs].
  match goal with E1 : parent clients = Some ?x, E2 : parent psks = Some ?y |- _ => rename x into d1, y into d2, E1 into Hd1, E2 into Hd2 end.
  match goal with E : match pidfile _ with _ => _ end = Ok ?x |- _ => rename x into ds, E into Hds end.
  assert (∀ d, d ∈ ds ↔ ∃ pf, pidfile (cfg_runtime cfg) = Some pf ∧ parent pf = Some d) as Hpid.
  { intros d. destruct (pidfile (cfg_runtime cfg)) as [pf|].
    - inv_ok. rewrite list_elem_of_singleton. naive_solver.
    - injection Hds as <-. rewrite elem_of_nil. naive_solver. }
  set (rules := _ ++ _). assert (∀ x a, allowed rules x a ↔
     (a = ReadFile ∧ ∃ f, file_place f = x ∧
        (f = clients ∨ f = psks ∨ f = urandom ∨ (f ∈ nameservice_files musl ∧ ll_open_file ll f = Ok ()))) ∨
     (a ∈ read_dir_bits ∧ ∃ d, (d ∈ certs_dir :: extra_read_dirs (cfg_security cfg)) ∧ ll_open_dir ll d = Ok () ∧ beneath d x) ∨
     (a ∈ write_bits ∧ ∃ d, beneath d x ∧ state_dir d)) as Hall.
  { intros x a. unfold Sandbox.allowed, rules. rewrite !Exists_app, !allowed_files, !allowed_dirs, Exists_cons, Exists_nil. cbn [rule_allows].
    setoid_rewrite list_elem_of_filter. setoid_rewrite is_ok_unit. setoid_rewrite elem_of_cons. setoid_rewrite elem_of_cons.
    setoid_rewrite elem_of_cons. setoid_rewrite elem_of_nil. setoid_rewrite Hpid. unfold state_dir. rewrite Hd1, Hd2. naive_solver. }
  split; [exact Hall|]. split.
  - intros d Hd. split; [|intros below a Ha']; apply Hall; right; right; (split; [|exists d; split; [|exact Hd]]).
    + apply (bool_decide_unpack _). reflexivity.
    + unfold Sandbox.beneath. reflexivity.
    + exact Ha'.
    + by apply prefix_app_r.
  - intros port. unfold connects, rules. rewrite !elem_of_app, list_elem_of_singleton, !list_elem_of_fmap. naive_solver.
Qed.

End confined.

(** ** Witness *)

(** Places read off the text of absolute paths without links: the names between
    the slashes. *)
Definition text_place (d : bytes) : Place := filter (λ name, name ≠ []) (split_on x2f d).
Definition text_file_place (p : Path) : Place := text_place (default [] (parent p)) ++ option_list (file_name p).

(** A grant on a directory covers the directory, with or without a slash at its
    end, and a grant on the root covers everything. *)
Lemma text_beneath :
  beneath text_place (B "/var/lib/symbolon/") (text_place (B "/var/lib/symbolon")) ∧
  beneath text_place (B "/") (text_file_place (MkPath (Some (B "/etc")) (Some (B "hosts")))) ∧
  ¬ beneath text_place (B "/var/lib/symbolon") (text_place (B "/var/lib/symbolon2")).
Proof. unfold beneath. split_and!; apply (bool_decide_unpack _); vm_compute; reflexivity. Qed.

(** A kernel that supports everything and a file system where [missing] does
    not exist. *)
Definition demo_landlock (missing : list Path) : Landlock :=
  MkLandlock (λ p, if decide (p ∈ missing) then Err P_NotFound else Ok ()) (λ _, Ok ()) None None None None (λ _, None)
    (Ok RS_FullyEnforced).

Definition demo_rules : list Rule :=
  match apply_sandbox (demo_landlock []) true demo_config with Ok (Some rules, _) => rules | _ => [] end.
Definition demo_sandbox_event : Event :=
  match apply_sandbox (demo_landlock []) true demo_config with Ok (_, e) => e | _ => log_warn Ev_SandboxApplied [] end.

Definition demo_key_file : Path := MkPath (Some (B "/etc/symbolon")) (Some (B "app.pem")).

Lemma sandbox_confines_witness :
  allowed text_place text_file_place demo_rules (text_file_place demo_path) ReadFile ∧ connects demo_rules 443.
Proof.
  destruct (sandbox_confines text_place text_file_place (demo_landlock []) true demo_config demo_rules demo_sandbox_event)
    as (Hf & _ & Hn); [by vm_compute|].
  split; [|by apply Hn]. apply Hf. left. split; [done|]. exists demo_path. split; [done|]. right. left. reflexivity.
Defined.
