(* ===== verification/Startup.v ===== *)
(** * Start-up: [Service::prepare] of [src/daemon.rs]

    [prepare] as a program that records its effects in order (files read, the
    signing backend spawned, the sandbox closed, the actor thread started), so
    that what happens on which side of the sandbox is a statement about the
    record. *)

From S2P Require Import Prelude Identity Psk Transport AtomicFs Config State Github Events Connection RateLimit Sandbox Signals Broker Admin.

(** ** Programs with a record of effects *)

Inductive StartEffect :=
| E_read (p : Path)
| E_spawn (r : SpawnRequest)
| E_sandbox (rules : option (list Rule))
| E_thread                            (* [sandbox::spawn] of the backend's actor *)
| E_self_check
| E_provider.

Section startup.
Context {NZ : Noise} {HX : HexCodec} {FF : FileFormats} {GE : GithubEnv}.

(** The effects so far, and the result; [None] is a panic. *)
Definition M (A : Type) : Type := list StartEffect * option (result DaemonError A).
Definition m_ret {A} (a : A) : M A := ([], Some (Ok a)).
Definition m_of {A} (r : result DaemonError A) : M A := ([], Some r).
Definition m_panic {A} : M A := ([], None).
Definition m_tell (e : StartEffect) : M () := ([e], Some (Ok ())).
Definition m_bind {A C} (m : M A) (k : A → M C) : M C :=
  match m with
  | (tr, Some (Ok a)) => let '(tr2, r) := k a in (tr ++ tr2, r)
  | (tr, Some (Err e)) => (tr, Some (Err e))
  | (tr, None) => (tr, None)
  end.

Local Notation "'let*' x := m 'in' k" := (m_bind m (λ x, k)) (at level 10, x name, m at level 100, k at level 200).
Local Notation "'let*' ' x := m 'in' k" := (m_bind m (λ x, k)) (at level 10, x strict pattern, m at level 100, k at level 200).

(** What the environment answers while the daemon starts. *)
Record StartEnv := MkStartEnv {
  sv_fs : Fs;                                     (* the files *)
  sv_spawn : SpawnRequest → result DaemonError ();   (* current_exe, AgentSpawn::spawn, TpmSpawn::open *)
  sv_landlock : Landlock;
  sv_musl : bool;
  sv_thread : bool;                               (* the OS lets [sandbox::spawn] start the thread *)
  sv_self_check : result DaemonError ();          (* signer.self_check() *)
  sv_instant : Z;
}.

Record Acquired := MkAcquired { aq_mem : Mem; aq_broker_key : BrokerPrivateKey; aq_spawn : option SpawnRequest }.

Definition acquire (env : StartEnv) (cfg : Config) (spawn_backend : bool) : M Acquired :=
  let clients_file := clients_path (cfg_clients cfg) in
  let psks_file := psk_file (cfg_listen cfg) in
  let key_file := static_key_file (cfg_listen cfg) in
  let* _ := m_tell (E_read clients_file) in
  let* file := m_of (map_err (D_LoadClients clients_file) (load_clients_file (fs_read clients_file (sv_fs env)))) in
  let* clients := m_of (clients_try_from file) in
  let* _ := m_tell (E_read psks_file) in
  let* psks := m_of (load_psk_store psks_file (fs_read psks_file (sv_fs env))) in
  let* _ := m_tell (E_read key_file) in
  let* broker_key := m_of (load_broker_key key_file (fs_read key_file (sv_fs env))) in
  let* github_spawn :=
    match cfg_github cfg, spawn_backend with
    | Some gh, true =>
        match spawn_signing_backend gh with
        | None => m_panic
        | Some r => let* _ := m_tell (E_spawn r) in let* _ := m_of (sv_spawn env r) in m_ret (Some r)
        end
    | _, _ => m_ret None
    end in
  m_ret (MkAcquired (MkMem psks clients) broker_key github_spawn).

Definition DaemonError_of_apply (e : ApplyError) : DaemonError :=
  match e with AE_NoParentDir what => D_NoParentDir what | AE_Sandbox _ => D_Sandbox end.

(** [into_backend]: [sandbox::spawn(..).expect(..)] of the backend's actor
    thread, of the file backend and the TPM backend alike. *)
Definition into_backend (env : StartEnv) : M () := if sv_thread env then m_tell E_thread else m_panic.

(** [signer_override]: a live backend was injected. *)
Definition build_providers (env : StartEnv) (cfg : Config) (github_spawn : option SpawnRequest) (signer_override : bool) :
    M (list (ProviderKind * GitHubProvider)) :=
  match cfg_github cfg with
  | None => m_ret []
  | Some gh =>
      let* _ := if signer_override then m_ret ()
                else match github_spawn with None => m_panic | Some _ => into_backend env end in
      let* _ := m_tell E_self_check in
      let* _ := m_of (sv_self_check env) in
      let* provider := m_of (map_err (λ _, D_Github) (GitHubProvider_with_overrides gh None)) in
      let* _ := m_tell E_provider in
      m_ret [(Github, provider)]
  end.

Record Service := MkService {
  s_mem : Mem;
  s_providers : list (ProviderKind * GitHubProvider);
  s_broker_key : BrokerPrivateKey;
  s_broker_public : BrokerPublicKey;
  s_bucket : TokenBucket;
  s_psk_file_path : Path;
  s_clients_file_path : Path;
}.

Definition prepare_inner (env : StartEnv) (cfg : Config) (signer_override : bool) : M Service :=
  let* acq := acquire env cfg (negb signer_override) in
  let* ' (rules, _) := m_of (map_err DaemonError_of_apply (apply_sandbox (sv_landlock env) (sv_musl env) cfg)) in
  let* _ := m_tell (E_sandbox rules) in
  let* providers := build_providers env cfg (aq_spawn acq) signer_override in
  m_ret (MkService (aq_mem acq) providers (aq_broker_key acq) (derive_public (aq_broker_key acq))
           (TokenBucket_new UNKNOWN_IDENTITY_LOG_REFILL UNKNOWN_IDENTITY_LOG_BURST_TOLERANCE (sv_instant env))
           (psk_file (cfg_listen cfg)) (clients_path (cfg_clients cfg))).

(** The race with the shutdown token: cancelled after [n] effects, or not.  A
    panic comes first when its effects do. *)
Definition prepare_with_listeners (cancel : option nat) (env : StartEnv) (cfg : Config) (signer_override : bool) : M Service :=
  let '(tr, r) := prepare_inner env cfg signer_override in
  match cancel, r with
  | None, _ => (tr, r)
  | Some n, Some _ => (take n tr, Some (Err D_Cancelled))
  | Some n, None => if decide (n < length tr)%nat then (take n tr, Some (Err D_Cancelled)) else (tr, None)
  end.

(** ** [take_env_listeners] *)

(** What [ListenFd::from_env] holds: the number of slots, and for the two slots
    the answer of [take_*] and of the wrapping. *)
Record ListenFds := MkListenFds {
  lf_len : Z;
  lf_tcp : result IoError (option ());
  lf_tcp_wrap : result IoError ();
  lf_unix : result IoError (option ());
  lf_unix_wrap : result IoError ();
}.

Definition take_env_listeners (lfd : ListenFds) : result DaemonError () :=
  if lf_len lfd =? 0 then Err (D_EnvFdTake (B "LISTEN_FDS unset — daemon requires systemd .socket or systemfd wrapper"))
  else
    t ← map_err (λ _, D_EnvFdTake (B "slot 0 (TCP wire) take failed")) (lf_tcp lfd);
    _ ← ok_or (D_EnvFdTake (B "slot 0 (TCP wire) missing or wrong socket type")) t;
    _ ← map_err (λ _, D_EnvFdTake (B "slot 0 (TCP wire) compio wrap failed")) (lf_tcp_wrap lfd);
    u ← map_err (λ _, D_EnvFdTake (B "slot 1 (admin UDS) take failed")) (lf_unix lfd);
    _ ← ok_or (D_EnvFdTake (B "slot 1 (admin UDS) missing or wrong socket type")) u;
    _ ← map_err (λ _, D_EnvFdTake (B "slot 1 (admin UDS) compio wrap failed")) (lf_unix_wrap lfd);
    Ok ().

Definition prepare (lfd : ListenFds) (cancel : option nat) (env : StartEnv) (cfg : Config) : M Service :=
  let* _ := m_of (take_env_listeners lfd) in
  prepare_with_listeners cancel env cfg false.

(** ** The phases *)

Definition acquires (e : StartEffect) : bool := match e with E_read _ | E_spawn _ => true | _ => false end.
Definition seals (e : StartEffect) : bool := match e with E_thread | E_self_check | E_provider => true | _ => false end.

(** Acquisition, then, if it is reached, the sandbox, then the rest. *)
Definition phased (tr : list StartEffect) : Prop :=
  ∃ pre post, tr = pre ++ post ∧ Forall (λ e, acquires e = true) pre ∧
    (post = [] ∨ ∃ rules rest, post = E_sandbox rules :: rest ∧ Forall (λ e, seals e = true) rest).

Lemma m_bind_Forall {A C} (P : StartEffect → Prop) (m : M A) (k : A → M C) :
  Forall P m.1 → (∀ a, Forall P (k a).1) → Forall P (m_bind m k).1.
Proof.
  intros Hm Hk. destruct m as [tr [[a|e]|]]; cbn in *; try done. specialize (Hk a). destruct (k a). cbn. by apply Forall_app.
Qed.

Lemma m_of_Forall {A} (P : StartEffect → Prop) (r : result DaemonError A) : Forall P (m_of r).1.
Proof. constructor. Qed.

Lemma m_tell_Forall (P : StartEffect → Prop) e : P e → Forall P (m_tell e).1.
Proof. by repeat constructor. Qed.

Lemma acquire_effects env cfg b : Forall (λ e, acquires e = true) (acquire env cfg b).1.
Proof.
  unfold acquire. repeat (apply m_bind_Forall; [first [apply m_of_Forall|by apply m_tell_Forall]|intros ?]).
  apply m_bind_Forall; [|intros; constructor].
  destruct (cfg_github cfg) as [gh|]; [|constructor]. destruct b; [|constructor].
  destruct (spawn_signing_backend gh); [|constructor].
  repeat (apply m_bind_Forall; [first [apply m_of_Forall|by apply m_tell_Forall]|intros ?]). constructor.
Qed.

Lemma build_effects env cfg sp ov : Forall (λ e, seals e = true) (build_providers env cfg sp ov).1.
Proof.
  unfold build_providers. destruct (cfg_github cfg) as [gh|]; [|constructor].
  apply m_bind_Forall; [destruct ov; [constructor|]; destruct sp; [|constructor]; unfold into_backend; destruct (sv_thread env);
    [by apply m_tell_Forall|constructor]|intros _].
  repeat (apply m_bind_Forall; [first [apply m_of_Forall|by apply m_tell_Forall]|intros ?]). constructor.
Qed.

Lemma prepare_inner_phased env cfg ov : phased (prepare_inner env cfg ov).1.
Proof.
  unfold prepare_inner. pose proof (acquire_effects env cfg (negb ov)) as Ha.
  destruct (acquire env cfg (negb ov)) as [tr [[acq|e]|]]; cbn [m_bind].
  2,3: by exists tr, []; rewrite app_nil_r; auto.
  destruct (apply_sandbox (sv_landlock env) (sv_musl env) cfg) as [[rules ev]|e]; cbn [map_err m_of m_bind].
  2: exists tr, []; cbn; rewrite app_nil_r; auto.
  pose proof (build_effects env cfg (aq_spawn acq) ov) as Hb.
  destruct (build_providers env cfg (aq_spawn acq) ov) as [tr2 [[ps|e]|]]; cbn in *; eexists tr, _; (split; [done|]); (split; [done|]).
  all: right; eexists _, _; split; [reflexivity|]; by rewrite ?app_nil_r.
Qed.

Lemma phased_take n tr : phased tr → phased (take n tr).
Proof.
  intros (pre & post & -> & Hpre & Hpost). rewrite take_app. eexists _, _. split; [done|]. split; [by apply Forall_take|].
  destruct Hpost as [->|(rules & rest & -> & Hrest)]; [left; apply take_nil|].
  destruct (n - length pre)%nat as [|k]; [by left|]. right. cbn. eexists _, _. split; [done|]. by apply Forall_take.
Qed.

Lemma prepare_phased lfd cancel env cfg : phased (prepare lfd cancel env cfg).1.
Proof.
  unfold prepare. destruct (take_env_listeners lfd) as [[]|e]; cbn [m_of m_bind]; [|by exists [], []; auto].
  assert (phased (prepare_with_listeners cancel env cfg false).1) as Hp.
  { unfold prepare_with_listeners. pose proof (prepare_inner_phased env cfg false) as Hp. destruct (prepare_inner env cfg false) as [tr r].
    cbn in Hp. destruct cancel as [n|]; [|done]. destruct r; [by apply phased_take|]. case_decide; [by apply phased_take|done]. }
  by destruct (prepare_with_listeners cancel env cfg false).
Qed.

(** ** Results *)

Lemma m_bind_Ok {A C} (m : M A) (k : A → M C) tr c :
  m_bind m k = (tr, Some (Ok c)) → ∃ tr1 a tr2, m = (tr1, Some (Ok a)) ∧ k a = (tr2, Some (Ok c)) ∧ tr = tr1 ++ tr2.
Proof.
  destruct m as [tr1 [[a|e]|]]; cbn; try done. destruct (k a) as [tr2 r] eqn:E. intros [= <- ->]. by exists tr1, a, tr2.
Qed.

Lemma m_bind_no_panic {A C} (m : M A) (k : A → M C) :
  m.2 ≠ None → (∀ a, m.2 = Some (Ok a) → (k a).2 ≠ None) → (m_bind m k).2 ≠ None.
Proof. destruct m as [tr [[a|e]|]]; cbn; try done. intros _ Hk. specialize (Hk a eq_refl). by destruct (k a). Qed.

Lemma m_of_Ok {A} (r : result DaemonError A) tr a : m_of r = (tr, Some (Ok a)) → r = Ok a ∧ tr = [].
Proof. unfold m_of. by intros [= <- ->]. Qed.

Ltac m_inv :=
  repeat match goal with
  | H : m_bind _ _ = (_, Some (Ok _)) |- _ => apply m_bind_Ok in H as (? & ? & ? & ? & H & ?)
  | H : m_of _ = (_, Some (Ok _)) |- _ => apply m_of_Ok in H as [? ?]
  | H : m_tell _ = (_, Some (Ok _)) |- _ => injection H as ? ?
  | H : m_ret _ = (_, Some (Ok _)) |- _ => injection H as ? ?
  end; subst; inv_ok.

(** What was acquired is what is on disk. *)
Lemma acquire_Ok env cfg b tr acq :
  acquire env cfg b = (tr, Some (Ok acq)) →
  acquire_tables (psk_file (cfg_listen cfg)) (clients_path (cfg_clients cfg)) (sv_fs env) = Ok (aq_mem acq) ∧
  load_broker_key (static_key_file (cfg_listen cfg)) (fs_read (static_key_file (cfg_listen cfg)) (sv_fs env)) = Ok (aq_broker_key acq) ∧
  (b = true → ∀ gh, cfg_github cfg = Some gh → aq_spawn acq = spawn_signing_backend gh ∧ aq_spawn acq ≠ None).
Proof.
  unfold acquire, acquire_tables. intros Ha. m_inv. cbn [aq_mem aq_broker_key aq_spawn].
  repeat match goal with E : ?l = Ok _ |- context [?l] => rewrite E; cbn [map_err mbind result_bind] end.
  split; [done|]. split; [done|]. intros -> gh Hgh. rewrite Hgh in *.
  destruct (spawn_signing_backend gh) as [r|]; [|done]. m_inv. done.
Qed.

Lemma acquire_no_panic env cfg b text :
  Config_parse text = Ok cfg → (acquire env cfg b).2 ≠ None.
Proof.
  intros Hc. unfold acquire. repeat (apply m_bind_no_panic; [done|intros ? _]).
  apply m_bind_no_panic; [|done]. destruct (cfg_github cfg) as [gh|] eqn:Hgh; [|done]. destruct b; [|done].
  destruct (Config_parse_spawns _ _ _ Hc Hgh) as [r ->]. repeat (apply m_bind_no_panic; [done|intros ? _]). done.
Qed.

(** A bind panics in its first part or in its second. *)
Lemma m_bind_panic {A C} (m : M A) (k : A → M C) :
  (m_bind m k).2 = None → m.2 = None ∨ ∃ tr a, m = (tr, Some (Ok a)) ∧ (k a).2 = None ∧ (m_bind m k).1 = tr ++ (k a).1.
Proof. destruct m as [tr [[a|e]|]]; cbn; [|done|by left]. intros Hk. right. exists tr, a. by destruct (k a). Qed.

(** Only the thread of the signing backend can make the providers panic. *)
Lemma build_panic env cfg sp :
  (∀ gh, cfg_github cfg = Some gh → sp ≠ None) → (build_providers env cfg sp false).2 = None →
  sv_thread env = false ∧ is_Some (cfg_github cfg).
Proof.
  intros Hsp. unfold build_providers. destruct (cfg_github cfg) as [gh|]; [|done].
  destruct sp as [r|]; [|by destruct (Hsp gh eq_refl)]. unfold into_backend. destruct (sv_thread env); [|by split; [|eexists]].
  intros Hp. exfalso. revert Hp. repeat (apply m_bind_no_panic; [done|intros ? _]). done.
Qed.

(** What a panic of [prepare] means: the sandbox is in place, a provider is
    configured and its thread could not be started. *)
Definition thread_failed (env : StartEnv) (cfg : Config) (tr : list StartEffect) : Prop :=
  sv_thread env = false ∧ is_Some (cfg_github cfg) ∧ ∃ pre rules, tr = pre ++ [E_sandbox rules].

Lemma build_panic_silent env cfg sp : (build_providers env cfg sp false).2 = None → (build_providers env cfg sp false).1 = [].
Proof.
  unfold build_providers. destruct (cfg_github cfg) as [gh|]; [|done]. destruct sp as [r|]; [|done]. unfold into_backend.
  destruct (sv_thread env); [|done]. intros Hp. exfalso. revert Hp. repeat (apply m_bind_no_panic; [done|intros ? _]). done.
Qed.

Lemma prepare_inner_panic env cfg text tr :
  Config_parse text = Ok cfg → prepare_inner env cfg false = (tr, None) → thread_failed env cfg tr.
Proof.
  intros Hc Hp. assert ((prepare_inner env cfg false).2 = None ∧ (prepare_inner env cfg false).1 = tr) as [H2 <-] by by rewrite Hp.
  clear Hp. unfold prepare_inner in *. apply m_bind_panic in H2 as [H2|(tr1 & acq & Ha & H2 & ->)]; [by apply acquire_no_panic with (text:=text) in H2|].
  apply m_bind_panic in H2 as [H2|(tr2 & [rules ev] & Hs & H2 & ->)]; [done|]. apply m_of_Ok in Hs as [_ ->].
  apply m_bind_panic in H2 as [H2|(tr3 & [] & Ht & H2 & ->)]; [done|]. injection Ht as <-.
  apply m_bind_panic in H2 as [H2|(tr4 & ps & _ & H2 & _)]; [|done]. apply acquire_Ok in Ha as (_ & _ & Hsp).
  pose proof (build_panic_silent _ _ _ H2) as Hsil. apply build_panic in H2 as [H2 H3]; [|intros gh Hgh; by destruct (Hsp eq_refl gh Hgh)].
  split; [done|]. split; [done|]. exists tr1, rules. destruct (build_providers env cfg (aq_spawn acq) false) as [tr5 [[]|]]; cbn in *; by subst.
Qed.

Lemma build_providers_Ok env cfg sp tr ps :
  build_providers env cfg sp false = (tr, Some (Ok ps)) →
  match cfg_github cfg with
  | None => ps = []
  | Some gh => ∃ p, GitHubProvider_with_overrides gh None = Ok p ∧ ps = [(Github, p)] ∧ sv_self_check env = Ok () ∧ E_thread ∈ tr
  end.
Proof.
  unfold build_providers. destruct (cfg_github cfg) as [gh|]; [|by intros [= _ <-]].
  destruct sp as [r|]; [|done]. unfold into_backend. destruct (sv_thread env); [|done]. intros Hb. m_inv. eexists. split; [done|]. split; [done|].
  match goal with E : sv_self_check _ = Ok ?u |- _ => destruct u end. split; [done|]. cbn. by left.
Qed.

(** What a prepared service holds. *)
Lemma prepare_inner_Ok env cfg tr sv :
  prepare_inner env cfg false = (tr, Some (Ok sv)) →
  acquire_tables (psk_file (cfg_listen cfg)) (clients_path (cfg_clients cfg)) (sv_fs env) = Ok (s_mem sv) ∧
  load_broker_key (static_key_file (cfg_listen cfg)) (fs_read (static_key_file (cfg_listen cfg)) (sv_fs env)) = Ok (s_broker_key sv) ∧
  s_broker_public sv = derive_public (s_broker_key sv) ∧
  match cfg_github cfg with
  | None => s_providers sv = []
  | Some gh => ∃ p, GitHubProvider_with_overrides gh None = Ok p ∧ s_providers sv = [(Github, p)] ∧ sv_self_check env = Ok () ∧ E_thread ∈ tr
  end.
Proof.
  unfold prepare_inner. intros Hp. apply m_bind_Ok in Hp as (tr1 & acq & tr2 & Ha & Hp & ->). apply acquire_Ok in Ha as (H1 & H2 & _).
  apply m_bind_Ok in Hp as (tr3 & [rules ev] & tr4 & _ & Hp & ->). apply m_bind_Ok in Hp as (tr5 & [] & tr6 & _ & Hp & ->).
  apply m_bind_Ok in Hp as (tr7 & ps & tr8 & Hb & Hp & ->). injection Hp as <- <-. cbn. split_and!; [done..|].
  apply build_providers_Ok in Hb. destruct (cfg_github cfg) as [gh|]; [|done].
  destruct Hb as (p & ? & ? & ? & ?). exists p. split_and!; [done..|]. rewrite !elem_of_app. tauto.
Qed.

(** The listeners are there when both slots were taken. *)
Lemma take_env_listeners_Ok lfd :
  take_env_listeners lfd = Ok () → lf_len lfd ≠ 0 ∧ lf_tcp lfd = Ok (Some ()) ∧ lf_unix lfd = Ok (Some ()).
Proof.
  unfold take_env_listeners. case Z.eqb_spec; [done|]. intros Hn Ht. inv_ok.
  repeat match goal with u : () |- _ => destruct u end.
  repeat match goal with o : option () |- _ => destruct o as [[]|]; [|done] end. done.
Qed.

Lemma prepare_panic lfd cancel env content cfg tr :
  load_config content = Ok cfg → prepare lfd cancel env cfg = (tr, None) → thread_failed env cfg tr.
Proof.
  intros Hl. unfold load_config in Hl. inv_ok. unfold prepare. destruct (take_env_listeners lfd) as [[]|e]; cbn [m_of m_bind]; [|done].
  unfold prepare_with_listeners. pose proof (λ text, prepare_inner_panic env cfg text) as Hp.
  destruct (prepare_inner env cfg false) as [tr1 [r|]]; [by destruct cancel|].
  destruct cancel as [n|]; [case_decide; [done|]|]; intros [= <-]; by eapply Hp.
Qed.

(** ** Properties *)

(** C23: start-up.  With a configuration that was loaded, whatever the
    environment answers and whenever a shutdown cancels it: [prepare] reads
    files and spawns the signing backend only before the sandbox, and starts the
    actor thread, checks the backend and builds the provider only after it; it
    panics in one case only, when the sandbox is in place, a provider is
    configured and the operating system refuses the thread of its signing
    backend; and it returns a service only when the supervisor handed over both
    sockets, and that service holds exactly the client and PSK tables and the
    broker key that are on disk, with the matching public key, and a provider
    exactly when one is configured, whose backend's thread was started and which
    passed its self-check. *)
Theorem startup_sequence lfd cancel env content cfg :
  load_config content = Ok cfg →
  ∃ tr r, prepare lfd cancel env cfg = (tr, r) ∧ phased tr ∧
    (r = None → sv_thread env = false ∧ is_Some (cfg_github cfg) ∧ ∃ pre rules, tr = pre ++ [E_sandbox rules]) ∧
    ∀ sv, r = Some (Ok sv) →
      lf_len lfd ≠ 0 ∧ lf_tcp lfd = Ok (Some ()) ∧ lf_unix lfd = Ok (Some ()) ∧
      acquire_tables (psk_file (cfg_listen cfg)) (clients_path (cfg_clients cfg)) (sv_fs env) = Ok (s_mem sv) ∧
      load_broker_key (static_key_file (cfg_listen cfg)) (fs_read (static_key_file (cfg_listen cfg)) (sv_fs env)) = Ok (s_broker_key sv) ∧
      s_broker_public sv = derive_public (s_broker_key sv) ∧
      match cfg_github cfg with
      | None => s_providers sv = []
      | Some gh => ∃ p, GitHubProvider_with_overrides gh None = Ok p ∧ s_providers sv = [(Github, p)] ∧
                        sv_self_check env = Ok () ∧ (E_thread ∈ tr)
      end.
Proof.
  intros Hl. pose proof (prepare_phased lfd cancel env cfg) as Hph. pose proof (λ tr, prepare_panic lfd cancel env _ _ tr Hl) as Hpanic.
  destruct (prepare lfd cancel env cfg) as [tr r] eqn:Ep. exists tr, r. split; [done|]. split; [done|].
  split; [intros ->; by apply Hpanic|]. intros sv ->.
  unfold prepare in Ep. pose proof (take_env_listeners_Ok lfd) as Hlf. destruct (take_env_listeners lfd) as [[]|e]; [|done].
  destruct (Hlf eq_refl) as (? & ? & ?). do 3 (split; [done|]). cbn [m_of m_bind] in Ep. unfold prepare_with_listeners in Ep.
  apply prepare_inner_Ok. destruct (prepare_inner env cfg false) as [tr1 [r|]]; destruct cancel as [n|]; [done|done|by case_decide|done].
Qed.

End startup.

(** ** Witness and a fresh deployment *)

(** Everything in place but the PSK file. *)
Definition fresh_disk : Fs :=
  <[(B "/etc/symbolon", B "static.key") := hex_encode_model (priv_bytes demo_key)]> demo_fs.

Definition start_env (missing : list Path) : @StartEnv hex_model formats_model :=
  MkStartEnv fresh_disk (λ _, Ok ()) (demo_landlock missing) true true (Ok ()) 0.

Definition demo_listen : ListenFds := MkListenFds 2 (Ok (Some ())) (Ok ()) (Ok (Some ())) (Ok ()).

Definition demo_prepare (missing : list Path) : list StartEffect * option (result (@DaemonError hex_model formats_model) Service) :=
  @prepare noise_model hex_model formats_model github_model demo_listen None (start_env missing) demo_config.

Definition started (x : option (result (@DaemonError hex_model formats_model) Service)) : bool :=
  match x with Some r => is_ok r | None => false end.

Lemma startup_sequence_witness :
  ∃ tr r, demo_prepare [] = (tr, r) ∧ phased tr ∧ started r = true ∧ ∀ sv, r = Some (Ok sv) → s_providers sv ≠ [].
Proof.
  destruct (@startup_sequence noise_model hex_model formats_model github_model demo_listen None (start_env [])
    (Ok (B "demo")) demo_config) as (tr & r & Hp & Hph & _ & Hok); [vm_compute; reflexivity|].
  exists tr, r. split; [exact Hp|]. split; [exact Hph|]. split.
  - assert (started (demo_prepare []).2 = true) as Hr by (vm_compute; reflexivity). unfold demo_prepare in Hr. rewrite Hp in Hr. exact Hr.
  - intros sv Hsv. destruct (Hok sv Hsv) as (_ & _ & _ & _ & _ & _ & p & _ & Hps & _). rewrite Hps. discriminate.
Defined.

(** When the thread cannot be started the same start-up panics. *)
Lemma thread_refused_panics :
  bool_decide ((@prepare noise_model hex_model formats_model github_model demo_listen None
    (MkStartEnv fresh_disk (λ _, Ok ()) (demo_landlock []) true false (Ok ()) 0) demo_config).2 = None) = true.
Proof. vm_compute. reflexivity. Qed.

(** A missing PSK file is an empty store for [acquire], but the sandbox wants
    to open it: the daemon does not start. *)
Lemma missing_psk_file_fatal :
  is_ok (load_psk_store (FF:=formats_model) (HX:=hex_model) demo_path (fs_read demo_path fresh_disk)) = true ∧
  (λ x, match x with Some (Err D_Sandbox) => true | _ => false end) (demo_prepare [demo_path]).2 = true.
Proof. vm_compute. split; reflexivity. Qed.
