(* ===== verification/Main.v ===== *)
(** * The process: [src/main.rs], [src/mlock.rs], [src/ready.rs], [Service::run] and [Service::selfcheck]

    From a loaded configuration to the exit code: locking memory, the shutdown
    watcher, [prepare], the start-up self-checks, readiness, the accept loop
    with its drain, and the argument handling of the admin subcommands. *)

From S2P Require Import Prelude Json Identity Psk Transport AtomicFs Config State Github Events Connection Sandbox Signals Tracker Broker Admin Startup.

(** ** [mlock::apply] *)

Definition MlockMode_debug (m : MlockMode) : bytes :=
  match m with Mlock_Required => B "Required" | Mlock_BestEffort => B "BestEffort" | Mlock_Off => B "Off" end.

Definition log_error (k : EventKind) (fields : list (bytes * bytes)) : Event := MkEvent Sev_error k fields.

(** [rc]: the error of [mlockall], if it fails. *)
Definition mlock_apply (mode : MlockMode) (rc : option bytes) : Event * result bytes () :=
  match mode with
  | Mlock_Off => (log_info Ev_Mlock [(B "status", B "off"); (B "policy", B "off")], Ok ())
  | _ =>
      match rc with
      | None => (log_info Ev_Mlock [(B "status", B "applied"); (B "policy", MlockMode_debug mode); (B "flags", B "current|future")], Ok ())
      | Some err =>
          match mode with
          | Mlock_Required => (log_error Ev_Mlock [(B "status", B "failed"); (B "policy", B "required"); (B "error", err)], Err err)
          | _ => (log_warn Ev_Mlock [(B "status", B "skipped"); (B "policy", B "best_effort"); (B "error", err)], Ok ())
          end
      end
  end.

(** How the log renders a path, an I/O error and the [Debug] form of a list of
    host names. *)
Class MainText := { show_path : Path → bytes; show_io : IoError → bytes; show_hosts : list bytes → bytes }.

(** ** [ready::notify] *)

(** The states of the disk and the events; [sd_notify] leaves neither. *)
Definition ready_notify {MT : MainText} (env : FsEnv) (pid : Z) (pidfile : option Path) (fs : Fs) : list Fs * list Event :=
  match pidfile with
  | None => ([fs], [])
  | Some path =>
      let '(fss, r) := atomic_write env path (show_u64 pid ++ [x0a]) fs in
      (fss, match r with
            | Ok _ => []
            | Err e => [log_warn Ev_ReadyPidfileWriteFailed [(B "path", show_path path); (B "error", show_io e)]]
            end)
  end.

Section main.
Context {NZ : Noise} {HX : HexCodec} {FF : FileFormats} {GE : GithubEnv} {LT : LogText HttpError} {AJ : AdminJson} {MT : MainText}.

(** ** [Service::selfcheck] *)

Definition selfcheck_event (p : @Provider HttpError GState) (r : result (ProviderError HttpError) SelfcheckOutcome) : Event :=
  match r with
  | Ok outcome =>
      log_info Ev_Selfcheck
        [(B "out_req_id", so_out_req_id outcome); (B "provider_req_id", default [] (so_provider_req_id outcome));
         (B "provider", pr_host p); (B "ok", B "true"); (B "clock_skew_sec", show_i64 (so_clock_skew_sec outcome))]
  | Err e => log_warn Ev_Selfcheck [(B "provider", pr_host p); (B "ok", B "false"); (B "error", show_provider_error e)]
  end.

(** [None]: a provider's self-check does not return. *)
Fixpoint Service_selfcheck (ps : list (@Provider HttpError GState)) (st : GState) : option (GState * list Event) :=
  match ps with
  | [] => Some (st, [])
  | p :: ps =>
      match pr_selfcheck p st with
      | (st, Ret r) => '(st, log) ← Service_selfcheck ps st; Some (st, selfcheck_event p r :: log)
      | (_, _) => None
      end
  end.

(** ** [Service::run] *)

Record RunStats := MkRunStats { rs_drain_ms : Z; rs_inflight_drained : Z; rs_drain_complete : bool }.

(** The accept loop of [run] and of [run_admin_loop]: [accepts] are the results
    of [accept] until the shutdown token is cancelled, if it ever is.  The
    connections handed to the tracker, and how the loop ends ([None]: it goes
    on). *)
Fixpoint accept_loop {E} (wrap : IoError → E) (accepts : list (result IoError ())) (cancelled : bool) (spawned : Z) :
    Z * option (result E ()) :=
  match accepts with
  | [] => (spawned, if cancelled then Some (Ok ()) else None)
  | Ok _ :: rest => accept_loop wrap rest cancelled (spawned + 1)
  | Err e :: _ => (spawned, Some (Err (wrap e)))
  end.

(** [run_admin_loop]: what its drain reports is dropped. *)
Definition run_admin_loop (accepts : list (result IoError ())) (cancelled : bool) : option (result AdminError ()) :=
  (accept_loop A_Accept accepts cancelled 0).2.

Definition startup_event (hosts : list bytes) (public : BrokerPublicKey) : Event :=
  log_info Ev_Startup [(B "providers", show_hosts hosts); (B "broker_public_key", BrokerPublicKey_to_string public)].

(** What happens around [run]: the accepts of both sockets before the token is
    cancelled, what [ConnectionTracker::drain] reports, and the time until the
    admin loop has been joined. *)
Record RunEnv := MkRunEnv {
  re_accepts : list (result IoError ());
  re_admin_accepts : list (result IoError ());
  re_drain : DrainStats;
  re_drain_ms : Z;
}.

(** The events, and what [run] returns ([None]: it goes on).  A failed admin
    loop is logged without an [evt] field and does not end [run]. *)
Definition Service_run (env : RunEnv) (hosts : list bytes) (public : BrokerPublicKey) (cancelled : bool) :
    list Event * option (result DaemonError RunStats) :=
  let started := startup_event hosts public in
  match (accept_loop D_Accept (re_accepts env) cancelled 0).2, run_admin_loop (re_admin_accepts env) cancelled with
  | None, _ => ([started], None)
  | Some (Err e), _ => ([started], Some (Err e))
  | Some (Ok _), None => ([started], None)
  | Some (Ok _), Some _ =>
      let drain := re_drain env in
      let drain_ms := Z.min (re_drain_ms env) u64_max in
      (started ::
         (if drain_complete drain then []
          else [log_warn Ev_DrainIncomplete [(B "inflight_drained", show_u64 (inflight_drained drain)); (B "drain_ms", show_u64 drain_ms)]]),
       Some (Ok (MkRunStats drain_ms (inflight_drained drain) (drain_complete drain))))
  end.

(** ** [run_daemon] *)

Record MainEnv := MkMainEnv {
  me_config : result IoError bytes;            (* reading config.toml *)
  me_mlock : option bytes;
  me_register : option bytes;                  (* registering the signal handlers *)
  me_listen : ListenFds;
  me_cancel : option nat;                      (* a signal that cancels [prepare] *)
  me_start : StartEnv;
  me_pid : Z;
  me_fs_env : FsEnv;                           (* writing the pidfile *)
  me_run : RunEnv;
  me_signal : option Sig;                      (* the signal, if one ever arrives *)
}.

(** How the process ends: with an exit code, or killed by SIGABRT, which is what
    a panic of the release build does ([panic = "abort"] in Cargo.toml). *)
Inductive Ended := Exited (code : Z) | Aborted.

(** The events of [run_daemon], [selfcheck] and [run], and how the process ends
    ([None] while it lives). *)
Record DaemonRun := MkDaemonRun { dr_log : list Event; dr_exit : option Ended }.

Definition github_providers (sv : Service) : list (@Provider HttpError GState) := (λ kp, github_provider kp.2) <$> s_providers sv.

Definition bool_text (b : bool) : bytes := if b then B "true" else B "false".

(** The event after [run]; the error of [run] is that of [accept]. *)
Definition exit_event (sg : Sig) (r : result DaemonError RunStats) : Event :=
  match r with
  | Ok stats =>
      log_info Ev_Shutdown
        [(B "signal", Sig_name sg); (B "inflight_drained", show_u64 (rs_inflight_drained stats));
         (B "drain_ms", show_u64 (rs_drain_ms stats)); (B "drain_complete", bool_text (rs_drain_complete stats))]
  | Err _ => log_error Ev_RunFailed [(B "signal", Sig_name sg); (B "error", B "I/O error during accept")]
  end.

(** [service.run().await], then [shutdown_watcher.await]. *)
Definition run_to_exit (env : MainEnv) (hosts : list bytes) (public : BrokerPublicKey) : DaemonRun :=
  let '(log, r) := Service_run (me_run env) hosts public (bool_decide (me_signal env ≠ None)) in
  match r, me_signal env with
  | Some r, Some sg => MkDaemonRun (log ++ [exit_event sg r]) (Some (Exited (if is_ok r then 0 else 1)))
  | _, _ => MkDaemonRun log None
  end.

(** From the prepared service to the exit. *)
Definition serve_to_exit (env : MainEnv) (cfg : Config) (sv : Service) : DaemonRun :=
  match Service_selfcheck (github_providers sv) gs_new with
  | None => MkDaemonRun [] None
  | Some (_, checked) =>
      let '(_, notified) := ready_notify (me_fs_env env) (me_pid env) (pidfile (cfg_runtime cfg)) (sv_fs (me_start env)) in
      let ready := log_info Ev_Ready [(B "pid", show_u64 (me_pid env))] in
      let run := run_to_exit env (pr_host <$> github_providers sv) (s_broker_public sv) in
      MkDaemonRun (checked ++ notified ++ ready :: dr_log run) (dr_exit run)
  end.

(** [Display for MlockRequiredFailed] *)
Definition MlockRequiredFailed_display : bytes :=
  B "mlockall(MCL_CURRENT|MCL_FUTURE) failed (security.mlock = " ++ [x22] ++ B "required" ++ [x22] ++ B ")".

Definition run_daemon (env : MainEnv) : DaemonRun :=
  match load_config (me_config env) with
  | Err _ => MkDaemonRun [] (Some (Exited 1))
  | Ok cfg =>
      let '(locked, r) := mlock_apply (mlock (cfg_security cfg)) (me_mlock env) in
      match r with
      | Err _ => MkDaemonRun [locked; log_error Ev_MlockRequiredFailed [(B "error", MlockRequiredFailed_display)]] (Some (Exited 1))
      | Ok _ =>
          match me_register env with
          | Some e =>
              MkDaemonRun [locked; log_error Ev_SignalRegistrationFailed [(B "signal", B "SIGTERM/SIGINT"); (B "error", e)]] (Some (Exited 1))
          | None =>
              match (prepare (me_listen env) (me_cancel env) (me_start env) cfg).2 with
              | None => MkDaemonRun [locked] (Some Aborted)
              | Some (Err _) => MkDaemonRun [locked] (Some (Exited 1))
              | Some (Ok sv) => let run := serve_to_exit env cfg sv in MkDaemonRun (locked :: dr_log run) (dr_exit run)
              end
          end
      end
  end.

(** ** The admin subcommands *)

Inductive Subcommand :=
| Sub_Daemon
| Sub_Status
| Sub_List
| Sub_Pubkey
| Sub_Enroll (client : bytes) (note psk : option bytes)
| Sub_Revoke (client : bytes)
| Sub_Mint (client repo : bytes)
| Sub_Selfcheck.

Definition parse_client (client : bytes) : result Z Identity := map_err (λ _, 2) (Identity_parse client).

(** [Option::map(parse).transpose()] *)
Definition parse_opt {E A} (f : bytes → result E A) (o : option bytes) : result E (option A) :=
  match o with None => Ok None | Some b => a ← f b; Ok (Some a) end.

(** The arms of [async_main] for the admin subcommands: the command, or the
    exit code; [random] is [Psk::random()]. *)
Definition cli_command (random : result bytes Psk) (sub : Subcommand) : option (result Z CliCommand) :=
  match sub with
  | Sub_Daemon => None
  | Sub_Status => Some (Ok Cli_Status)
  | Sub_List => Some (Ok Cli_List)
  | Sub_Pubkey => Some (Ok Cli_Pubkey)
  | Sub_Enroll client note psk => Some (
      client ← parse_client client;
      note ← map_err (λ _, 2) (parse_opt Note_parse note);
      psk ← match psk with
            | Some hex => map_err (λ _, 2) (Psk_from_hex hex)
            | None => map_err (λ _, 1) random
            end;
      Ok (Cli_GithubEnroll client note psk))
  | Sub_Revoke client => Some (client ← parse_client client; Ok (Cli_GithubRevoke client))
  | Sub_Mint client repo => Some (client ← parse_client client; Ok (Cli_GithubMint client repo))
  | Sub_Selfcheck => Some (Ok Cli_GithubSelfcheck)
  end.

(** [run_cli]: the exit code, from what reading config.toml and [cli_dispatch]
    gave; an [i32] exit code is cut to [u8]. *)
Definition run_cli {E} (config : result IoError bytes) (dispatched : Config → result E Z) : Z :=
  match load_config config with
  | Err _ => 1
  | Ok cfg => match dispatched cfg with Ok code => code mod 256 | Err _ => 1 end
  end.

(** ** Lemmas *)

Lemma accept_loop_Ok {E} (wrap : IoError → E) accepts cancelled n :
  (accept_loop wrap accepts cancelled n).2 = Some (Ok ()) ↔ cancelled = true ∧ Forall (λ r, is_ok r = true) accepts.
Proof.
  revert n. induction accepts as [|[u|e] accepts IH]; intros n; cbn [accept_loop].
  - cbn. destruct cancelled; naive_solver.
  - rewrite IH, Forall_cons. cbn. tauto.
  - cbn. rewrite Forall_cons. cbn. split; [done|]. by intros (_ & ? & _).
Qed.

Lemma accept_loop_total {E} (wrap : IoError → E) accepts n : ∃ r, (accept_loop wrap accepts true n).2 = Some r.
Proof. revert n. induction accepts as [|[u|e] accepts IH]; intros n; cbn; eauto. Qed.

(** Until a signal the loop goes on, or an accept fails. *)
Lemma accept_loop_alive {E} (wrap : IoError → E) accepts n u : (accept_loop wrap accepts false n).2 ≠ Some (Ok u).
Proof. revert n. induction accepts as [|[v|e] accepts IH]; intros n; cbn; [done|apply IH|done]. Qed.

(** Once a signal arrives [run] returns, with [Ok] exactly when no accept of
    the listener has failed. *)
Lemma Service_run_cancelled env hosts public :
  (Forall (λ r, is_ok r = true) (re_accepts env) ∧
   ∃ stats, rs_drain_complete stats = drain_complete (re_drain env) ∧ rs_drain_ms stats ≤ u64_max ∧
     (Service_run env hosts public true).2 = Some (Ok stats) ∧
     ev_kind <$> (Service_run env hosts public true).1 = Ev_Startup :: (if drain_complete (re_drain env) then [] else [Ev_DrainIncomplete])) ∨
  (¬ Forall (λ r, is_ok r = true) (re_accepts env) ∧
   ∃ e, Service_run env hosts public true = ([startup_event hosts public], Some (Err (D_Accept e)))).
Proof.
  unfold Service_run, run_admin_loop.
  pose proof (accept_loop_Ok D_Accept (re_accepts env) true 0) as Hok.
  destruct (accept_loop_total D_Accept (re_accepts env) 0) as [r Hr]. rewrite Hr in *.
  destruct (accept_loop_total A_Accept (re_admin_accepts env) 0) as [ra ->]. destruct r as [[]|e].
  - left. split; [by apply Hok|]. eexists. split; [|split; [|split; [done|]]]; cbn; [done|lia|by destruct (drain_complete _)].
  - right. split; [naive_solver|]. clear Hok. revert Hr. generalize 0. induction (re_accepts env) as [|[u|e'] l IH]; intros n; cbn; [done|apply IH|].
    intros [= <-]. by eexists.
Qed.

Lemma run_to_exit_spec env hosts public :
  (dr_exit (run_to_exit env hosts public) = Some (Exited 0) ↔
     Forall (λ r, is_ok r = true) (re_accepts (me_run env)) ∧ me_signal env ≠ None) ∧
  (∀ x, dr_exit (run_to_exit env hosts public) = Some x → x = Exited 0 ∨ x = Exited 1) ∧
  (me_signal env ≠ None → ∃ x, dr_exit (run_to_exit env hosts public) = Some x) ∧
  (dr_exit (run_to_exit env hosts public) = Some (Exited 0) → ∃ sg, me_signal env = Some sg ∧
     ev_kind <$> dr_log (run_to_exit env hosts public) =
       Ev_Startup :: (if drain_complete (re_drain (me_run env)) then [] else [Ev_DrainIncomplete]) ++ [Ev_Shutdown]).
Proof.
  unfold run_to_exit. destruct (me_signal env) as [sg|].
  - rewrite bool_decide_true by done.
    destruct (Service_run_cancelled (me_run env) hosts public) as [(Hf & stats & _ & _ & Hr & Hl)|(Hf & e & ->)].
    + destruct (Service_run _ _ _ _) as [log r]. cbn in Hr, Hl. subst r. cbn. rewrite fmap_app, Hl. naive_solver.
    + cbn. naive_solver.
  - destruct (Service_run _ _ _ _) as [log [r|]]; cbn; naive_solver.
Qed.

(** The start-up self-checks never keep the daemon from serving. *)
Lemma Service_selfcheck_total I Q ps st :
  Forall (ProviderLaws I Q) ps → I st → ∃ st' log, Service_selfcheck ps st = Some (st', log) ∧ I st' ∧ length log = length ps.
Proof.
  intros Hps. revert st. induction Hps as [|p ps Hp _ IH]; intros st Hi; cbn [Service_selfcheck]; [by exists st, []|].
  destruct (pr_selfcheck p st) as [st1 o] eqn:E. destruct (selfcheck_returns _ _ _ Hi E) as [Hi1 [r ->]].
  destruct (IH st1 Hi1) as (st2 & log & -> & Hi2 & Hl). cbn. eexists _, _. split; [done|]. split; [done|]. cbn. by rewrite Hl.
Qed.

Lemma Service_selfcheck_kinds ps st st' log :
  Service_selfcheck ps st = Some (st', log) → ev_kind <$> log = replicate (length ps) Ev_Selfcheck.
Proof.
  revert st log. induction ps as [|p ps IH]; intros st log; cbn [Service_selfcheck]; [by intros [= _ <-]|].
  destruct (pr_selfcheck p st) as [st1 o]; destruct o as [r| |]; try done. destruct (Service_selfcheck ps st1) as [[st2 l]|] eqn:E; [|done].
  intros [= -> <-]. cbn. rewrite (IH _ _ E). by destruct r.
Qed.

Lemma ready_notify_kinds env pid pf fs :
  ev_kind <$> (ready_notify env pid pf fs).2 = [] ∨ ev_kind <$> (ready_notify env pid pf fs).2 = [Ev_ReadyPidfileWriteFailed].
Proof. unfold ready_notify. destruct pf as [p|]; [|by left]. destruct (atomic_write _ _ _ _) as [fss [u|e]]; cbn; auto. Qed.

Lemma mlock_apply_spec mode rc :
  ((mlock_apply mode rc).2 = Ok () ↔ (mode = Mlock_Required → rc = None)) ∧ ev_kind (mlock_apply mode rc).1 = Ev_Mlock.
Proof. destruct mode, rc; cbn; naive_solver. Qed.

Lemma selfcheck_serves lfd cancel env cfg sv :
  (prepare lfd cancel env cfg).2 = Some (Ok sv) → ∃ r, Service_selfcheck (github_providers sv) gs_new = Some r.
Proof.
  unfold prepare. destruct (take_env_listeners lfd) as [[]|]; [|done]. unfold prepare_with_listeners. cbn [m_of m_bind].
  destruct (prepare_inner env cfg false) as [tr r] eqn:E. intros Hr. assert (r = Some (Ok sv)) as ->.
  { destruct cancel as [n|], r as [r|]; cbn in Hr; try done. by case_decide. }
  apply prepare_inner_Ok in E as (_ & _ & _ & Hpr). unfold github_providers. destruct (cfg_github cfg) as [gh|].
  - destruct Hpr as (gp & _ & -> & _). cbn [fmap list_fmap snd].
    destruct (Service_selfcheck_total (github_inv gp) (scoped_credential gp) [github_provider gp] gs_new) as (st & log & Hs & _);
      [apply Forall_singleton, github_laws|apply (life_inv gp [])|]. by eexists.
  - rewrite Hpr. by eexists.
Qed.

(** What a prepared service logs and how it exits. *)
Lemma serve_to_exit_spec lfd cancel env cfg sv :
  (prepare lfd cancel (me_start env) cfg).2 = Some (Ok sv) →
  (dr_exit (serve_to_exit env cfg sv) = Some (Exited 0) ↔
     Forall (λ r, is_ok r = true) (re_accepts (me_run env)) ∧ me_signal env ≠ None) ∧
  (∀ x, dr_exit (serve_to_exit env cfg sv) = Some x → x = Exited 0 ∨ x = Exited 1) ∧
  (me_signal env ≠ None → ∃ x, dr_exit (serve_to_exit env cfg sv) = Some x) ∧
  (dr_exit (serve_to_exit env cfg sv) = Some (Exited 0) → ∃ notified,
     (notified = [] ∨ notified = [Ev_ReadyPidfileWriteFailed]) ∧
     ev_kind <$> dr_log (serve_to_exit env cfg sv) =
       replicate (length (s_providers sv)) Ev_Selfcheck ++ notified ++ [Ev_Ready; Ev_Startup] ++
       (if drain_complete (re_drain (me_run env)) then [] else [Ev_DrainIncomplete]) ++ [Ev_Shutdown]).
Proof.
  intros Hp. destruct (selfcheck_serves _ _ _ _ _ Hp) as ([st log] & Hs). pose proof (Service_selfcheck_kinds _ _ _ _ Hs) as Hk.
  unfold github_providers in Hk at 1. rewrite length_fmap in Hk. unfold serve_to_exit. rewrite Hs.
  pose proof (ready_notify_kinds (me_fs_env env) (me_pid env) (pidfile (cfg_runtime cfg)) (sv_fs (me_start env))) as Hn.
  destruct (ready_notify _ _ _ _) as [fss notified]. cbn [dr_log dr_exit snd] in *.
  destruct (run_to_exit_spec env (pr_host <$> github_providers sv) (s_broker_public sv)) as (H0 & H1 & H2 & H3).
  split; [done|]. split; [done|]. split; [done|]. intros Hx. destruct (H3 Hx) as (sg & _ & Hl). exists (ev_kind <$> notified). split; [done|].
  rewrite fmap_app, fmap_app, fmap_cons, Hk, Hl. done.
Qed.

(** ** Properties *)

(** C38: the exit code of the daemon.  It exits with 0 exactly when the
    configuration loads, memory locking does not fail where it is required, the
    signal handlers and [prepare] succeed, and a signal ends the accept loop
    before any accept of the listener fails: neither the provider self-checks
    nor the pidfile nor the admin socket can keep it from serving.  Otherwise it
    exits with 1 or, in one case, aborts: when the operating system refuses the
    thread of a configured provider's signing backend, whose start [expect]s it.
    Once a signal arrives it ends.  A daemon that exits with 0 has logged, in
    this order, the memory lock, one self-check per provider, its readiness, its
    start, the drain if it was cut short, and the shutdown. *)
Theorem daemon_exit env :
  (dr_exit (run_daemon env) = Some (Exited 0) ↔
     ∃ cfg sv, load_config (me_config env) = Ok cfg ∧
       (mlock (cfg_security cfg) = Mlock_Required → me_mlock env = None) ∧ me_register env = None ∧
       (prepare (me_listen env) (me_cancel env) (me_start env) cfg).2 = Some (Ok sv) ∧
       Forall (λ r, is_ok r = true) (re_accepts (me_run env)) ∧ me_signal env ≠ None) ∧
  (∀ x, dr_exit (run_daemon env) = Some x → x = Exited 0 ∨ x = Exited 1 ∨
     x = Aborted ∧ sv_thread (me_start env) = false ∧ ∃ cfg, load_config (me_config env) = Ok cfg ∧ is_Some (cfg_github cfg)) ∧
  (me_signal env ≠ None → ∃ x, dr_exit (run_daemon env) = Some x) ∧
  (dr_exit (run_daemon env) = Some (Exited 0) → ∃ checks notified,
     (notified = [] ∨ notified = [Ev_ReadyPidfileWriteFailed]) ∧
     ev_kind <$> dr_log (run_daemon env) =
       Ev_Mlock :: replicate checks Ev_Selfcheck ++ notified ++ [Ev_Ready; Ev_Startup] ++
       (if drain_complete (re_drain (me_run env)) then [] else [Ev_DrainIncomplete]) ++ [Ev_Shutdown]).
Proof.
  unfold run_daemon. destruct (load_config (me_config env)) as [cfg|e] eqn:El; [|naive_solver].
  pose proof (mlock_apply_spec (mlock (cfg_security cfg)) (me_mlock env)) as [Hml Hk].
  destruct (mlock_apply _ _) as [ev [[]|e]]; cbn [fst snd] in *; [|naive_solver].
  destruct (me_register env) as [e|]; [naive_solver|].
  pose proof (λ tr, prepare_panic (me_listen env) (me_cancel env) (me_start env) _ _ tr El) as Hpanic.
  destruct ((prepare (me_listen env) (me_cancel env) (me_start env) cfg).2) as [[sv|e]|] eqn:Ep; [|naive_solver|].
  2:{ destruct (prepare _ _ _ _) as [tr r] eqn:E in Hpanic, Ep. cbn in Ep. subst r. destruct (Hpanic tr eq_refl) as (Ht & Hg & _).
      cbn [dr_exit]. split; [|split; [|split; [by eexists|done]]].
      - split; [done|]. intros (cfg' & sv & [= <-] & _ & _ & Hp & _). by rewrite E in Hp.
      - intros x [= <-]. right; right. split; [done|]. split; [done|]. by exists cfg. }
  clear Hpanic. destruct (serve_to_exit_spec _ _ _ _ _ Ep) as (H0 & H1 & H2 & H3). cbn [dr_exit dr_log]. split; [rewrite H0; naive_solver|].
  split; [intros x Hx; destruct (H1 x Hx); auto|]. split; [done|]. intros Hx. destruct (H3 Hx) as (n & Hn & Hl). exists (length (s_providers sv)), n.
  split; [done|]. rewrite fmap_cons, Hk, Hl. done.
Qed.

(** A failing accept, and no signal: [run] has returned but the process waits
    for the watcher, with nothing accepting connections. *)
Lemma accept_error_hangs env e rest hosts public :
  re_accepts (me_run env) = Err e :: rest → me_signal env = None →
  (Service_run (me_run env) hosts public false).2 = Some (Err (D_Accept e)) ∧ dr_exit (run_to_exit env hosts public) = None.
Proof. intros Ha Hs. unfold run_to_exit, Service_run. rewrite Ha, Hs. done. Qed.

End main.

(** ** The admin subcommands send well-formed requests *)

Section cli.
Context {HX : HexCodec} {HXL : HexLaws}.

(** Arguments are UTF-8 strings. *)
Definition sub_utf8 (sub : Subcommand) : Prop :=
  match sub with
  | Sub_Enroll _ (Some note) _ => from_utf8 note = Ok note
  | Sub_Mint _ repo => from_utf8 repo = Ok repo
  | _ => True
  end.

Lemma parse_client_ok client id : parse_client client = Ok id → Identity_ok id.
Proof. unfold parse_client. intros H. inv_ok. match goal with E : Identity_parse _ = _ |- _ => apply Identity_parse_Ok in E as [-> ?] end. done. Qed.

Lemma cli_command_ok random sub command :
  sub_utf8 sub → (∀ p, random = Ok p → Psk_ok p) → cli_command random sub = Some (Ok command) → request_ok (to_request command).
Proof.
  intros Hu Hr. destruct sub as [| | | |client note psk|client|client repo|]; cbn [cli_command]; try done; try (by intros [= <-]).
  - intros [= Hc]. inv_ok. cbn. split; [by eapply parse_client_ok|]. split.
    + destruct psk as [hex|]; inv_ok; [by eapply Psk_from_hex_ok|by apply Hr].
    + intros n ->. destruct note as [note|]; [|done]. cbn in *. inv_ok. by eapply (Note_parse_spec note).
  - intros [= Hc]. inv_ok. cbn. by eapply parse_client_ok.
  - intros [= Hc]. inv_ok. cbn. split; [by eapply parse_client_ok|done].
Qed.

(** ** [async_main] *)

Definition DEFAULT_CONFIG_PATH : Path := MkPath (Some (B "/etc/symbolon")) (Some (B "config.toml")).

Record MainArgs := MkMainArgs { ma_config : option Path; ma_cmd : Subcommand }.

(** [argh::EarlyExit]: a text for the user, and whether it was asked for
    ([--help]) or the command line was wrong. *)
Record EarlyExit := MkEarlyExit { ee_output : bytes; ee_status : bool }.

(** What the process goes on to do: exit at once, or run the daemon or a client
    with a configuration file. *)
Inductive MainNext :=
| Next_exit (stdout stderr : bytes) (code : Z)
| Next_reject (code : Z)                        (* with a message on stderr *)
| Next_daemon (config_path : Path)
| Next_cli (config_path : Path) (command : CliCommand).

(** [from_args] is the grammar that [argh] derives for [Args]. *)
Definition async_main (from_args : bytes → list bytes → result EarlyExit MainArgs) (random : result bytes Psk)
    (argv : list bytes) : MainNext :=
  let cmd_name := default (B "symbolon") (head argv) in
  match from_args cmd_name (drop 1 argv) with
  | Err early =>
      if ee_status early then Next_exit (ee_output early) [] 0 else Next_exit [] (ee_output early) 2
  | Ok args =>
      let config_path := default DEFAULT_CONFIG_PATH (ma_config args) in
      match cli_command random (ma_cmd args) with
      | None => Next_daemon config_path
      | Some (Err code) => Next_reject code
      | Some (Ok command) => Next_cli config_path command
      end
  end.

(** What a command line leads to.  The daemon runs exactly for the subcommand
    [daemon]; an admin client runs only with a request whose fields have passed
    validation; a rejected argument exits with 2, a failing random generator
    with 1; and only a requested help text exits with 0 without doing anything. *)
Lemma async_main_spec from_args random argv :
  (∀ args, from_args (default (B "symbolon") (head argv)) (drop 1 argv) = Ok args → sub_utf8 (ma_cmd args)) →
  (∀ p, random = Ok p → Psk_ok p) →
  match async_main from_args random argv with
  | Next_daemon path => ∃ args, from_args (default (B "symbolon") (head argv)) (drop 1 argv) = Ok args ∧ ma_cmd args = Sub_Daemon ∧
      path = default DEFAULT_CONFIG_PATH (ma_config args)
  | Next_cli path command => request_ok (to_request command)
  | Next_reject code => code = 2 ∨ (code = 1 ∧ is_ok random = false)
  | Next_exit out err code => (code = 0 ∧ err = []) ∨ (code = 2 ∧ out = [])
  end.
Proof.
  intros Hu Hr. unfold async_main. destruct (from_args _ _) as [args|early]; [|destruct (ee_status early); auto].
  specialize (Hu _ eq_refl). destruct (cli_command random (ma_cmd args)) as [[command|code]|] eqn:Ec.
  - by eapply cli_command_ok.
  - destruct (ma_cmd args) as [| | | |client note psk|client|client repo|]; cbn [cli_command] in Ec; try done; injection Ec as Ec.
    + revert Ec. unfold parse_client. destruct (Identity_parse client); cbn; [|intros [= <-]; auto].
      destruct (parse_opt Note_parse note); cbn; [|intros [= <-]; auto].
      destruct psk as [hex|]; [destruct (Psk_from_hex hex)|destruct random]; cbn; try done; intros [= <-]; auto.
    + revert Ec. unfold parse_client. destruct (Identity_parse client); cbn; [done|]. intros [= <-]. auto.
    + revert Ec. unfold parse_client. destruct (Identity_parse client); cbn; [done|]. intros [= <-]. auto.
  - exists args. split; [done|]. split; [|done]. destruct (ma_cmd args); cbn in Ec; done.
Qed.

End cli.
