(* ===== verification/TestsText.v ===== *)
(** * The unit tests of the text formats

    The [#[test]] functions of [identity.rs], [note.rs], [psk_store.rs],
    [broker_key.rs] and [git_credential.rs], each transcribed as a boolean over
    the definitions of this development and evaluated.  The hex codec is the
    concrete [hex_model]. *)

From S2P Require Import Prelude Identity Psk GitCredential Transport.

(** [matches!(r, Ok(..))], [r.unwrap()] *)
Definition passes {E A} (r : result E A) (f : A → bool) : bool := match r with Ok a => f a | Err _ => false end.
(** [matches!(r.unwrap_err(), ..)] *)
Definition fails {E A} (r : result E A) (f : E → bool) : bool := match r with Ok _ => false | Err e => f e end.

Definition same (x y : bytes) : bool := bool_decide (x = y).
Definition same_byte (x y : byte) : bool := bool_decide (x = y).

(** [str::contains] *)
Fixpoint contains (needle hay : bytes) : bool :=
  same needle (take (length needle) hay) || match hay with [] => false | _ :: hay' => contains needle hay' end.

Definition rep (n : Z) (b : byte) : bytes := replicate (Z.to_nat n) b.

(** ** [identity.rs] *)

Definition identity_parse_accepts_valid_identities : bool :=
  forallb (λ id, is_ok (Identity_parse id)) [B "a"; B "dev-vm-1"; B "client.42"; B "a_b_c"; rep 64 x78].

Definition identity_parse_rejects_empty : bool :=
  fails (Identity_parse []) (λ e, match e with IdentityBadLen got => got =? 0 | _ => false end).

Definition identity_parse_rejects_too_long : bool :=
  fails (Identity_parse (rep (Identity_MAX_LEN + 1) x61))
    (λ e, match e with IdentityBadLen got => got =? Identity_MAX_LEN + 1 | _ => false end).

Definition identity_parse_rejects_bad_charset : bool :=
  forallb (λ '(id, bad), fails (Identity_parse id) (λ e, match e with IdentityBadCharset _ b => same_byte b bad | _ => false end))
    [(B "with space", x20); (B "has:colon", x3a); (B "has" ++ x0a :: B "lf", x0a); (B "has" ++ x0d :: B "cr", x0d);
     (B "has" ++ x00 :: B "nul", x00); (B "slash/path", x2f)].

Definition identity_parse_rejects_non_ascii : bool :=
  fails (Identity_parse ([xc3; xb6] ++ B "ver-" ++ [xc3; xa4] ++ B "scii"))
    (λ e, match e with IdentityBadCharset _ _ => true | _ => false end).

(** [Debug for Identity]; [Display] is the string itself. *)
Definition Identity_debug (id : Identity) : bytes := B "Identity(<redacted>)".

Definition identity_debug_is_redacted_display_is_not : bool :=
  passes (Identity_parse (B "dev-vm-1")) (λ id, same (Identity_debug id) (B "Identity(<redacted>)") && same (as_str id) (B "dev-vm-1")).

Definition identity_hashmap_lookup_by_str_via_borrow : bool :=
  passes (Identity_parse (B "alpha")) (λ alpha,
    let m : gmap Identity Z := <[alpha := 1]> ∅ in
    bool_decide (m !! MkIdentity (B "alpha") = Some 1) && bool_decide (m !! MkIdentity (B "beta") = None)).

Lemma identity_tests :
  forallb id [identity_parse_accepts_valid_identities; identity_parse_rejects_empty; identity_parse_rejects_too_long;
    identity_parse_rejects_bad_charset; identity_parse_rejects_non_ascii; identity_debug_is_redacted_display_is_not;
    identity_hashmap_lookup_by_str_via_borrow] = true.
Proof. vm_compute. reflexivity. Qed.

(** ** [note.rs] *)

Definition note_parse_accepts_typical_notes : bool :=
  forallb (λ s, is_ok (Note_parse s)) [B "a"; B "provisioned 2026-05-01"; B "hello world!"].

Definition note_parse_rejects_empty : bool :=
  fails (Note_parse []) (λ e, match e with NoteBadLen got => got =? 0 | _ => false end).

Definition note_parse_rejects_too_long : bool :=
  fails (Note_parse (rep (Note_MAX_LEN + 1) x61)) (λ e, match e with NoteBadLen got => got =? Note_MAX_LEN + 1 | _ => false end).

Definition note_parse_rejects_control_chars : bool :=
  forallb (λ '(s, bad), fails (Note_parse s) (λ e, match e with NoteBadControl _ ch => ch =? bad | _ => false end))
    [(B "has" ++ x0d :: B "cr", 13); (B "has" ++ x0a :: B "lf", 10); (B "has" ++ x00 :: B "nul", 0);
     (B "has" ++ x07 :: B "bel", 7); (B "has" ++ x7f :: B "del", 0x7f); (B "has" ++ [xc2; x85] ++ B "nel", 0x85)].

Definition note_parse_accepts_non_ascii_text : bool :=
  forallb (λ s, is_ok (Note_parse s))
    [B "caf" ++ [xc3; xa9]; [xe6; x97; xa5; xe6; x9c; xac; xe8; xaa; x9e]; [xf0; x9f; xa6; x80] ++ B " rust"].

Lemma note_tests :
  forallb id [note_parse_accepts_typical_notes; note_parse_rejects_empty; note_parse_rejects_too_long;
    note_parse_rejects_control_chars; note_parse_accepts_non_ascii_text] = true.
Proof. vm_compute. reflexivity. Qed.

(** ** [psk_store.rs] *)

#[local] Existing Instance hex_model.

Definition ident (s : bytes) : Identity := MkIdentity s.
Definition hex_str (p : Psk) : bytes := Psk_lower_hex p.
Definition psk_a : Psk := MkPsk (rep 32 xaa).
Definition psk_b : Psk := MkPsk (rep 32 xbb).
Definition looks_up (s : PskStore) (id : bytes) (p : option Psk) : bool := bool_decide (PskStore_lookup s (ident id) = p).

Definition psk_parse_empty_returns_empty_store : bool :=
  passes (PskStore_parse []) (λ store, looks_up store (B "anything") None).

Definition psk_parse_round_trip : bool :=
  let store := PskStore_insert (PskStore_insert PskStore_new (ident (B "alpha")) psk_a) (ident (B "beta")) psk_b in
  let rendered := PskStore_render (map_to_list (entries store)) in
  passes (PskStore_parse rendered) (λ reparsed, looks_up reparsed (B "alpha") (Some psk_a) && looks_up reparsed (B "beta") (Some psk_b)).

Definition psk_parse_skips_blank_lines : bool :=
  passes (PskStore_parse (unlines [[]; []; B "alpha:" ++ hex_str psk_a; []; []; B "beta:" ++ hex_str psk_b]))
    (λ store, looks_up store (B "alpha") (Some psk_a) && looks_up store (B "beta") (Some psk_b)).

Definition psk_parse_handles_crlf_line_endings : bool :=
  passes (PskStore_parse (B "alpha:" ++ hex_str psk_a ++ [x0d; x0a])) (λ store, looks_up store (B "alpha") (Some psk_a)).

Definition psk_parse_rejects_missing_separator : bool :=
  fails (PskStore_parse (unlines [B "alpha-without-colon"])) (λ e, match e with PskMissingSeparator line => line =? 1 | _ => false end).

Definition psk_parse_rejects_bad_identity_charset : bool :=
  fails (PskStore_parse (unlines [B "bad ident:" ++ hex_str psk_a]))
    (λ e, match e with PskBadIdentity line (IdentityBadCharset _ b) => (line =? 1) && same_byte b x20 | _ => false end).

Definition psk_parse_rejects_empty_identity : bool :=
  fails (PskStore_parse (unlines [B ":" ++ hex_str psk_a]))
    (λ e, match e with PskBadIdentity line (IdentityBadLen got) => (line =? 1) && (got =? 0) | _ => false end).

Definition psk_parse_rejects_short_hex : bool :=
  fails (PskStore_parse (unlines [B "alpha:abcd"])) (λ e, match e with PskBadPskHex line InvalidStringLength => line =? 1 | _ => false end).

Definition psk_parse_rejects_non_hex_chars : bool :=
  fails (PskStore_parse (unlines [B "alpha:" ++ rep 64 x67]))
    (λ e, match e with PskBadPskHex line (InvalidHexCharacter c) => (line =? 1) && same_byte c x67 | _ => false end).

Definition psk_parse_rejects_duplicate_identity : bool :=
  fails (PskStore_parse (unlines [B "alpha:" ++ hex_str psk_a; B "alpha:" ++ hex_str psk_b]))
    (λ e, match e with PskDuplicateIdentity line _ => line =? 2 | _ => false end).

Definition psk_insert_then_remove_then_lookup : bool :=
  let s := PskStore_insert PskStore_new (ident (B "x")) psk_a in
  let '(s1, removed) := PskStore_remove s (ident (B "x")) in
  let '(s2, again) := PskStore_remove s1 (ident (B "x")) in
  looks_up s (B "x") (Some psk_a) && removed && looks_up s1 (B "x") None && negb again.

Definition psk_insert_replaces : bool :=
  looks_up (PskStore_insert (PskStore_insert PskStore_new (ident (B "x")) psk_a) (ident (B "x")) psk_b) (B "x") (Some psk_b).

Lemma psk_store_tests :
  forallb id [psk_parse_empty_returns_empty_store; psk_parse_round_trip; psk_parse_skips_blank_lines;
    psk_parse_handles_crlf_line_endings; psk_parse_rejects_missing_separator; psk_parse_rejects_bad_identity_charset;
    psk_parse_rejects_empty_identity; psk_parse_rejects_short_hex; psk_parse_rejects_non_hex_chars;
    psk_parse_rejects_duplicate_identity; psk_insert_then_remove_then_lookup; psk_insert_replaces] = true.
Proof. vm_compute. reflexivity. Qed.

(** ** [broker_key.rs] *)

(** [Debug for BrokerPrivateKey], [Debug for Psk] *)
Definition BrokerPrivateKey_debug (k : BrokerPrivateKey) : bytes := B "BrokerPrivateKey(<redacted>)".
Definition Psk_debug (p : Psk) : bytes := B "Psk(<redacted>)".

Definition key_debug_is_redacted : bool :=
  same (BrokerPrivateKey_debug (MkBrokerPrivateKey (rep 32 x42))) (B "BrokerPrivateKey(<redacted>)").

(** The curve is the one of [noise_model]. *)
Definition public_key_display_round_trips_hex : bool :=
  let public := @derive_public noise_model (MkBrokerPrivateKey (rep 32 x07)) in
  let rendered := BrokerPublicKey_to_string public in
  (len rendered =? 64) && passes (BrokerPublicKey_from_hex rendered) (λ reparsed, same (pub_bytes reparsed) (pub_bytes public)).

Lemma broker_key_tests : key_debug_is_redacted && public_key_display_round_trips_hex = true.
Proof. vm_compute. reflexivity. Qed.

(** ** [git_credential.rs] *)

Definition resp (username password : bytes) (expiry_secs : Z) : result GitCredentialError Response :=
  Response_new username password (from_secs expiry_secs).

Definition encodes (r : result GitCredentialError Response) (authtype : bool) (out : bytes) (f : bytes → bool) : bool :=
  passes r (λ r, match Response_encode r authtype out with Some b => f b | None => false end).

Definition git_parse_minimal_request_ok : bool :=
  passes (Request_parse (unlines [B "protocol=https"; B "host=github.com"; B "path=octocat/Spoon-Knife"; []]))
    (λ req, same (protocol req) (B "https") && same (host req) (B "github.com") && same (path req) (B "octocat/Spoon-Knife") &&
      negb (client_supports_authtype req)).

Definition git_parse_authtype_capability_sets_flag : bool :=
  passes (Request_parse (unlines [B "capability[]=authtype"; B "protocol=https"; B "host=github.com"; B "path=o/r"; []]))
    (λ req, client_supports_authtype req).

Definition git_parse_other_capability_does_not_set_flag : bool :=
  passes (Request_parse (unlines [B "capability[]=state"; B "protocol=https"; B "host=github.com"; B "path=o/r"; []]))
    (λ req, negb (client_supports_authtype req)).

Definition git_parse_empty_capability_resets_flag : bool :=
  passes (Request_parse (unlines [B "capability[]=authtype"; B "capability[]="; B "protocol=https"; B "host=github.com"; B "path=o/r"; []]))
    (λ req, negb (client_supports_authtype req)).

Definition git_parse_strips_dot_git_suffix : bool :=
  passes (Request_parse (unlines [B "protocol=https"; B "host=github.com"; B "path=octocat/Spoon-Knife.git"; []]))
    (λ req, same (path req) (B "octocat/Spoon-Knife")).

Definition git_parse_does_not_strip_inner_dot_git : bool :=
  passes (Request_parse (unlines [B "protocol=https"; B "host=github.com"; B "path=a.gitfoo/b"; []]))
    (λ req, same (path req) (B "a.gitfoo/b")).

Definition git_parse_accepts_unknown_keys : bool :=
  passes (Request_parse (unlines [B "protocol=https"; B "host=github.com"; B "path=foo"; B "wwwauth[]=Bearer realm=x"; B "capability[]=authtype"; []]))
    (λ req, same (host req) (B "github.com") && same (path req) (B "foo")).

Definition git_parse_preserves_host_case_byte_exact : bool :=
  passes (Request_parse (unlines [B "protocol=https"; B "host=GitHub.Com"; B "path=foo"; []]))
    (λ req, same (host req) (B "GitHub.Com")).

Definition git_parse_rejects_cr_in_host_value : bool :=
  fails (Request_parse (unlines [B "protocol=https"; B "host=github.com" ++ x0d :: B "malicious=1"; B "path=p"; []]))
    (λ e, match e with ControlByteInLine _ _ b => same_byte b x0d | _ => false end).

Definition git_parse_rejects_embedded_lf_via_missing_separator : bool :=
  fails (Request_parse (unlines [B "host=foo"; B "bar"; B "protocol=https"; B "path=p"; []]))
    (λ e, match e with MissingSeparator line_no => line_no =? 2 | _ => false end).

Definition git_new_rejects_cr_in_password : bool :=
  fails (Response_new (B "u") (B "tok" ++ x0d :: B "en") 0)
    (λ e, match e with ResponseControlByte field => same field (B "password") | _ => false end).

Definition git_new_rejects_lf_in_username : bool :=
  fails (Response_new (B "u" ++ x0a :: B "inject") (B "p") 0)
    (λ e, match e with ResponseControlByte field => same field (B "username") | _ => false end).

Definition git_parse_rejects_missing_protocol : bool :=
  fails (Request_parse (unlines [B "host=github.com"; B "path=foo"; []]))
    (λ e, match e with MissingRequiredKey key => same key (B "protocol") | _ => false end).

Definition git_parse_rejects_missing_host : bool :=
  fails (Request_parse (unlines [B "protocol=https"; B "path=foo"; []]))
    (λ e, match e with MissingRequiredKey key => same key (B "host") | _ => false end).

Definition git_parse_rejects_missing_path : bool :=
  fails (Request_parse (unlines [B "protocol=https"; B "host=github.com"; []]))
    (λ e, match e with MissingRequiredKey key => same key (B "path") | _ => false end).

Definition git_parse_rejects_duplicate_host : bool :=
  fails (Request_parse (unlines [B "protocol=https"; B "host=foo.com"; B "host=bar.com"; B "path=p"; []]))
    (λ e, match e with DuplicateKey key => same key (B "host") | _ => false end).

Definition git_parse_rejects_duplicate_path : bool :=
  fails (Request_parse (unlines [B "protocol=https"; B "host=github.com"; B "path=a"; B "path=b"; []]))
    (λ e, match e with DuplicateKey key => same key (B "path") | _ => false end).

Definition git_parse_rejects_empty_host_value : bool :=
  fails (Request_parse (unlines [B "protocol=https"; B "host="; B "path=foo"; []]))
    (λ e, match e with EmptyValue key => same key (B "host") | _ => false end).

Definition git_parse_rejects_nul_in_path : bool :=
  fails (Request_parse (unlines [B "protocol=https"; B "host=github.com"; B "path=foo" ++ x00 :: B "bar"; []]))
    (λ e, match e with ControlByteInLine _ _ b => same_byte b x00 | _ => false end).

Definition git_parse_rejects_non_utf8_value : bool :=
  fails (Request_parse (unlines [B "protocol=https"; B "host=foo" ++ xff :: B "bar"; B "path=p"; []]))
    (λ e, match e with InvalidUtf8 key => same key (B "host") | _ => false end).

Definition git_parse_rejects_missing_separator : bool :=
  fails (Request_parse (unlines [B "protocol=https"; B "host-bad"; B "path=p"; []]))
    (λ e, match e with MissingSeparator line_no => line_no =? 2 | _ => false end).

Definition git_parse_rejects_empty_key : bool :=
  fails (Request_parse (unlines [B "protocol=https"; B "=value"; B "path=p"; []]))
    (λ e, match e with EmptyKey line_no => line_no =? 2 | _ => false end).

Definition git_parse_accepts_eof_terminator_no_blank_line : bool :=
  passes (Request_parse (unlines [B "protocol=https"; B "host=github.com"; B "path=octocat/Spoon-Knife"]))
    (λ req, same (host req) (B "github.com") && same (path req) (B "octocat/Spoon-Knife")).

Definition git_parse_rejects_unterminated_block_no_final_newline : bool :=
  fails (Request_parse (unlines [B "protocol=https"; B "host=github.com"] ++ B "path=p"))
    (λ e, match e with UnterminatedBlock => true | _ => false end).

Definition git_parse_rejects_empty_input : bool :=
  fails (Request_parse ([]))
    (λ e, match e with UnterminatedBlock => true | _ => false end).

Definition git_parse_rejects_trailing_bytes_after_blank_line : bool :=
  fails (Request_parse (unlines [B "protocol=https"; B "host=github.com"; B "path=p"; []; B "extra"]))
    (λ e, match e with TrailingBytes => true | _ => false end).

Definition git_parse_rejects_url_shorthand_as_missing_host : bool :=
  fails (Request_parse (unlines [B "protocol=https"; B "url=https://github.com/owner/repo"; []]))
    (λ e, match e with MissingRequiredKey key => same key (B "host") | _ => false end).

Definition git_parse_rejects_whitespace_around_equals_as_missing_host : bool :=
  fails (Request_parse (unlines [B "protocol=https"; B "host = github.com"; B "path=foo"; []]))
    (λ e, match e with MissingRequiredKey key => same key (B "host") | _ => false end).

Definition git_emit_round_trips_minimal_response : bool :=
  encodes (resp (B "x-access-token") (B "ghs_xxxxxxxxxxx") 1700000000) false [] (λ out,
    same out (unlines [B "username=x-access-token"; B "password=ghs_xxxxxxxxxxx"; B "password_expiry_utc=1700000000"; []])).

Definition git_emit_appends_to_nonempty_buffer : bool :=
  encodes (resp (B "u") (B "p") 1) false (B "junk") (λ out,
    same (take 4 out) (B "junk") && same (drop 4 out) (unlines [B "username=u"; B "password=p"; B "password_expiry_utc=1"; []])).

Definition git_emit_renders_expiry_as_unix_seconds : bool :=
  encodes (resp (B "u") (B "p") 42) false [] (λ out, contains (unlines [B "password_expiry_utc=42"]) out).

Definition git_new_rejects_pre_epoch_expiry : bool :=
  fails (Response_new (B "u") (B "p") (- from_secs 1)) (λ e, match e with PreEpochExpiry => true | _ => false end).

Definition git_encode_emits_basic_even_when_authtype_negotiated : bool :=
  encodes (resp (B "x-access-token") (B "ghs_xxxxxxxxxxx") 1700000000) true [] (λ body,
    contains (unlines [B "username=x-access-token"]) body && contains (unlines [B "password=ghs_xxxxxxxxxxx"]) body &&
    negb (contains (B "authtype=") body) && negb (contains (B "credential=") body)).

Definition git_encode_emits_ephemeral_only_when_capability_negotiated : bool :=
  encodes (resp (B "x-access-token") (B "ghs_tok") 1) false [] (λ body,
    negb (contains (B "ephemeral=") body) && negb (contains (B "capability[]=authtype") body)) &&
  encodes (resp (B "x-access-token") (B "ghs_tok") 1) true [] (λ body,
    contains (unlines [B "capability[]=authtype"]) body && contains (unlines [B "ephemeral=true"]) body).

Definition git_new_rejects_cr_in_token : bool :=
  fails (Response_new (B "x-access-token") (B "ghs_xxx" ++ x0d :: B "extra=line") (from_secs 1))
    (λ e, match e with ResponseControlByte field => same field (B "password") | _ => false end).

Definition git_parse_accepts_value_just_under_max : bool :=
  passes (Request_parse (unlines [B "protocol=https"; B "host=" ++ rep MAX_VALUE_BYTES x68; B "path=p"; []]))
    (λ req, len (host req) =? MAX_VALUE_BYTES).

Definition git_parse_rejects_value_just_over_max : bool :=
  fails (Request_parse (unlines [B "protocol=https"; B "host=" ++ rep (MAX_VALUE_BYTES + 1) x68; B "path=p"; []]))
    (λ e, match e with ValueTooLong key _ => same key (B "host") | _ => false end).

Definition git_parse_rejects_request_just_over_max : bool :=
  fails (Request_parse (rep (PARSER_HARD_MAX + 1) x78))
    (λ e, match e with RequestTooLarge _ => true | _ => false end).

Lemma git_credential_tests :
  forallb id [git_parse_minimal_request_ok; git_parse_authtype_capability_sets_flag; git_parse_other_capability_does_not_set_flag; git_parse_empty_capability_resets_flag; git_parse_strips_dot_git_suffix; git_parse_does_not_strip_inner_dot_git; git_parse_accepts_unknown_keys; git_parse_preserves_host_case_byte_exact; git_parse_rejects_cr_in_host_value; git_parse_rejects_embedded_lf_via_missing_separator; git_new_rejects_cr_in_password; git_new_rejects_lf_in_username; git_parse_rejects_missing_protocol; git_parse_rejects_missing_host; git_parse_rejects_missing_path; git_parse_rejects_duplicate_host; git_parse_rejects_duplicate_path; git_parse_rejects_empty_host_value; git_parse_rejects_nul_in_path; git_parse_rejects_non_utf8_value; git_parse_rejects_missing_separator; git_parse_rejects_empty_key; git_parse_accepts_eof_terminator_no_blank_line; git_parse_rejects_unterminated_block_no_final_newline; git_parse_rejects_empty_input; git_parse_rejects_trailing_bytes_after_blank_line; git_parse_rejects_url_shorthand_as_missing_host; git_parse_rejects_whitespace_around_equals_as_missing_host; git_emit_round_trips_minimal_response; git_emit_appends_to_nonempty_buffer; git_emit_renders_expiry_as_unix_seconds; git_new_rejects_pre_epoch_expiry; git_encode_emits_basic_even_when_authtype_negotiated; git_encode_emits_ephemeral_only_when_capability_negotiated; git_new_rejects_cr_in_token; git_parse_accepts_value_just_under_max; git_parse_rejects_value_just_over_max; git_parse_rejects_request_just_over_max] = true.
Proof. vm_compute. reflexivity. Qed.
