(* ===== verification/TestsTransport.v ===== *)
(** * The unit tests of the Noise transport

    The [#[test]] functions of [transport.rs], each transcribed as a boolean
    over the definitions of [Transport.v] and evaluated.  The [snow] crate is
    the concrete [noise_model]; [.unwrap()], [.expect(..)] and [?] are the binds
    of [result], and a test passes when every assertion on the way holds. *)

From S2P Require Import Prelude Identity Psk Transport TestsText.

#[local] Existing Instance noise_model.

Definition good_identity : Identity := MkIdentity (B "dev-vm-1.test_03").
Definition test_broker_key : BrokerPrivateKey := MkBrokerPrivateKey (rep 32 x07).
Definition broker_pub : BrokerPublicKey := derive_public test_broker_key.
Definition psk_of (b : byte) : Psk := MkPsk (rep 32 b).

(** [bytes[i] = b] *)
Definition poke (i : nat) (b : byte) (bs : bytes) : bytes := <[i := b]> bs.

(** A test body: an unwrapped error is a panic, the value is the assertions. *)
Definition test_ok {E} (r : result E bool) : bool := passes r id.

(** ** The identity TLV and the frames *)

Definition noise_pattern_parses : bool := is_ok (parse_params NOISE_PATTERN).

Definition tlv_round_trip : bool :=
  let bs := encode_identity_tlv good_identity in
  (len bs =? identity_tlv_size (len (as_str good_identity))) &&
  passes (parse_identity_tlv bs) (λ '(parsed, consumed),
    bool_decide (parsed = good_identity) && (consumed =? len bs)).

Definition tlv_rejects_short_buffer : bool :=
  forallb (λ prefix_len, fails (parse_identity_tlv (rep prefix_len x00))
    (λ e, match e with Tlv_Incomplete needed => needed =? 6 - prefix_len | _ => false end)) [0; 1; 2; 3; 4; 5].

Definition foo_tlv : bytes := encode_identity_tlv (MkIdentity (B "foo")).

Definition tlv_rejects_bad_magic : bool :=
  fails (parse_identity_tlv (poke 0 x58 foo_tlv)) (λ e, match e with Tlv_BadMagic _ => true | _ => false end).

Definition tlv_rejects_bad_version : bool :=
  fails (parse_identity_tlv (poke 4 x99 foo_tlv)) (λ e, match e with Tlv_BadVersion got => same_byte got x99 | _ => false end).

Definition tlv_rejects_version_1 : bool :=
  fails (parse_identity_tlv (poke 4 x01 foo_tlv)) (λ e, match e with Tlv_BadVersion got => same_byte got x01 | _ => false end).

Definition tlv_rejects_zero_length : bool :=
  fails (parse_identity_tlv (TLV_MAGIC ++ [TLV_VERSION; x00]))
    (λ e, match e with Tlv_BadIdentityLen got => same_byte got x00 | _ => false end).

Definition tlv_rejects_oversized_id_len : bool :=
  fails (parse_identity_tlv (TLV_MAGIC ++ [TLV_VERSION; as_u8 (Identity_MAX_LEN + 1)] ++ rep (Identity_MAX_LEN + 1) x61))
    (λ e, match e with Tlv_BadIdentityLen _ => true | _ => false end).

Definition tlv_rejects_incomplete_identity : bool :=
  fails (parse_identity_tlv (TLV_MAGIC ++ [TLV_VERSION; x0a] ++ B "abc"))
    (λ e, match e with Tlv_Incomplete needed => needed =? 7 | _ => false end).

Definition tlv_rejects_invalid_charset : bool :=
  fails (parse_identity_tlv (TLV_MAGIC ++ [TLV_VERSION; x03; x61; x0d; x62]))
    (λ e, match e with Tlv_InvalidCharset offset byte => (offset =? 1) && same_byte byte x0d | _ => false end).

Definition frame_round_trip : bool :=
  let payload := B "hello world" in
  passes (frame payload) (λ framed,
    (len framed =? 2 + len payload) && same (drop 2 framed) payload &&
    match framed with
    | hi :: lo :: _ => passes (read_frame_length hi lo) (λ n, n =? len payload)
    | _ => false
    end).

Definition frame_rejects_oversized : bool :=
  fails (frame (rep (MAX_MESSAGE_SIZE + 1) x00)) (λ e, match e with T_OversizedFrame _ => true | _ => false end).

Lemma framing_tests :
  forallb id [noise_pattern_parses; tlv_round_trip; tlv_rejects_short_buffer; tlv_rejects_bad_magic; tlv_rejects_bad_version;
    tlv_rejects_version_1; tlv_rejects_zero_length; tlv_rejects_oversized_id_len; tlv_rejects_incomplete_identity;
    tlv_rejects_invalid_charset; frame_round_trip; frame_rejects_oversized] = true.
Proof. vm_compute. reflexivity. Qed.

(** ** The handshake through the free functions

    [set_psk] on the raw handshake state is a call into the crate;
    [is_handshake_finished] is what [into_transport_mode] checks. *)

Definition raw_set_psk (hs : HandshakeState) (psk : Psk) : result TransportError HandshakeState :=
  map_err T_HandshakeWrite (hs_set_psk hs PSK_SLOT (psk_bytes psk)).

Definition noise_handshake_round_trip : bool :=
  let psk := psk_of x42 in
  let tlv := encode_identity_tlv good_identity in
  test_ok (
    i ← initiator 1 psk broker_pub;
    r ← responder 2 test_broker_key;
    '(i, m1) ← handshake_write i tlv;
    '(r, out) ← handshake_read r m1;
    r ← raw_set_psk r psk;
    '(r, m2) ← handshake_write r [];
    '(i, _) ← handshake_read i m2;
    ti ← into_transport i;
    tr ← into_transport r;
    '(ti, ct) ← transport_write ti (B "hello noise");
    '(tr, pt) ← transport_read tr ct;
    '(tr, ct') ← transport_write tr (B "hi back");
    '(ti, pt') ← transport_read ti ct';
    Ok (same out tlv && same pt (B "hello noise") && same pt' (B "hi back"))).

Definition noise_wrong_psk_fails_at_msg2_read_and_transport : bool :=
  let tlv := encode_identity_tlv good_identity in
  test_ok (
    i ← initiator 1 (psk_of xaa) broker_pub;
    r ← responder 2 test_broker_key;
    '(i, m1) ← handshake_write i tlv;
    '(r, _) ← handshake_read r m1;
    r ← raw_set_psk r (psk_of xbb);
    '(r, m2) ← handshake_write r [];
    tr ← into_transport r;
    Ok (negb (is_ok (handshake_read i m2)) && negb (is_ok (transport_read tr (B "any bytes at all!"))))).

(** ** The two state machines against each other *)

(** A method that returns [Result], [.expect]ed. *)
Definition expect_ {S A} (r : S * result SessionError A) : result SessionError (S * A) :=
  a ← snd r; Ok (fst r, a).

(** The locals of the loop of [responder_initiator_round_trip]. *)
Record Pump := MkPump {
  pu_server : RState; pu_client : IState;
  pu_c_to_s : bytes; pu_s_to_c : bytes;
  pu_identity_ok : bool; pu_got_request : option bytes;
  pu_server_done : bool; pu_client_done : bool;
}.

Definition pump_server (psk : Psk) (response_plain : bytes) (p : Pump) : result SessionError Pump :=
  let 'MkPump server client c2s s2c idok got sd cd := p in
  '(server, s) ← expect_ (Responder_step server);
  match s with
  | Step_ReadExact n =>
      if n <=? len c2s then
        '(server, _) ← expect_ (Responder_recv server (take (Z.to_nat n) c2s));
        Ok (MkPump server client (drop (Z.to_nat n) c2s) s2c idok got sd cd)
      else Ok (MkPump server client c2s s2c idok got sd cd)
  | Step_NeedPsk who =>
      '(server, _) ← expect_ (Responder_set_psk server psk);
      Ok (MkPump server client c2s s2c (same (as_str who) (B "dev-vm-1.test_03")) got sd cd)
  | Step_Write out =>
      '(server, _) ← expect_ (Responder_wrote server);
      Ok (MkPump server client c2s (s2c ++ out) idok got sd cd)
  | Step_Request plaintext =>
      '(server, _) ← expect_ (Responder_set_response server response_plain);
      Ok (MkPump server client c2s s2c idok (Some plaintext) sd cd)
  | Step_Done => Ok (MkPump server client c2s s2c idok got true cd)
  end.

Definition pump_client (p : Pump) : result SessionError Pump :=
  let 'MkPump server client c2s s2c idok got sd cd := p in
  '(client, s) ← expect_ (Initiator_step client);
  match s with
  | Step_ReadExact n =>
      if n <=? len s2c then
        '(client, _) ← expect_ (Initiator_recv client (take (Z.to_nat n) s2c));
        Ok (MkPump server client c2s (drop (Z.to_nat n) s2c) idok got sd cd)
      else Ok (MkPump server client c2s s2c idok got sd cd)
  | Step_Write out =>
      '(client, _) ← expect_ (Initiator_wrote client);
      Ok (MkPump server client (c2s ++ out) s2c idok got sd cd)
  | Step_Done => Ok (MkPump server client c2s s2c idok got sd true)
  | _ => Err (S_WrongState (B "initiator should not emit") [])
  end.

Fixpoint pump (psk : Psk) (response_plain : bytes) (rounds : nat) (p : Pump) : result SessionError Pump :=
  match rounds with
  | O => Ok p
  | S rounds =>
      p ← pump_server psk response_plain p;
      p ← pump_client p;
      if pu_server_done p && pu_client_done p then Ok p else pump psk response_plain rounds p
  end.

Definition responder_initiator_round_trip : bool :=
  let psk := psk_of x42 in
  let request := B "protocol=https" ++ x0a :: B "host=github.com" ++ x0a :: B "path=foo/bar" ++ [x0a; x0a] in
  let response_plain := B "username=x-access-token" ++ x0a :: B "password=ghs_abc" ++ [x0a; x0a] in
  test_ok (
    server ← Responder_new 2 test_broker_key;
    client ← Initiator_new 1 good_identity psk broker_pub request;
    p ← pump psk response_plain 32 (MkPump server client [] [] false None false false);
    resp ← take_response (pu_client p);
    Ok (pu_server_done p && pu_client_done p && pu_identity_ok p &&
        bool_decide (pu_got_request p = Some request) && same resp response_plain)).

(** ** Malformed identities through a real handshake *)

Definition framed_msg1_with_payload (payload : bytes) : result SessionError bytes :=
  hs ← lift (initiator 1 (psk_of x42) broker_pub);
  '(_, m) ← lift (handshake_write hs payload);
  lift (frame m).

(** The assertions of the Rust helper are the [WrongState] errors here; the
    last component is the second [recv]'s result. *)
Definition feed_framed (sess : RState) (framed : bytes) : result SessionError (RState * result SessionError ()) :=
  '(sess, s) ← expect_ (Responder_step sess);
  match s with
  | Step_ReadExact 2 =>
      '(sess, _) ← expect_ (Responder_recv sess (take 2 framed));
      '(sess, s) ← expect_ (Responder_step sess);
      match s with
      | Step_ReadExact n =>
          if n =? len framed - 2 then Ok (Responder_recv sess (drop 2 framed))
          else Err (S_RecvLen n (len framed - 2))
      | _ => Err (S_WrongState (B "expected body read") [])
      end
  | _ => Err (S_WrongState (B "expected length read") [])
  end.

Definition msg1_rejected (payload : bytes) (want : SessionError → bool) : bool :=
  test_ok (
    sess ← Responder_new 2 test_broker_key;
    framed ← framed_msg1_with_payload payload;
    '(_, r) ← feed_framed sess framed;
    Ok (fails r want)).

Definition good_tlv : bytes := encode_identity_tlv good_identity.

Definition responder_rejects_bad_magic_in_msg1_payload : bool :=
  msg1_rejected (poke 0 x58 good_tlv) (λ e, match e with S_TlvBadMagic _ => true | _ => false end).

Definition responder_rejects_bad_version_in_msg1_payload : bool :=
  msg1_rejected (poke 4 x99 good_tlv) (λ e, match e with S_TlvBadVersion got => same_byte got x99 | _ => false end).

Definition responder_rejects_bad_id_len_in_msg1_payload : bool :=
  msg1_rejected (take 6 (poke 5 x00 good_tlv)) (λ e, match e with S_TlvBadIdentityLen got => same_byte got x00 | _ => false end).

Definition responder_rejects_invalid_charset_in_msg1_payload : bool :=
  msg1_rejected (TLV_MAGIC ++ [TLV_VERSION; x03; x61; x0d; x62])
    (λ e, match e with S_TlvInvalidCharset offset byte => (offset =? 1) && same_byte byte x0d | _ => false end).

Definition responder_rejects_trailing_bytes_in_msg1_payload : bool :=
  msg1_rejected (good_tlv ++ B "extra") (λ e, match e with S_TlvTrailingBytes extra => extra =? 5 | _ => false end).

Definition responder_with_substitute_psk_dies_at_transport_frame : bool :=
  test_ok (
    sess ← Responder_new 2 test_broker_key;
    framed ← framed_msg1_with_payload good_tlv;
    fed ← feed_framed sess framed;
    '(sess, _) ← expect_ fed;
    '(sess, s1) ← expect_ (Responder_step sess);
    '(sess, _) ← expect_ (Responder_set_psk sess (psk_of xbb));
    '(sess, s2) ← expect_ (Responder_step sess);
    '(sess, _) ← expect_ (Responder_wrote sess);
    garbage ← lift (frame (B "not a valid noise transport message"));
    '(_, r) ← feed_framed sess garbage;
    Ok (match s1 with Step_NeedPsk identity => bool_decide (identity = good_identity) | _ => false end &&
        match s2 with Step_Write msg2 => negb (len msg2 =? 0) | _ => false end &&
        fails r (λ e, match e with S_TransportRead _ => true | _ => false end))).

Lemma session_tests :
  forallb id [noise_handshake_round_trip; noise_wrong_psk_fails_at_msg2_read_and_transport; responder_initiator_round_trip;
    responder_rejects_bad_magic_in_msg1_payload; responder_rejects_bad_version_in_msg1_payload;
    responder_rejects_bad_id_len_in_msg1_payload; responder_rejects_invalid_charset_in_msg1_payload;
    responder_rejects_trailing_bytes_in_msg1_payload; responder_with_substitute_psk_dies_at_transport_frame] = true.
Proof. vm_compute. reflexivity. Qed.
