(* ===== verification/TestsState.v ===== *)
(** * The unit tests of the stateful components

    The [#[test]] functions of [ttl_cache.rs], [rate_limit.rs],
    [singleflight_cache.rs], [connection_tracker.rs], [daemon.rs],
    [events.rs] and [sandbox.rs], and the path and URL tests of
    [providers/github.rs], transcribed as booleans over the definitions of this
    development and evaluated.  A test's calls are threaded through the state in
    their order; [set_time] is the time argument of the call that follows. *)

From S2P Require Import Prelude Identity Psk Transport TtlCache RateLimit Singleflight AtomicFs Config State Github Events Tracker Sandbox TestsText.

(** ** [ttl_cache.rs] *)

(** The ties of the heap do not matter to the tests. *)
Definition ttl_answers (os : list (@TtlOp bytes Z)) : list (option (Z * Z)) :=
  omap (λ '(o, r), match o with Op_get _ _ => Some r | _ => None end) (zip os (ttl_run (λ _ _, true) TtlCache_new os).2).

(** [assert_eq!] on each [get_with_expiry] of the test, in order. *)
Definition ttl_test (os : list (@TtlOp bytes Z)) (want : list (option (Z * Z))) : bool := bool_decide (ttl_answers os = want).

Definition miss_on_empty : bool := ttl_test [Op_get 0 (B "k")] [None].

Definition hit_before_expiry : bool := ttl_test [Op_insert 0 (B "k") 42 100; Op_get 0 (B "k")] [Some (42, 100)].

Definition miss_at_expiry : bool := ttl_test [Op_insert 0 (B "k") 42 100; Op_get 100 (B "k")] [None].

Definition miss_after_expiry : bool := ttl_test [Op_insert 0 (B "k") 42 100; Op_get 200 (B "k")] [None].

Definition ttl_invalidate_removes_entry : bool :=
  ttl_test [Op_insert 0 (B "k") 42 100; Op_invalidate (B "k"); Op_get 0 (B "k")] [None].

Definition reinsert_updates_value_and_expiry : bool :=
  ttl_test [Op_insert 0 (B "k") 1 50; Op_insert 0 (B "k") 2 200; Op_get 0 (B "k"); Op_get 75 (B "k"); Op_get 200 (B "k")]
    [Some (2, 200); Some (2, 200); None].

Definition insert_sweeps_other_expired_entries : bool :=
  ttl_test [Op_insert 0 (B "a") 1 50; Op_insert 0 (B "b") 2 200; Op_insert 100 (B "c") 3 300;
            Op_get 100 (B "a"); Op_get 100 (B "b"); Op_get 100 (B "c")]
    [None; Some (2, 200); Some (3, 300)].

Definition stale_tombstone_after_invalidate_does_not_evict_reinserted_entry : bool :=
  ttl_test [Op_insert 0 (B "k") 1 50; Op_invalidate (B "k"); Op_insert 0 (B "k") 2 200; Op_get 75 (B "k")] [Some (2, 200)].

Lemma ttl_cache_tests :
  forallb id [miss_on_empty; hit_before_expiry; miss_at_expiry; miss_after_expiry; ttl_invalidate_removes_entry;
    reinsert_updates_value_and_expiry; insert_sweeps_other_expired_entries;
    stale_tombstone_after_invalidate_does_not_evict_reinserted_entry] = true.
Proof. vm_compute. reflexivity. Qed.

(** ** [rate_limit.rs] *)

Definition bucket : TokenBucket := TokenBucket_new 6 6 0.

(** The times of the calls of [try_acquire] and their answers. *)
Definition bucket_test (b : TokenBucket) (ts : list Z) (want : list (option Z)) : bool := bool_decide ((bucket_run b ts).2 = want).

Definition allows_up_to_burst_then_suppresses : bool := bucket_test bucket [0; 0; 0; 0] [Some 0; Some 0; None; None].

Definition refill_reports_suppressed_count : bool :=
  bucket_test bucket [0; 0; 0; 0; 0; 0; 0; 6; 6] [Some 0; Some 0; None; None; None; None; None; Some 5; None].

Definition burst_caps_after_long_idle : bool := bucket_test bucket [600; 600; 600] [Some 0; Some 0; None].

Definition sustained_rate_is_one_per_interval : bool :=
  bucket_test (TokenBucket_new 6 0 0) [0; 0; 9; 9; 12; 15] [Some 0; None; Some 1; None; None; Some 2].

Lemma rate_limit_tests :
  forallb id [allows_up_to_burst_then_suppresses; refill_reports_suppressed_count; burst_caps_after_long_idle;
    sustained_rate_is_one_per_interval] = true.
Proof. vm_compute. reflexivity. Qed.

(** ** [singleflight_cache.rs]

    [fake_event] is an event nobody listens to. *)

Abbreviation SfW := (@SfWorld bytes Z () _ _).
Definition foo_bar : bytes := B "foo/bar".
Definition fake_event : nat := 99.

Definition sf_claim (w : SfW) : SfW * @Claim Z :=
  let '(s, c) := claim (sf_store w) foo_bar in (MkSfWorld s (sf_tasks w), c).

Definition assert_hit (c : @Claim Z) (expected : Z) : bool := match c with Claim_Hit v => v =? expected | _ => false end.
Definition assert_resolve (c : @Claim Z) : bool := match c with Claim_Resolve _ => true | _ => false end.

Definition memo_hit_after_release : bool :=
  let w : SfW := release_done foo_bar 42 fake_event sf_init in
  assert_hit (sf_claim w).2 42.

Definition sf_invalidate_removes_entry : bool :=
  let w : SfW := release_done foo_bar 42 fake_event sf_init in
  let w := MkSfWorld (sf_invalidate (sf_store w) foo_bar) (sf_tasks w) in
  assert_resolve (sf_claim w).2.

Definition singleflight_second_caller_waits : bool :=
  let '(w, c1) := sf_claim sf_init in
  let '(_, c2) := sf_claim w in
  assert_resolve c1 && match c2 with Claim_Wait _ => true | _ => false end.

Definition inflight_guard_drop_invalidates_and_notifies : bool :=
  let '(w, c) := sf_claim sf_init in
  match c with
  | Claim_Resolve ev => assert_resolve (sf_claim (guard_drop (InFlightGuard_new foo_bar ev) w)).2
  | _ => false
  end.

Definition inflight_guard_commit_done_puts_entry : bool :=
  let '(w, c) := sf_claim sf_init in
  match c with
  | Claim_Resolve ev => assert_hit (sf_claim (guard_drop (commit_done (InFlightGuard_new foo_bar ev) 42) w)).2 42
  | _ => false
  end.

Lemma singleflight_tests :
  forallb id [memo_hit_after_release; sf_invalidate_removes_entry; singleflight_second_caller_waits;
    inflight_guard_drop_invalidates_and_notifies; inflight_guard_commit_done_puts_entry] = true.
Proof. vm_compute. reflexivity. Qed.

(** ** [connection_tracker.rs]

    Each test is one schedule of the executor; times in milliseconds. *)

Definition drained (l : list TrackerStep) (timeout deadline : Z) (want : DrainStats → Z → bool) : bool :=
  match do_steps l (ConnectionTracker_new timeout deadline 0) with
  | Some t => match pc t with Drained _ stats => want stats (clock t) | _ => false end
  | None => false
  end.

Definition drain_returns_immediately_when_no_handlers_spawned : bool :=
  drained [Do_begin; Do_listen; Do_check] 1000 1000 (λ stats _, (inflight_drained stats =? 0) && drain_complete stats).

Definition drain_waits_for_handlers_to_finish : bool :=
  drained [Do_spawn 1; Do_begin; Do_listen; Do_check; Do_tick 50; Do_exit 1; Do_woken; Do_listen; Do_check] 5000 5000
    (λ stats elapsed, (inflight_drained stats =? 1) && drain_complete stats && (40 <=? elapsed)).

Definition drain_deadline_expires_with_incomplete_status : bool :=
  drained [Do_spawn 1; Do_begin; Do_listen; Do_check; Do_tick 50; Do_timeout] 60000 50 (λ stats _, negb (drain_complete stats)).

Definition drain_completes_after_handler_panic : bool :=
  drained [Do_spawn 1; Do_exit 1; Do_tick 50; Do_begin; Do_listen; Do_check] 5000 2000 (λ stats _, drain_complete stats).

Lemma connection_tracker_tests :
  forallb id [drain_returns_immediately_when_no_handlers_spawned; drain_waits_for_handlers_to_finish;
    drain_deadline_expires_with_incomplete_status; drain_completes_after_handler_panic] = true.
Proof. vm_compute. reflexivity. Qed.

(** ** [daemon.rs] and [events.rs] *)

#[local] Existing Instances hex_model formats_model github_model.

(** 2026-05-31T00:00:00Z *)
Definition fixture_time : Z := from_secs 1780185600.
Definition test_entry (name : bytes) : ClientEntry := MkClientEntry name [Github] fixture_time None.

Definition build_clients_table_indexes_by_name : bool :=
  passes (clients_try_from (MkClientsFile [test_entry (B "vm-1"); test_entry (B "vm-2")])) (λ table,
    (size table =? 2)%nat &&
    match table !! MkIdentity (B "vm-1") with Some v1 => bool_decide (Github ∈ rc_providers v1) | None => false end).

Definition build_clients_table_rejects_duplicate_name : bool :=
  fails (clients_try_from (MkClientsFile [test_entry (B "vm-1"); test_entry (B "vm-1")]))
    (λ e, match e with D_DuplicateClientName n => same (as_str n) (B "vm-1") | _ => false end).

Definition build_clients_table_empty_is_ok : bool :=
  passes (clients_try_from (MkClientsFile [])) (λ table, (size table =? 0)%nat).

Definition display_emits_snake_case : bool :=
  forallb (λ '(k, s), same (EventKind_display k) s)
    [(Ev_Mint, B "mint"); (Ev_MintDenied, B "mint_denied"); (Ev_SandboxPathSkipped, B "sandbox_path_skipped");
     (Ev_ReadyPidfileWriteFailed, B "ready_pidfile_write_failed")].

Lemma daemon_tests :
  forallb id [build_clients_table_indexes_by_name; build_clients_table_rejects_duplicate_name; build_clients_table_empty_is_ok;
    display_emits_snake_case] = true.
Proof. vm_compute. reflexivity. Qed.

(** ** [sandbox.rs]

    The kernel is a [Landlock] in which only the listed paths exist; the
    accesses after [apply] are what its rules permit. *)

Definition make_paths (files : list Path) (write_dirs : list bytes) : SandboxPaths := MkSandboxPaths files [] [] write_dirs.

Definition landlock_of (files : list Path) (dirs : list bytes) : Landlock :=
  MkLandlock (λ p, if bool_decide (p ∈ files) then Ok () else Err P_NotFound)
    (λ d, if bool_decide (d ∈ dirs) then Ok () else Err P_NotFound)
    None None None None (λ _, None) (Ok RS_FullyEnforced).

Definition temp_file (name : bytes) : Path := MkPath (Some (B "/tmp")) (Some name).

(** Does a rule name the file, or the directory itself, with the access? *)
Definition permits (rules : option (list Rule)) (target : Path + bytes) (a : AccessFs) : bool :=
  match rules with
  | None => true
  | Some rules => existsb (λ r, match r, target with
      | Rule_file f bits, inl p => bool_decide (f = p) && bool_decide (a ∈ bits)
      | Rule_dir d bits, inr p => bool_decide (d = p) && bool_decide (a ∈ bits)
      | _, _ => false
      end) rules
  end.

Definition apply_off_is_noop : bool :=
  passes (sandbox_apply (landlock_of [] []) Sandbox_Off (make_paths [] [])) (λ '(out, _),
    bool_decide (status out = S_Off) && negb (sb_fs out) && negb (sb_tcp out) && negb (sb_scope out)).

Definition apply_best_effort_blocks_unlisted_reads : bool :=
  let allow := temp_file (B "symbolon-sandbox-test-allow") in
  let deny := temp_file (B "symbolon-sandbox-test-deny") in
  passes (sandbox_apply (landlock_of [allow; deny] []) Sandbox_BestEffort (make_paths [allow] [])) (λ '(out, rules),
    sb_fs out && permits rules (inl allow) ReadFile && negb (permits rules (inl deny) ReadFile)).

Definition resolv_files_missing_is_tolerated : bool :=
  is_ok (sandbox_apply (landlock_of [] []) Sandbox_BestEffort
    (MkSandboxPaths [] [] [MkPath (Some (B "/definitely/does/not/exist")) (Some (B "symbolon-test"))] [])).

Definition off_mode_returns_off_status : bool :=
  passes (sandbox_apply (landlock_of [] []) Sandbox_Off (make_paths [] [])) (λ '(out, _), bool_decide (status out = S_Off)).

Definition write_parent_dirs_allow_parent_fsync : bool :=
  let dir := B "/tmp/symbolon-sandbox-write-parent-fsync" in
  passes (sandbox_apply (landlock_of [] [dir]) Sandbox_BestEffort (make_paths [] [dir])) (λ '(out, rules),
    sb_fs out && permits rules (inr dir) ReadDir).

Lemma sandbox_tests :
  forallb id [apply_off_is_noop; apply_best_effort_blocks_unlisted_reads; resolv_files_missing_is_tolerated;
    off_mode_returns_off_status; write_parent_dirs_allow_parent_fsync] = true.
Proof. vm_compute. reflexivity. Qed.

(** ** [providers/github.rs]: paths and URLs *)

Definition malformed (p : bytes) : bool :=
  fails (@RepoPath_parse () p) (λ e, match e with G_MalformedPath _ => true | _ => false end).

Definition repo_path_parse_ok : bool :=
  passes (@RepoPath_parse () (B "octocat/Hello-World")) (λ p, same (owner p) (B "octocat") && same (repo p) (B "Hello-World")).

Definition repo_path_parse_rejects_empty_half : bool := malformed (B "/foo") && malformed (B "foo/").

Definition repo_path_parse_rejects_extra_slash : bool := malformed (B "a/b/c").

Definition repo_path_parse_rejects_non_ascii : bool := malformed ([x66; xc3; xb6; xc3; xb6] ++ B "/bar").

(** The key backend plays no part in the URLs. *)
Definition api_base_trailing_slash_stripped : bool :=
  passes (GitHubProvider_with_overrides
    (MkProviderGithub (B "github.com") (B "https://api.github.com/") (B "Iv1.test1") 2 File (Some (B "test_app_key.pem"))
       None (from_secs 5) (from_secs 10) (B "symbolon")) None)
    (λ p, same (gp_api_base p) (B "https://api.github.com")).

Lemma github_path_tests :
  forallb id [repo_path_parse_ok; repo_path_parse_rejects_empty_half; repo_path_parse_rejects_extra_slash;
    repo_path_parse_rejects_non_ascii; api_base_trailing_slash_stripped] = true.
Proof. vm_compute. reflexivity. Qed.
