(* ===== verification/TestsWire.v ===== *)
(** * The unit tests of the wire formats

    The [#[test]] functions of [admin.rs], of [providers/jwt_rs256.rs] and
    [providers/tpm_backend/wire.rs] that need no RSA arithmetic, the
    [clients.json] tests of [config.rs] and the mint tests of
    [providers/github.rs], evaluated over the definitions of this development.
    The external code is concrete here: JSON and base64url, SHA-256 (FIPS 180-4),
    the marshalling of the two TPM commands (TCG part 3) and RFC 3339 instants in
    UTC.  The golden vectors of the TPM tests were recorded from a software TPM:
    that they come out byte for byte checks the chain from the claims to the
    command. *)

From S2P Require Import Prelude Identity Psk Config Github Json Serde Admin AdminWire Signing AgentWire GithubWire TestsText.

(** ** SHA-256 *)

Definition w32 (n : Z) : Z := n mod 4294967296.
Definition rotr (n x : Z) : Z := Z.lor (Z.shiftr x n) (w32 (Z.shiftl x (32 - n))).

(** The constants of the standard are the first 32 bits of the fractional parts
    of the cube roots of the first 64 primes, and of the square roots of the
    first eight. *)
Definition primes : list Z :=
  foldl (λ ps n, if forallb (λ p, negb (n mod p =? 0)) ps then ps ++ [n] else ps) [] (seqZ 2 310).

Fixpoint cube_root (bits : nat) (r n : Z) : Z :=
  match bits with
  | O => r
  | S bits => let r' := r + 2 ^ Z.of_nat bits in cube_root bits (if r' * r' * r' <=? n then r' else r) n
  end.

Definition round_constants : list Z := (λ p, w32 (cube_root 36 0 (p * 2 ^ 96))) <$> primes.
Definition first_state : list Z := (λ p, w32 (Z.sqrt (p * 2 ^ 64))) <$> take 8 primes.

Definition be32 (n : Z) : bytes := [as_u8 (n / 16777216 mod 256); as_u8 (n / 65536 mod 256); as_u8 (n / 256 mod 256); as_u8 (n mod 256)].

Fixpoint words (l : bytes) : list Z :=
  match l with
  | a :: b :: c :: d :: t => ((u8 a * 256 + u8 b) * 256 + u8 c) * 256 + u8 d :: words t
  | _ => []
  end.

Definition padded (m : bytes) : bytes :=
  let zeros := Z.to_nat ((55 - len m) mod 64) in
  m ++ x80 :: replicate zeros x00 ++ be32 0 ++ be32 (8 * len m).

(** The message schedule, the last word first. *)
Definition next_word (ws : list Z) : Z :=
  let back n := nth (n - 1) ws 0 in
  let x := back 15%nat in
  let y := back 2%nat in
  let s0 := Z.lxor (Z.lxor (rotr 7 x) (rotr 18 x)) (Z.shiftr x 3) in
  let s1 := Z.lxor (Z.lxor (rotr 17 y) (rotr 19 y)) (Z.shiftr y 10) in
  w32 (back 16%nat + s0 + back 7%nat + s1).

Fixpoint schedule (n : nat) (ws : list Z) : list Z :=
  match n with O => reverse ws | S n => schedule n (next_word ws :: ws) end.

Definition sha_round (s : list Z) (kw : Z * Z) : list Z :=
  match s with
  | [a; b; c; d; e; f; g; h] =>
      let s1 := Z.lxor (Z.lxor (rotr 6 e) (rotr 11 e)) (rotr 25 e) in
      let ch := Z.lxor (Z.land e f) (Z.land (w32 (Z.lnot e)) g) in
      let t1 := h + s1 + ch + fst kw + snd kw in
      let s0 := Z.lxor (Z.lxor (rotr 2 a) (rotr 13 a)) (rotr 22 a) in
      let maj := Z.lxor (Z.lxor (Z.land a b) (Z.land a c)) (Z.land b c) in
      [w32 (t1 + s0 + maj); a; b; c; w32 (d + t1); e; f; g]
  | _ => s
  end.

Definition sha_block (s : list Z) (ws : list Z) : list Z :=
  zip_with (λ x y, w32 (x + y)) s (foldl sha_round s (zip round_constants (schedule 48 (reverse ws)))).

Fixpoint sha_blocks (n : nat) (s ws : list Z) : list Z :=
  match n with O => s | S n => sha_blocks n (sha_block s (take 16 ws)) (drop 16 ws) end.

Definition sha_digest (m : bytes) : bytes :=
  let ws := words (padded m) in
  sha_blocks (length ws / 16) first_state ws ≫= be32.

(** ** The TPM commands *)

Definition be16 (n : Z) : bytes := [as_u8 (n / 256 mod 256); as_u8 (n mod 256)].
Definition tpm2b (b : bytes) : bytes := be16 (len b) ++ b.

Definition auth_area (a : TpmsAuthCommand) : bytes :=
  be32 (au_session_handle a) ++ tpm2b (au_nonce a) ++ [as_u8 (au_attributes a)] ++ tpm2b (au_hmac a).

Definition tcg_command (c : TpmCommand) (tag : Z) (auths : list TpmsAuthCommand) : bytes :=
  let '(code, handle, params) :=
    match c with
    | TpmReadPublicCommand h => (0x173, h, [])
    | TpmSignCommand h digest scheme ticket =>
        (0x15d, h, tpm2b digest ++ be16 (ss_scheme scheme) ++ be16 (ss_hash_alg scheme) ++
                   be16 (tk_tag ticket) ++ be32 (tk_hierarchy ticket) ++ tpm2b (tk_digest ticket))
    end in
  let auth := auths ≫= auth_area in
  let body := be32 code ++ be32 handle ++ match auths with [] => [] | _ => be32 (len auth) ++ auth end ++ params in
  be16 tag ++ be32 (len body + 6) ++ body.

(** A response: the size of its header is its length, the code is 0. *)
Definition tcg_response_ok (resp : bytes) : result bytes () :=
  match words (drop 2 resp) with
  | size :: rc :: _ =>
      if negb (size =? len resp) then Err (B "bad response")
      else if negb (rc =? 0) then Err (B "TPM returned an error") else Ok ()
  | _ => Err (B "bad response")
  end.

Definition tcg_base : SignEnv := {|
  SerdeError := @SerdeError sign_model;
  RsaKey := @RsaKey sign_model;
  claims_json := @claims_json sign_model;
  b64url := @b64url sign_model;
  sha256 := sha_digest;
  rsa_sign_digest := @rsa_sign_digest sign_model;
  from_pkcs8_pem pem := if bool_decide (take 10 pem = B "-----BEGIN") then Some x01 else None;
  from_pkcs1_pem _ := None;
  tpm_response_ok := tcg_response_ok;
  tpm2b_digest := @tpm2b_digest sign_model;
  tpm_marshal_command c tag auths := Ok (tcg_command c tag auths);
  request_json := @request_json sign_model;
  request_of_json := @request_of_json sign_model;
  response_json := @response_json sign_model;
  response_of_json := @response_of_json sign_model;
|}.
#[local] Instance tcg : SignEnv := sign_serde tcg_base wire_show.

Definition unhex (t : bytes) : bytes := match @hex_decode hex_model (len t / 2) t with Ok b => b | Err _ => [] end.
Definition hex (b : bytes) : bytes := @hex_encode hex_model b.

Definition HANDLE : Z := 0x81010001.
Definition SIGN_COMMAND : bytes :=
   B "8002000000490000015d810100010000000940000009000000000000200cc561b958b54213a57db59a406b7c747f25c04660d3c4396f93" ++
   B "d78e6f5477a30014000b8024400000070000".
Definition READ_PUBLIC_RESPONSE : bytes :=
   B "80010000016a0000000001160001000b0004007200000010001008000000000001009a2696410128f3296b5582f4465086e1ddab9c58f9" ++
   B "21c9132eec8d8518c182b24367c62d655c6d093c65d62954b1579ec8ec740a5713075c8282aa999627ad04eb84ef210d1f229f3f4a9b89" ++
   B "d39e9324209fcd632219f838c2602cc3b1909ce2925c62bee396637da71e76d9e5ba8754be8b740de43c130ed11fd5fdbf0a3225e5c43f" ++
   B "47162ac397e402216c6ad7086d5a3456d99645030c8d32fceaced72ae13d6dca729c061ef21c44ddee00ea508dc28f1a3cc697de6409ea" ++
   B "36b407f8e55db125d30533e58393eff8bf3799372f36bc6e9dcc92ba230d0a7703512376edc6e8f39696fd03ad02c2256bde112ebff7e8" ++
   B "1cb41ad597749023b92605054e68a10022000b75897f26f10bb395375d3efe56d287f1439cb69225b522f4281f217b0af7dd6c0022000b" ++
   B "36f3b4c80c68df5a47481c6d4845ef869777c601f4add92d64d8914db17e9bc0".
Definition SIGN_RESPONSE : bytes :=
   B "80020000011900000000000001060014000b010013b68d0957ea5ba66a7ef24c15ccd38d49131ff2790dc1a450bda6bfffcb2e034c09d2" ++
   B "d12388c1ee589bd122703442bd7edef5340b2813856e7636a26e9629cee76134da9054f00b3aaadda1803ea36bf1adc50e31d68418c5e4" ++
   B "68411928be22e445c1f8033227aa9ef10cd56c3159f3403784340c5ad9db0856d37cd7f6ec5807415c0a6bee4cfe55d7a9b6a9d230cff4" ++
   B "67bf70cb90f1f3edbb4e29e2458b3d23c5a299cc5d0579df55d9ab4d6024a7df3cb058ab6189fd3ec0d3b44365ddc922badad42ad447c1" ++
   B "ad6c138b7029692ad898a0bc4ba80caa417a2460160a129b0e2503b3d0d3813fd1ad3f0417f27395734765da129e41262c68453998db80" ++
   B "990000010000".

Definition golden_signing_input : bytes :=
  match signing_input (JwtClaims_new (from_secs 1700000000) (B "Iv1.tpm-test")) with Ok i => i | Err _ => [] end.
Definition golden_digest : bytes := sha_digest golden_signing_input.

Definition read_public_command_kat : bool :=
  passes (read_public_command HANDLE) (λ b, same (hex b) (B "80010000000e0000017381010001")).

Definition sign_command_matches_live_capture : bool :=
  passes (sign_command HANDLE golden_digest) (λ b, same (hex b) SIGN_COMMAND).

Definition verify_rsa2048_accepts_live_read_public : bool :=
  is_ok (verify_rsa2048_signing_key (unhex READ_PUBLIC_RESPONSE)).

Definition verify_rsa2048_rejects_truncated : bool :=
  let resp := unhex READ_PUBLIC_RESPONSE in
  negb (is_ok (verify_rsa2048_signing_key (take (length resp - 48) resp))).

(** Up to the verification of the signature. *)
Definition parse_sign_extracts_signature_from_live_response : bool :=
  passes (parse_sign (unhex SIGN_RESPONSE)) (λ sig, len sig =? 256).

Definition parse_sign_rejects_error_rc : bool := negb (is_ok (parse_sign (unhex (B "80010000000a00000101")))).

Lemma tpm_tests :
  forallb id [read_public_command_kat; sign_command_matches_live_capture; verify_rsa2048_accepts_live_read_public;
    verify_rsa2048_rejects_truncated; parse_sign_extracts_signature_from_live_response; parse_sign_rejects_error_rc] = true.
Proof. vm_compute. reflexivity. Qed.

(** ** [providers/jwt_rs256.rs] *)

Definition test_claims : JwtClaims := MkJwtClaims (B "Iv1.test42") 1699999940 1700000540.

Definition sign_produces_three_dot_separated_segments : bool :=
  passes (sign_rs256 (x01 : RsaKey) test_claims) (λ token, len (split_on x2e token) =? 3).

(** The header and the payload of the pinned token. *)
Definition known_vector_signing_input : bool :=
  passes (signing_input test_claims) (λ input, same input
    (B "eyJ0eXAiOiJKV1QiLCJhbGciOiJSUzI1NiJ9.eyJpc3MiOiJJdjEudGVzdDQyIiwiaWF0IjoxNjk5OTk5OTQwLCJleHAiOjE3MDAwMDA1NDB9")).

Lemma jwt_tests : forallb id [sign_produces_three_dot_separated_segments; known_vector_signing_input] = true.
Proof. vm_compute. reflexivity. Qed.

(** ** [admin.rs] *)

Definition request_round_trips : bool :=
  let r := Req_Enroll Github (MkIdentity (B "vm-1")) (MkPsk (rep 32 xaa)) None in
  passes (from_json Request_de (json_compact (Request_ser r))) (λ back,
    match back with
    | Req_Enroll provider client _ _ => bool_decide (provider = Github) && same (as_str client) (B "vm-1")
    | _ => false
    end).

Definition status_request_serializes_to_op_field : bool :=
  contains (J "'op':'status'") (json_compact (Request_ser Req_Status)).

Definition error_response_serializes_with_ok_false : bool :=
  same (json_compact (ErrorResponse_ser (MkErrorResponse (B "nope")))) (J "{'ok':false,'error':'nope'}").

(** [v[k] == json!(x)], by its text *)
Definition member_is (v : Value) (k : string) (text : string) : bool :=
  match v with
  | V_Obj ms => passes (find_member (B k) ms) (λ o, match o with Some x => same (json_compact x) (J text) | None => false end)
  | _ => false
  end.

Definition ok_envelope_flattens_payload : bool :=
  let v := @OkEnvelope_ser (@Response_fields demo_rfc3339 (Ans_Status (MkStatusResponse 3 [Github] 0))) in
  member_is v "ok" "true" && member_is v "uptime_sec" "3" && member_is v "providers" "['github']" && member_is v "client_count" "0".

Definition ok_envelope_with_ack_yields_bare_ok : bool :=
  same (json_compact (OkEnvelope_ser (@Response_fields demo_rfc3339 Ans_Ack))) (J "{'ok':true}").

Lemma admin_tests :
  forallb id [request_round_trips; status_request_serializes_to_op_field; error_response_serializes_with_ok_false;
    ok_envelope_flattens_payload; ok_envelope_with_ack_yields_bare_ok] = true.
Proof. vm_compute. reflexivity. Qed.

(** ** Instants in UTC *)

Definition days_from_civil (y m d : Z) : Z :=
  let y := if m <=? 2 then y - 1 else y in
  let era := y / 400 in
  let yoe := y - era * 400 in
  let doy := (153 * ((m + 9) mod 12) + 2) / 5 + d - 1 in
  era * 146097 + yoe * 365 + yoe / 4 - yoe / 100 + doy - 719468.

Definition number (lo hi : Z) (l : bytes) : option Z :=
  if forallb is_digit l then let n := dec_value l in if (lo <=? n) && (n <=? hi) then Some n else None else None.

(** [YYYY-MM-DDThh:mm:ssZ], in seconds *)
Definition utc_seconds (t : bytes) : option Z :=
  let part i n := take n (drop i t) in
  if bool_decide (length t = 20%nat) && same (part 4%nat 1%nat) (B "-") && same (part 7%nat 1%nat) (B "-") && same (part 10%nat 1%nat) (B "T") &&
     same (part 13%nat 1%nat) (B ":") && same (part 16%nat 1%nat) (B ":") && same (part 19%nat 1%nat) (B "Z")
  then y ← number 0 9999 (part 0 4)%nat; mo ← number 1 12 (part 5 2)%nat; d ← number 1 31 (part 8 2)%nat;
       h ← number 0 23 (part 11 2)%nat; mi ← number 0 59 (part 14 2)%nat; s ← number 0 59 (part 17 2)%nat;
       Some (((days_from_civil y mo d * 24 + h) * 60 + mi) * 60 + s)
  else None.

(** ** [config.rs]: [clients.json] *)

Definition utc : Rfc3339 := {| rfc3339_format _ := []; rfc3339_parse t := from_secs <$> utc_seconds t |}.
Definition ClientsFile_from_str (t : bytes) : result JsonFault ClientsFile := from_json (de (@file_codec utc)) t.

Definition clients_empty_array_parses : bool :=
  passes (ClientsFile_from_str (J "{'clients':[]}")) (λ f, bool_decide (length (cf_clients f) = 0%nat)).

Definition clients_one_entry_parses : bool :=
  passes (ClientsFile_from_str (J "{
  'clients': [
    {
      'name': 'dev-vm-1',
      'providers': ['github'],
      'enrolled_at': '2026-05-26T12:34:56Z',
      'note': null
    }
  ]
}")) (λ f, match cf_clients f with
    | [c] => same (ce_name c) (B "dev-vm-1") && bool_decide (ce_providers c = [Github]) &&
             bool_decide (ce_enrolled_at c = from_secs 1779798896) && bool_decide (ce_note c = None)
    | _ => false
    end).

Definition clients_unknown_field_on_entry_rejected : bool :=
  negb (is_ok (ClientsFile_from_str (J "{
  'clients': [
    {
      'name': 'x',
      'providers': [],
      'enrolled_at': '2026-01-01T00:00:00Z',
      'note': null,
      'extra': 'nope'
    }
  ]
}"))).

Definition clients_ip_field_rejected_as_unknown : bool :=
  negb (is_ok (ClientsFile_from_str (J "{
  'clients': [
    {
      'name': 'x',
      'ip': '10.0.0.1',
      'providers': [],
      'enrolled_at': '2026-01-01T00:00:00Z',
      'note': null
    }
  ]
}"))).

Definition clients_unknown_top_level_field_rejected : bool :=
  negb (is_ok (ClientsFile_from_str (J "{'version':1,'clients':[]}"))).

Lemma clients_tests :
  forallb id [clients_empty_array_parses; clients_one_entry_parses; clients_unknown_field_on_entry_rejected;
    clients_ip_field_rejected_as_unknown; clients_unknown_top_level_field_rejected] = true.
Proof. vm_compute. reflexivity. Qed.

(** ** [providers/github.rs]: mint responses *)

Definition utc_github : GithubEnv :=
  let env := github_serde github_model in {|
    HttpError := @HttpError env; ge_sign := @ge_sign env; ge_fate := @ge_fate env; ge_out_req_id := @ge_out_req_id env;
    ge_clock := @ge_clock env; url_error := @url_error env; header_error := @header_error env; url_host := @url_host env;
    client_build := @client_build env; header_to_str := @header_to_str env; envelope_of_json := @envelope_of_json env;
    app_of_json := @app_of_json env; repo_of_json := @repo_of_json env; mint_of_json := @mint_of_json env;
    rfc3339_unix := utc_seconds; rfc2822_unix := @rfc2822_unix env |}.
#[local] Instance test_github : GithubEnv := utc_github.

(** [GithubError::ParseResponse { context: "mint", detail }] *)
Definition mint_fails (body : bytes) (detail : bytes) : bool :=
  fails (parse_mint_response body) (λ e, match e with G_ParseResponse c d => same c (B "mint") && same d detail | _ => false end).

Definition parse_mint_response_ok : bool :=
  passes (parse_mint_response (J "{'token':'ghs_x','expires_at':'2026-05-31T13:00:00Z','extra':'ignored'}"))
    (λ '(tok, exp), same tok (B "ghs_x") && (as_secs exp =? 1780232400)).

Definition parse_mint_response_bad_expires_at : bool :=
  mint_fails (J "{'token':'ghs_x','expires_at':'not-a-date'}") (B "bad expires_at").

Definition parse_mint_response_missing_token : bool := mint_fails (J "{'expires_at':'2026-05-31T13:00:00Z'}") (B "json").

Definition parse_mint_response_bad_json : bool := mint_fails (B "not json at all") (B "json").

(** The error carries two fixed strings: nothing of the body is left to print. *)
Definition json_parse_error_does_not_leak_response_bytes : bool :=
  let token_like := B "ghs_secretSECRETsecret1234567890" in
  fails (parse_mint_response (J "{'token':'" ++ token_like ++ J "', broken json"))
    (λ e, match e with G_ParseResponse c d => negb (contains token_like c) && negb (contains token_like d) | _ => false end).

Lemma github_mint_tests :
  forallb id [parse_mint_response_ok; parse_mint_response_bad_expires_at; parse_mint_response_missing_token;
    parse_mint_response_bad_json; json_parse_error_does_not_leak_response_bytes] = true.
Proof. vm_compute. reflexivity. Qed.
