(* ===== verification/TestsConfig.v ===== *)
(** * The unit tests of [config.toml]

    The [#[test]] functions of [config.rs] on configurations, evaluated over
    [ConfigWire.v].  The TOML syntax is a concrete reader of what the fixtures
    use: tables, basic strings without escapes, decimal and hexadecimal
    integers, booleans and arrays on one line. *)

From S2P Require Import Prelude AtomicFs Config Json Serde ConfigWire AdminWire TestsText.

(** ** A reader of simple TOML documents *)

Definition trim (l : bytes) : bytes := trim_end_matches is_ws (skip_ws l).

Definition hex_digits (l : bytes) : option Z :=
  if decide (l = []) then None else foldl (λ acc b, a ← acc; d ← hex_val b; Some (a * 16 + d)) (Some 0) l.

Definition toml_scalar (l : bytes) : option Value :=
  match l with
  | x22 :: t => s ← strip_suffix [x22] t; if bool_decide (x22 ∈ s) || bool_decide (x5c ∈ s) then None else Some (V_Str s)
  | x30 :: x78 :: t => V_Int <$> hex_digits t
  | _ => if same l (B "true") then Some (V_Bool true) else if same l (B "false") then Some (V_Bool false)
         else if forallb is_digit l && negb (bool_decide (l = [])) then Some (V_Int (dec_value l)) else None
  end.

Definition toml_value (l : bytes) : option Value :=
  match l with
  | x5b :: t =>
      body ← strip_suffix [x5d] t;
      if decide (trim body = []) then Some (V_Arr [])
      else V_Arr <$> mapM (λ e, toml_scalar (trim e)) (split_on x2c body)
  | _ => toml_scalar l
  end.

(** Put a member at a path of tables, making the tables that are missing; a
    member that is there already is an error. *)
Fixpoint put (path : list bytes) (k : bytes) (v : Value) (ms : list (bytes * Value)) : option (list (bytes * Value)) :=
  match path with
  | [] => if bool_decide (k ∈ fst <$> ms) then None else Some (ms ++ [(k, v)])
  | p :: path =>
      match filter (λ kv, fst kv = p) ms with
      | [] => sub ← put path k v []; Some (ms ++ [(p, V_Obj sub)])
      | [(_, V_Obj sub)] =>
          sub ← put path k v sub;
          Some ((λ kv, if decide (fst kv = p) then (p, V_Obj sub) else kv) <$> ms)
      | _ => None
      end
  end.

Fixpoint toml_lines (table : list bytes) (ls : list bytes) (ms : list (bytes * Value)) : option (list (bytes * Value)) :=
  match ls with
  | [] => Some ms
  | l :: ls =>
      match trim l with
      | [] => toml_lines table ls ms
      | x5b :: t =>
          name ← strip_suffix [x5d] t;
          let path := split_on x2e name in
          (* the table exists from here on, empty or not *)
          match reverse path with
          | [] => None
          | k :: up => ms ← put (reverse up) k (V_Obj []) ms; toml_lines path ls ms
          end
      | l => '(k, v) ← split_once x3d l; v ← toml_value (trim v); ms ← put table (trim k) v ms; toml_lines table ls ms
      end
  end.

Definition toml_read (text : bytes) : option Value := V_Obj <$> toml_lines [] (lines text) [].

(** [0.0.0.0:9418] and the like: digits and dots, a port; whole seconds. *)
#[local] Instance test_text : ConfigText := {|
  socket_addr s := match split_once x3a s with Some (a, p) => (len (split_on x2e a) =? 4) && forallb is_digit p | None => false end;
  humantime s := n ← strip_suffix (B "s") s; if forallb is_digit n then Some (from_secs (dec_value n)) else None;
|}.

Definition from_toml {A} (d : Value → result JsonFault A) (text : bytes) : result JsonFault A :=
  v ← ok_or Json_Syntax (toml_read text); d v.
(** [toml::from_str::<Config>] *)
Definition config_of (text : bytes) : result JsonFault Config := from_toml Config_de text.

(** [Config::parse], with the mismatch [validate_backend] reports. *)
#[local] Instance test_formats : FileFormats := @formats_toml test_text demo_rfc3339 toml_read.
Definition mismatch (text : bytes) (want : BackendMismatch → bool) : bool :=
  fails (Config_parse text) (λ e, match e with Parse_Backend m => want m | _ => false end).

(** [str::replace] of the first occurrence. *)
Fixpoint replace (a b : bytes) (l : bytes) : bytes :=
  if same (take (length a) l) a then b ++ drop (length a) l
  else match l with [] => [] | c :: l => c :: replace a b l end.

Definition KNOWN_GOOD_CONFIG : bytes := J "
[listen]
bind = '0.0.0.0:9418'
psk_file = '/var/lib/symbolon/psks'
static_key_file = '/etc/symbolon/broker.key'

[admin]
socket_path = '/run/symbolon/admin.sock'

[clients]
file = '/var/lib/symbolon/clients.json'

[logging]
level = 'info'

[provider.github]
host = 'github.com'
api_base = 'https://api.github.com'
client_id = 'Iv23liABCDEFGHIJklmn'
installation_id = 789012
app_key_backend = 'file'
private_key_path = '/etc/symbolon/github-app.pem'
selfcheck_timeout = '5s'
".
Definition KNOWN_GOOD_TPM_CONFIG : bytes := J "
[listen]
bind = '0.0.0.0:9418'
psk_file = '/var/lib/symbolon/psks'
static_key_file = '/etc/symbolon/broker.key'

[admin]
socket_path = '/run/symbolon/admin.sock'

[clients]
file = '/var/lib/symbolon/clients.json'

[logging]
level = 'info'

[provider.github]
host = 'github.com'
api_base = 'https://api.github.com'
client_id = 'Iv23liABCDEFGHIJklmn'
installation_id = 789012
app_key_backend = 'tpm'
selfcheck_timeout = '5s'

[provider.github.tpm]
persistent_handle = 0x81010001
".

(** ** The tests *)

Definition path_is (p : Path) (s : string) : bool := bool_decide ((parent p, file_name p) = (parent (path_of (B s)), file_name (path_of (B s)))).

Definition config_known_good_round_trips : bool :=
  passes (config_of KNOWN_GOOD_CONFIG) (λ cfg,
    same (bind (cfg_listen cfg)) (B "0.0.0.0:9418") &&
    path_is (psk_file (cfg_listen cfg)) "/var/lib/symbolon/psks" &&
    path_is (static_key_file (cfg_listen cfg)) "/etc/symbolon/broker.key" &&
    path_is (socket_path (cfg_admin cfg)) "/run/symbolon/admin.sock" &&
    path_is (clients_path (cfg_clients cfg)) "/var/lib/symbolon/clients.json" &&
    match level (cfg_logging cfg) with Info => true | _ => false end &&
    match cfg_github cfg with
    | Some gh =>
        same (gh_host gh) (B "github.com") && same (api_base gh) (B "https://api.github.com") &&
        same (client_id gh) (B "Iv23liABCDEFGHIJklmn") && (installation_id gh =? 789012) &&
        match app_key_backend gh with File => true | Tpm => false end &&
        bool_decide (private_key_path gh = Some (B "/etc/symbolon/github-app.pem"))
    | None => false
    end).

Definition config_tpm_backend_parses_persistent_handle : bool :=
  passes (Config_parse KNOWN_GOOD_TPM_CONFIG) (λ cfg,
    match cfg_github cfg with
    | Some gh =>
        match app_key_backend gh with Tpm => true | File => false end && bool_decide (private_key_path gh = None) &&
        match tpm gh with Some t => same (device t) (B "/dev/tpmrm0") && (persistent_handle t =? 0x81010001) | None => false end
    | None => false
    end).

Definition tpm_section : bytes := J "
[provider.github.tpm]
persistent_handle = 0x81010001
".

Definition config_tpm_backend_requires_tpm_section : bool :=
  mismatch (replace tpm_section [x0a] KNOWN_GOOD_TPM_CONFIG) (λ m, match m with TpmSectionMissing => true | _ => false end).

Definition config_tpm_backend_rejects_private_key_path : bool :=
  mismatch (replace (J "app_key_backend = 'tpm'") (J "app_key_backend = 'tpm'
private_key_path = '/etc/symbolon/github-app.pem'") KNOWN_GOOD_TPM_CONFIG)
    (λ m, match m with PrivateKeyPathUnused => true | _ => false end).

Definition config_file_backend_requires_private_key_path : bool :=
  mismatch (replace (J "private_key_path = '/etc/symbolon/github-app.pem'
") [] KNOWN_GOOD_CONFIG) (λ m, match m with PrivateKeyPathMissing => true | _ => false end).

Definition config_file_backend_rejects_tpm_section : bool :=
  mismatch (KNOWN_GOOD_CONFIG ++ tpm_section) (λ m, match m with TpmSectionUnused => true | _ => false end).

Definition config_rejects_missing_app_key_backend : bool :=
  negb (is_ok (Config_parse (replace (J "app_key_backend = 'file'
") [] KNOWN_GOOD_CONFIG))).

(** Syntax is fine, the tree is refused. *)
Definition refused (text : bytes) : bool := fails (config_of text) (λ e, match e with Json_Data => true | Json_Syntax => false end).

Definition config_rejects_unknown_top_level_key : bool := refused (J "rogue = true
" ++ KNOWN_GOOD_CONFIG).

Definition config_rejects_unknown_field_in_listen : bool :=
  refused (replace (J "[listen]
bind = '0.0.0.0:9418'") (J "[listen]
bind = '0.0.0.0:9418'
port = 1234") KNOWN_GOOD_CONFIG).

Definition config_rejects_unknown_field_in_provider_github : bool := refused (KNOWN_GOOD_CONFIG ++ J "rogue_field = 'x'
").

Definition config_rejects_missing_installation_id : bool :=
  refused (replace (J "installation_id = 789012
") [] KNOWN_GOOD_CONFIG).

Definition config_rejects_missing_client_id : bool :=
  refused (replace (J "client_id = 'Iv23liABCDEFGHIJklmn'
") [] KNOWN_GOOD_CONFIG).

Definition config_rejects_missing_static_key_file : bool :=
  refused (replace (J "static_key_file = '/etc/symbolon/broker.key'
") [] KNOWN_GOOD_CONFIG).

Definition log_level_warn_accepted : bool :=
  passes (from_toml LoggingConfig_de (J "level = 'warn'")) (λ cfg, match level cfg with Warn => true | _ => false end).

Definition log_level_fatal_rejected : bool := negb (is_ok (from_toml LoggingConfig_de (J "level = 'fatal'"))).

Definition sandbox_is (text : bytes) (want : SandboxMode → bool) : bool :=
  passes (config_of text) (λ cfg, want (sandbox (cfg_security cfg))).

Definition security_section_absent_defaults_to_best_effort : bool :=
  passes (config_of KNOWN_GOOD_CONFIG) (λ cfg,
    match sandbox (cfg_security cfg) with Sandbox_BestEffort => true | _ => false end && bool_decide (extra_read_dirs (cfg_security cfg) = [])).

Definition security_required_parses : bool :=
  sandbox_is (KNOWN_GOOD_CONFIG ++ J "
[security]
sandbox = 'required'
") (λ m, match m with Sandbox_Required => true | _ => false end).

Definition security_off_parses : bool :=
  sandbox_is (KNOWN_GOOD_CONFIG ++ J "
[security]
sandbox = 'off'
") (λ m, match m with Sandbox_Off => true | _ => false end).

Definition security_best_effort_parses_explicitly : bool :=
  sandbox_is (KNOWN_GOOD_CONFIG ++ J "
[security]
sandbox = 'best_effort'
") (λ m, match m with Sandbox_BestEffort => true | _ => false end).

Definition security_invalid_value_rejected : bool := refused (KNOWN_GOOD_CONFIG ++ J "
[security]
sandbox = 'strict'
").

Definition security_extra_read_dirs_parses : bool :=
  passes (config_of (KNOWN_GOOD_CONFIG ++ J "
[security]
sandbox = 'best_effort'
extra_read_dirs = ['/etc/pki/tls/certs']
")) (λ cfg, bool_decide (extra_read_dirs (cfg_security cfg) = [B "/etc/pki/tls/certs"])).

Definition security_unknown_field_rejected : bool := refused (KNOWN_GOOD_CONFIG ++ J "
[security]
sandbox = 'off'
rogue = true
").

Lemma config_tests :
  forallb id [config_known_good_round_trips; config_tpm_backend_parses_persistent_handle; config_tpm_backend_requires_tpm_section;
    config_tpm_backend_rejects_private_key_path; config_file_backend_requires_private_key_path;
    config_file_backend_rejects_tpm_section; config_rejects_missing_app_key_backend; config_rejects_unknown_top_level_key;
    config_rejects_unknown_field_in_listen; config_rejects_unknown_field_in_provider_github;
    config_rejects_missing_installation_id; config_rejects_missing_client_id; config_rejects_missing_static_key_file;
    log_level_warn_accepted; log_level_fatal_rejected; security_section_absent_defaults_to_best_effort;
    security_required_parses; security_off_parses; security_best_effort_parses_explicitly; security_invalid_value_rejected;
    security_extra_read_dirs_parses; security_unknown_field_rejected] = true.
Proof. vm_compute. reflexivity. Qed.
