(* ===== verification/TestsServer.v ===== *)
(** * The integration tests

    The tests of [tests/github_provider.rs], [tests/daemon.rs], [tests/admin.rs]
    and [tests/client_binary.rs], evaluated over the definitions of this
    development: a mock of GitHub answers the requests of the provider, the
    helper's session machine talks to [handle_connection], and admin requests are
    lines of JSON.  JSON texts and instants in UTC are those of the wire formats;
    the Noise library is [noise_model]. *)

From S2P Require Import Prelude Identity Psk GitCredential Config Signing Github Json Serde Admin AdminWire GithubWire Transport Events Connection Broker State Client RateLimit AtomicFs TestsText TestsTransport TestsWire.

(** ** A mock of GitHub

    A server answers a request given those that came before it.  The provider's
    environment lists the fates of its calls; [answered] computes that list from
    the server, one call at a time: the call that has no answer yet is cut off
    after its request is out, which shows the request. *)

Abbreviation Reply := (HttpResponse ()).
Definition Server := list HttpRequest → HttpRequest → Reply.

Definition reply_with (status : Z) (headers : list (bytes * bytes)) (body : bytes) : Reply :=
  MkHttpResponse () status (λ name, snd <$> (snd <$> list_find (λ h, h.1 = name) headers)) (Ok body).
Definition reply (status : Z) (body : bytes) : Reply := reply_with status [] body.

(** [Mock::given(..).respond_with(..).mount(..)]: mounted mocks in order; a
    request that none matches is not found. *)
Definition Mock : Type := (HttpRequest → bool) * Reply.
Fixpoint mocked (ms : list Mock) (r : HttpRequest) : Reply :=
  match ms with
  | [] => reply 404 []
  | (matches, a) :: ms => if matches r then a else mocked ms r
  end.
Definition mounted (ms : list Mock) : Server := λ _ r, mocked ms r.

Definition test_env (clock : Z) (fates : list (CallFate ())) : GithubEnv :=
  let env := utc_github in {|
    HttpError := (); ge_sign n c := Ok (B "jwt"); ge_fate n := default (Fate_cancelled true) (fates !! n);
    ge_out_req_id n := show_u64 (Z.of_nat n); ge_clock _ := clock; url_error _ := None; header_error _ := None;
    url_host u := Some u; client_build := Ok (); header_to_str v := Some v; envelope_of_json _ := None;
    app_of_json := @app_of_json env; repo_of_json := @repo_of_json env; mint_of_json := @mint_of_json env;
    rfc3339_unix := utc_seconds; rfc2822_unix _ := None |}.

(** ** The fixtures of [tests/common/mod.rs] *)

Definition CLIENT_ID : bytes := B "Iv1.test12345".
Definition OWNER : bytes := B "octocat".
Definition REPO : bytes := B "Hello-World".
Definition TOKEN : bytes := B "ghs_xxxxxxxxxxxxxxxxxxxx".
Definition METADATA_TOKEN : bytes := B "ghs_metadata_only_xxxxxxxx".
Definition repo_slug : bytes := OWNER ++ B "/" ++ REPO.

Definition api_base : bytes := B "http://127.0.0.1:8080".
Definition build_provider : GitHubProvider :=
  MkGitHubProvider (B "github.com") api_base CLIENT_ID 789 (B "symbolon") (from_secs 5) (from_secs 10) (B "127.0.0.1").

(** [SystemTime::now] of a day after [EXPIRES_AT], and [past_clock]. *)
Definition now_clock : Z := from_secs 1790000000.
Definition past_clock : Z := from_secs 1000000000.

Definition is_method (m : Method) (r : HttpRequest) : bool :=
  match m, rq_method r with GET, GET | POST, POST | DELETE, DELETE => true | _, _ => false end.
Definition is_route (m : Method) (route : bytes) (r : HttpRequest) : bool := is_method m r && same (rq_url r) (api_base ++ route).
Definition repo_path : bytes := B "/repos/octocat/Hello-World".
Definition mint_path : bytes := B "/app/installations/789/access_tokens".

Definition canonical_mint_body : bytes := J "{'repository_ids':[42],'permissions':{'contents':'write','metadata':'read'}}".
Definition canonical_metadata_token_body : bytes := J "{'permissions':{'metadata':'read'}}".

Definition token_body (token : bytes) : bytes := J "{'token':'" ++ token ++ J "','expires_at':'2026-05-31T13:00:00Z'}".

Definition is_repo : HttpRequest → bool := is_route GET repo_path.
Definition is_post : HttpRequest → bool := is_route POST mint_path.
Definition is_metadata (r : HttpRequest) : bool := is_post r && same (rq_body r) canonical_metadata_token_body.
Definition is_narrow (r : HttpRequest) : bool := is_post r && same (rq_body r) canonical_mint_body.
Definition is_revoke : HttpRequest → bool := is_route DELETE (B "/installation/token").

Definition mount_repo_ok : Mock := (is_repo, reply 200 (J "{'id':42}")).
Definition mount_mint_ok : Mock := (is_post, reply 201 (token_body TOKEN)).
Definition mount_metadata_token_ok : Mock := (is_metadata, reply 201 (token_body METADATA_TOKEN)).
Definition mount_narrow_ok : Mock := (is_narrow, reply 201 (token_body TOKEN)).

(** ** Playing a test: some mints, one after the other *)

Abbreviation Minted := (outcome (result (GithubError ()) MintOutcome)).

Fixpoint mints (env : GithubEnv) (paths : list bytes) (s : GState) : GState * list (outcome (result (GithubError (@HttpError env)) MintOutcome)) :=
  match paths with
  | [] => (s, [])
  | path :: paths =>
      let '(s, o) := @mint env build_provider path s in
      let '(s, os) := mints env paths s in (s, o :: os)
  end.

Definition play (clock : Z) (fates : list (CallFate ())) (n : nat) : GState * list Minted :=
  mints (test_env clock fates) (replicate n repo_slug) gs_new.

Definition sent_requests (s : GState) : list HttpRequest := omap cr_sent (gs_calls s).

Fixpoint answered_from (fuel : nat) (clock : Z) (server : Server) (n : nat) (fates : list (CallFate ())) : list (CallFate ()) :=
  match fuel with
  | O => fates
  | S fuel =>
      let seen := sent_requests (play clock fates n).1 in
      match seen !! length fates with
      | None => fates
      | Some r => answered_from fuel clock server n (fates ++ [Fate_response (server (take (length fates) seen) r)])
      end
  end.
(** Three mints of one repository make at most twelve calls. *)
Definition answered : Z → Server → nat → list (CallFate ()) := λ clock server n, answered_from 12 clock server n [].

(** [n] mints against [server]: the requests it got and how the mints ended. *)
Definition against (clock : Z) (server : Server) (n : nat) : list HttpRequest * list Minted :=
  let '(s, os) := play clock (answered clock server n) n in (sent_requests s, os).

Definition count (p : HttpRequest → bool) (rs : list HttpRequest) : nat := length (filter (λ r, p r = true) rs).
Definition minted_with (f : MintOutcome → bool) (o : Minted) : bool := match o with Ret (Ok out) => f out | _ => false end.
Definition failed_with (f : GithubError () → bool) (o : Minted) : bool := match o with Ret (Err e) => f e | _ => false end.
Definition one (f : Minted → bool) (os : list Minted) : bool := match os with [o] => f o | _ => false end.

(** ** [tests/github_provider.rs] *)

Definition mint_happy_path : bool :=
  let '(_, os) := against now_clock (mounted [mount_repo_ok; mount_mint_ok]) 1 in
  one (minted_with (λ out, same (username (mo_response out)) (B "x-access-token") && same (password (mo_response out)) TOKEN &&
    (as_secs (password_expiry_utc (mo_response out)) =? 1780232400))) os.

Definition repo_id_cached_at (clock : Z) : bool :=
  let '(rs, os) := against clock (mounted [mount_repo_ok; mount_metadata_token_ok; mount_narrow_ok]) 2 in
  forallb (minted_with (λ _, true)) os && (length os =? 2)%nat &&
  (count is_repo rs =? 1)%nat && (count is_metadata rs =? 1)%nat && (count is_narrow rs =? 2)%nat.

Definition mint_uses_cached_repo_id : bool := repo_id_cached_at now_clock.

(** The test reads the real clock.  Before the token's expiry the second mint is
    answered from the token cache, and the counts it expects are not met. *)
Lemma repo_id_test_depends_on_date : repo_id_cached_at past_clock = false.
Proof. vm_compute. reflexivity. Qed.

Definition mint_uses_cached_token : bool :=
  let '(rs, os) := against past_clock (mounted [mount_metadata_token_ok; mount_repo_ok; mount_narrow_ok]) 2 in
  forallb (minted_with (λ out, same (password (mo_response out)) TOKEN)) os && (length os =? 2)%nat &&
  (count is_metadata rs =? 1)%nat && (count is_repo rs =? 1)%nat && (count is_narrow rs =? 1)%nat.

Definition has_header (name : bytes) (value : option bytes) (r : HttpRequest) : bool :=
  existsb (λ h, same h.1 name && match value with Some v => same h.2 v | None => true end) (rq_headers r).

Definition mint_request_headers_and_body_exact : bool :=
  let exact r := is_narrow r && has_header (B "accept") (Some (B "application/vnd.github+json")) r &&
    has_header (B "x-github-api-version") (Some (B "2026-03-10")) r && has_header (B "user-agent") (Some (B "symbolon")) r &&
    has_header (B "content-type") (Some (B "application/json")) r && has_header (B "x-request-id") None r &&
    has_header (B "request-timeout") (Some (B "10")) r in
  let '(rs, os) := against now_clock (mounted [mount_metadata_token_ok; mount_repo_ok; (exact, reply 201 (token_body TOKEN))]) 1 in
  one (minted_with (λ _, true)) os && (count exact rs =? 1)%nat.

Definition mint_surfaces_github_request_id : bool :=
  let mint_ok := (is_post, reply_with 201 [(B "x-github-request-id", B "ABC:DEF:1234")] (token_body TOKEN)) in
  let '(_, os) := against now_clock (mounted [mount_repo_ok; mint_ok]) 1 in
  one (minted_with (λ out, bool_decide (mo_provider_req_id out = Some (B "ABC:DEF:1234")) && negb (same (mo_out_req_id out) []))) os.

Definition resolve_returns_404 : bool :=
  let '(_, os) := against now_clock (mounted [mount_metadata_token_ok; (is_repo, reply 404 [])]) 1 in
  one (failed_with (λ e, match e with G_RepoNotFound => true | _ => false end)) os.

Definition mint_status (status : Z) (f : GithubError () → bool) : bool :=
  let '(_, os) := against now_clock (mounted [mount_repo_ok; (is_post, reply status [])]) 1 in one (failed_with f) os.

Definition mint_returns_401 : bool := mint_status 401 (λ e, match e with G_Unauthorized _ => true | _ => false end).
Definition mint_returns_403 : bool := mint_status 403 (λ e, match e with G_Forbidden _ => true | _ => false end).
Definition mint_returns_429 : bool := mint_status 429 (λ e, match e with G_RateLimited None => true | _ => false end).
Definition mint_returns_500 : bool := mint_status 500 (λ e, match e with G_OtherStatus 500 => true | _ => false end).

Definition mint_returns_429_with_retry_after : bool :=
  let limited := (is_post, reply_with 429 [(B "retry-after", B "42")] []) in
  let '(_, os) := against now_clock (mounted [mount_metadata_token_ok; mount_repo_ok; limited]) 1 in
  one (failed_with (λ e, match e with G_RateLimited (Some d) => d =? from_secs 42 | _ => false end)) os.

Definition mint_calls_revoke_after_resolve : bool :=
  let '(rs, os) := against now_clock (mounted [mount_metadata_token_ok; mount_repo_ok; mount_mint_ok; (is_revoke, reply 204 [])]) 1 in
  one (minted_with (λ _, true)) os && (count is_revoke rs =? 1)%nat.

(** The narrow mint succeeds, is not found, succeeds. *)
Definition three_phases : Server := λ before r,
  if is_narrow r && (count is_narrow before =? 1)%nat then reply 404 []
  else mocked [mount_repo_ok; mount_metadata_token_ok; mount_narrow_ok] r.

Definition mint_invalidates_on_404 : bool :=
  let '(rs, os) := against now_clock three_phases 3 in
  match os with
  | [o1; o2; o3] => minted_with (λ _, true) o1 && failed_with (λ e, match e with G_RepoNotFound => true | _ => false end) o2 &&
      minted_with (λ _, true) o3
  | _ => false
  end && (count is_repo rs =? 2)%nat && (count is_metadata rs =? 2)%nat && (count is_narrow rs =? 3)%nat.

Lemma github_provider_tests :
  forallb id [mint_happy_path; mint_uses_cached_repo_id; mint_uses_cached_token; mint_request_headers_and_body_exact;
    mint_surfaces_github_request_id; resolve_returns_404; mint_returns_401; mint_returns_403; mint_returns_429;
    mint_returns_429_with_retry_after; mint_calls_revoke_after_resolve; mint_returns_500; mint_invalidates_on_404] = true.
Proof. vm_compute. reflexivity. Qed.

(** ** A daemon on its files *)

(** RFC 3339 as the daemon writes it. *)
Definition two_digits (n : Z) : bytes := (if n <? 10 then B "0" else []) ++ show_u64 n.
Definition utc_text (t : Z) : bytes :=
  let secs := as_secs t in
  let z := secs / 86400 + 719468 in
  let s := secs mod 86400 in
  let doe := z mod 146097 in
  let yoe := (doe - doe / 1460 + doe / 36524 - doe / 146096) / 365 in
  let doy := doe - (365 * yoe + yoe / 4 - yoe / 100) in
  let mp := (5 * doy + 2) / 153 in
  let m := if mp <? 10 then mp + 3 else mp - 9 in
  let y := yoe + z / 146097 * 400 + (if m <=? 2 then 1 else 0) in
  show_u64 y ++ B "-" ++ two_digits m ++ B "-" ++ two_digits (doy - (153 * mp + 2) / 5 + 1) ++ B "T" ++
  two_digits (s / 3600) ++ B ":" ++ two_digits (s / 60 mod 60) ++ B ":" ++ two_digits (s mod 60) ++ B "Z".

Definition utc_both : Rfc3339 := {| rfc3339_format := utc_text; rfc3339_parse t := from_secs <$> utc_seconds t |}.

#[local] Instance test_noise : Noise := noise_model.
#[local] Instance test_hex : HexCodec := hex_model.
#[local] Instance server_formats : FileFormats := @formats_serde utc_both () (λ _, Err ()).
#[local] Instance test_order : HashOrder := plain_order.
#[local] Instance test_json : AdminJson := @admin_serde utc_both (λ _, B "malformed").
#[local] Instance server_text : @LogText noise_model () := demo_text.

(** [write_clients_json] and [write_psks_file], on an empty disk. *)
Definition comma (ps : list bytes) : bytes := join_with x2c ps.
Definition write_clients_json (names : list bytes) : Fs :=
  {[ demo_kc := J "{'clients':[" ++ comma ((λ name, J "{'name':'" ++ name ++
      J "','providers':['github'],'enrolled_at':'2026-01-01T00:00:00Z','note':null}") <$> names) ++ B "]}" ]}.
Definition write_psks_file (ids : list (bytes * byte)) (fs : Fs) : Fs :=
  <[demo_kp := concat ((λ '(name, b), name ++ B ":" ++ hex_encode (rep 32 b) ++ [x0a]) <$> ids)]> fs.

Definition one_client (b : byte) : Fs := write_psks_file [(B "vm-1", b)] (write_clients_json [B "vm-1"]).

(** The tables a daemon starts with. *)
Definition tables_of (fs : Fs) : Mem := match acquire_tables demo_path demo_clients_path fs with Ok m => m | Err _ => demo_mem end.
Definition starts_from (fs : Fs) : bool := is_ok (acquire_tables demo_path demo_clients_path fs).

Abbreviation TestProvider := (@Provider () GState).
Definition provider_on (fates : list (CallFate ())) : TestProvider := @github_provider (test_env now_clock fates) build_provider.

(** ** [tests/daemon.rs] *)

(** A client and the daemon: the client goes as far as the bytes it has got
    allow, the daemon answers what it has been sent, and again. *)
Definition serve_frames (mem : Mem) (fates : list (CallFate ())) (sent : list bytes) : @Conn noise_model GState :=
  (handle_connection (MkConnEnv (B "127.0.0.1:4000") 2 test_broker_key mem (Ok (psk_of x55)) 0 0 now_clock [provider_on fates])
    (concat (segment <$> sent)) [] conn_bucket gs_new).1.

Definition client_session (name : bytes) (psk : Psk) (request inbox : bytes) : list bytes * option (result ClientError bytes) :=
  match Identity_parse name with
  | Err _ => ([], None)
  | Ok id =>
      match Initiator_new 1 id psk broker_pub request with
      | Err _ => ([], None)
      | Ok i => drive DRIVE_FUEL i (MkSocket inbox []) []
      end
  end.

Fixpoint converse (rounds : nat) (mem : Mem) (fates : list (CallFate ())) (name : bytes) (psk : Psk) (request inbox : bytes) :
    option (result ClientError bytes) :=
  let '(sent, r) := client_session name psk request inbox in
  match rounds with
  | O => r
  | S rounds => converse rounds mem fates name psk request (concat (c_out (serve_frames mem fates sent)))
  end.

(** [client_handshake_and_send], [client_handshake_and_read_eof] *)
Definition handshake_and_send (fs : Fs) (fates : list (CallFate ())) (name : bytes) (psk : byte) (request : bytes) : option bytes :=
  match converse 2 (tables_of fs) fates name (psk_of psk) request [] with Some (Ok resp) => Some resp | _ => None end.
Definition dead_session (name : bytes) (psk : byte) (request : bytes) : bool :=
  starts_from (one_client xab) && bool_decide (handshake_and_send (one_client xab) [] name psk request = None).

Definition request_lines (ls : list bytes) : bytes := unlines (ls ++ [[]]).
Definition happy_request : bytes := request_lines [B "protocol=https"; B "host=github.com"; B "path=" ++ repo_slug].
Definition foo_request (host : bytes) : bytes := request_lines [B "protocol=https"; B "host=" ++ host; B "path=foo/bar"].

Definition daemon_happy_path : bool :=
  let fates := answered now_clock (mounted [mount_repo_ok; mount_mint_ok]) 1 in
  match handshake_and_send (one_client xab) fates (B "vm-1") xab happy_request with
  | Some resp => contains (unlines [B "password=" ++ TOKEN]) resp && same (take 24 resp) (unlines [B "username=x-access-token"])
  | None => false
  end.

Definition daemon_rejects_unknown_identity : bool := dead_session (B "ghost-vm") xab (foo_request (B "github.com")).

(** What a probe sees: the length of message 2, and whether it decrypts. *)
Definition probe (name : bytes) (psk : byte) : Z * bool :=
  let '(sent, _) := client_session name (psk_of psk) [] [] in
  let out := c_out (serve_frames (tables_of (one_client xab)) [] sent) in
  let '(sent, _) := client_session name (psk_of psk) [] (concat out) in
  (len (concat out), (length sent =? 2)%nat).
Definition daemon_unknown_identity_indistinguishable_from_wrong_psk : bool :=
  let '(len_unknown, read_unknown) := probe (B "ghost-vm") xab in
  let '(len_wrong_psk, read_wrong_psk) := probe (B "vm-1") xcc in
  negb read_unknown && negb read_wrong_psk && (len_unknown =? len_wrong_psk) && (0 <? len_unknown) && (probe (B "vm-1") xab).2.

Definition daemon_rejects_wrong_psk : bool := dead_session (B "vm-1") xcc (foo_request (B "github.com")).
Definition daemon_rejects_unknown_host : bool := dead_session (B "vm-1") xab (foo_request (B "evil.example")).
Definition daemon_rejects_malformed_request : bool :=
  dead_session (B "vm-1") xab (request_lines [B "protocol=https"; B "host=github.com"]).
Definition daemon_rejects_cr_in_host_value : bool :=
  dead_session (B "vm-1") xab (request_lines [B "protocol=https"; B "host=github.com" ++ x0d :: B "malicious"; B "path=foo"]).

Lemma daemon_server_tests :
  forallb id [daemon_happy_path; daemon_rejects_unknown_identity; daemon_unknown_identity_indistinguishable_from_wrong_psk;
    daemon_rejects_wrong_psk; daemon_rejects_unknown_host; daemon_rejects_malformed_request; daemon_rejects_cr_in_host_value] = true.
Proof. vm_compute. reflexivity. Qed.

(** ** [tests/admin.rs]

    The modes of the files are not modelled. *)

Definition admin_test_env (fates : list (CallFate ())) : @AdminEnv () GState :=
  MkAdminEnv 60 now_clock (Run all_ok, Run all_ok) [(Config.Github, provider_on fates)] broker_pub.
Definition daemon_on (fs : Fs) : @AdminState GState := MkAdminState (tables_of fs) fs gs_new.

(** [admin_request]: one line in, one line out. *)
Definition admin_ask (fates : list (CallFate ())) (request : bytes) (s : @AdminState GState) : @AdminState GState * Value :=
  match handle_admin demo_path demo_clients_path None (admin_test_env fates) (segment (request ++ [x0a])) s with
  | Some run => (ar_state run, default V_Null (head (split_on x0a (ar_out run)) ≫= json_parse))
  | None => (s, V_Null)
  end.

Definition json_field (name : bytes) (v : Value) : Value :=
  match v with V_Obj ms => default V_Null (snd <$> (snd <$> list_find (λ m, m.1 = name) ms)) | _ => V_Null end.
Definition is_str (s : bytes) (v : Value) : bool := match v with V_Str t => same s t | _ => false end.
Definition is_int (n : Z) (v : Value) : bool := match v with V_Int m => n =? m | _ => false end.
Definition ok_is (b : bool) (v : Value) : bool := match json_field (B "ok") v with V_Bool c => Bool.eqb b c | _ => false end.
Definition arr_len (n : nat) (v : Value) : bool := match v with V_Arr vs => (length vs =? n)%nat | _ => false end.
Definition says (needle : bytes) (v : Value) : bool := match json_field (B "error") v with V_Str t => contains needle t | _ => false end.

Definition psk_file (s : @AdminState GState) : bytes := default [] (as_fs s !! demo_kp).
Definition clients_file (s : @AdminState GState) : bytes := default [] (as_fs s !! demo_kc).

Definition no_clients : @AdminState GState := daemon_on (write_clients_json []).
Definition ask_list (s : @AdminState GState) : Value := json_field (B "clients") (admin_ask [] (J "{'op':'list'}") s).2.
Definition ask_enroll (client : bytes) (s : @AdminState GState) : @AdminState GState * Value :=
  admin_ask [] (J "{'op':'enroll','provider':'github','client':'" ++ client ++ J "','note':null,'psk':[" ++
    comma (replicate 32 (B "205")) ++ B "]}") s.
Definition ask_revoke (client : bytes) (s : @AdminState GState) : @AdminState GState * Value :=
  admin_ask [] (J "{'op':'revoke','provider':'github','client':'" ++ client ++ J "'}") s.

Definition admin_status_reports_uptime_and_provider_count : bool :=
  let '(_, r) := admin_ask [] (J "{'op':'status'}") no_clients in
  ok_is true r && is_int 0 (json_field (B "client_count") r) &&
  match json_field (B "providers") r with V_Arr [v] => is_str (B "github") v | _ => false end.

Definition admin_pubkey_returns_broker_public_key : bool :=
  let '(_, r) := admin_ask [] (J "{'op':'pubkey'}") no_clients in
  ok_is true r && is_str (hex_encode (pub_bytes broker_pub)) (json_field (B "broker_public_key") r).

Definition admin_list_initially_empty : bool := arr_len 0 (ask_list no_clients).

Definition admin_enroll_persists_to_clients_json_and_psk_file : bool :=
  let '(s, r) := ask_enroll (B "vm-1") no_clients in
  ok_is true r && contains (B "vm-1:" ++ hex_encode (rep 32 xcd)) (psk_file s) &&
  contains (J "'name': 'vm-1'") (clients_file s) && negb (contains (J "'ip'") (clients_file s)) && arr_len 1 (ask_list s).

Definition admin_enroll_appends_without_clobbering_existing : bool :=
  let '(s, r) := ask_enroll (B "vm-1") (daemon_on (write_psks_file [(B "vm-0", x01)] (write_clients_json [B "vm-0"]))) in
  ok_is true r && contains (B "vm-0:0101") (psk_file s) && contains (B "vm-1:") (psk_file s).

Definition admin_enroll_rejects_duplicate_client_name : bool :=
  let '(_, r) := ask_enroll (B "vm-1") (daemon_on (one_client x02)) in ok_is false r && says (B "already enrolled") r.

Definition admin_enroll_rejects_bad_charset : bool := ok_is false (ask_enroll (B "name with space") no_clients).2.

Definition admin_revoke_removes_psk_entry_and_updates_clients : bool :=
  let '(s, enroll) := ask_enroll (B "vm-1") no_clients in
  let '(s, revoke) := ask_revoke (B "vm-1") s in
  ok_is true enroll && ok_is true revoke && negb (contains (B "vm-1:") (psk_file s)) && arr_len 0 (ask_list s).

Definition admin_revoke_unknown_client_returns_error : bool :=
  let '(_, r) := ask_revoke (B "ghost") no_clients in ok_is false r && says (B "no enrolled client") r.

Definition admin_mint_calls_provider_via_wiremock : bool :=
  let fates := answered now_clock (mounted [mount_repo_ok; mount_mint_ok]) 1 in
  let '(_, r) := admin_ask fates (J "{'op':'mint','provider':'github','client':'vm-1','path':'" ++ repo_slug ++ J "'}")
    (daemon_on (one_client x03)) in
  ok_is true r && is_str (B "x-access-token") (json_field (B "username") r) && is_str TOKEN (json_field (B "password") r).

Definition admin_selfcheck_against_wiremock : bool :=
  let app := Fate_response (reply 200 (J "{'id':12345,'client_id':'" ++ CLIENT_ID ++ J "'}")) in
  let '(_, r) := admin_ask [app] (J "{'op':'selfcheck','provider':'github'}") no_clients in
  ok_is true r && is_str CLIENT_ID (json_field (B "client_id") (json_field (B "details") r)).

Lemma admin_socket_tests :
  forallb id [admin_status_reports_uptime_and_provider_count; admin_pubkey_returns_broker_public_key; admin_list_initially_empty;
    admin_enroll_persists_to_clients_json_and_psk_file; admin_enroll_appends_without_clobbering_existing;
    admin_enroll_rejects_duplicate_client_name; admin_enroll_rejects_bad_charset;
    admin_revoke_removes_psk_entry_and_updates_clients; admin_revoke_unknown_client_returns_error;
    admin_mint_calls_provider_via_wiremock; admin_selfcheck_against_wiremock] = true.
Proof. vm_compute. reflexivity. Qed.

(** What an enrolment left on the disk starts the next daemon, which serves the
    client. *)
Definition enrolled_then_served : bool :=
  let '(s, _) := ask_enroll (B "vm-1") no_clients in
  let fates := answered now_clock (mounted [mount_repo_ok; mount_mint_ok]) 1 in
  match handshake_and_send (as_fs s) fates (B "vm-1") xcd happy_request with
  | Some resp => contains (unlines [B "password=" ++ TOKEN]) resp
  | None => false
  end.
Lemma enrolled_then_served_ok : enrolled_then_served = true.
Proof. vm_compute. reflexivity. Qed.

(** ** [tests/client_binary.rs] *)

Definition smoke_request : bytes := happy_request.
Definition smoke_response : bytes :=
  request_lines [B "protocol=https"; B "host=github.com"; B "username=x-access-token"; B "password=ghs_TOKEN"].
Definition key_file_contents : bytes := BrokerPublicKey_to_string broker_pub ++ B ":" ++ hex_encode (rep 32 xaa).

(** The responder thread of the test, given the bodies of the frames sent to it:
    the frames it writes, and whether its assertions hold. *)
Definition unframed (f : bytes) : bytes := drop 2 f.
Definition smoke_server (frames : list bytes) : result TransportError (list bytes * bool) :=
  match unframed <$> frames with
  | [] => Ok ([], true)
  | msg1 :: rest =>
      hs ← responder 2 test_broker_key;
      '(hs, payload) ← handshake_read hs msg1;
      let tlv_ok := passes (parse_identity_tlv payload) (λ '(id, consumed), same (as_str id) (B "smoke-vm") && (consumed =? len payload)) in
      hs ← raw_set_psk hs (psk_of xaa);
      '(hs, m2) ← handshake_write hs [];
      f2 ← frame m2;
      ts ← into_transport hs;
      match rest with
      | [] => Ok ([f2], tlv_ok)
      | ct :: _ =>
          '(ts, plain) ← transport_read ts ct;
          '(ts, c) ← transport_write ts smoke_response;
          f4 ← frame c;
          Ok ([f2; f4], tlv_ok && same plain smoke_request)
      end
  end.

Definition client_args (action : bytes) : Args := MkArgs (B "127.0.0.1:4000") (B "smoke-vm") (B "/tmp/client.key") action.
Definition client_env (inbox : bytes) : ClientEnv :=
  MkClientEnv (Ok key_file_contents) (Ok smoke_request) (Ok [Ok (MkSocket inbox [])]) (Ok ()) None 1.

Definition written (r : result TransportError (list bytes * bool)) : bytes := match r with Ok (fs, _) => concat fs | Err _ => [] end.
Definition sent_given (inbox : bytes) : list bytes := cr_sent_frames (client_run (client_args (B "get")) (client_env inbox)).

Definition client_binary_round_trips_request_through_noise : bool :=
  let inbox1 := written (smoke_server (sent_given [])) in
  let server := smoke_server (sent_given inbox1) in
  let '(code, stdout) := client_main (client_args (B "get")) (client_env (written server)) in
  passes server snd && bool_decide (code = Some 0) && same stdout smoke_response.

Definition store_and_erase_actions_exit_silently : bool :=
  let unreachable := MkClientEnv (Ok key_file_contents) (Ok []) (Ok [Err Io_Other]) (Ok ()) None 1 in
  forallb (λ action, bool_decide (client_main (client_args action) unreachable = (Some 0, []))) [B "store"; B "erase"].

Lemma client_binary_tests : forallb id [client_binary_round_trips_request_through_noise; store_and_erase_actions_exit_silently] = true.
Proof. vm_compute. reflexivity. Qed.
